(** * pi-squared: the gh-todo extension

    A shallow embedding of the pure core of [extensions/gh-todo]
    ([utils.ts], [pr.ts], the [pr] action of [tool.ts] and the parsing
    layer of [github.ts]) together with the properties its specification
    states about it.

    Conventions of the embedding.
    - A JavaScript string is the list of its code units.  The development
      covers the code units below 256 (type [ascii]); on this range
      [trim], [\s], [toLowerCase], [indexOf], [slice] and [startsWith]
      are the functions below.
    - A JavaScript number that holds an integer is a [Z].  The runtime
      holds every integer up to 2^53 and, beyond, the integers of 53
      significant bits ([heldExactly]); it prints them in decimal below
      10^21 and with an exponent from there on, and [parseInt] answers
      the number nearest to the digits it reads.
    - [indexOf] answers [-1] for "not found", as in the source. *)

From Stdlib Require Import Ascii String NArith ZArith QArith Lia Bool Arith List.
Import ListNotations.

Open Scope Z_scope.

(** ** The string primitives of the runtime *)

Module JS.

Definition jsstring := list ascii.

Definition str (s : string) : jsstring := list_ascii_of_string s.

(** [s.startsWith(w)] *)
Fixpoint startsWith (s w : jsstring) {struct w} : bool :=
  match w, s with
  | [], _ => true
  | _ :: _, [] => false
  | c :: w', d :: s' => Ascii.eqb c d && startsWith s' w'
  end.

(** [s.indexOf(w)], scanning from the left; [i] is the index of the head
    of [s] in the original string. *)
Fixpoint indexOfFrom (s w : jsstring) (i : Z) : Z :=
  if startsWith s w then i
  else match s with
       | [] => -1
       | _ :: s' => indexOfFrom s' w (i + 1)
       end.

Definition indexOf (s w : jsstring) : Z := indexOfFrom s w 0.

Definition len (s : jsstring) : Z := Z.of_nat (length s).

(** Relative index resolution of [slice]: a negative index counts from
    the end, and the result is clamped to [0 .. len]. *)
Definition clampIndex (n k : Z) : Z :=
  if k <? 0 then Z.max (n + k) 0 else Z.min k n.

(** [s.slice(a, b)] *)
Definition slice (s : jsstring) (a b : Z) : jsstring :=
  let from := clampIndex (len s) a in
  let to := clampIndex (len s) b in
  firstn (Z.to_nat (to - from)) (skipn (Z.to_nat from) s).

(** [s.slice(a)] *)
Definition sliceFrom (s : jsstring) (a : Z) : jsstring :=
  slice s a (len s).

(** White space and line terminators below 256: TAB, LF, VT, FF, CR,
    SP and NBSP.  This is the set removed by [trim] and matched by [\s]. *)
Definition isWhiteSpace (c : ascii) : bool :=
  match N_of_ascii c with
  | 9%N | 10%N | 11%N | 12%N | 13%N | 32%N | 160%N => true
  | _ => false
  end.

Fixpoint trimStart (s : jsstring) : jsstring :=
  match s with
  | [] => []
  | c :: s' => if isWhiteSpace c then trimStart s' else s
  end.

Definition trimEnd (s : jsstring) : jsstring := rev (trimStart (rev s)).

(** [s.trim()] *)
Definition trim (s : jsstring) : jsstring := trimEnd (trimStart s).

(** [toLowerCase] on one code unit below 256: A-Z, and the upper-case
    letters of the Latin-1 supplement (all of 192..222 but the
    multiplication sign 215), move up by 32. *)
Definition toLowerChar (c : ascii) : ascii :=
  let n := N_of_ascii c in
  if ((65 <=? n) && (n <=? 90)
      || (192 <=? n) && (n <=? 222) && negb (n =? 215))%N
  then ascii_of_N (n + 32) else c.

Definition toLowerCase (s : jsstring) : jsstring := map toLowerChar s.

(** [parts.join(sep)] *)
Fixpoint join (sep : jsstring) (parts : list jsstring) : jsstring :=
  match parts with
  | [] => []
  | [p] => p
  | p :: ps => p ++ sep ++ join sep ps
  end.

(** [a === b] on strings *)
Definition strEq (a b : jsstring) : bool :=
  if list_eq_dec ascii_dec a b then true else false.

(** [!s] is false exactly for a non-empty string. *)
Definition nonEmpty (s : jsstring) : bool :=
  match s with [] => false | _ :: _ => true end.

(** *** Numbers and their decimal form *)

Definition digitChar (d : N) : ascii := ascii_of_N (48 + d).

Definition isDigit (c : ascii) : bool :=
  let n := N_of_ascii c in ((48 <=? n) && (n <=? 57))%N.

Definition digitValue (c : ascii) : Z := Z.of_N (N_of_ascii c) - 48.

(** The decimal digits of [n], most significant first, in front of
    [acc]; [fuel] bounds the number of digits still to come. *)
Fixpoint digitsOf (fuel : nat) (n : N) (acc : jsstring) : jsstring :=
  let acc' := digitChar (n mod 10) :: acc in
  match fuel with
  | O => acc'
  | S f => if (n / 10 =? 0)%N then acc' else digitsOf f (n / 10) acc'
  end.

Definition natToString (n : N) : jsstring :=
  digitsOf (N.to_nat (N.log2 n)) n [].

(** The digits of a decimal without the zeros at its end. *)
Fixpoint dropZeros (s : jsstring) : jsstring :=
  match s with
  | c :: s' => if Ascii.eqb c "0" then dropZeros s' else s
  | [] => []
  end.

Definition significant (digits : jsstring) : jsstring :=
  rev (dropZeros (rev digits)).

(** The exponent notation of a number of 22 digits and more: the first
    digit, the other significant digits behind a point if there are any,
    and the power of ten, as in [1e+21] and [1.5e+21]. *)
Definition exponential (digits : jsstring) : jsstring :=
  match digits with
  | [] => []
  | d :: ds =>
      let fraction := significant ds in
      d :: (if nonEmpty fraction then "."%char :: fraction else [])
        ++ str "e+" ++ natToString (N.of_nat (length ds))
  end.

(** [String(n)] / [`${n}`] for an integer [n]: its decimal digits below
    10^21 and the exponent notation from 10^21 on.  The digits are those
    of [n] itself, which are the digits the runtime prints for every
    integer up to 2^53 and for every integer of at most 15 significant
    digits that it holds exactly (10^21 is one); for the other numbers
    it holds, the runtime stops at the digits that tell the number from
    its neighbours. *)
Definition numberToString (n : Z) : jsstring :=
  let digits := natToString (Z.to_N (Z.abs n)) in
  (if n <? 0 then str "-" else [])
  ++ (if Z.abs n <? 10 ^ 21 then digits else exponential digits).

(** The result of [parseInt]: an integer, [NaN], or an infinity. *)
Inductive jsnumber :=
| Int (z : Z)
| NaN
| Infinity (negative : bool).

(** The number nearest to the integer [m >= 0] among those of 53
    significant bits, the even one of two that are equally near: what
    the runtime holds for the mathematical value [m]. *)
Definition roundToDouble (m : Z) : Z :=
  if m <? 2 ^ 53 then m
  else
    let e := Z.log2 m - 52 in
    let q := m / 2 ^ e in
    let r := m mod 2 ^ e in
    let half := 2 ^ (e - 1) in
    let q' := if r <? half then q
              else if half <? r then q + 1
              else if Z.even q then q else q + 1 in
    q' * 2 ^ e.

(** The integer [n] is a number of the runtime. *)
Definition heldExactly (n : Z) : bool :=
  (roundToDouble (Z.abs n) =? Z.abs n) && (Z.abs n <? 2 ^ 1024).

(** The number for the mathematical value [sign * m]; from 2^1024 on the
    rounded value is an infinity. *)
Definition numberValue (sign m : Z) : jsnumber :=
  let d := roundToDouble m in
  if 2 ^ 1024 <=? d then Infinity (sign <? 0) else Int (sign * d).

Fixpoint parseDigits (s : jsstring) (acc : Z) : Z :=
  match s with
  | [] => acc
  | c :: s' => if isDigit c then parseDigits s' (10 * acc + digitValue c)
               else acc
  end.

(** [parseInt(s, 10)]: leading white space is skipped, a sign is
    accepted, digits are read up to the first other character; no digit
    at all gives [NaN].  The result is the number for the value of the
    digits, which is that value itself up to 2^53. *)
Definition parseInt10 (s : jsstring) : jsnumber :=
  let s1 := trimStart s in
  let '(sign, s2) :=
    match s1 with
    | c :: r => if Ascii.eqb c "-" then (-1, r)
                else if Ascii.eqb c "+" then (1, r) else (1, s1)
    | [] => (1, s1)
    end in
  match s2 with
  | c :: _ => if isDigit c then numberValue sign (parseDigits s2 0) else NaN
  | [] => NaN
  end.

(** *** Occurrences of a word in a string *)

(** [w] occurs in [s] at index [i]. *)
Definition occursAt (w s : jsstring) (i : nat) : Prop :=
  exists pre post, s = pre ++ w ++ post /\ length pre = i.

Definition occurs (w s : jsstring) : Prop := exists i, occursAt w s i.

(** The first occurrence of [w] in [s] is at index [i]. *)
Definition firstAt (w s : jsstring) (i : nat) : Prop :=
  occursAt w s i /\ forall j, (j < i)%nat -> ~ occursAt w s j.

End JS.
Import JS.

(** ** Regular expressions

    The backtracking matcher of the language specification, in
    continuation-passing style: [m r x k] matches [r] at state [x] and
    hands every candidate end state to the continuation [k], in priority
    order, until [k] accepts one.  The patterns of [utils.ts] are
    values of [regex] below. *)

Module RegExp.

Inductive regex :=
| Eps                                   (* the empty pattern *)
| Chr (c : ascii)                       (* a literal character *)
| Cls (p : ascii -> bool)               (* a character class *)
| Seq (r1 r2 : regex)                   (* r1 r2 *)
| Alt (r1 r2 : regex)                   (* r1|r2 *)
| Star (greedy : bool) (r : regex)      (* r* and r*? *)
| Grp (i : nat) (r : regex)             (* the i-th capturing group *)
| Bol                                   (* ^ *)
| Eol.                                  (* $ *)

(** [r+] *)
Definition Plus (r : regex) : regex := Seq r (Star true r).

(** A literal word. *)
Fixpoint lit (w : jsstring) : regex :=
  match w with
  | [] => Eps
  | c :: w' => Seq (Chr c) (lit w')
  end.

Fixpoint seqs (rs : list regex) : regex :=
  match rs with
  | [] => Eps
  | [r] => r
  | r :: rs' => Seq r (seqs rs')
  end.

(** The matcher state: the input still to read, the index of its head in
    the whole input, and the captures so far. *)
Record mstate := MState {
  rest : jsstring;
  pos : nat;
  caps : list (nat * jsstring)
}.

Definition cont := mstate -> option mstate.

Definition orElse (a : option mstate) (b : unit -> option mstate) :=
  match a with
  | Some z => Some z
  | None => b tt
  end.

(** One character, accepted by [p]. *)
Definition step (p : ascii -> bool) (x : mstate) (k : cont) : option mstate :=
  match rest x with
  | [] => None
  | d :: s => if p d then k (MState s (S (pos x)) (caps x)) else None
  end.

(** The repeat matcher for [r*] (greedy) and [r*?] (lazy), [mr] being the
    matcher of [r].  An iteration that consumes nothing is rejected; [n]
    bounds the number of iterations, and one more than the length of the
    remaining input is never exhausted. *)
Fixpoint repeatMatcher (mr : mstate -> cont -> option mstate) (greedy : bool)
         (n : nat) (x : mstate) (k : cont) : option mstate :=
  match n with
  | O => k x
  | S n' =>
      let again (_ : unit) :=
        mr x (fun y => if Nat.eqb (pos y) (pos x) then None
                       else repeatMatcher mr greedy n' y k) in
      if greedy then orElse (again tt) (fun _ => k x)
      else orElse (k x) again
  end.

Fixpoint m (fuel : nat) (r : regex) (x : mstate) (k : cont) : option mstate :=
  match r with
  | Eps => k x
  | Chr c => step (Ascii.eqb c) x k
  | Cls p => step p x k
  | Seq r1 r2 => m fuel r1 x (fun y => m fuel r2 y k)
  | Alt r1 r2 => orElse (m fuel r1 x k) (fun _ => m fuel r2 x k)
  | Star g r1 => repeatMatcher (m fuel r1) g fuel x k
  | Grp i r1 =>
      m fuel r1 x (fun y =>
        k (MState (rest y) (pos y)
                  ((i, firstn (pos y - pos x) (rest x)) :: caps y)))
  | Bol => if Nat.eqb (pos x) 0 then k x else None
  | Eol => match rest x with [] => k x | _ :: _ => None end
  end.

(** The leftmost match at or after the head of [s], which sits at index
    [i]: the start index and the end state. *)
Fixpoint search (fuel : nat) (re : regex) (s : jsstring) (i : nat)
  : option (nat * mstate) :=
  match m fuel re (MState s i []) Some with
  | Some y => Some (i, y)
  | None => match s with
            | [] => None
            | _ :: s' => search fuel re s' (S i)
            end
  end.

(** [re.exec(s)] with [lastIndex] given. *)
Definition execAt (re : regex) (s : jsstring) (lastIndex : nat)
  : option (nat * mstate) :=
  if (lastIndex <=? length s)%nat
  then search (S (length s)) re (skipn lastIndex s) lastIndex
  else None.

(** The value of group [i] in a successful match. *)
Fixpoint capture (i : nat) (cs : list (nat * jsstring)) : option jsstring :=
  match cs with
  | [] => None
  | (j, v) :: cs' => if Nat.eqb i j then Some v else capture i cs'
  end.

(** [s.match(re)[i]] for a pattern without the [g] flag: [None] when
    there is no match. *)
Definition matchGroup (re : regex) (s : jsstring) (i : nat)
  : option (option jsstring) :=
  match execAt re s 0 with
  | None => None
  | Some (_, y) => Some (capture i (caps y))
  end.

(** [s.replace(re, repl)] for a pattern without the [g] flag and a
    replacement text without [$]: the first match is replaced. *)
Definition replaceFirst (re : regex) (s repl : jsstring) : jsstring :=
  match execAt re s 0 with
  | None => s
  | Some (p, y) => firstn p s ++ repl ++ skipn (pos y) s
  end.

(** [s.replace(re, repl)] for a pattern with the [g] flag: matches are
    taken from left to right, each search starting where the last match
    ended (one further after an empty match); [next] is the end of the
    last match, up to which the output has been produced in [acc]. *)
Fixpoint replaceLoop (n : nat) (re : regex) (s repl : jsstring)
         (lastIndex next : nat) (acc : jsstring) : jsstring :=
  match n with
  | O => acc ++ skipn next s
  | S n' =>
      match execAt re s lastIndex with
      | None => acc ++ skipn next s
      | Some (p, y) =>
          let e := pos y in
          replaceLoop n' re s repl
            (if Nat.eqb e p then S e else e) e
            (acc ++ firstn (p - next) (skipn next s) ++ repl)
      end
  end.

Definition replaceAll (re : regex) (s repl : jsstring) : jsstring :=
  replaceLoop (length s + 2) re s repl 0 0 [].

(** A character class fails at the end of the input and on a character
    outside the class: a run of the class stops at [v]. *)
Definition stopsAt (p : ascii -> bool) (v : jsstring) : Prop :=
  match v with
  | [] => True
  | c :: _ => p c = false
  end.

(** [y] is a state the matcher can reach from [x]: further on in the
    same input. *)
Definition reaches (x y : mstate) : Prop :=
  (pos y + length (rest y) = pos x + length (rest x))%nat
  /\ (length (rest y) <= length (rest x))%nat.

End RegExp.
Import RegExp.

(** ** [types.ts] and [utils.ts] *)

Module Utils.

Definition PI_SECTION_START : jsstring := str "<!-- pi-agent-notes-start -->".
Definition PI_SECTION_END : jsstring := str "<!-- pi-agent-notes-end -->".
Definition PI_SECTION_TITLE : jsstring := str "Pi Agent Notes".

Definition PR_LABEL_CREATED : jsstring := str "pr-created".
Definition PR_LABEL_UPDATED : jsstring := str "pr-update".

(** The line feed of the template literal in [wrapInCollapsible]. *)
Definition LF : ascii := ascii_of_N 10.

Definition wrapInCollapsible (content : jsstring) : jsstring :=
  if negb (nonEmpty (trim content)) then []
  else PI_SECTION_START ++ [LF]
       ++ str "<details>" ++ [LF]
       ++ str "<summary>" ++ PI_SECTION_TITLE ++ str "</summary>" ++ [LF]
       ++ [LF]
       ++ trim content ++ [LF]
       ++ [LF]
       ++ str "</details>" ++ [LF]
       ++ PI_SECTION_END.

(** [[\s\S]] *)
Definition anyChar : regex :=
  Cls (fun c => isWhiteSpace c || negb (isWhiteSpace c)).

(** [[^<]] *)
Definition notLt : regex := Cls (fun c => negb (Ascii.eqb c "<")).

(** [\d] *)
Definition digit : regex := Cls isDigit.

(** [/<details>[\s\S]*?<summary>[^<]*<\/summary>([\s\S]*?)<\/details>/] *)
Definition detailsPattern : regex :=
  seqs [ lit (str "<details>"); Star false anyChar;
         lit (str "<summary>"); Star true notLt; lit (str "</summary>");
         Grp 1 (Star false anyChar); lit (str "</details>") ].

(** The three-way test shared by [extractPiSection], [extractUserContent]
    and [updatePiSection]. *)
Definition noSection (startIdx endIdx : Z) : bool :=
  (startIdx =? -1) || (endIdx =? -1) || (endIdx <=? startIdx).

Definition extractPiSection (body : jsstring) : option jsstring :=
  let startIdx := indexOf body PI_SECTION_START in
  let endIdx := indexOf body PI_SECTION_END in
  if noSection startIdx endIdx then None
  else
    let section := slice body (startIdx + len PI_SECTION_START) endIdx in
    match execAt detailsPattern section 0 with
    | None => None
    | Some (_, y) =>
        (* group 1 takes part in every match of the pattern *)
        match capture 1 (caps y) with
        | Some g => Some (trim g)
        | None => None
        end
    end.

Record IssueRef := { number : Z; title : jsstring }.

Definition getIssueSessionName (issue : IssueRef) : jsstring :=
  str "#" ++ numberToString (number issue) ++ str ": " ++ title issue.

Definition getIssueSessionPrefix (issueNumber : Z) : jsstring :=
  str "#" ++ numberToString issueNumber ++ str ": ".

(** [sessionName] is [string | undefined]; [!sessionName] holds for
    [undefined] and for the empty string. *)
Definition sessionMatchesIssue (sessionName : option jsstring)
           (issueNumber : Z) : bool :=
  match sessionName with
  | None => false
  | Some s =>
      if negb (nonEmpty s) then false
      else startsWith s (getIssueSessionPrefix issueNumber)
  end.

Definition keepNonEmpty (parts : list jsstring) : list jsstring :=
  filter (fun p => (0 <? len p)) parts.

(** The separator of [join("\n\n")]. *)
Definition blankLine : jsstring := [LF; LF].

Definition extractUserContent (body : jsstring) : jsstring :=
  let startIdx := indexOf body PI_SECTION_START in
  let endIdx := indexOf body PI_SECTION_END in
  if noSection startIdx endIdx then
    (* No pi section - entire body is user content *)
    trim body
  else
    let before := trim (slice body 0 startIdx) in
    let after := trim (sliceFrom body (endIdx + len PI_SECTION_END)) in
    join blankLine (keepNonEmpty [before; after]).

Definition updatePiSection (body newContent : jsstring) : jsstring :=
  let wrapped := wrapInCollapsible newContent in
  let startIdx := indexOf body PI_SECTION_START in
  let endIdx := indexOf body PI_SECTION_END in
  if noSection startIdx endIdx then
    (* No existing section - append it *)
    let trimmedBody := trim body in
    if negb (nonEmpty trimmedBody) then wrapped
    else trimmedBody ++ blankLine ++ wrapped
  else
    (* Replace existing section *)
    let before := trim (slice body 0 startIdx) in
    let after := trim (sliceFrom body (endIdx + len PI_SECTION_END)) in
    join blankLine (keepNonEmpty [before; wrapped; after]).

(** [/^#(\d+):/] *)
Definition sessionPattern : regex :=
  seqs [ Bol; Chr "#"; Grp 1 (Plus digit); Chr ":" ].

(** [/^todo\/(\d+)-/] *)
Definition branchPattern : regex :=
  seqs [ Bol; lit (str "todo/"); Grp 1 (Plus digit); Chr "-" ].

(** [match ? parseInt(match[1], 10) : null] *)
Definition parsedGroup (re : regex) (s : jsstring)
  : option jsnumber :=
  match execAt re s 0 with
  | None => None
  | Some (_, y) =>
      match capture 1 (caps y) with
      | Some g => Some (parseInt10 g)
      | None => None
      end
  end.

Definition extractIssueNumberFromSession (sessionName : option jsstring)
  : option jsnumber :=
  match sessionName with
  | None => None
  | Some s => if negb (nonEmpty s) then None else parsedGroup sessionPattern s
  end.

Definition extractIssueNumberFromBranch (branchName : jsstring)
  : option jsnumber :=
  parsedGroup branchPattern branchName.

Definition isMainBranch (branchName : jsstring) : bool :=
  strEq branchName (str "main") || strEq branchName (str "master").

Definition isLowerAlnum (c : ascii) : bool :=
  let n := N_of_ascii c in
  ((97 <=? n) && (n <=? 122) || (48 <=? n) && (n <=? 57))%N.

Definition isDash (c : ascii) : bool := Ascii.eqb "-" c.

(** [/[^a-z0-9]+/g] *)
Definition nonAlnumRun : regex := Plus (Cls (fun c => negb (isLowerAlnum c))).

(** [/^-+|-+$/g] *)
Definition edgeDashes : regex :=
  Alt (Seq Bol (Plus (Chr "-"))) (Seq (Plus (Chr "-")) Eol).

(** [/-+$/] *)
Definition trailingDashes : regex := Seq (Plus (Chr "-")) Eol.

Definition slug (title : jsstring) : jsstring :=
  let s1 := toLowerCase title in
  let s2 := replaceAll nonAlnumRun s1 (str "-") in
  let s3 := replaceAll edgeDashes s2 [] in
  let s4 := slice s3 0 50 in
  replaceFirst trailingDashes s4 [].

Definition getIssueBranchName (issue : IssueRef) : jsstring :=
  str "todo/" ++ numberToString (number issue) ++ str "-" ++ slug (title issue).

(** *** The session history, as the host hands it out

    [ctx.sessionManager.getBranch()] is the list of entries of the current
    branch, oldest first; [ctx.sessionManager.getLabel(id)] is the label
    attached to an entry, if any. *)

Record ContentBlock := { blockType : jsstring; blockText : jsstring }.

(** [msg.content]: a plain string or an array of blocks. *)
Inductive Content :=
| PlainText (s : jsstring)
| Blocks (bs : list ContentBlock).

(** [msg.details] of a tool result, seen through the two casts of the
    gatherer: [{ path?: string }] and [{ command?: string }]. *)
Record ToolDetails := { path : option jsstring; command : option jsstring }.

Inductive Message :=
| UserMessage (content : Content)
| AssistantMessage (content : Content)
| ToolResultMessage (toolName : jsstring) (isError : bool)
                    (details : option ToolDetails)
| OtherMessage.

(** [entry.type === "message"] or any other kind of entry. *)
Inductive EntryKind :=
| MessageEntry (msg : Message)
| OtherEntry.

Record SessionEntry := { id : jsstring; kind : EntryKind }.

Record ExtensionContext := {
  getBranch : list SessionEntry;
  getLabel : jsstring -> option jsstring
}.

Definition isCheckpointLabel (label : option jsstring) : bool :=
  match label with
  | None => false
  | Some l => strEq l PR_LABEL_CREATED || strEq l PR_LABEL_UPDATED
  end.

(** The loop [for (let i = entries.length - 1; i >= 0; i--)] of
    [findLastPrCheckpointEntryId]; [n] is [i + 1]. *)
Fixpoint scanBack (ctx : ExtensionContext) (entries : list SessionEntry)
         (n : nat) : option jsstring :=
  match n with
  | O => None
  | S i =>
      match nth_error entries i with
      | None => None (* i < entries.length throughout *)
      | Some entry =>
          if isCheckpointLabel (getLabel ctx (id entry)) then Some (id entry)
          else scanBack ctx entries i
      end
  end.

Definition findLastPrCheckpointEntryId (ctx : ExtensionContext)
  : option jsstring :=
  let entries := getBranch ctx in
  scanBack ctx entries (length entries).

(** [entries.findIndex(p)] *)
Fixpoint findIndexFrom {A} (p : A -> bool) (l : list A) (i : Z) : Z :=
  match l with
  | [] => -1
  | e :: l' => if p e then i else findIndexFrom p l' (i + 1)
  end.

(** [afterEntryId] is [string | null]; [!afterEntryId] holds for [null]
    and for the empty string. *)
Definition getEntriesAfter (ctx : ExtensionContext)
           (afterEntryId : option jsstring) : list SessionEntry :=
  let entries := getBranch ctx in
  match afterEntryId with
  | None => entries
  | Some a =>
      if negb (nonEmpty a) then entries
      else
        let idx := findIndexFrom (fun e => strEq (id e) a) entries 0 in
        if idx =? -1 then entries (* Checkpoint not found in branch *)
        else skipn (Z.to_nat (idx + 1)) entries
  end.

End Utils.
Import Utils.

(** ** [pr.ts]: the context gatherer *)

Module Pr.

(** [content.map((c) => c.type === "text" ? c.text : "").join("")] *)
Definition blocksText (bs : list ContentBlock) : jsstring :=
  concat (map (fun c => if strEq (blockType c) (str "text")
                        then blockText c else []) bs).

(** [Array.isArray(msg.content) ? msg.content
     : [{ type: "text", text: msg.content }]] *)
Definition asBlocks (c : Content) : list ContentBlock :=
  match c with
  | Blocks bs => bs
  | PlainText s => [ {| blockType := str "text"; blockText := s |} ]
  end.

Definition userLine (text : jsstring) : jsstring :=
  if nonEmpty text then str "User: " ++ slice text 0 500 ++ [LF; LF] else [].

Definition assistantLine (text : jsstring) : jsstring :=
  if nonEmpty text then str "Assistant: " ++ slice text 0 500 ++ [LF; LF]
  else [].

(** The [toolResult] branch, the same in both gatherers. *)
Definition toolLine (toolName : jsstring) (isError : bool)
           (details : option ToolDetails) : jsstring :=
  if isError then []
  else if strEq toolName (str "write") || strEq toolName (str "edit") then
    match details with
    | Some {| path := Some p |} =>
        if nonEmpty p then str "Tool: " ++ toolName ++ str " " ++ p ++ [LF; LF]
        else []
    | _ => []
    end
  else if strEq toolName (str "bash") then
    match details with
    | Some {| command := Some c |} =>
        if nonEmpty c
        then str "Tool: bash `" ++ slice c 0 100 ++ str "`" ++ [LF; LF]
        else []
    | _ => []
    end
  else [].

(** What one entry adds to [sessionContext] in [gatherSessionContext]. *)
Definition entryText (entry : SessionEntry) : jsstring :=
  match kind entry with
  | OtherEntry => []
  | MessageEntry (UserMessage c) => userLine (blocksText (asBlocks c))
  | MessageEntry (AssistantMessage c) => assistantLine (blocksText (asBlocks c))
  | MessageEntry (ToolResultMessage t e d) => toolLine t e d
  | MessageEntry OtherMessage => []
  end.

(** [msg.content.map(...)]: a [TypeError] when the content is a plain
    string, which has no [map]. *)
Definition mapBlocks (c : Content) : option jsstring :=
  match c with
  | Blocks bs => Some (blocksText bs)
  | PlainText _ => None
  end.

(** What one entry adds in [gatherScopedSessionContext]; [None] when the
    body of the loop throws. *)
Definition scopedEntryText (entry : SessionEntry) : option jsstring :=
  match kind entry with
  | OtherEntry => Some []
  | MessageEntry (UserMessage c) => option_map userLine (mapBlocks c)
  | MessageEntry (AssistantMessage c) => option_map assistantLine (mapBlocks c)
  | MessageEntry (ToolResultMessage t e d) => Some (toolLine t e d)
  | MessageEntry OtherMessage => Some []
  end.

(** The [for ... of] loop inside [try]: [sessionContext] grows entry by
    entry; an exception leaves the loop and what was gathered so far is
    kept, since [catch] swallows it. *)
Fixpoint gatherLoop (render : SessionEntry -> option jsstring)
         (entries : list SessionEntry) (sessionContext : jsstring) : jsstring :=
  match entries with
  | [] => sessionContext
  | entry :: entries' =>
      match render entry with
      | None => sessionContext
      | Some line => gatherLoop render entries' (sessionContext ++ line)
      end
  end.

Definition gatherSessionContext (ctx : ExtensionContext) : jsstring :=
  let sessionContext :=
    gatherLoop (fun e => Some (entryText e)) (getBranch ctx) [] in
  slice sessionContext 0 8000.

Definition gatherScopedSessionContext (ctx : ExtensionContext) : jsstring :=
  let checkpointId := findLastPrCheckpointEntryId ctx in
  let entries := getEntriesAfter ctx checkpointId in
  let sessionContext := gatherLoop scopedEntryText entries [] in
  slice sessionContext 0 8000.

End Pr.
Import Pr.

(** ** The parsing layer: [parseIssues], [parseIssue], [listIssues] *)

Module Parse.

(** The values [JSON.parse] can produce, and [undefined] for a property
    that is not there.  An object is the list of its own properties. *)
#[warnings="-register-all"]
Inductive value :=
| VUndefined
| VNull
| VBool (b : bool)
| VNum (q : Q)
| VStr (s : jsstring)
| VArr (vs : list value)
| VObj (fields : list (jsstring * value)).

Fixpoint lookup (key : jsstring) (fields : list (jsstring * value)) : value :=
  match fields with
  | [] => VUndefined
  | (k, v) :: fs => if strEq k key then v else lookup key fs
  end.

(** [v.key] for the property names read by the parsers ([number],
    [title], [state], ..., [name], [login]), none of which is inherited
    from a prototype: a [TypeError] ([None]) on [null] and [undefined],
    [undefined] on every value without such an own property. *)
Definition getProp (v : value) (key : jsstring) : option value :=
  match v with
  | VUndefined | VNull => None
  | VObj fields => Some (lookup key fields)
  | _ => Some VUndefined
  end.

Definition truthy (v : value) : bool :=
  match v with
  | VUndefined | VNull => false
  | VBool b => b
  | VNum q => negb (Qeq_bool q 0)
  | VStr s => nonEmpty s
  | VArr _ | VObj _ => true
  end.

(** [a || b] *)
Definition orDefault (a b : value) : value := if truthy a then a else b.

(** The issue object built by the parsers.  [state] is one of two string
    literals; the other fields hold whatever the JSON held. *)
Record GhIssue := {
  number : value;
  title : value;
  state : jsstring;
  body : value;
  labels : list value;
  assignees : list value;
  url : value;
  createdAt : value;
  updatedAt : value
}.

(** [issue.state?.toLowerCase() === "closed" ? "closed" : "open"]:
    [?.] stops at [null] and [undefined]; a string is lowered; on any
    other value [toLowerCase] is not a function. *)
Definition normalizeState (st : value) : option jsstring :=
  match st with
  | VUndefined | VNull => Some (str "open")
  | VStr s => Some (if strEq (toLowerCase s) (str "closed")
                    then str "closed" else str "open")
  | _ => None
  end.

Fixpoint mapM {A B} (f : A -> option B) (l : list A) : option (list B) :=
  match l with
  | [] => Some []
  | a :: l' =>
      match f a with
      | None => None
      | Some b => match mapM f l' with
                  | None => None
                  | Some bs => Some (b :: bs)
                  end
      end
  end.

(** [(xs || []).map((l) => typeof l === "string" ? l : l[key])]: only an
    array has [map]. *)
Definition names (xs : value) (key : jsstring) : option (list value) :=
  match orDefault xs (VArr []) with
  | VArr vs =>
      mapM (fun l => match l with
                     | VStr _ => Some l
                     | _ => getProp l key
                     end) vs
  | _ => None
  end.

(** The object literal shared by [parseIssues] and [parseIssue]; [None]
    when building it throws. *)
Definition toIssue (issue : value) : option GhIssue :=
  match getProp issue (str "number") with None => None | Some vnumber =>
  match getProp issue (str "title") with None => None | Some vtitle =>
  match getProp issue (str "state") with None => None | Some vstate =>
  match normalizeState vstate with None => None | Some st =>
  match getProp issue (str "body") with None => None | Some vbody =>
  match getProp issue (str "labels") with None => None | Some vlabels =>
  match names vlabels (str "name") with None => None | Some ls =>
  match getProp issue (str "assignees") with None => None | Some vassignees =>
  match names vassignees (str "login") with None => None | Some asg =>
  match getProp issue (str "url") with None => None | Some vurl =>
  match getProp issue (str "createdAt") with None => None | Some vcreated =>
  match getProp issue (str "updatedAt") with None => None | Some vupdated =>
    Some {| number := vnumber;
            title := vtitle;
            state := st;
            body := orDefault vbody (VStr []);
            labels := ls;
            assignees := asg;
            url := orDefault vurl (VStr []);
            createdAt := orDefault vcreated (VStr []);
            updatedAt := orDefault vupdated (VStr []) |}
  end end end end end end end end end end end end.

(** The result of [pi.exec]. *)
Record ExecResult := { code : Z; stdout : jsstring; stderr : jsstring }.

(** A call that returns or throws an [Error] with a message. *)
Inductive outcome (A : Type) :=
| Returned (a : A)
| Thrown (message : jsstring).
Arguments Returned {A} a.
Arguments Thrown {A} message.

Section WithJSON.

(** [JSON.parse]: [None] stands for a [SyntaxError]. *)
Variable JSON_parse : jsstring -> option value.

Definition parseIssues (json : jsstring) : list GhIssue :=
  match JSON_parse json with
  | None => []
  | Some raw =>
      match raw with
      | VArr vs =>
          match mapM toIssue vs with
          | None => []
          | Some issues => issues
          end
      | _ => []
      end
  end.

Definition parseIssue (json : jsstring) : option GhIssue :=
  match JSON_parse json with
  | None => None
  | Some issue => toIssue issue
  end.

(** [listIssues], as a function of what [gh issue list] answered. *)
Definition listIssues (result : ExecResult) : outcome (list GhIssue) :=
  if negb (code result =? 0)
  then Thrown (str "Failed to list issues: " ++ stderr result)
  else Returned (parseIssues (stdout result)).

End WithJSON.

(** The issue's [state] field in the input: a string that lowercases to
    [closed]. *)
Definition closedInJson (v : value) : Prop :=
  exists st, getProp v (str "state") = Some (VStr st)
             /\ toLowerCase st = str "closed".

(** A [state] that the parsers can read: a string, [null], or no
    [state] at all. *)
Definition textOrAbsent (st : value) : bool :=
  match st with
  | VUndefined | VNull | VStr _ => true
  | _ => false
  end.

(** A [labels] or [assignees] that the parsers can read: a falsy value,
    or an array without [null]. *)
Definition nameList (xs : value) : Prop :=
  truthy xs = false
  \/ exists vs, xs = VArr vs
                /\ Forall (fun l => l <> VNull /\ l <> VUndefined) vs.

(** An object with a readable [state], [labels] and [assignees]. *)
Definition readable (v : value) : Prop :=
  exists fields,
    v = VObj fields
    /\ textOrAbsent (lookup (str "state") fields) = true
    /\ nameList (lookup (str "labels") fields)
    /\ nameList (lookup (str "assignees") fields).

(** An object whose [state] is a number, a boolean, an array or an
    object. *)
Definition stateOfOtherType (v : value) : Prop :=
  exists st, getProp v (str "state") = Some st /\ textOrAbsent st = false.

(** A parser for a handful of texts, to run the definitions on. *)
Definition quoted (s : jsstring) : jsstring :=
  [ascii_of_N 34] ++ s ++ [ascii_of_N 34].

Definition closedText : jsstring :=
  str "{" ++ quoted (str "state") ++ str ":" ++ quoted (str "CLOSED")
  ++ str "}".

Definition openListText : jsstring :=
  str "[{" ++ quoted (str "state") ++ str ":" ++ quoted (str "OPEN")
  ++ str "}]".

Definition numericStateText : jsstring :=
  str "{" ++ quoted (str "state") ++ str ":5}".

Definition sampleParse (s : jsstring) : option value :=
  if strEq s (str "[]") then Some (VArr [])
  else if strEq s numericStateText
       then Some (VObj [(str "state", VNum 5)])
  else if strEq s (str "[" ++ numericStateText ++ str "]")
       then Some (VArr [VObj [(str "state", VNum 5)]])
  else if strEq s (str "{}") then Some (VObj [])
  else if strEq s (str "null") then Some VNull
  else if strEq s closedText
       then Some (VObj [(str "state", VStr (str "CLOSED"))])
  else if strEq s openListText
       then Some (VArr [VObj [(str "state", VStr (str "OPEN"))]])
  else None.

End Parse.

(** ** [tool.ts]: the [pr] action of the [gh_todo] tool *)

Module Tool.

Import Parse.

(** The issue as the tool reads it, through the [GhIssue] interface. *)
Record Issue := {
  issueNumber : Z;
  issueTitle : jsstring;
  issueState : jsstring
}.

Record PrRef := { prRefUrl : jsstring; prRefNumber : Z }.

(** The calls the action makes on the host, on the Gateway ([github.ts])
    and on the PR functions ([pr.ts]), each with the type of its answer.
    [SignalAborted] reads [signal?.aborted]. *)
Inductive call : Type -> Type :=
| CheckGhCli : call (outcome bool)
| SignalAborted : call bool
| GetCurrentBranch : call (outcome jsstring)
| GetSessionName : call (option jsstring)
| GetIssue (n : jsnumber) : call (outcome Issue)
| HasUncommittedChanges : call (outcome bool)
| HasUpstream (branch : jsstring) : call (outcome bool)
| PushBranch (branch : jsstring) : call (outcome unit)
| FindPrTemplate : call (outcome (option jsstring))
| FillPrTemplate (template : jsstring) (issue : Issue)
                 (sessionContext : jsstring) (shouldClose : bool)
  : call (outcome jsstring)
| GeneratePrSummary (issue : Issue) (sessionContext : jsstring)
                    (shouldClose : bool)
  : call (outcome jsstring)
| CreatePr (title body branch : jsstring) : call (outcome PrRef).

(** An asynchronous function body: it returns, throws, or makes a call
    and goes on with the answer. *)
Inductive prog (R : Type) : Type :=
| Ret (r : R)
| Throw (message : jsstring)
| Do {X : Type} (c : call X) (k : X -> prog R).
Arguments Ret {R} r.
Arguments Throw {R} message.
Arguments Do {R X} c k.

Fixpoint bind {A B} (p : prog A) (f : A -> prog B) : prog B :=
  match p with
  | Ret a => f a
  | Throw msg => Throw msg
  | Do c k => Do c (fun x => bind (k x) f)
  end.

(** [await f(...)] for a call that may throw. *)
Definition await {A} (c : call (outcome A)) : prog A :=
  Do c (fun o => match o with
                 | Returned a => Ret a
                 | Thrown msg => Throw msg
                 end).

(** A call that does not throw. *)
Definition ask {A} (c : call A) : prog A := Do c Ret.

(** [try { p } catch (err) { handler(err.message) }] *)
Fixpoint tryCatch {A} (p : prog A) (handler : jsstring -> prog A) : prog A :=
  match p with
  | Ret a => Ret a
  | Throw msg => handler msg
  | Do c k => Do c (fun x => tryCatch (k x) handler)
  end.

Notation "x <- p ;; q" := (bind p (fun x => q))
  (at level 61, p at next level, right associativity).

(** The fields of [GhTodoDetails] the action sets. *)
Record Details := {
  action : jsstring;
  error : option jsstring;
  issue : option Issue;
  prUrl : option jsstring;
  prNumber : option Z
}.

(** The tool result; [isError] absent reads as [false]. *)
Record ToolResult := {
  text : jsstring;
  details : Details;
  isError : bool
}.

Definition failure (act msg err : jsstring) (i : option Issue) : ToolResult :=
  {| text := msg;
     details := {| action := act; error := Some err; issue := i;
                   prUrl := None; prNumber := None |};
     isError := true |}.

(** [{ content: "Cancelled", details: { action } }] *)
Definition cancelled (act : jsstring) : ToolResult :=
  {| text := str "Cancelled";
     details := {| action := act; error := None; issue := None;
                   prUrl := None; prNumber := None |};
     isError := false |}.

(** [{ content: "Cancelled", details: { action, error: "Cancelled" } }] *)
Definition cancelledWithError (act : jsstring) : ToolResult :=
  {| text := str "Cancelled";
     details := {| action := act; error := Some (str "Cancelled");
                   issue := None; prUrl := None; prNumber := None |};
     isError := false |}.

(** The parameters the [pr] action reads. *)
Record Params := { number : option Z; close : option bool }.

Definition jsnumberToString (n : jsnumber) : jsstring :=
  match n with
  | Int z => numberToString z
  | NaN => str "NaN"
  | Infinity negative => if negative then str "-Infinity" else str "Infinity"
  end.

(** [a !== b] on numbers: [NaN] differs from everything. *)
Definition numNeq (a b : jsnumber) : bool :=
  match a, b with
  | Int x, Int y => negb (x =? y)
  | Infinity x, Infinity y => xorb x y
  | _, _ => true
  end.

(** [!n] for [number | null | undefined]. *)
Definition noNumber (n : option jsnumber) : bool :=
  match n with
  | None => true
  | Some NaN => true
  | Some (Int z) => z =? 0
  | Some (Infinity _) => false
  end.

(** [a ?? b] *)
Definition orNullish {A} (a b : option A) : option A :=
  match a with
  | Some _ => a
  | None => b
  end.

Definition pr : jsstring := str "pr".

(** [if (signal?.aborted) return Cancelled], then the rest. *)
Definition unlessAborted (rest : prog ToolResult) : prog ToolResult :=
  aborted <- ask SignalAborted ;;
  if (aborted : bool) then Ret (cancelled pr) else rest.

Definition onMainBranch : ToolResult :=
  failure pr
    (str "Error: Cannot create PR from main/master branch. Create a feature branch first.")
    (str "on main branch") None.

Definition optNumberToString (n : option jsnumber) : jsstring :=
  match n with
  | Some n => jsnumberToString n
  | None => str "null"
  end.

(** [branchIssueNum !== null && sessionIssueNum !== null
     && branchIssueNum !== sessionIssueNum] *)
Definition mismatch (branchIssueNum sessionIssueNum : option jsnumber) : bool :=
  match branchIssueNum, sessionIssueNum with
  | Some b, Some s => numNeq b s
  | _, _ => false
  end.

Definition branchSessionMismatch (branchIssueNum sessionIssueNum : option jsnumber)
  : ToolResult :=
  failure pr
    (str "Error: Branch todo/" ++ optNumberToString branchIssueNum
     ++ str "-* doesn't match session issue #"
     ++ optNumberToString sessionIssueNum
     ++ str ". Session and branch should be for the same issue.")
    (str "branch/session mismatch") None.

Definition noIssueNumber : ToolResult :=
  failure pr
    (str "Error: Could not determine issue number. Either pass 'number' parameter, use a session named '#N: Title', or be on a 'todo/N-*' branch.")
    (str "no issue number") None.

Definition issueClosed (n : jsnumber) (i : Issue) : ToolResult :=
  failure pr
    (str "Error: Issue #" ++ jsnumberToString n ++ str " is already closed.")
    (str "issue closed") (Some i).

Definition uncommittedChanges (i : Issue) : ToolResult :=
  failure pr
    (str "Error: You have uncommitted changes. Commit or stash them before creating a PR.")
    (str "uncommitted changes") (Some i).

Definition created (i : Issue) (p : PrRef) : ToolResult :=
  {| text := str "Created PR #" ++ numberToString (prRefNumber p)
             ++ str " for issue #" ++ numberToString (issueNumber i)
             ++ [LF] ++ prRefUrl p;
     details := {| action := pr; error := None; issue := Some i;
                   prUrl := Some (prRefUrl p);
                   prNumber := Some (prRefNumber p) |};
     isError := false |}.

(** [case "pr"] of [execute]. *)
Definition prAction (params : Params) (ctx : ExtensionContext)
  : prog ToolResult :=
  (* Get current branch *)
  currentBranch <- await GetCurrentBranch ;;
  unlessAborted (
  (* Don't allow PR from main/master *)
  if isMainBranch currentBranch then Ret onMainBranch else
  (* Detect issue number from session name *)
  sessionName <- ask GetSessionName ;;
  let sessionIssueNum := extractIssueNumberFromSession sessionName in
  let branchIssueNum := extractIssueNumberFromBranch currentBranch in
  (* If on a todo/ branch, session must match *)
  if mismatch branchIssueNum sessionIssueNum
  then Ret (branchSessionMismatch branchIssueNum sessionIssueNum) else
  (* Determine issue number (prefer explicit param > session > branch) *)
  let issueNum :=
    orNullish (option_map Int (number params))
              (orNullish sessionIssueNum branchIssueNum) in
  match issueNum with
  | None => Ret noIssueNumber
  | Some n =>
  if noNumber issueNum then Ret noIssueNumber else
  (* Fetch the issue *)
  issue <- await (GetIssue n) ;;
  unlessAborted (
  if strEq (issueState issue) (str "closed") then Ret (issueClosed n issue) else
  (* Check for uncommitted changes *)
  dirty <- await HasUncommittedChanges ;;
  if (dirty : bool) then Ret (uncommittedChanges issue) else
  unlessAborted (
  (* Push branch if needed *)
  upstream <- await (HasUpstream currentBranch) ;;
  _ <- (if (upstream : bool) then Ret tt
        else await (PushBranch currentBranch)) ;;
  unlessAborted (
  (* Gather session context *)
  let sessionContext := gatherSessionContext ctx in
  (* Check for PR template *)
  template <- await FindPrTemplate ;;
  let shouldClose :=
    match close params with Some true => true | _ => false end in
  unlessAborted (
  (* Generate PR body *)
  prBody <- match template with
            | Some t =>
                if nonEmpty t
                then await (FillPrTemplate t issue sessionContext shouldClose)
                else await (GeneratePrSummary issue sessionContext shouldClose)
            | None => await (GeneratePrSummary issue sessionContext shouldClose)
            end ;;
  unlessAborted (
  (* Create PR *)
  let prTitle := issueTitle issue ++ str " (#"
                 ++ numberToString (issueNumber issue) ++ str ")" in
  p <- await (CreatePr prTitle prBody currentBranch) ;;
  Ret (created issue p))))))
  end).

(** The [catch] of [execute]: a cancelled call reports "Cancelled",
    any other exception its message. *)
Definition onException (message : jsstring) : prog ToolResult :=
  aborted <- ask SignalAborted ;;
  if (aborted : bool) then Ret (cancelledWithError pr)
  else Ret (failure pr (str "Error: " ++ message) message None).

(** [execute] for [params.action === "pr"]. *)
Definition execute (params : Params) (ctx : ExtensionContext)
  : prog ToolResult :=
  (* Check for gh CLI *)
  gh <- await CheckGhCli ;;
  if negb gh then
    Ret (failure pr
           (str "Error: GitHub CLI (gh) is not installed or not in PATH. Install it with: brew install gh")
           (str "gh CLI not found") None)
  else
  aborted <- ask SignalAborted ;;
  if (aborted : bool) then Ret (cancelledWithError pr) else
  tryCatch (prAction params ctx) onException.

(** *** Running an action against the outside world

    The world answers every call; its answer may depend on everything
    that was called before.  [run] returns the calls made, in order, and
    the way the action ended. *)

Inductive logged :=
| Logged (X : Type) (c : call X).
Arguments Logged {X} c.

Definition world := forall X : Type, list logged -> call X -> X.

Fixpoint run {R} (w : world) (p : prog R) (history : list logged)
  : list logged * outcome R :=
  match p with
  | Ret r => (history, Returned r)
  | Throw msg => (history, Thrown msg)
  | Do c k => run w (k (w _ history c)) (history ++ [Logged c])
  end.

Definition isCreatePr (l : logged) : bool :=
  match l with
  | Logged (CreatePr _ _ _) => true
  | Logged _ => false
  end.

(** [createPr] does not occur among the calls made. *)
Definition neverCreatesPr (calls : list logged) : Prop :=
  existsb isCreatePr calls = false.

(** A world without the GitHub CLI, standing on [main]. *)
Definition worldWithoutGh : world :=
  fun X _ c =>
    match c in call X return X with
    | CheckGhCli => Returned false
    | SignalAborted => false
    | GetCurrentBranch => Returned (str "main")
    | GetSessionName => None
    | GetIssue _ => Thrown []
    | HasUncommittedChanges => Returned false
    | HasUpstream _ => Returned true
    | PushBranch _ => Returned tt
    | FindPrTemplate => Returned None
    | FillPrTemplate _ _ _ _ => Returned []
    | GeneratePrSummary _ _ _ => Returned []
    | CreatePr _ _ _ => Thrown []
    end.

(** The same world with the CLI installed. *)
Definition worldOnMain : world :=
  fun X h c =>
    match c in call X return X -> X with
    | CheckGhCli => fun _ => Returned true
    | _ => fun d => d
    end (worldWithoutGh X h c).

Definition isGetCurrentBranch (l : logged) : bool :=
  match l with
  | Logged GetCurrentBranch => true
  | Logged _ => false
  end.

(** A world on [main], with the CLI, where the call is cancelled while
    git looks up the branch: the signal reads aborted from then on. *)
Definition worldCancelledLate : world :=
  fun X h c =>
    match c in call X return X -> X with
    | SignalAborted => fun _ => existsb isGetCurrentBranch h
    | _ => fun d => d
    end (worldOnMain X h c).

Definition noParams : Params := {| number := None; close := None |}.

Definition emptyContext : ExtensionContext :=
  {| getBranch := []; getLabel := fun _ => None |}.

End Tool.

(** ** The vocabulary of the specification *)

Module Spec.

(** *** Bodies and notes that round-trip *)

(** A string that is empty or ends outside [p]. *)
Definition endsOutside (p : ascii -> bool) (b : jsstring) : Prop :=
  b = [] \/ exists b' x, b = b' ++ [x] /\ p x = false.

(** The body holds neither marker. *)
Definition markerFree (b : jsstring) : Prop :=
  ~ occurs PI_SECTION_START b /\ ~ occurs PI_SECTION_END b.

(** The body holds both markers, the first end marker after the first
    start marker. *)
Definition wellFormed (b : jsstring) : Prop :=
  exists i j, firstAt PI_SECTION_START b i /\ firstAt PI_SECTION_END b j
              /\ (i < j)%nat.

(** A string without white space at either end. *)
Definition clean (t : jsstring) : Prop :=
  stopsAt isWhiteSpace t /\ endsOutside isWhiteSpace t.

(** The wrapped block around the notes [t], followed by [post], line by
    line. *)
Definition notesBlock (t post : jsstring) : jsstring :=
  PI_SECTION_START
  ++ LF :: str "<details>"
  ++ LF :: str "<summary>Pi Agent Notes</summary>"
  ++ LF :: []
  ++ LF :: t
  ++ LF :: []
  ++ LF :: str "</details>"
  ++ LF :: PI_SECTION_END ++ post.

(** What lies between the markers of [notesBlock t post]. *)
Definition sectionText (t : jsstring) : jsstring :=
  LF :: str "<details>"
  ++ LF :: str "<summary>" ++ str "Pi Agent Notes" ++ str "</summary>"
  ++ LF :: LF :: t
  ++ LF :: LF :: str "</details>"
  ++ [LF].

(** The first start marker and the first end marker of
    [pre ++ notesBlock t post] are those of the block. *)
Definition markersAt (t pre post : jsstring) : Prop :=
  indexOf (pre ++ notesBlock t post) PI_SECTION_START = Z.of_nat (length pre)
  /\ indexOf (pre ++ notesBlock t post) PI_SECTION_END
     = Z.of_nat (length pre
                 + (length PI_SECTION_START + length (sectionText t))).

(** *** The slug, as the specification words it

    Lowercase the title, collapse every run of characters outside
    [a-z0-9] to a single [-], strip leading and trailing [-], truncate
    to 50 characters, strip trailing [-] again. *)

Fixpoint dropWhile (p : ascii -> bool) (s : jsstring) : jsstring :=
  match s with
  | [] => []
  | c :: s' => if p c then dropWhile p s' else s
  end.

Definition dropWhileEnd (p : ascii -> bool) (s : jsstring) : jsstring :=
  rev (dropWhile p (rev s)).

(** [inRun] tells that the run at hand already gave its [-]. *)
Fixpoint collapseRuns (p : ascii -> bool) (inRun : bool) (s : jsstring)
  : jsstring :=
  match s with
  | [] => []
  | c :: s' =>
      if p c
      then if inRun then collapseRuns p true s'
           else "-"%char :: collapseRuns p true s'
      else c :: collapseRuns p false s'
  end.

Definition specSlug (title : jsstring) : jsstring :=
  let lowered := toLowerCase title in
  let collapsed :=
    collapseRuns (fun c => negb (isLowerAlnum c)) false lowered in
  let stripped := dropWhileEnd isDash (dropWhile isDash collapsed) in
  let truncated := firstn 50 stripped in
  dropWhileEnd isDash truncated.

(** An entry carries a PR checkpoint label. *)
Definition labelled (ctx : ExtensionContext) (e : SessionEntry) : Prop :=
  getLabel ctx (id e) = Some (str "pr-created")
  \/ getLabel ctx (id e) = Some (str "pr-update").

(** The three entries of the specification's example: only [e2] carries
    a label, [pr-created]. *)
Definition sampleBranch : ExtensionContext :=
  {| getBranch := [ {| id := str "e1"; kind := OtherEntry |};
                    {| id := str "e2"; kind := OtherEntry |};
                    {| id := str "e3"; kind := OtherEntry |} ];
     getLabel := fun i => if strEq i (str "e2")
                          then Some (str "pr-created") else None |}.

End Spec.
Import Spec.


(** ** [github.ts]: what the Gateway reads off the command line *)

Module Github.

Import Parse.

Definition PI_TODO_LABEL : jsstring := str "pi-todo".

(** [s.split(sep)] for a separator of one character: an empty string
    splits into one empty piece. *)
Fixpoint split (sep : ascii) (s : jsstring) : list jsstring :=
  match s with
  | [] => [[]]
  | c :: s' =>
      if Ascii.eqb c sep then [] :: split sep s'
      else match split sep s' with
           | [] => [[c]]
           | piece :: pieces => (c :: piece) :: pieces
           end
  end.

Record Commit := { hash : jsstring; message : jsstring }.

(** The function mapped over the lines of [git log --oneline] in
    [getUnpushedCommits]. *)
Definition toCommit (line : jsstring) : Commit :=
  let spaceIdx := indexOf line (str " ") in
  if spaceIdx =? -1 then {| hash := line; message := [] |}
  else {| hash := slice line 0 spaceIdx;
          message := sliceFrom line (spaceIdx + 1) |}.

(** [w] stands in [s] at index [i] with a digit right after it: where
    a pattern [w(\d+)] can match. *)
Definition numberedAt (w s : jsstring) (i : nat) : Prop :=
  exists pre d post,
    s = pre ++ w ++ d :: post /\ length pre = i /\ isDigit d = true.

(** [/\/issues\/(\d+)/] *)
Definition issuesPattern : regex :=
  seqs [ lit (str "/issues/"); Grp 1 (Plus digit) ].

Section WithExec.

(** [pi.exec(command, args)]: what the host answers to a command line. *)
Variable exec : jsstring -> list jsstring -> ExecResult.

Definition checkGhCli : bool :=
  let result := exec (str "which") [str "gh"] in
  code result =? 0.

Definition getCurrentBranch : outcome jsstring :=
  let result :=
    exec (str "git") [str "rev-parse"; str "--abbrev-ref"; str "HEAD"] in
  if negb (code result =? 0)
  then Thrown (str "Not in a git repository or failed to get branch name")
  else Returned (trim (stdout result)).

Definition hasUncommittedChanges : bool :=
  let result := exec (str "git") [str "status"; str "--porcelain"] in
  0 <? len (trim (stdout result)).

Definition hasUpstream (branch : jsstring) : bool :=
  let result :=
    exec (str "git")
         [str "rev-parse"; str "--abbrev-ref"; branch ++ str "@{u}"] in
  code result =? 0.

(** The [range] of [getUnpushedCommits]: against the upstream branch, or
    without one against [main], or [master] when there is no [main]. *)
Definition commitRange (branch : jsstring) : jsstring :=
  if hasUpstream branch then str "origin/" ++ branch ++ str "..HEAD"
  else
    let mainResult :=
      exec (str "git") [str "rev-parse"; str "--verify"; str "main"] in
    let baseBranch := if code mainResult =? 0 then str "main"
                      else str "master" in
    baseBranch ++ str "..HEAD".

Definition getUnpushedCommits (branch : jsstring) : list Commit :=
  let range := commitRange branch in
  let result :=
    exec (str "git") [str "log"; range; str "--oneline"; str "--no-decorate"] in
  if negb (code result =? 0) || negb (nonEmpty (trim (stdout result)))
  then []
  else map toCommit (split LF (trim (stdout result))).

Variable JSON_parse : jsstring -> option value.

Definition getIssue (number : jsnumber) : outcome GhIssue :=
  let result :=
    exec (str "gh")
         [str "issue"; str "view"; Tool.jsnumberToString number; str "--json";
          str "number,title,state,body,labels,assignees,url,createdAt,updatedAt"] in
  if negb (code result =? 0)
  then Thrown (str "Failed to get issue #" ++ Tool.jsnumberToString number
               ++ str ": " ++ stderr result)
  else
    match parseIssue JSON_parse (stdout result) with
    | None => Thrown (str "Could not parse issue #"
                      ++ Tool.jsnumberToString number)
    | Some issue => Returned issue
    end.

(** [createIssue]; the answer to [ensureLabel]'s command is not looked
    at.  [body] is [string | undefined]. *)
Definition createIssue (title : jsstring) (body : option jsstring)
  : outcome GhIssue :=
  let args := [str "issue"; str "create"; str "--title"; title;
               str "--label"; PI_TODO_LABEL]
              ++ [str "--body"; match body with Some b => b | None => [] end] in
  let result := exec (str "gh") args in
  if negb (code result =? 0)
  then Thrown (str "Failed to create issue: " ++ stderr result)
  else
    match parsedGroup issuesPattern (stdout result) with
    | None => Thrown (str "Could not parse created issue number")
    | Some issueNum => getIssue issueNum
    end.

End WithExec.

End Github.

(** ** [pr.ts]: the texts of a pull request *)

Module PrBody.

Import Parse Github.

(** What the small model does when a summary is asked for:
    [getSmallModel] finds no model, or something inside the [try] block
    throws, or [complete] answers with content blocks.  The prompt is not
    part of the model: the answer is any answer. *)
Inductive Completion :=
| NoModel
| Failed
| Answered (content : list ContentBlock).

(** [response.content.filter((c) => c.type === "text")
      .map((c) => c.text).join("")] *)
Definition textOf (content : list ContentBlock) : jsstring :=
  concat (map blockText
              (filter (fun c => strEq (blockType c) (str "text")) content)).

(** The loop that builds [commitsSection]. *)
Definition commitsSection (commits : list Commit) : jsstring :=
  if 0 <? Z.of_nat (length commits) then
    fold_left (fun section commit =>
                 section ++ str "- " ++ hash commit ++ str " "
                 ++ message commit ++ [LF])
              commits
              ([LF; LF] ++ str "### Commits" ++ [LF])
  else [].

Definition updateFallback (commits : list Commit) : jsstring :=
  if 0 <? Z.of_nat (length commits)
  then str "## Feedback addressed" ++ [LF; LF] ++ str "(Changes pushed)"
       ++ commitsSection commits
  else str "## Feedback addressed" ++ [LF; LF]
       ++ str "(Responded to feedback)".

Definition generatePrUpdateSummary (scopedContext : jsstring)
           (commits : list Commit) (prNumber : Z) (ai : Completion)
  : jsstring :=
  let hasCommits := 0 <? Z.of_nat (length commits) in
  let fallback := updateFallback commits in
  if negb (nonEmpty (trim scopedContext)) && negb hasCommits then fallback
  else
    match ai with
    | NoModel => fallback
    | Failed => fallback
    | Answered content =>
        let summary := textOf content in
        if negb (nonEmpty summary) then fallback
        else if hasCommits then trimEnd summary ++ commitsSection commits
             else summary
    end.

Definition issueLink (issue : Tool.Issue) (closeIssue : bool) : jsstring :=
  if closeIssue
  then str "Closes #" ++ numberToString (Tool.issueNumber issue)
  else str "Related: #" ++ numberToString (Tool.issueNumber issue).

Definition generatePrSummary (issue : Tool.Issue) (sessionContext : jsstring)
           (closeIssue : bool) (ai : Completion) : jsstring :=
  let defaultBody :=
    issueLink issue closeIssue ++ [LF; LF] ++ str "## Summary" ++ [LF; LF]
    ++ str "(Add summary of changes here)" in
  if negb (nonEmpty (trim sessionContext)) then defaultBody
  else
    match ai with
    | NoModel => defaultBody
    | Failed => defaultBody
    | Answered content =>
        let summary := textOf content in
        if nonEmpty summary then summary else defaultBody
    end.

Definition fillPrTemplate (template : jsstring) (issue : Tool.Issue)
           (sessionContext : jsstring) (closeIssue : bool) (ai : Completion)
  : jsstring :=
  let withLink := issueLink issue closeIssue ++ [LF; LF] ++ template in
  match ai with
  | NoModel => withLink
  | Failed => withLink
  | Answered content =>
      let filled := textOf content in
      if nonEmpty filled then filled else withLink
  end.

(** [/\/pull\/(\d+)/] *)
Definition pullPattern : regex :=
  seqs [ lit (str "/pull/"); Grp 1 (Plus digit) ].

Record CreatedPr := { url : jsstring; number : jsnumber }.

(** [createPr], as a function of what [gh pr create] answered. *)
Definition createPr (result : ExecResult) : outcome CreatedPr :=
  if negb (code result =? 0)
  then Thrown (str "Failed to create PR: " ++ stderr result)
  else
    let url := trim (stdout result) in
    let prNumber :=
      match matchGroup pullPattern url 1 with
      | Some (Some g) => if nonEmpty g then parseInt10 g else Int 0
      | _ => Int 0
      end in
    Returned {| url := url; number := prNumber |}.

End PrBody.

(** ** Asynchronous functions over a set of calls *)

Module Flow.

Import Parse.

Section Programs.

(** The calls a function can make, each with the type of its answer. *)
Variable call : Type -> Type.

(** An asynchronous function body: it returns, throws, or makes a call
    and goes on with the answer. *)
Inductive prog (R : Type) : Type :=
| Ret (r : R)
| Throw (message : jsstring)
| Do (X : Type) (c : call X) (k : X -> prog R).
Arguments Ret {R} r.
Arguments Throw {R} message.
Arguments Do {R X} c k.

Fixpoint bind {A B} (p : prog A) (f : A -> prog B) : prog B :=
  match p with
  | Ret a => f a
  | Throw msg => Throw msg
  | Do c k => Do c (fun x => bind (k x) f)
  end.

(** [await f(...)] for a call that may throw. *)
Definition await {A} (c : call (outcome A)) : prog A :=
  Do c (fun o => match o with
                 | Returned a => Ret a
                 | Thrown msg => Throw msg
                 end).

(** A call that does not throw. *)
Definition ask {A} (c : call A) : prog A := Do c Ret.

(** [try { p } catch (err) { handler(err.message) }] *)
Fixpoint tryCatch {A} (p : prog A) (handler : jsstring -> prog A) : prog A :=
  match p with
  | Ret a => Ret a
  | Throw msg => handler msg
  | Do c k => Do c (fun x => tryCatch (k x) handler)
  end.

Inductive logged :=
| Logged (X : Type) (c : call X).
Arguments Logged {X} c.

(** The world answers every call; its answer may depend on everything
    that was called before. *)
Definition world := forall X : Type, list logged -> call X -> X.

(** The calls made, in order, and the way the function ended. *)
Fixpoint run {R} (w : world) (p : prog R) (history : list logged)
  : list logged * outcome R :=
  match p with
  | Ret r => (history, Returned r)
  | Throw msg => (history, Thrown msg)
  | Do c k => run w (k (w _ history c)) (history ++ [Logged c])
  end.

End Programs.

Arguments Ret {call R} r.
Arguments Throw {call R} message.
Arguments Do {call R X} c k.
Arguments bind {call A B} p f.
Arguments await {call A} c.
Arguments ask {call A} c.
Arguments tryCatch {call A} p handler.
Arguments Logged {call X} c.
Arguments run {call R} w p history.

End Flow.

(** ** [tool.ts] and [index.ts]: the [start] and [pr-update] actions and
    the labels that follow them *)

Module Actions.

Import Parse Github Flow.

(** The fields of [GhIssue] the actions read. *)
Record Issue := {
  number : Z;
  title : jsstring;
  state : jsstring;
  body : jsstring
}.

(** The issue, as [getIssueSessionName] and [getIssueBranchName] take
    it. *)
Definition ref (issue : Issue) : IssueRef :=
  {| Utils.number := number issue; Utils.title := title issue |}.

(** What [getPrForBranch] answers. *)
Record PullRequest := { pullNumber : Z; pullUrl : jsstring }.

(** A session of [SessionManager.listAll()]; its name may be missing. *)
Record SessionInfo := { name : option jsstring }.

(** The calls the two actions make on the host, on the Gateway
    ([github.ts]) and on the small model.  [SignalAborted] reads
    [signal?.aborted]; [SmallModel] stands for [getSmallModel] and
    [complete] inside [generatePrUpdateSummary]. *)
Inductive call : Type -> Type :=
| CheckGhCli : call (outcome bool)
| SignalAborted : call bool
| GetIssue (n : Z) : call (outcome Issue)
| GetCurrentBranch : call (outcome jsstring)
| HasUncommittedChanges : call (outcome bool)
| PullBranch : call (outcome unit)
| BranchExists (branch : jsstring) : call (outcome bool)
| CheckoutBranch (branch : jsstring) : call (outcome unit)
| CheckoutNewBranch (branch : jsstring) : call (outcome unit)
| ListSessions : call (outcome (list SessionInfo))
| GetPrForBranch (branch : jsstring) : call (outcome (option PullRequest))
| GetUnpushedCommits (branch : jsstring) : call (outcome (list Commit))
| PushBranch (branch : jsstring) : call (outcome unit)
| SmallModel : call PrBody.Completion
| AddPrComment (prNumber : Z) (comment : jsstring) : call (outcome unit).

Notation "x <- p ;; q" := (bind p (fun x => q))
  (at level 61, p at next level, right associativity).

(** The fields of [GhTodoDetails] the two actions set. *)
Record Details := {
  action : jsstring;
  error : option jsstring;
  issue : option Issue;
  sessionName : option jsstring;
  sessionExists : option bool;
  prUrl : option jsstring;
  prNumber : option Z;
  commentOnly : option bool
}.

(** [{ action }] *)
Definition only (act : jsstring) : Details :=
  {| action := act; error := None; issue := None; sessionName := None;
     sessionExists := None; prUrl := None; prNumber := None;
     commentOnly := None |}.

(** The tool result; [isError] absent reads as [false]. *)
Record ToolResult := {
  text : jsstring;
  details : Details;
  isError : bool
}.

(** [{ content: "Cancelled", details: { action: params.action } }] *)
Definition cancelled (act : jsstring) : ToolResult :=
  {| text := str "Cancelled"; details := only act; isError := false |}.

(** [if (signal?.aborted) return Cancelled], then the rest. *)
Definition unlessAborted (act : jsstring) (rest : prog call ToolResult)
  : prog call ToolResult :=
  aborted <- ask SignalAborted ;;
  if (aborted : bool) then Ret (cancelled act) else rest.

(** [execute] around the case of one action: the test for the GitHub
    CLI, the first test of the signal, and the [catch] of the switch. *)
Definition execute (act : jsstring) (case : prog call ToolResult)
  : prog call ToolResult :=
  gh <- await CheckGhCli ;;
  if negb gh then
    Ret {| text := str "Error: GitHub CLI (gh) is not installed or not in PATH. Install it with: brew install gh";
           details := {| action := act; error := Some (str "gh CLI not found");
                         issue := None; sessionName := None;
                         sessionExists := None; prUrl := None;
                         prNumber := None; commentOnly := None |};
           isError := true |}
  else
  aborted <- ask SignalAborted ;;
  if (aborted : bool) then
    Ret {| text := str "Cancelled";
           details := {| action := act; error := Some (str "Cancelled");
                         issue := None; sessionName := None;
                         sessionExists := None; prUrl := None;
                         prNumber := None; commentOnly := None |};
           isError := false |}
  else
  tryCatch case
    (fun message =>
       aborted <- ask SignalAborted ;;
       if (aborted : bool) then
         Ret {| text := str "Cancelled";
                details := {| action := act; error := Some (str "Cancelled");
                              issue := None; sessionName := None;
                              sessionExists := None; prUrl := None;
                              prNumber := None; commentOnly := None |};
                isError := false |}
       else
         Ret {| text := str "Error: " ++ message;
                details := {| action := act; error := Some message;
                              issue := None; sessionName := None;
                              sessionExists := None; prUrl := None;
                              prNumber := None; commentOnly := None |};
                isError := true |}).

(** *** [case "pr-update"] *)

Definition prUpdate : jsstring := str "pr-update".

(** An error result of [pr-update]; [pr] is known from the third test
    on. *)
Definition updateError (msg err : jsstring) (pr : option PullRequest)
           (isErr : bool) : ToolResult :=
  {| text := msg;
     details := {| action := prUpdate; error := Some err; issue := None;
                   sessionName := None; sessionExists := None;
                   prUrl := option_map pullUrl pr;
                   prNumber := option_map pullNumber pr;
                   commentOnly := None |};
     isError := isErr |}.

Definition prUpdateAction (ctx : ExtensionContext) : prog call ToolResult :=
  (* Get current branch *)
  currentBranch <- await GetCurrentBranch ;;
  unlessAborted prUpdate (
  (* Get PR for current branch *)
  found <- await (GetPrForBranch currentBranch) ;;
  match found with
  | None =>
      Ret (updateError
             (str "Error: No PR found for current branch. Create a PR first with the 'pr' action.")
             (str "no PR found") None true)
  | Some pr =>
  unlessAborted prUpdate (
  (* Verify there's a PR checkpoint label *)
  let checkpointId := findLastPrCheckpointEntryId ctx in
  if negb (match checkpointId with Some i => nonEmpty i | None => false end)
  then Ret (updateError
              (str "Error: No PR checkpoint found. Create a PR first with the 'pr' action.")
              (str "no PR checkpoint") None true)
  else
  (* Check for uncommitted changes *)
  dirty <- await HasUncommittedChanges ;;
  if (dirty : bool)
  then Ret (updateError
              (str "Error: You have uncommitted changes. Commit them before running pr-update.")
              (str "uncommitted changes") None true)
  else
  unlessAborted prUpdate (
  (* Gather scoped data *)
  commits <- await (GetUnpushedCommits currentBranch) ;;
  let scopedContext := gatherScopedSessionContext ctx in
  let hasCommits := 0 <? Z.of_nat (length commits) in
  let hasContext := 0 <? len (trim scopedContext) in
  unlessAborted prUpdate (
  (* Nothing to do *)
  if negb hasCommits && negb hasContext then
    Ret {| text := str "Nothing to update on PR #"
                   ++ numberToString (pullNumber pr)
                   ++ str ". No unpushed commits and no new session activity since last checkpoint.";
           details := {| action := prUpdate; error := None; issue := None;
                         sessionName := None; sessionExists := None;
                         prUrl := Some (pullUrl pr);
                         prNumber := Some (pullNumber pr);
                         commentOnly := None |};
           isError := false |}
  else
  (* Push if there are commits *)
  pushed <- (if hasCommits
             then tryCatch
                    (_ <- await (PushBranch currentBranch) ;; Ret None)
                    (fun message =>
                       Ret (Some (updateError
                                    (str "Error pushing branch: " ++ message)
                                    (str "push failed: " ++ message)
                                    (Some pr) true)))
             else Ret None) ;;
  match pushed with
  | Some pushError => Ret pushError
  | None =>
  unlessAborted prUpdate (
  (* Auto-generate summary *)
  ai <- ask SmallModel ;;
  let commentBody :=
    PrBody.generatePrUpdateSummary scopedContext commits (pullNumber pr) ai in
  unlessAborted prUpdate (
  (* Post comment to PR *)
  posted <- tryCatch
              (_ <- await (AddPrComment (pullNumber pr) commentBody) ;;
               Ret None)
              (fun message =>
                 let errMsg :=
                   if hasCommits
                   then str "Pushed changes but failed to post comment: "
                        ++ message
                   else str "Failed to post comment: " ++ message in
                 Ret (Some (updateError errMsg
                              (str "comment failed: " ++ message)
                              (Some pr) (negb hasCommits)))) ;;
  match posted with
  | Some commentError => Ret commentError
  | None =>
      let commentOnly := negb hasCommits in
      let statusMsg :=
        if commentOnly
        then str "Commented on PR #" ++ numberToString (pullNumber pr)
             ++ str " (no code changes)" ++ [LF] ++ pullUrl pr
        else str "Pushed " ++ numberToString (Z.of_nat (length commits))
             ++ str " commit(s) and commented on PR #"
             ++ numberToString (pullNumber pr) ++ [LF] ++ pullUrl pr in
      Ret {| text := statusMsg;
             details := {| action := prUpdate; error := None; issue := None;
                           sessionName := None; sessionExists := None;
                           prUrl := Some (pullUrl pr);
                           prNumber := Some (pullNumber pr);
                           commentOnly := Some commentOnly |};
             isError := false |}
  end))
  end)))
  end).

(** *** The [tool_result] hook

    The hook registered beside the tool, which labels the leaf of the
    session after a PR action.  [details] is [GhTodoDetails | undefined], [leafId] what
    [getLeafId()] answers; the result is the call of [pi.setLabel], if
    one is made. *)
Definition onToolResult (toolName : jsstring) (details : option Details)
           (leafId : option jsstring) : option (jsstring * jsstring) :=
  if negb (strEq toolName (str "gh_todo")) then None
  else
    match details with
    | None => None
    | Some d =>
        if match error d with Some e => nonEmpty e | None => false end
        then None
        else
          match leafId with
          | None => None
          | Some leaf =>
              if negb (nonEmpty leaf) then None
              else if strEq (action d) (str "pr")
                   then Some (leaf, PR_LABEL_CREATED)
              else if strEq (action d) (str "pr-update")
                      && match commentOnly d with
                         | Some _ => true
                         | None => false
                         end
                   then Some (leaf, PR_LABEL_UPDATED)
              else None
          end
    end.

(** The action ended on a comment that was posted: its last call is
    [addPrComment], which returned. *)
Definition commentPosted (w : world call) (calls : list (logged call)) : bool :=
  match rev calls with
  | Logged (AddPrComment n comment) :: before =>
      match w _ (rev before) (AddPrComment n comment) with
      | Returned _ => true
      | Thrown _ => false
      end
  | _ => false
  end.

Definition isPushBranch (l : logged call) : bool :=
  match l with
  | Logged (PushBranch _) => true
  | Logged _ => false
  end.

Definition isAddPrComment (l : logged call) : bool :=
  match l with
  | Logged (AddPrComment _ _) => true
  | Logged _ => false
  end.

(** The comments posted, in order: pull request and text. *)
Definition commentsPosted (calls : list (logged call)) : list (Z * jsstring) :=
  flat_map (fun l => match l with
                     | Logged (AddPrComment n comment) => [(n, comment)]
                     | Logged _ => []
                     end) calls.

(** *** [case "start"] *)

Definition start : jsstring := str "start".

(** [git pull], [git checkout] and [git checkout -b]: the calls of
    [start] that change the working tree. *)
Definition changesTree (l : logged call) : bool :=
  match l with
  | Logged PullBranch => true
  | Logged (CheckoutBranch _) => true
  | Logged (CheckoutNewBranch _) => true
  | Logged _ => false
  end.

(** The branches checked out, in order. *)
Definition checkedOut (calls : list (logged call)) : list jsstring :=
  flat_map (fun l => match l with
                     | Logged (CheckoutBranch b) => [b]
                     | Logged (CheckoutNewBranch b) => [b]
                     | Logged _ => []
                     end) calls.

Section Start.

(** The two pieces of the texts of [start] that lie outside the code
    units this development covers: the dash of [No session yet - use
    /todo] and the sign in front of [Warning:]. *)
Variables emDash warningSign : jsstring.

(** The local [branchInfo], or the result returned on the way. *)
Definition onBranch (issue : Issue) (currentBranch targetBranch : jsstring)
  : prog call (ToolResult + jsstring) :=
  if isMainBranch currentBranch then
    (* Check for uncommitted changes before switching *)
    dirty <- await HasUncommittedChanges ;;
    if (dirty : bool) then
      Ret (inl {| text := str "Error: You have uncommitted changes on "
                          ++ currentBranch
                          ++ str ". Commit or stash them before starting a todo.";
                  details := {| action := start;
                                error := Some (str "uncommitted changes");
                                issue := Some issue; sessionName := None;
                                sessionExists := None; prUrl := None;
                                prNumber := None; commentOnly := None |};
                  isError := true |})
    else
    aborted <- ask SignalAborted ;;
    if (aborted : bool) then Ret (inl (cancelled start)) else
    (* Pull main to ensure it's up-to-date *)
    pulled <- tryCatch
                (_ <- await PullBranch ;;
                 Ret (str "Pulled " ++ currentBranch ++ str " to latest."
                      ++ [LF]))
                (fun msg =>
                   Ret (str "Warning: Failed to pull " ++ currentBranch
                        ++ str ": " ++ msg ++ [LF])) ;;
    aborted <- ask SignalAborted ;;
    if (aborted : bool) then Ret (inl (cancelled start)) else
    (* Create or checkout the todo branch *)
    present <- await (BranchExists targetBranch) ;;
    if (present : bool) then
      _ <- await (CheckoutBranch targetBranch) ;;
      Ret (inr (pulled ++ str "Checked out existing branch: "
                ++ targetBranch ++ [LF]))
    else
      _ <- await (CheckoutNewBranch targetBranch) ;;
      Ret (inr (pulled ++ str "Created and checked out branch: "
                ++ targetBranch ++ [LF]))
  else if strEq currentBranch targetBranch then
    Ret (inr (str "Already on branch: " ++ targetBranch ++ [LF]))
  else
    Ret (inr (str "On branch: " ++ currentBranch ++ str " (expected "
              ++ targetBranch ++ str ")" ++ [LF])).

Definition startAction (number : option Z) : prog call ToolResult :=
  match number with
  | None =>
      Ret {| text := str "Error: 'number' is required for 'start' action";
             details := {| action := start;
                           error := Some (str "number required");
                           issue := None; sessionName := None;
                           sessionExists := None; prUrl := None;
                           prNumber := None; commentOnly := None |};
             isError := true |}
  | Some n =>
  issue <- await (GetIssue n) ;;
  unlessAborted start (
  let sessionName := getIssueSessionName (ref issue) in
  let targetBranch := getIssueBranchName (ref issue) in
  (* Ensure we're not on the default branch *)
  currentBranch <- await GetCurrentBranch ;;
  unlessAborted start (
  info <- onBranch issue currentBranch targetBranch ;;
  match info with
  | inl result => Ret result
  | inr branchInfo =>
  (* Check for Pi Agent Notes *)
  let agentNotes := extractPiSection (body issue) in
  let hasNotes :=
    match agentNotes with
    | Some notes => nonEmpty notes && (0 <? len (trim notes))
    | None => false
    end in
  (* Check if a session for this issue exists *)
  sessions <- await ListSessions ;;
  let existingSession :=
    find (fun s => sessionMatchesIssue (name s) (Actions.number issue))
         sessions in
  let heading :=
    str "Issue #" ++ numberToString (Actions.number issue) ++ str ": "
    ++ title issue ++ [LF] ++ branchInfo in
  let text1 :=
    match existingSession with
    | Some s =>
        heading ++ str "Session exists: "
        ++ quoted (match name s with Some nm => nm | None => str "undefined" end)
        ++ [LF] ++ str "Use /resume and search for "
        ++ quoted (str "#" ++ numberToString (Actions.number issue))
        ++ str " to continue."
    | None =>
        heading ++ str "Branch is ready. No session yet " ++ emDash
        ++ str " use /todo and press 's' to create one (the tool cannot create sessions)."
    end in
  (* Add warning if notes are empty *)
  let text2 :=
    if negb hasNotes
    then text1 ++ [LF; LF] ++ warningSign
         ++ str " Warning: Pi Agent Notes are empty. Consider using 'plan' to understand the issue and 'update' to add notes before starting work."
    else text1 in
  let text3 :=
    text2 ++ [LF; LF]
    ++ str "Do not create a PR unless the user explicitly asks for it." in
  Ret {| text := text3;
         details := {| action := start; error := None; issue := Some issue;
                       sessionName :=
                         Some (match existingSession with
                               | Some {| name := Some nm |} => nm
                               | _ => sessionName
                               end);
                       sessionExists :=
                         Some (match existingSession with
                               | Some _ => true
                               | None => false
                               end);
                       prUrl := None; prNumber := None;
                       commentOnly := None |};
         isError := false |}
  end))
  end.

End Start.

End Actions.

(** ** The auto-commit extension: commit messages and [/undo] *)

Module AutoCommit.

Import Parse Github Flow.

(** [truncateText]; [Math.floor(maxLength / 2)] is the quotient rounded
    down. *)
Definition truncateText (text : jsstring) (maxLength : Z) : jsstring :=
  if len text <=? maxLength then text
  else
    let half := maxLength / 2 in
    slice text 0 half ++ [LF] ++ str "..." ++ [LF] ++ sliceFrom text (- half).

(** [xs[0] || ""] on the pieces of a split. *)
Definition firstOr (pieces : list jsstring) : jsstring :=
  match pieces with
  | piece :: _ => piece
  | [] => []
  end.

Definition generateFallbackSummary (userPrompt : jsstring) : jsstring :=
  let changes := str "changes" in
  if nonEmpty userPrompt then
    let firstLine := firstOr (split LF userPrompt) in
    let summary := slice firstLine 0 50
                   ++ (if 50 <? len firstLine then str "..." else []) in
    if 5 <=? len (trim summary) then summary else changes
  else changes.

(** The calls of the extension: the command line, the model registry,
    the completion API and the user interface. *)
Inductive call : Type -> Type :=
| Exec (command : jsstring) (args : list jsstring) : call (outcome ExecResult)
| GetModel : call bool
| GetApiKey : call (outcome bool)
| Complete (prompt : jsstring) : call (outcome (list ContentBlock))
| Notify (message kind : jsstring) : call (outcome unit)
| Confirm (title message : jsstring) : call (outcome bool).

Notation "x <- p ;; q" := (bind p (fun x => q))
  (at level 61, p at next level, right associativity).

(** [generateCommitSummary]; [GetModel] and [GetApiKey] tell whether a
    model and a key were found. *)
Definition generateCommitSummary (assistantText : jsstring)
  : prog call (option jsstring) :=
  model <- ask GetModel ;;
  if negb model then Ret None else
  apiKey <- await GetApiKey ;;
  if negb apiKey then Ret None else
  let truncated := truncateText assistantText 2000 in
  tryCatch
    (content <- await
       (Complete
          (str "Summarize the following assistant response as a single short sentence (max 50 chars) suitable for a git commit message. Focus on what was accomplished. Do not include quotes or punctuation at the end."
           ++ [LF; LF] ++ truncated)) ;;
     let summary := slice (trim (PrBody.textOf content)) 0 50 in
     Ret (if 5 <=? len summary then Some summary else None))
    (fun _ => Ret None).

(** [performCommit]; [inGitRepo], [assistantText] and [userPrompt] are
    the variables of the extension it reads, [hasUI] is [ctx.hasUI]. *)
Definition performCommit (inGitRepo hasUI skipHaiku : bool)
           (assistantText userPrompt : jsstring) : prog call unit :=
  if negb inGitRepo then Ret tt else
  tryCatch
    ((* Stage all changes *)
     added <- await (Exec (str "git") [str "add"; str "-A"]) ;;
     if negb (code added =? 0) then Ret tt else
     (* Check if there are any staged changes to commit *)
     diff <- await (Exec (str "git")
                         [str "diff"; str "--cached"; str "--quiet"]) ;;
     if code diff =? 0 then Ret tt else
     (* Generate commit message *)
     summary <- (if negb skipHaiku && nonEmpty assistantText then
                   haikuSummary <- generateCommitSummary assistantText ;;
                   Ret (match haikuSummary with
                        | Some s => s
                        | None => generateFallbackSummary userPrompt
                        end)
                 else Ret (generateFallbackSummary userPrompt)) ;;
     let commitMessage := str "pi: " ++ summary in
     (* Commit the changes *)
     committed <- await (Exec (str "git")
                              [str "commit"; str "-m"; commitMessage]) ;;
     if (code committed =? 0) && hasUI then
       await (Notify (str "Auto-committed: " ++ commitMessage) (str "info"))
     else Ret tt)
    (fun _ => Ret tt).

(** [if (ctx.hasUI) ctx.ui.notify(message, kind)] *)
Definition notifyIf (hasUI : bool) (message kind : jsstring)
  : prog call unit :=
  if hasUI then await (Notify message kind) else Ret tt.

(** The handler of [/undo].  The value caught is an [Error], which the
    template literal prints as [Error: ] and its message. *)
Definition undo (inGitRepo hasUI : bool) : prog call unit :=
  if negb inGitRepo then
    notifyIf hasUI (str "Not in a git repository") (str "warning")
  else
  tryCatch
    ((* Check if the last commit was a pi auto-commit *)
     logged <- await (Exec (str "git")
                           [str "log"; str "-1"; str "--pretty=%s"]) ;;
     if negb (code logged =? 0) then
       notifyIf hasUI (str "No commits to undo") (str "warning")
     else
     let message := trim (stdout logged) in
     proceed <- (if negb (startsWith message (str "pi:")) then
                   if hasUI then
                     await (Confirm (str "Not a pi commit")
                                    (str "Last commit: " ++ quoted message
                                     ++ [LF; LF] ++ str "Undo it anyway?"))
                   else
                     (* In non-interactive mode, only undo pi commits *)
                     Ret false
                 else Ret true) ;;
     if negb proceed then Ret tt else
     (* Perform the undo *)
     reset <- await (Exec (str "git")
                          [str "reset"; str "--hard"; str "HEAD~1"]) ;;
     if code reset =? 0
     then notifyIf hasUI (str "Undone: " ++ message) (str "info")
     else notifyIf hasUI (str "Failed to undo commit") (str "error"))
    (fun error =>
       notifyIf hasUI (str "Error: " ++ str "Error: " ++ error) (str "error")).

(** The messages of the [git commit] calls made. *)
Definition commitMessages (calls : list (logged call)) : list jsstring :=
  flat_map (fun l => match l with
                     | Logged (Exec command [verb; flag; message]) =>
                         if strEq command (str "git")
                            && strEq verb (str "commit")
                            && strEq flag (str "-m")
                         then [message] else []
                     | Logged _ => []
                     end) calls.

(** [git reset] is among the calls made. *)
Definition isReset (l : logged call) : bool :=
  match l with
  | Logged (Exec command (verb :: _)) =>
      strEq command (str "git") && strEq verb (str "reset")
  | Logged _ => false
  end.

End AutoCommit.

(** ** [ui.ts]: the list of todos *)

Module Ui.

Record Issue := {
  number : Z;
  title : jsstring;
  state : jsstring;
  url : jsstring
}.

(** [xs.length] *)
Definition lenOf {A} (xs : list A) : Z := Z.of_nat (length xs).

(** ["list" | "add" | "detail"] *)
Inductive ViewMode := ListMode | AddMode | DetailMode.

(** ["title" | "body"] *)
Inductive AddStep := TitleStep | BodyStep.

(** The fields of [TodoListComponent] that its methods read and write;
    the editor, the render cache and the callbacks are outside, and
    reached by the effects below.  The editor calls back into the
    component: what it submits while it handles an input is a parameter
    of [handleInput]. *)
Record State := {
  issues : list Issue;
  selectedIndex : Z;
  viewMode : ViewMode;
  statusMessage : jsstring;
  statusType : jsstring;
  isLoading : bool;
  addStep : AddStep;
  newTitle : jsstring;
  newBody : jsstring
}.

(** What a method does to the world around the component, in order. *)
Inductive Effect :=
| Invalidate                            (* this.invalidate() *)
| RequestRender                         (* this.tui.requestRender() *)
| Close                                 (* this.onClose() *)
| EditorSetText (text : jsstring)       (* this.editor.setText(text) *)
| EditorHandleInput (data : jsstring)   (* this.editor.handleInput(data) *)
| Action (name : jsstring) (issue : option Issue)
         (title body : option jsstring). (* this.onAction(...) *)

(** An element of [allDisplayItems]. *)
Inductive Item :=
| Header (label : jsstring)
| Entry (issue : Issue).

Definition openIssues (s : State) : list Issue :=
  filter (fun i => strEq (state i) (str "open")) (issues s).

Definition closedIssues (s : State) : list Issue :=
  filter (fun i => strEq (state i) (str "closed")) (issues s).

Definition allDisplayItems (s : State) : list Item :=
  (if 0 <? lenOf (openIssues s)
   then Header (str "Open") :: map Entry (openIssues s) else [])
  ++ (if 0 <? lenOf (closedIssues s)
      then Header (str "Closed") :: map Entry (closedIssues s) else []).

(** [items.map((item, idx) => ...)], [idx] counting from [i]. *)
Fixpoint mapIndexed {A B} (f : A -> Z -> B) (items : list A) (i : Z)
  : list B :=
  match items with
  | [] => []
  | item :: items' => f item i :: mapIndexed f items' (i + 1)
  end.

(** [(item, idx) => (item.type === "issue" ? idx : -1)] *)
Definition indexOfEntry (item : Item) (idx : Z) : Z :=
  match item with
  | Entry _ => idx
  | Header _ => -1
  end.

Definition selectableIndices (s : State) : list Z :=
  filter (fun idx => 0 <=? idx)
         (mapIndexed indexOfEntry (allDisplayItems s) 0).

(** [selectedIssue]: [undefined] is [None]. *)
Definition selectedIssue (s : State) : option Issue :=
  let indices := selectableIndices s in
  if (selectedIndex s <? 0) || (lenOf indices <=? selectedIndex s) then None
  else
    match nth_error indices (Z.to_nat (selectedIndex s)) with
    | None => None
    | Some displayIdx =>
        match nth_error (allDisplayItems s) (Z.to_nat displayIdx) with
        | Some (Entry issue) => Some issue
        | _ => None
        end
    end.

Definition withSelectedIndex (s : State) (k : Z) : State :=
  {| issues := issues s; selectedIndex := k; viewMode := viewMode s;
     statusMessage := statusMessage s; statusType := statusType s;
     isLoading := isLoading s; addStep := addStep s;
     newTitle := newTitle s; newBody := newBody s |}.

Definition updateIssues (s : State) (newIssues : list Issue)
  : State * list Effect :=
  let s1 := {| issues := newIssues; selectedIndex := selectedIndex s;
               viewMode := viewMode s; statusMessage := statusMessage s;
               statusType := statusType s; isLoading := isLoading s;
               addStep := addStep s; newTitle := newTitle s;
               newBody := newBody s |} in
  (* Adjust selection if needed *)
  let s2 := if lenOf newIssues <=? selectedIndex s1
            then withSelectedIndex s1 (Z.max 0 (lenOf newIssues - 1))
            else s1 in
  (s2, [Invalidate; RequestRender]).

(** [setStatus(message, type)] *)
Definition setStatus (s : State) (message type : jsstring)
  : State * list Effect :=
  ({| issues := issues s; selectedIndex := selectedIndex s;
      viewMode := viewMode s; statusMessage := message;
      statusType := type; isLoading := isLoading s;
      addStep := addStep s; newTitle := newTitle s;
      newBody := newBody s |},
   [Invalidate; RequestRender]).

(** [handleEditorSubmit(value)], the [onSubmit] of the editor: the
    title first, which must not be blank, then the body, with which the
    issue is added. *)
Definition handleEditorSubmit (s : State) (value : jsstring)
  : State * list Effect :=
  match addStep s with
  | TitleStep =>
      let s1 := {| issues := issues s; selectedIndex := selectedIndex s;
                   viewMode := viewMode s; statusMessage := statusMessage s;
                   statusType := statusType s; isLoading := isLoading s;
                   addStep := addStep s; newTitle := trim value;
                   newBody := newBody s |} in
      if negb (nonEmpty (newTitle s1)) then
        setStatus s1 (str "Title cannot be empty") (str "error")
      else
        ({| issues := issues s1; selectedIndex := selectedIndex s1;
            viewMode := viewMode s1; statusMessage := statusMessage s1;
            statusType := statusType s1; isLoading := isLoading s1;
            addStep := BodyStep; newTitle := newTitle s1;
            newBody := newBody s1 |},
         [EditorSetText []; Invalidate; RequestRender])
  | BodyStep =>
      let body := trim value in
      let title := newTitle s in
      ({| issues := issues s; selectedIndex := selectedIndex s;
          viewMode := ListMode; statusMessage := statusMessage s;
          statusType := statusType s;
          (* Set loading BEFORE triggering action *)
          isLoading := true;
          addStep := TitleStep; newTitle := []; newBody := [] |},
       [EditorSetText []; Invalidate; RequestRender;
        (* Trigger async action *)
        Action (str "add") None (Some title) (Some body)])
  end.

(** The calls of [onSubmit] that the editor makes while it handles one
    input, in order. *)
Fixpoint submitAll (s : State) (values : list jsstring)
  : State * list Effect :=
  match values with
  | [] => (s, [])
  | value :: values' =>
      let (s1, effects) := handleEditorSubmit s value in
      let (s2, effects') := submitAll s1 values' in
      (s2, effects ++ effects')
  end.

Section Keys.

(** [matchesKey(data, key)] of the terminal library. *)
Variable matchesKey : jsstring -> jsstring -> bool.

(** The values that the editor of the terminal library submits (calls
    [onSubmit] with) while it handles the input [data]: none for an
    input that only edits the text. *)
Variable editorSubmits : jsstring -> list jsstring.

(** [data === "a" || data === "A"] and the like. *)
Definition isLetter (data lower upper : jsstring) : bool :=
  strEq data lower || strEq data upper.

(** [if (issue && issue.state === wanted) this.onAction(name, issue)] *)
Definition actionOn (s : State) (name wanted : jsstring) : list Effect :=
  match selectedIssue s with
  | Some issue =>
      if strEq (state issue) wanted
      then [Action name (Some issue) None None] else []
  | None => []
  end.

Definition handleInput (s : State) (data : jsstring) : State * list Effect :=
  if isLoading s then (s, []) else
  match viewMode s with
  | AddMode =>
      (* Handle add mode *)
      if matchesKey data (str "escape") then
        ({| issues := issues s; selectedIndex := selectedIndex s;
            viewMode := ListMode; statusMessage := statusMessage s;
            statusType := statusType s; isLoading := isLoading s;
            addStep := TitleStep; newTitle := []; newBody := [] |},
         [EditorSetText []; Invalidate; RequestRender])
      else
        let (s1, effects) := submitAll s (editorSubmits data) in
        (s1, EditorHandleInput data :: effects ++ [Invalidate; RequestRender])
  | DetailMode =>
      (* Handle detail mode *)
      if matchesKey data (str "escape") || matchesKey data (str "return") then
        ({| issues := issues s; selectedIndex := selectedIndex s;
            viewMode := ListMode; statusMessage := statusMessage s;
            statusType := statusType s; isLoading := isLoading s;
            addStep := addStep s; newTitle := newTitle s;
            newBody := newBody s |},
         [Invalidate; RequestRender])
      else (s, [])
  | ListMode =>
      if matchesKey data (str "escape") || matchesKey data (str "q") then
        (s, [Close])
      else
      let indices := selectableIndices s in
      (* Navigation *)
      if matchesKey data (str "up") || matchesKey data (str "k") then
        if 0 <? selectedIndex s
        then (withSelectedIndex s (selectedIndex s - 1),
              [Invalidate; RequestRender])
        else (s, [])
      else if matchesKey data (str "down") || matchesKey data (str "j") then
        if selectedIndex s <? lenOf indices - 1
        then (withSelectedIndex s (selectedIndex s + 1),
              [Invalidate; RequestRender])
        else (s, [])
      (* View detail *)
      else if matchesKey data (str "return") then
        match selectedIssue s with
        | Some _ =>
            ({| issues := issues s; selectedIndex := selectedIndex s;
                viewMode := DetailMode; statusMessage := statusMessage s;
                statusType := statusType s; isLoading := isLoading s;
                addStep := addStep s; newTitle := newTitle s;
                newBody := newBody s |},
             [Invalidate; RequestRender])
        | None => (s, [])
        end
      (* Add new issue *)
      else if isLetter data (str "a") (str "A") then
        ({| issues := issues s; selectedIndex := selectedIndex s;
            viewMode := AddMode; statusMessage := [];
            statusType := statusType s; isLoading := isLoading s;
            addStep := TitleStep; newTitle := newTitle s;
            newBody := newBody s |},
         [EditorSetText []; Invalidate; RequestRender])
      (* Open in browser *)
      else if isLetter data (str "o") (str "O") then
        (s, match selectedIssue s with
            | Some issue =>
                if nonEmpty (url issue)
                then [Action (str "open") (Some issue) None None] else []
            | None => []
            end)
      (* Start working on issue *)
      else if isLetter data (str "s") (str "S") then
        (s, actionOn s (str "start") (str "open"))
      (* Dismiss issue (close as not planned) *)
      else if isLetter data (str "x") (str "X") then
        (s, actionOn s (str "close") (str "open"))
      (* Reopen issue *)
      else if isLetter data (str "g") (str "G") then
        (s, actionOn s (str "reopen") (str "closed"))
      (* Add comment (session summary) without closing *)
      else if isLetter data (str "c") (str "C") then
        (s, actionOn s (str "comment") (str "open"))
      (* Refresh *)
      else if isLetter data (str "r") (str "R") then
        (s, [Action (str "refresh") None None None])
      else (s, [])
  end.

End Keys.

(** The scroll window of [render]: the display items from [startIdx] up
    to [endIdx], for [n] items of which the one at [selectedDisplayIdx]
    is selected. *)
Definition maxVisibleItems : Z := 15.

Definition scrollWindow (n selectedDisplayIdx : Z) : Z * Z :=
  if maxVisibleItems <? n then
    let halfWindow := maxVisibleItems / 2 in
    let startIdx := Z.max 0 (selectedDisplayIdx - halfWindow) in
    let endIdx := Z.min n (startIdx + maxVisibleItems) in
    if endIdx - startIdx <? maxVisibleItems
    then (Z.max 0 (endIdx - maxVisibleItems), endIdx)
    else (startIdx, endIdx)
  else (0, n).

(** The issues among display items. *)
Fixpoint entriesOf (items : list Item) : list Issue :=
  match items with
  | [] => []
  | Header _ :: items' => entriesOf items'
  | Entry issue :: items' => issue :: entriesOf items'
  end.

(** The issues of the display, in the order they are shown. *)
Definition shown (s : State) : list Issue := openIssues s ++ closedIssues s.

(** The selection is on a line of the list, or at the top of an empty
    list. *)
Definition selectionInRange (s : State) : Prop :=
  0 <= selectedIndex s <= Z.max 0 (lenOf (shown s) - 1).

(** A list of two open issues and a closed one, the second line
    selected; and a terminal whose keys are their own names. *)
Definition sampleState : State :=
  {| issues := [ {| number := 1; title := str "One"; state := str "open";
                    url := str "https://github.com/o/r/issues/1" |};
                 {| number := 2; title := str "Two"; state := str "closed";
                    url := str "https://github.com/o/r/issues/2" |};
                 {| number := 3; title := str "Three"; state := str "open";
                    url := str "https://github.com/o/r/issues/3" |} ];
     selectedIndex := 1; viewMode := ListMode; statusMessage := [];
     statusType := str "info"; isLoading := false; addStep := TitleStep;
     newTitle := []; newBody := [] |}.

Definition sampleKeys (data key : jsstring) : bool := strEq data key.

(** An editor that holds [notes] and submits them on [return]. *)
Definition sampleEditor (data : jsstring) : list jsstring :=
  if strEq data (str "return") then [str " notes "] else [].

(** The sample list while an issue is added, at the title or at the
    body. *)
Definition adding (step : AddStep) (title : jsstring) : State :=
  {| issues := issues sampleState; selectedIndex := 1; viewMode := AddMode;
     statusMessage := []; statusType := str "info"; isLoading := false;
     addStep := step; newTitle := title; newBody := [] |}.

End Ui.

(** ** Worlds and command lines to run the code in *)

Module Worlds.

Import Parse Tool.

(** A world with the GitHub CLI, never cancelled, standing on [branch] in
    a session named [session]; issues cannot be fetched. *)
Definition worldOn (branch : jsstring) (session : option jsstring) : world :=
  fun X h c =>
    match c in call X return X -> X with
    | GetCurrentBranch => fun _ => Returned branch
    | GetSessionName => fun _ => session
    | _ => fun d => d
    end (worldOnMain X h c).

(** A command line that answers [gh issue create] and [gh pr create]
    with the URL of item 12, and [git log] with two commits; every other
    command fails. *)
Definition sampleExec (command : jsstring) (args : list jsstring)
  : ExecResult :=
  match args with
  | kind :: verb :: _ =>
      if strEq command (str "gh") && strEq verb (str "create") then
        {| code := 0;
           stdout := str "https://github.com/o/r/"
                     ++ (if strEq kind (str "pr") then str "pull"
                         else str "issues")
                     ++ str "/12" ++ [LF];
           stderr := [] |}
      else if strEq command (str "git") && strEq kind (str "log") then
        {| code := 0;
           stdout := str "abc1234 Fix the parser" ++ [LF]
                     ++ str "def5678 Add tests" ++ [LF];
           stderr := [] |}
      else {| code := 1; stdout := []; stderr := str "failed" |}
  | _ => {| code := 1; stdout := []; stderr := str "failed" |}
  end.

(** A world for [start] and [pr-update] in which every call succeeds:
    on [branch], with a pull request, the given unpushed commits, issue 7
    and no session; pushing fails when [pushFails] is set. *)
Definition actionWorld (branch : jsstring) (commits : list Github.Commit)
           (pushFails : bool) : Flow.world Actions.call :=
  fun X h c =>
    match c in Actions.call X return X with
    | Actions.CheckGhCli => Returned true
    | Actions.SignalAborted => false
    | Actions.GetIssue n =>
        Returned {| Actions.number := n; Actions.title := str "Fix it";
                    Actions.state := str "open"; Actions.body := [] |}
    | Actions.GetCurrentBranch => Returned branch
    | Actions.HasUncommittedChanges => Returned false
    | Actions.PullBranch => Returned tt
    | Actions.BranchExists _ => Returned false
    | Actions.CheckoutBranch _ => Returned tt
    | Actions.CheckoutNewBranch _ => Returned tt
    | Actions.ListSessions => Returned []
    | Actions.GetPrForBranch _ =>
        Returned (Some {| Actions.pullNumber := 3;
                          Actions.pullUrl := str "https://github.com/o/r/pull/3" |})
    | Actions.GetUnpushedCommits _ => Returned commits
    | Actions.PushBranch _ =>
        if pushFails then Thrown (str "rejected") else Returned tt
    | Actions.SmallModel => PrBody.NoModel
    | Actions.AddPrComment _ _ => Returned tt
    end.

Definition oneCommit : list Github.Commit :=
  [ {| Github.hash := str "abc1234"; Github.message := str "Fix it" |} ].

(** A repository with staged changes whose last commit is one of
    auto-commit's; no model, and a user who declines. *)
Definition commitWorld : Flow.world AutoCommit.call :=
  fun X h c =>
    match c in AutoCommit.call X return X with
    | AutoCommit.Exec _ args =>
        Returned
          match args with
          | verb :: _ =>
              if strEq verb (str "diff")
              then {| code := 1; stdout := []; stderr := [] |}
              else if strEq verb (str "log")
              then {| code := 0; stdout := str "pi: changes" ++ [LF];
                      stderr := [] |}
              else {| code := 0; stdout := []; stderr := [] |}
          | [] => {| code := 0; stdout := []; stderr := [] |}
          end
    | AutoCommit.GetModel => false
    | AutoCommit.GetApiKey => Returned false
    | AutoCommit.Complete _ => Thrown []
    | AutoCommit.Notify _ _ => Returned tt
    | AutoCommit.Confirm _ _ => Returned false
    end.

End Worlds.

(** * Properties *)

(** Two different literal texts are different. *)
Ltac str_discr :=
  let H := fresh in intros H; vm_compute in H; discriminate H.

(** ** Facts about the string primitives *)

Section StringFacts.

Lemma startsWith_app (w r : jsstring) : startsWith (w ++ r) w = true.
Proof.
  induction w as [|c w IH]; simpl; [reflexivity|].
  now rewrite Ascii.eqb_refl, IH.
Qed.

Lemma startsWith_iff (s w : jsstring) :
  startsWith s w = true <-> exists r, s = w ++ r.
Proof.
  split.
  - revert s. induction w as [|c w IH]; intros s H.
    + now exists s.
    + destruct s as [|d s]; simpl in H; [discriminate|].
      apply andb_true_iff in H as [Hc Hw].
      apply Ascii.eqb_eq in Hc. subst d.
      destruct (IH _ Hw) as [r ->]. now exists r.
  - intros [r ->]. apply startsWith_app.
Qed.

Lemma startsWith_nil (s : jsstring) : startsWith s [] = true.
Proof. now destruct s. Qed.

Lemma strEq_true (a b : jsstring) : strEq a b = true <-> a = b.
Proof. unfold strEq. destruct (list_eq_dec ascii_dec a b); intuition congruence. Qed.

Lemma strEq_false (a b : jsstring) : strEq a b = false <-> a <> b.
Proof. unfold strEq. destruct (list_eq_dec ascii_dec a b); intuition congruence. Qed.

Lemma strEq_refl (a : jsstring) : strEq a a = true.
Proof. now apply strEq_true. Qed.

End StringFacts.

(** ** Session names *)

(** C4: a session name matches issue [n] exactly when it starts with the
    prefix [#n: ] (number, colon, space); the three sample names of
    the specification behave as stated. *)
Theorem sessionMatchesIssue_iff_prefix :
  (forall (s : jsstring) (n : Z),
      sessionMatchesIssue (Some s) n = true
      <-> exists rest, s = str "#" ++ numberToString n ++ str ": " ++ rest)
  /\ sessionMatchesIssue (Some (str "#12: Fix bug")) 12 = true
  /\ sessionMatchesIssue (Some (str "#12: Fix bug")) 1 = false
  /\ sessionMatchesIssue (Some (str "#120: x")) 12 = false.
Proof.
  split; [|now vm_compute].
  intros s n. unfold sessionMatchesIssue, getIssueSessionPrefix.
  destruct s as [|c s].
  - simpl. split; [discriminate|].
    intros [rest H]. discriminate H.
  - cbn [nonEmpty negb]. rewrite startsWith_iff.
    split; intros [rest H]; exists rest; rewrite H;
      now rewrite <- ?app_assoc.
Qed.

(** An absent session name matches no issue. *)
Lemma sessionMatchesIssue_undefined (n : Z) : sessionMatchesIssue None n = false.
Proof. reflexivity. Qed.

(** ** PR checkpoints *)

Section Checkpoints.

Variable ctx : ExtensionContext.

Lemma isCheckpointLabel_labelled (e : SessionEntry) :
  isCheckpointLabel (getLabel ctx (id e)) = true <-> labelled ctx e.
Proof.
  unfold isCheckpointLabel, labelled, PR_LABEL_CREATED, PR_LABEL_UPDATED.
  destruct (getLabel ctx (id e)) as [l|].
  - rewrite orb_true_iff, !strEq_true.
    split; (intros [H|H]; [left|right]); congruence.
  - split; [discriminate|]. intros [H|H]; discriminate.
Qed.

Lemma isCheckpointLabel_unlabelled (e : SessionEntry) :
  ~ labelled ctx e -> isCheckpointLabel (getLabel ctx (id e)) = false.
Proof.
  intros H. destruct (isCheckpointLabel _) eqn:E; [|reflexivity].
  now apply isCheckpointLabel_labelled in E.
Qed.

(** The backward scan walks over a run of unlabelled entries. *)
Lemma scanBack_skip (l2 : list SessionEntry) :
  forall l1 l3,
    Forall (fun e => ~ labelled ctx e) l2 ->
    scanBack ctx (l1 ++ l2 ++ l3) (length l1 + length l2)
    = scanBack ctx (l1 ++ l2 ++ l3) (length l1).
Proof.
  induction l2 as [|x l2 IH] using rev_ind; intros l1 l3 H.
  - now rewrite Nat.add_0_r.
  - apply Forall_app in H as [H2 Hx]. inversion Hx as [|? ? Hx' _]; subst.
    rewrite length_app. cbn [length].
    replace (length l1 + (length l2 + 1))%nat
      with (S (length l1 + length l2)) by lia.
    cbn [scanBack].
    replace (l1 ++ (l2 ++ [x]) ++ l3) with ((l1 ++ l2) ++ x :: l3)
      by now rewrite <- !app_assoc.
    rewrite nth_error_app2 by (rewrite length_app; lia).
    rewrite length_app, Nat.sub_diag. cbn [nth_error].
    rewrite isCheckpointLabel_unlabelled by assumption.
    replace ((l1 ++ l2) ++ x :: l3) with (l1 ++ l2 ++ ([x] ++ l3))
      by now rewrite <- !app_assoc.
    now apply IH.
Qed.

Lemma findLast_at (older newer : list SessionEntry) (e : SessionEntry) :
  getBranch ctx = older ++ e :: newer ->
  labelled ctx e ->
  Forall (fun e' => ~ labelled ctx e') newer ->
  findLastPrCheckpointEntryId ctx = Some (id e).
Proof.
  intros Hb He Hn. unfold findLastPrCheckpointEntryId. rewrite Hb.
  replace (older ++ e :: newer) with ((older ++ [e]) ++ newer ++ [])
    by now rewrite app_nil_r, <- app_assoc.
  replace (length ((older ++ [e]) ++ newer ++ []))
    with (length (older ++ [e]) + length newer)%nat
    by (rewrite !length_app; cbn [length]; lia).
  rewrite scanBack_skip by assumption.
  rewrite length_app. cbn [length].
  replace (length older + 1)%nat with (S (length older)) by lia.
  cbn [scanBack].
  rewrite <- app_assoc.
  rewrite nth_error_app2 by lia. rewrite Nat.sub_diag. cbn [app nth_error].
  now rewrite (proj2 (isCheckpointLabel_labelled e) He).
Qed.

Lemma findLast_none :
  Forall (fun e => ~ labelled ctx e) (getBranch ctx) ->
  findLastPrCheckpointEntryId ctx = None.
Proof.
  intros H. unfold findLastPrCheckpointEntryId.
  pose proof (scanBack_skip (getBranch ctx) [] [] H) as E.
  rewrite app_nil_r in E. cbn [app length Nat.add] in E.
  now rewrite E.
Qed.

End Checkpoints.

(** C6: the checkpoint lookup returns the id of the last entry of the
    branch that is labelled [pr-created] or [pr-update], whatever comes
    before it; it returns null when no entry is labelled;
    [getEntriesAfter(null)] is the whole branch; and on the branch
    [e1, e2 (pr-created), e3] the lookup answers [e2]. *)
Theorem findLastPrCheckpointEntryId_last_labelled :
  (forall ctx older e newer,
      getBranch ctx = older ++ e :: newer ->
      labelled ctx e ->
      Forall (fun e' => ~ labelled ctx e') newer ->
      findLastPrCheckpointEntryId ctx = Some (id e))
  /\ (forall ctx,
         Forall (fun e => ~ labelled ctx e) (getBranch ctx) ->
         findLastPrCheckpointEntryId ctx = None)
  /\ (forall ctx, getEntriesAfter ctx None = getBranch ctx)
  /\ findLastPrCheckpointEntryId sampleBranch = Some (str "e2").
Proof.
  split; [intros ctx older e newer; apply findLast_at|].
  split; [exact findLast_none|].
  split; [reflexivity|].
  now vm_compute.
Qed.

(** ** The context gatherer *)

Section Gatherer.

Lemma clampIndex_0 (n : Z) : 0 <= n -> clampIndex n 0 = 0.
Proof. intros H. unfold clampIndex. simpl. lia. Qed.

(** [s.slice(0, n)] keeps the first [n] code units. *)
Lemma slice_0_firstn (s : jsstring) (n : nat) :
  slice s 0 (Z.of_nat n) = firstn n s.
Proof.
  unfold slice, len.
  rewrite clampIndex_0 by lia. cbn [Z.to_nat skipn].
  unfold clampIndex.
  destruct (Z.of_nat n <? 0) eqn:E; [apply Z.ltb_lt in E; lia|].
  rewrite Z.sub_0_r.
  destruct (Z.min_spec (Z.of_nat n) (Z.of_nat (length s))) as [[H ->]|[H ->]].
  - now rewrite Nat2Z.id.
  - rewrite Nat2Z.id, !firstn_all2; trivial; lia.
Qed.

Lemma gatherLoop_total (f : SessionEntry -> jsstring) (l : list SessionEntry) :
  forall acc, gatherLoop (fun e => Some (f e)) l acc = acc ++ concat (map f l).
Proof.
  induction l as [|e l IH]; intros acc; cbn [gatherLoop map concat].
  - now rewrite app_nil_r.
  - now rewrite IH, app_assoc.
Qed.

Lemma scopedEntryText_entryText (e : SessionEntry) (line : jsstring) :
  scopedEntryText e = Some line -> line = entryText e.
Proof.
  unfold scopedEntryText, entryText.
  destruct (kind e) as [[[s|bs]|[s|bs]|t err d|]|];
    cbn [option_map mapBlocks asBlocks]; intros H;
    solve [discriminate H | now injection H as <-].
Qed.

(** The scoped loop renders the entries up to the first one whose body
    throws, exactly as the unscoped loop would. *)
Lemma gatherLoop_scoped (l : list SessionEntry) :
  forall acc, exists shown dropped,
    l = shown ++ dropped
    /\ gatherLoop scopedEntryText l acc = acc ++ concat (map entryText shown).
Proof.
  induction l as [|e l IH]; intros acc; cbn [gatherLoop].
  - exists [], []. split; [reflexivity|]. cbn. now rewrite app_nil_r.
  - destruct (scopedEntryText e) as [line|] eqn:E.
    + destruct (IH (acc ++ line)) as (shown & dropped & -> & ->).
      exists (e :: shown), dropped. split; [reflexivity|].
      cbn [map concat].
      now rewrite <- (scopedEntryText_entryText _ _ E), app_assoc.
    + exists [], (e :: l). split; [reflexivity|]. cbn. now rewrite app_nil_r.
Qed.

End Gatherer.

(** C5: whatever the history, both gatherers return at most 8000
    characters: the first 8000 of the concatenation, in order, of what
    each entry contributes; and a user or assistant message contributes
    its label, the first 500 characters of its text and a blank line
    (nothing when the text is empty).  The scoped gatherer renders the
    entries after the checkpoint up to the first one it cannot read. *)
Theorem gathered_context_caps :
  (forall ctx, (length (gatherSessionContext ctx) <= 8000)%nat)
  /\ (forall ctx, (length (gatherScopedSessionContext ctx) <= 8000)%nat)
  /\ (forall ctx,
         gatherSessionContext ctx
         = firstn 8000 (concat (map entryText (getBranch ctx))))
  /\ (forall ctx, exists shown dropped,
         getEntriesAfter ctx (findLastPrCheckpointEntryId ctx)
         = shown ++ dropped
         /\ gatherScopedSessionContext ctx
            = firstn 8000 (concat (map entryText shown)))
  /\ (forall e c,
         kind e = MessageEntry (UserMessage c) ->
         let text := blocksText (asBlocks c) in
         entryText e
         = if nonEmpty text
           then str "User: " ++ firstn 500 text ++ [LF; LF] else [])
  /\ (forall e c,
         kind e = MessageEntry (AssistantMessage c) ->
         let text := blocksText (asBlocks c) in
         entryText e
         = if nonEmpty text
           then str "Assistant: " ++ firstn 500 text ++ [LF; LF] else []).
Proof.
  assert (bound : forall s, (length (slice s 0 8000) <= 8000)%nat).
  { intros s. change 8000 with (Z.of_nat 8000) at 1.
    rewrite slice_0_firstn. apply firstn_le_length. }
  repeat split.
  - intros ctx. apply bound.
  - intros ctx. apply bound.
  - intros ctx. unfold gatherSessionContext.
    rewrite gatherLoop_total. cbn [app].
    change 8000 with (Z.of_nat 8000). apply slice_0_firstn.
  - intros ctx. unfold gatherScopedSessionContext.
    destruct (gatherLoop_scoped
                (getEntriesAfter ctx (findLastPrCheckpointEntryId ctx)) [])
      as (shown & dropped & E & ->).
    exists shown, dropped. split; [exact E|]. cbn [app].
    change 8000 with (Z.of_nat 8000). apply slice_0_firstn.
  - intros e c H text. unfold entryText. rewrite H. unfold userLine.
    fold text. change 500 with (Z.of_nat 500). now rewrite slice_0_firstn.
  - intros e c H text. unfold entryText. rewrite H. unfold assistantLine.
    fold text. change 500 with (Z.of_nat 500). now rewrite slice_0_firstn.
Qed.

(** ** The [pr] action on the main branch *)

Section PrOnMain.

Import Parse Tool.

Variable w : world.
Variable params : Params.
Variable ctx : ExtensionContext.
Variable branch : jsstring.

Hypothesis on_main : branch = str "main" \/ branch = str "master".
Hypothesis current_branch :
  forall h, w _ h GetCurrentBranch = Returned branch.

Lemma isMainBranch_branch : isMainBranch branch = true.
Proof. destruct on_main as [-> | ->]; reflexivity. Qed.

(** The action proper stops at the branch check. *)
Lemma prAction_on_main (h : list logged) :
  exists calls r,
    run w (tryCatch (prAction params ctx) onException) h
    = (h ++ calls, Returned r)
    /\ neverCreatesPr calls
    /\ (w _ (h ++ [Logged GetCurrentBranch]) SignalAborted = false ->
        r = onMainBranch).
Proof.
  unfold prAction, await, unlessAborted, ask.
  cbn [bind tryCatch run]. rewrite current_branch. cbn [bind tryCatch run].
  destruct (w _ (h ++ [Logged GetCurrentBranch]) SignalAborted) eqn:E.
  - exists [Logged GetCurrentBranch; Logged SignalAborted], (cancelled pr).
    cbn [bind tryCatch run]. rewrite <- app_assoc.
    repeat split. discriminate.
  - rewrite isMainBranch_branch.
    exists [Logged GetCurrentBranch; Logged SignalAborted], onMainBranch.
    cbn [bind tryCatch run]. rewrite <- app_assoc.
    repeat split.
Qed.

Lemma execute_on_main :
  neverCreatesPr (fst (run w (execute params ctx) []))
  /\ ((forall h, w _ h CheckGhCli = Returned true) ->
      (forall h, w _ h SignalAborted = false) ->
      snd (run w (execute params ctx) []) = Returned onMainBranch).
Proof.
  unfold execute, await, ask. cbn [bind run app].
  destruct (w _ [] CheckGhCli) as [[|]|msg] eqn:Egh; cbn [bind run negb].
  - destruct (w _ [Logged CheckGhCli] SignalAborted) eqn:Eab;
      cbn [bind run app].
    + split; [reflexivity|]. intros _ H. rewrite H in Eab. discriminate.
    + destruct (prAction_on_main [Logged CheckGhCli; Logged SignalAborted])
        as (calls & r & -> & Hc & Hr).
      cbn [fst snd]. split.
      * unfold neverCreatesPr in *. cbn [app existsb isCreatePr orb].
        exact Hc.
      * intros _ H. now rewrite Hr by apply H.
  - split; [reflexivity|]. intros H. rewrite H in Egh. discriminate.
  - split; [reflexivity|]. intros H. rewrite H in Egh. discriminate.
Qed.

End PrOnMain.

(** C7, as the code has it: with the current branch [main] or [master],
    the [pr] action never calls [createPr]; and when the GitHub CLI is
    found and the call is not cancelled, it returns the error result whose
    [details.error] is [on main branch]. *)
Theorem pr_on_main_branch_rejected
        (w : Tool.world) (params : Tool.Params) (ctx : ExtensionContext)
        (branch : jsstring)
        (on_main : branch = str "main" \/ branch = str "master")
        (current_branch :
           forall h, w _ h Tool.GetCurrentBranch = Parse.Returned branch) :
  Tool.neverCreatesPr (fst (Tool.run w (Tool.execute params ctx) []))
  /\ ((forall h, w _ h Tool.CheckGhCli = Parse.Returned true) ->
      (forall h, w _ h Tool.SignalAborted = false) ->
      exists r,
        snd (Tool.run w (Tool.execute params ctx) []) = Parse.Returned r
        /\ Tool.error (Tool.details r) = Some (str "on main branch")
        /\ Tool.action (Tool.details r) = str "pr"
        /\ Tool.isError r = true).
Proof.
  destruct (execute_on_main w params ctx branch on_main current_branch)
    as [Hc Hr].
  split; [exact Hc|].
  intros Hgh Hab. exists Tool.onMainBranch.
  split; [now apply Hr|]. now repeat split.
Qed.

Lemma pr_on_main_branch_rejected_witness :
  Tool.neverCreatesPr
    (fst (Tool.run Tool.worldOnMain
                   (Tool.execute Tool.noParams Tool.emptyContext) []))
  /\ ((forall h, Tool.worldOnMain _ h Tool.CheckGhCli = Parse.Returned true) ->
      (forall h, Tool.worldOnMain _ h Tool.SignalAborted = false) ->
      exists r,
        snd (Tool.run Tool.worldOnMain
                      (Tool.execute Tool.noParams Tool.emptyContext) [])
        = Parse.Returned r
        /\ Tool.error (Tool.details r) = Some (str "on main branch")
        /\ Tool.action (Tool.details r) = str "pr"
        /\ Tool.isError r = true).
Proof.
  apply (pr_on_main_branch_rejected
           Tool.worldOnMain Tool.noParams Tool.emptyContext (str "main")).
  - left. reflexivity.
  - intros h. reflexivity.
Defined.

(** C7 as stated fails.  On [main] without the GitHub CLI the action
    answers [gh CLI not found]; on [main] with a call cancelled during the
    branch lookup it answers [Cancelled], with no error at all. *)
Lemma pr_on_main_other_answers :
  ((forall h, Tool.worldWithoutGh _ h Tool.GetCurrentBranch
              = Parse.Returned (str "main"))
   /\ exists r,
       snd (Tool.run Tool.worldWithoutGh
                     (Tool.execute Tool.noParams Tool.emptyContext) [])
       = Parse.Returned r
       /\ Tool.error (Tool.details r) = Some (str "gh CLI not found")
       /\ Tool.error (Tool.details r) <> Some (str "on main branch"))
  /\ ((forall h, Tool.worldCancelledLate _ h Tool.GetCurrentBranch
                 = Parse.Returned (str "main"))
      /\ exists r,
          snd (Tool.run Tool.worldCancelledLate
                        (Tool.execute Tool.noParams Tool.emptyContext) [])
          = Parse.Returned r
          /\ Tool.text r = str "Cancelled"
          /\ Tool.isError r = false
          /\ Tool.error (Tool.details r) <> Some (str "on main branch")).
Proof.
  split; (split; [reflexivity|]); eexists; (split; [reflexivity|]).
  - split; [reflexivity | discriminate].
  - split; [reflexivity|]. split; [reflexivity | discriminate].
Qed.

(** ** The parsing layer *)

Section Parsing.

Import Parse.

Variable JSON_parse : jsstring -> option value.

Lemma mapM_In {A B} (f : A -> option B) (l : list A) :
  forall l', mapM f l = Some l' ->
             forall b, In b l' -> exists a, In a l /\ f a = Some b.
Proof.
  induction l as [|a l IH]; intros l' H b Hb; cbn [mapM] in H.
  - injection H as <-. destruct Hb.
  - destruct (f a) as [b0|] eqn:Ea; [|discriminate].
    destruct (mapM f l) as [bs|] eqn:El; [|discriminate].
    injection H as <-. destruct Hb as [<-|Hb].
    + exists a. split; [now left | assumption].
    + destruct (IH _ eq_refl _ Hb) as (a' & Ha' & E).
      exists a'. split; [now right | assumption].
Qed.

Lemma normalizeState_two (v : value) (st : jsstring) :
  normalizeState v = Some st ->
  (st = str "open" \/ st = str "closed")
  /\ (st = str "closed"
      <-> exists s, v = VStr s /\ toLowerCase s = str "closed").
Proof.
  destruct v; unfold normalizeState; intros H; try discriminate.
  - injection H as <-.
    split; [now left|]. split; [str_discr|]. intros (s & E & _). discriminate.
  - injection H as <-.
    split; [now left|]. split; [str_discr|]. intros (s & E & _). discriminate.
  - destruct (strEq (toLowerCase s) (str "closed")) eqn:E; injection H as <-.
    + apply strEq_true in E. split; [now right|].
      split; [intros _; now exists s | reflexivity].
    + apply strEq_false in E. split; [now left|].
      split; [str_discr|]. intros (s' & Es & El). congruence.
Qed.

Lemma toIssue_state (v : value) (i : GhIssue) :
  toIssue v = Some i ->
  (state i = str "open" \/ state i = str "closed")
  /\ (state i = str "closed" <-> closedInJson v).
Proof.
  unfold toIssue, closedInJson. intros H.
  repeat match type of H with
         | match ?x with _ => _ end = _ =>
             let E := fresh "E" in destruct x eqn:E; [|discriminate H]
         end.
  injection H as <-. cbn [state].
  match goal with
  | E : normalizeState _ = Some _ |- _ =>
      destruct (normalizeState_two _ _ E) as [H2 Hiff]
  end.
  split; [exact H2|]. rewrite Hiff.
  split.
  - intros (s & -> & Hs). now exists s.
  - intros (s & Es & Hs). exists s. split; [congruence | assumption].
Qed.

Lemma names_nameList (xs : value) (key : jsstring) :
  nameList xs -> exists ls, names xs key = Some ls.
Proof.
  unfold names, orDefault. intros [F | (vs & -> & F)].
  - rewrite F. cbn [mapM]. now eexists.
  - cbn [truthy]. induction F as [|l vs [H1 H2] F IH]; cbn [mapM].
    + now eexists.
    + destruct IH as (ls & ->).
      destruct l; cbn [getProp]; try congruence; now eexists.
Qed.

(** An object that can be read is turned into an issue. *)
Lemma toIssue_readable (v : value) :
  readable v -> exists i, toIssue v = Some i.
Proof.
  intros (fields & -> & St & Ls & As).
  unfold toIssue. cbn [getProp].
  destruct (names_nameList _ (str "name") Ls) as (ls & ->).
  destruct (names_nameList _ (str "login") As) as (asg & ->).
  destruct (lookup (str "state") fields); try discriminate St;
    cbn [normalizeState]; now eexists.
Qed.

(** A state of another type makes the object literal throw. *)
Lemma toIssue_other_state (v : value) :
  stateOfOtherType v -> toIssue v = None.
Proof.
  intros (st & E & St). unfold toIssue.
  destruct (getProp v (str "number")); [|reflexivity].
  destruct (getProp v (str "title")); [|reflexivity].
  rewrite E. destruct st; try discriminate St; reflexivity.
Qed.

Lemma mapM_Some {A B} (f : A -> option B) (l : list A) :
  Forall (fun a => exists b, f a = Some b) l ->
  exists bs, mapM f l = Some bs /\ Forall2 (fun a b => f a = Some b) l bs.
Proof.
  induction 1 as [|a l (b & E) F (bs & IH & F2)]; cbn [mapM].
  - exists []. now split.
  - rewrite E, IH. exists (b :: bs). split; [reflexivity|].
    now constructor.
Qed.

Lemma mapM_fails {A B} (f : A -> option B) (l : list A) (a : A) :
  In a l -> f a = None -> mapM f l = None.
Proof.
  induction l as [|x l IH]; intros H E; [destruct H|].
  cbn [mapM]. destruct H as [->|H]; [now rewrite E|].
  destruct (f x); [|reflexivity]. now rewrite (IH H E).
Qed.

Lemma parseIssues_In (s : jsstring) (i : GhIssue) :
  In i (parseIssues JSON_parse s) ->
  exists vs v, JSON_parse s = Some (VArr vs) /\ In v vs /\ toIssue v = Some i.
Proof.
  unfold parseIssues. intros H.
  destruct (JSON_parse s) as [raw|]; [|destruct H].
  destruct raw; try destruct H.
  destruct (mapM toIssue vs) as [issues|] eqn:E; [|destruct H].
  destruct (mapM_In _ _ _ E _ H) as (v & Hv & Ev).
  now exists vs, v.
Qed.

End Parsing.

(** C8: a text that is not JSON, or that parses to something other than
    an array, makes [parseIssues] return the empty list; [listIssues]
    then returns the empty list when the CLI call itself succeeded. *)
Theorem parseIssues_malformed_empty
        (JSON_parse : jsstring -> option Parse.value) (s : jsstring)
        (malformed :
           JSON_parse s = None
           \/ exists v, JSON_parse s = Some v
                        /\ forall vs, v <> Parse.VArr vs) :
  Parse.parseIssues JSON_parse s = []
  /\ forall err,
      Parse.listIssues JSON_parse
        {| Parse.code := 0; Parse.stdout := s; Parse.stderr := err |}
      = Parse.Returned [].
Proof.
  assert (E : Parse.parseIssues JSON_parse s = []).
  { unfold Parse.parseIssues.
    destruct malformed as [-> | (v & -> & Hv)]; [reflexivity|].
    destruct v; try reflexivity. now destruct (Hv vs). }
  split; [exact E|].
  intros err. unfold Parse.listIssues. cbn. now rewrite E.
Qed.

Lemma parseIssues_malformed_empty_witness :
  Parse.parseIssues Parse.sampleParse (str "{}") = []
  /\ forall err,
      Parse.listIssues Parse.sampleParse
        {| Parse.code := 0; Parse.stdout := str "{}"; Parse.stderr := err |}
      = Parse.Returned [].
Proof.
  apply (parseIssues_malformed_empty Parse.sampleParse (str "{}")).
  right. exists (Parse.VObj []). split; [reflexivity|].
  intros vs. discriminate.
Defined.

(** C10, as the code has it: an issue built by [parseIssue] or
    [parseIssues] has state [open] or [closed], and [closed] exactly when
    the [state] field of the JSON object it was built from is a string
    that lowercases to [closed].  An object whose [state] is missing,
    [null] or a string (and whose labels and assignees are missing or
    arrays without [null]) is built into an issue, so with state [open]
    unless the string lowercases to [closed].  A [state] of any other
    type is not normalized: [parseIssue] returns [null] and
    [parseIssues] the empty list. *)
Theorem parsed_state_open_or_closed
        (JSON_parse : jsstring -> option Parse.value) (s : jsstring) :
  (forall i,
      Parse.parseIssue JSON_parse s = Some i ->
      (Parse.state i = str "open" \/ Parse.state i = str "closed")
      /\ exists v, JSON_parse s = Some v
                   /\ (Parse.state i = str "closed" <-> Parse.closedInJson v))
  /\ (forall i,
         In i (Parse.parseIssues JSON_parse s) ->
         (Parse.state i = str "open" \/ Parse.state i = str "closed")
         /\ exists vs v, JSON_parse s = Some (Parse.VArr vs) /\ In v vs
                         /\ Parse.toIssue v = Some i
                         /\ (Parse.state i = str "closed"
                             <-> Parse.closedInJson v))
  /\ (forall v,
         JSON_parse s = Some v -> Parse.readable v ->
         exists i,
           Parse.parseIssue JSON_parse s = Some i
           /\ (Parse.closedInJson v -> Parse.state i = str "closed")
           /\ (~ Parse.closedInJson v -> Parse.state i = str "open"))
  /\ (forall vs,
         JSON_parse s = Some (Parse.VArr vs) -> Forall Parse.readable vs ->
         Forall2 (fun v i =>
                    Parse.toIssue v = Some i
                    /\ (Parse.closedInJson v -> Parse.state i = str "closed")
                    /\ (~ Parse.closedInJson v
                        -> Parse.state i = str "open"))
                 vs (Parse.parseIssues JSON_parse s))
  /\ (forall v,
         JSON_parse s = Some v -> Parse.stateOfOtherType v ->
         Parse.parseIssue JSON_parse s = None)
  /\ (forall vs v,
         JSON_parse s = Some (Parse.VArr vs) -> In v vs ->
         Parse.stateOfOtherType v ->
         Parse.parseIssues JSON_parse s = []).
Proof.
  assert (St : forall v i,
             Parse.toIssue v = Some i ->
             (Parse.closedInJson v -> Parse.state i = str "closed")
             /\ (~ Parse.closedInJson v -> Parse.state i = str "open")).
  { intros v i E. destruct (toIssue_state _ _ E) as [[H|H] Hiff].
    - split; [|now intros _]. intros C. now apply Hiff.
    - split; [now intros _|]. intros C. destruct C. now apply Hiff. }
  split; [|split; [|split; [|split; [|split]]]].
  - intros i H. unfold Parse.parseIssue in H.
    destruct (JSON_parse s) as [v|] eqn:E; [|discriminate].
    destruct (toIssue_state _ _ H) as [H2 Hiff].
    split; [exact H2|]. now exists v.
  - intros i H.
    destruct (parseIssues_In _ _ _ H) as (vs & v & E & Hv & Ei).
    destruct (toIssue_state _ _ Ei) as [H2 Hiff].
    split; [exact H2|]. now exists vs, v.
  - intros v E R. destruct (toIssue_readable v R) as (i & Ei).
    exists i. unfold Parse.parseIssue. rewrite E.
    split; [exact Ei | now apply St].
  - intros vs E R. unfold Parse.parseIssues. rewrite E.
    assert (F : Forall (fun v => exists i, Parse.toIssue v = Some i) vs).
    { eapply Forall_impl; [|exact R]. apply toIssue_readable. }
    destruct (mapM_Some _ _ F) as (built & -> & F2).
    eapply Forall2_impl; [|exact F2].
    intros v i Ei. split; [exact Ei | now apply St].
  - intros v E O. unfold Parse.parseIssue. rewrite E.
    now apply toIssue_other_state.
  - intros vs v E Hv O. unfold Parse.parseIssues. rewrite E.
    now rewrite (mapM_fails _ _ v Hv (toIssue_other_state v O)).
Qed.

(** C10 as stated fails: a state that is neither a string nor null is
    not normalized to [open].  [toLowerCase] is not a function of the
    number 5, the parser throws, and no issue is built: [parseIssue]
    returns [null], and [parseIssues] the empty list for an array of one
    such object. *)
Lemma parsed_state_not_normalized :
  let v := Parse.VObj [(str "state", Parse.VNum 5)] in
  Parse.sampleParse Parse.numericStateText = Some v
  /\ Parse.sampleParse (str "[" ++ Parse.numericStateText ++ str "]")
     = Some (Parse.VArr [v])
  /\ ~ Parse.closedInJson v
  /\ Parse.parseIssue Parse.sampleParse Parse.numericStateText = None
  /\ Parse.parseIssues Parse.sampleParse
       (str "[" ++ Parse.numericStateText ++ str "]") = []
  /\ ~ (exists i,
          Parse.parseIssue Parse.sampleParse Parse.numericStateText = Some i
          /\ Parse.state i = str "open").
Proof.
  cbv zeta. repeat split; try (now vm_compute).
  - intros (st & E & _). discriminate E.
  - intros (i & E & _). discriminate E.
Qed.

(** A state that is missing or [null] gives an open issue. *)
Example parseIssue_missing_state :
  option_map Parse.state (Parse.parseIssue Parse.sampleParse (str "{}"))
  = Some (str "open")
  /\ option_map Parse.state
       (Parse.toIssue (Parse.VObj [(str "state", Parse.VNull)]))
     = Some (str "open")
  /\ option_map Parse.state
       (Parse.toIssue (Parse.VObj [(str "state", Parse.VStr (str "MERGED"))]))
     = Some (str "open").
Proof. now vm_compute. Qed.

(** The parsers at work on two sample texts. *)
Example parseIssue_closed_sample :
  option_map Parse.state
    (Parse.parseIssue Parse.sampleParse Parse.closedText)
  = Some (str "closed").
Proof. now vm_compute. Qed.

Example parseIssues_open_sample :
  map Parse.state
    (Parse.parseIssues Parse.sampleParse Parse.openListText)
  = [str "open"].
Proof. now vm_compute. Qed.

(** ** Facts about the matcher *)

Section MatcherFacts.

Variable fuel : nat.

Lemma m_lit (w : jsstring) :
  forall (x : mstate) (k : cont),
    m fuel (lit w) x k
    = if startsWith (rest x) w
      then k (MState (skipn (length w) (rest x)) (pos x + length w) (caps x))
      else None.
Proof.
  induction w as [|c w IH]; intros [s p cs] k.
  - cbn. now rewrite Nat.add_0_r.
  - cbn [lit m rest pos caps length]. unfold step. cbn [rest pos caps].
    destruct s as [|d s]; [reflexivity|].
    cbn [startsWith skipn]. destruct (Ascii.eqb c d); [|reflexivity].
    rewrite IH. cbn [rest pos caps andb].
    now rewrite Nat.add_succ_r.
Qed.

Lemma step_stops (p : ascii -> bool) (v : jsstring) (i : nat) cs (k : cont) :
  stopsAt p v -> step p (MState v i cs) k = None.
Proof.
  unfold step. destruct v as [|c v]; cbn; [reflexivity|]. now intros ->.
Qed.

(** Repetition of a one-character matcher [mr], which accepts the
    characters of the class [p]. *)
Section OneCharacter.

Variable mr : mstate -> cont -> option mstate.
Variable p : ascii -> bool.
Hypothesis mr_step : forall x k, mr x k = step p x k.

(** Greedy repetition takes the whole run [u] when the continuation
    accepts there. *)
Lemma greedy_accept (u : jsstring) :
  forall (v : jsstring) (n i : nat) cs (k : cont) (z : mstate),
    forallb p u = true ->
    stopsAt p v ->
    (length u < n)%nat ->
    k (MState v (i + length u) cs) = Some z ->
    repeatMatcher mr true n (MState (u ++ v) i cs) k = Some z.
Proof.
  induction u as [|c u IH]; intros v n i cs k z Hu Hv Hn Hk;
    (destruct n as [|n]; [cbn [length] in Hn; lia|]);
    cbn [repeatMatcher app]; rewrite mr_step.
  - rewrite step_stops by assumption. cbn [orElse].
    now rewrite Nat.add_0_r in Hk.
  - cbn [forallb] in Hu. apply andb_true_iff in Hu as [Hc Hu].
    unfold step at 1. cbn [rest pos caps]. rewrite Hc. cbn [rest pos caps].
    rewrite (proj2 (Nat.eqb_neq (S i) i)) by lia.
    rewrite (IH v n (S i) cs k z); trivial.
    + cbn [length] in Hn. lia.
    + cbn [length] in Hk. now rewrite Nat.add_succ_r in Hk.
Qed.

(** It fails when the continuation rejects every prefix of the run. *)
Lemma greedy_reject (u : jsstring) :
  forall (v : jsstring) (n i : nat) cs (k : cont),
    forallb p u = true ->
    stopsAt p v ->
    (forall j, (j <= length u)%nat ->
               k (MState (skipn j (u ++ v)) (i + j) cs) = None) ->
    repeatMatcher mr true n (MState (u ++ v) i cs) k = None.
Proof.
  induction u as [|c u IH]; intros v n i cs k Hu Hv Hk.
  - specialize (Hk 0%nat (Nat.le_refl _)). cbn [skipn app] in Hk.
    rewrite Nat.add_0_r in Hk.
    destruct n as [|n]; cbn [repeatMatcher app]; [exact Hk|].
    rewrite mr_step, step_stops by assumption. exact Hk.
  - cbn [forallb] in Hu. apply andb_true_iff in Hu as [Hc Hu].
    pose proof (Hk 0%nat (Nat.le_0_l _)) as H0.
    cbn [skipn] in H0. rewrite Nat.add_0_r in H0.
    destruct n as [|n]; cbn [repeatMatcher app]; [exact H0|].
    rewrite mr_step.
    unfold step at 1. cbn [rest pos caps]. rewrite Hc. cbn [rest pos caps].
    rewrite (proj2 (Nat.eqb_neq (S i) i)) by lia.
    assert (Hk' : forall j, (j <= length u)%nat ->
                  k (MState (skipn j (u ++ v)) (S i + j) cs) = None).
    { intros j Hj. specialize (Hk (S j)). cbn [skipn length app] in Hk.
      rewrite Nat.add_succ_r in Hk. apply Hk. lia. }
    rewrite (IH v n (S i) cs k Hu Hv Hk'). cbn [orElse]. exact H0.
Qed.

(** Lazy repetition walks over [u] when the continuation rejects every
    position inside it. *)
Lemma lazy_skip (u : jsstring) :
  forall (v : jsstring) (n i : nat) cs (k : cont),
    forallb p u = true ->
    (forall j, (j < length u)%nat ->
               k (MState (skipn j (u ++ v)) (i + j) cs) = None) ->
    repeatMatcher mr false (length u + n) (MState (u ++ v) i cs) k
    = repeatMatcher mr false n (MState v (i + length u) cs) k.
Proof.
  induction u as [|c u IH]; intros v n i cs k Hu Hk.
  - cbn [length app Nat.add]. now rewrite Nat.add_0_r.
  - cbn [forallb] in Hu. apply andb_true_iff in Hu as [Hc Hu].
    cbn [length Nat.add repeatMatcher app].
    pose proof (Hk 0%nat) as H0. cbn [skipn app length] in H0.
    rewrite Nat.add_0_r in H0. rewrite H0 by lia. cbn [orElse].
    rewrite mr_step. unfold step at 1. cbn [rest pos caps].
    rewrite Hc. cbn [rest pos caps].
    rewrite (proj2 (Nat.eqb_neq (S i) i)) by lia.
    assert (Hk' : forall j, (j < length u)%nat ->
                  k (MState (skipn j (u ++ v)) (S i + j) cs) = None).
    { intros j Hj. specialize (Hk (S j)). cbn [skipn length app] in Hk.
      rewrite Nat.add_succ_r in Hk. apply Hk. lia. }
    rewrite (IH v n (S i) cs k Hu Hk'). now rewrite Nat.add_succ_r.
Qed.

(** Lazy repetition walks over [u] and stops behind it when the
    continuation rejects every position inside [u] and accepts there. *)
Lemma lazy_accept (u v : jsstring) (n i : nat) cs (k : cont) (z : mstate) :
  forallb p u = true ->
  (length u < n)%nat ->
  (forall j, (j < length u)%nat ->
             k (MState (skipn j (u ++ v)) (i + j) cs) = None) ->
  k (MState v (i + length u) cs) = Some z ->
  repeatMatcher mr false n (MState (u ++ v) i cs) k = Some z.
Proof.
  intros Hu Hn Hk Hz.
  replace n with (length u + S (n - length u - 1))%nat by lia.
  rewrite lazy_skip by assumption.
  cbn [repeatMatcher]. now rewrite Hz.
Qed.

End OneCharacter.

(** Lazy repetition stops at once where the continuation accepts. *)
Lemma lazy_here (mr : mstate -> cont -> option mstate) (n : nat)
      (x z : mstate) (k : cont) :
  k x = Some z -> repeatMatcher mr false (S n) x k = Some z.
Proof. intros H. cbn [repeatMatcher]. now rewrite H. Qed.

(** The search moves on from a position where the pattern fails. *)
Lemma search_skip (re : regex) (u : jsstring) :
  forall (v : jsstring) (i : nat),
    (forall j, (j < length u)%nat ->
               m fuel re (MState (skipn j (u ++ v)) (i + j) []) Some = None) ->
    search fuel re (u ++ v) i = search fuel re v (i + length u).
Proof.
  induction u as [|c u IH]; intros v i H.
  - cbn [app length]. now rewrite Nat.add_0_r.
  - cbn [app search].
    pose proof (H 0%nat) as H0. cbn [skipn app length] in H0.
    rewrite Nat.add_0_r in H0. rewrite H0 by lia.
    rewrite IH.
    + cbn [length]. now rewrite Nat.add_succ_r.
    + intros j Hj. specialize (H (S j)). cbn [skipn length app] in H.
      rewrite Nat.add_succ_r in H. apply H. lia.
Qed.

Lemma search_here (re : regex) (s : jsstring) (i : nat) (y : mstate) :
  m fuel re (MState s i []) Some = Some y ->
  search fuel re s i = Some (i, y).
Proof. intros H. destruct s; cbn [search]; now rewrite H. Qed.

End MatcherFacts.

(** ** The fuel of the matcher

    One more than the length of the remaining input is enough: from
    there on the answer of the matcher does not depend on the fuel. *)

Section Fuel.

Lemma reaches_refl (x : mstate) : reaches x x.
Proof. split; lia. Qed.

Lemma reaches_trans (x y z : mstate) :
  reaches x y -> reaches y z -> reaches x z.
Proof. intros [H1 H2] [H3 H4]. split; lia. Qed.

Lemma step_fuel (p : ascii -> bool) (x : mstate) (k1 k2 : cont) :
  (forall y, reaches x y -> k1 y = k2 y) ->
  step p x k1 = step p x k2.
Proof.
  intros H. unfold step. destruct x as [[|d s] i cs]; cbn [rest pos caps];
    [reflexivity|].
  destruct (p d); [|reflexivity].
  apply H. split; cbn [rest pos length]; lia.
Qed.

Lemma repeatMatcher_fuel (mr1 mr2 : mstate -> cont -> option mstate)
      (g : bool) (bound : nat) :
  (forall x k1 k2,
      (length (rest x) <= bound)%nat ->
      (forall y, reaches x y -> k1 y = k2 y) ->
      mr1 x k1 = mr2 x k2) ->
  forall n1 n2 x k1 k2,
    (length (rest x) <= bound)%nat ->
    (length (rest x) < n1)%nat -> (length (rest x) < n2)%nat ->
    (forall y, reaches x y -> k1 y = k2 y) ->
    repeatMatcher mr1 g n1 x k1 = repeatMatcher mr2 g n2 x k2.
Proof.
  intros Hmr. induction n1 as [|n1 IH]; intros n2 x k1 k2 Hb H1 H2 Hk; [lia|].
  destruct n2 as [|n2]; [lia|]. cbn [repeatMatcher].
  assert (E : mr1 x (fun y => if Nat.eqb (pos y) (pos x) then None
                              else repeatMatcher mr1 g n1 y k1)
              = mr2 x (fun y => if Nat.eqb (pos y) (pos x) then None
                                else repeatMatcher mr2 g n2 y k2)).
  { apply Hmr; [exact Hb|]. intros y Hy.
    destruct (Nat.eqb (pos y) (pos x)) eqn:Ep; [reflexivity|].
    apply Nat.eqb_neq in Ep. destruct Hy as [Hy1 Hy2].
    apply IH; try lia.
    intros z Hz. apply Hk. apply (reaches_trans x y z); [split; lia | exact Hz]. }
  rewrite E, (Hk x (reaches_refl x)). reflexivity.
Qed.

Lemma m_fuel (r : regex) :
  forall f1 f2 x k1 k2,
    (length (rest x) < f1)%nat -> (length (rest x) < f2)%nat ->
    (forall y, reaches x y -> k1 y = k2 y) ->
    m f1 r x k1 = m f2 r x k2.
Proof.
  induction r as [|c|p|r1 IH1 r2 IH2|r1 IH1 r2 IH2|g r1 IH1|i r1 IH1| |];
    intros f1 f2 x k1 k2 H1 H2 Hk; cbn [m].
  - apply Hk, reaches_refl.
  - now apply step_fuel.
  - now apply step_fuel.
  - apply IH1; trivial. intros y Hy. destruct (Hy) as [Hy1 Hy2].
    apply IH2; try lia.
    intros z Hz. apply Hk. now apply (reaches_trans x y z).
  - rewrite (IH1 f1 f2 x k1 k2), (IH2 f1 f2 x k1 k2); trivial.
  - apply (repeatMatcher_fuel _ _ g (length (rest x))); trivial.
    intros x' k1' k2' Hb Hk'. apply IH1; trivial; lia.
  - apply IH1; trivial. intros y Hy.
    apply Hk. destruct Hy as [Hy1 Hy2]. split; cbn [rest pos]; lia.
  - destruct (Nat.eqb (pos x) 0); [|reflexivity]. apply Hk, reaches_refl.
  - destruct (rest x); [|reflexivity]. apply Hk, reaches_refl.
Qed.

(** The matcher, and with it the search for the leftmost match, gives
    the same answer for every fuel above the length of the input. *)
Theorem search_fuel (re : regex) (s : jsstring) :
  forall f1 f2 i,
    (length s < f1)%nat -> (length s < f2)%nat ->
    search f1 re s i = search f2 re s i.
Proof.
  induction s as [|c s IH]; intros f1 f2 i H1 H2; cbn [search].
  - now rewrite (m_fuel re f1 f2 (MState [] i []) Some Some).
  - rewrite (m_fuel re f1 f2 (MState (c :: s) i []) Some Some); trivial.
    rewrite (IH f1 f2 (S i)); trivial; cbn [length] in *; lia.
Qed.

End Fuel.

(** ** The bound of the replace loop *)

Section ReplaceFuel.

Lemma repeatMatcher_reaches (mr : mstate -> cont -> option mstate) (g : bool) :
  (forall x k z, mr x k = Some z ->
                 exists y, reaches x y /\ k y = Some z) ->
  forall n x k z,
    repeatMatcher mr g n x k = Some z ->
    exists y, reaches x y /\ k y = Some z.
Proof.
  intros Hmr. induction n as [|n IH]; intros x k z H; cbn [repeatMatcher] in H.
  - exists x. split; [apply reaches_refl | exact H].
  - assert (A : forall z',
               mr x (fun y => if Nat.eqb (pos y) (pos x) then None
                              else repeatMatcher mr g n y k) = Some z' ->
               exists y, reaches x y /\ k y = Some z').
    { intros z' Hz. apply Hmr in Hz as (y & Hy & Hk).
      destruct (Nat.eqb (pos y) (pos x)); [discriminate|].
      apply IH in Hk as (y' & Hy' & Hk').
      exists y'. split; [now apply (reaches_trans x y y') | exact Hk']. }
    destruct g; unfold orElse in H.
    + destruct (mr x _) as [z'|] eqn:E.
      * injection H as <-. now apply A.
      * exists x. split; [apply reaches_refl | exact H].
    + destruct (k x) as [z'|] eqn:E.
      * injection H as <-. exists x. split; [apply reaches_refl | exact E].
      * now apply A.
Qed.

(** A successful match hands a reachable state to its continuation. *)
Lemma m_reaches (fuel : nat) (r : regex) :
  forall x k z,
    m fuel r x k = Some z -> exists y, reaches x y /\ k y = Some z.
Proof.
  induction r as [|c|p|r1 IH1 r2 IH2|r1 IH1 r2 IH2|g r1 IH1|i r1 IH1| |];
    intros x k z H; cbn [m] in H.
  - exists x. split; [apply reaches_refl | exact H].
  - unfold step in H. destruct x as [[|d s] j cs]; cbn [rest pos caps] in H;
      [discriminate|].
    destruct (Ascii.eqb c d); [|discriminate].
    eexists. split; [|exact H]. split; cbn [rest pos length]; lia.
  - unfold step in H. destruct x as [[|d s] j cs]; cbn [rest pos caps] in H;
      [discriminate|].
    destruct (p d); [|discriminate].
    eexists. split; [|exact H]. split; cbn [rest pos length]; lia.
  - apply IH1 in H as (y & Hy & H). apply IH2 in H as (y' & Hy' & H).
    exists y'. split; [now apply (reaches_trans x y y') | exact H].
  - unfold orElse in H. destruct (m fuel r1 x k) as [z'|] eqn:E.
    + injection H as <-. now apply IH1.
    + now apply IH2.
  - now apply (repeatMatcher_reaches (m fuel r1) g IH1 fuel).
  - apply IH1 in H as (y & Hy & H). eexists. split; [|exact H].
    destruct Hy as [Hy1 Hy2]. split; cbn [rest pos]; lia.
  - destruct (Nat.eqb (pos x) 0); [|discriminate].
    exists x. split; [apply reaches_refl | exact H].
  - destruct (rest x) eqn:E; [|discriminate].
    exists x. split; [apply reaches_refl | exact H].
Qed.

(** A match found from index [i] starts at or after [i] and ends at or
    after its start, inside the input. *)
Lemma search_bounds (fuel : nat) (re : regex) (s : jsstring) :
  forall i p y,
    search fuel re s i = Some (p, y) ->
    (i <= p <= pos y)%nat /\ (pos y <= i + length s)%nat.
Proof.
  induction s as [|c s IH]; intros i p y H; cbn [search] in H.
  - destruct (m fuel re _ Some) as [z|] eqn:E; [|discriminate].
    injection H as <- <-.
    apply m_reaches in E as (y' & [Hy1 Hy2] & E). injection E as <-.
    cbn [rest pos length] in *. lia.
  - destruct (m fuel re _ Some) as [z|] eqn:E.
    + injection H as <- <-.
      apply m_reaches in E as (y' & [Hy1 Hy2] & E). injection E as <-.
      cbn [rest pos length] in *. lia.
    + apply IH in H. cbn [length]. lia.
Qed.

Lemma execAt_bounds (re : regex) (s : jsstring) (i p : nat) (y : mstate) :
  execAt re s i = Some (p, y) ->
  (i <= p <= pos y)%nat /\ (pos y <= length s)%nat.
Proof.
  unfold execAt. destruct (i <=? length s)%nat eqn:E; [|discriminate].
  apply Nat.leb_le in E. intros H. apply search_bounds in H.
  rewrite length_skipn in H. lia.
Qed.

(** The loop of the global replace stops before its bound is used up:
    any larger bound gives the same text. *)
Theorem replaceLoop_fuel (re : regex) (s repl : jsstring) :
  forall n1 n2 lastIndex next acc,
    (length s + 2 <= n1 + lastIndex)%nat ->
    (length s + 2 <= n2 + lastIndex)%nat ->
    replaceLoop n1 re s repl lastIndex next acc
    = replaceLoop n2 re s repl lastIndex next acc.
Proof.
  assert (stop : forall n lastIndex next acc,
             (length s < lastIndex)%nat ->
             replaceLoop n re s repl lastIndex next acc = acc ++ skipn next s).
  { intros n lastIndex next acc H. destruct n; cbn [replaceLoop]; [reflexivity|].
    unfold execAt. now rewrite (proj2 (Nat.leb_gt _ _) H). }
  induction n1 as [|n1 IH]; intros n2 lastIndex next acc H1 H2.
  - rewrite !stop by lia. reflexivity.
  - destruct n2 as [|n2]; [rewrite !stop by lia; reflexivity|].
    cbn [replaceLoop].
    destruct (execAt re s lastIndex) as [[p y]|] eqn:E; [|reflexivity].
    apply execAt_bounds in E.
    destruct E as [E1 E2].
    destruct (Nat.eqb (pos y) p) eqn:Ep.
    + apply IH; lia.
    + apply Nat.eqb_neq in Ep. apply IH; lia.
Qed.

End ReplaceFuel.

(** ** Decimal numbers *)

Section Decimal.

Lemma isDigit_digitChar (d : N) : (d < 10)%N -> isDigit (digitChar d) = true.
Proof.
  intros H.
  assert (E : In d [0; 1; 2; 3; 4; 5; 6; 7; 8; 9]%N).
  { cbn [In]. lia. }
  cbn [In] in E. repeat (destruct E as [<- | E]; [reflexivity|]). destruct E.
Qed.

Lemma digitValue_digitChar (d : N) :
  (d < 10)%N -> digitValue (digitChar d) = Z.of_N d.
Proof.
  intros H.
  assert (E : In d [0; 1; 2; 3; 4; 5; 6; 7; 8; 9]%N).
  { cbn [In]. lia. }
  cbn [In] in E. repeat (destruct E as [<- | E]; [reflexivity|]). destruct E.
Qed.

(** A digit is neither white space nor a sign. *)
Lemma isDigit_plain (c : ascii) :
  isDigit c = true ->
  isWhiteSpace c = false /\ Ascii.eqb c "-" = false /\ Ascii.eqb c "+" = false.
Proof.
  destruct c as [[] [] [] [] [] [] [] []]; vm_compute; intros H;
    solve [discriminate H | repeat split].
Qed.

Lemma digitsOf_acc (fuel : nat) :
  forall n acc, digitsOf fuel n acc = digitsOf fuel n [] ++ acc.
Proof.
  induction fuel as [|f IH]; intros n acc; cbn [digitsOf]; [reflexivity|].
  destruct (n / 10 =? 0)%N; [reflexivity|].
  rewrite IH, (IH _ [digitChar (n mod 10)]). now rewrite <- app_assoc.
Qed.

(** With fuel left, the digits of [n] are those of [n / 10] followed by
    the last digit. *)
Lemma digitsOf_snoc (f : nat) (n : N) :
  (n / 10 <> 0)%N ->
  digitsOf (S f) n [] = digitsOf f (n / 10) [] ++ [digitChar (n mod 10)].
Proof.
  intros H. cbn [digitsOf].
  rewrite (proj2 (N.eqb_neq _ _) H). apply digitsOf_acc.
Qed.

Lemma digitsOf_small (fuel : nat) (n : N) :
  (n < 10)%N -> digitsOf fuel n [] = [digitChar n].
Proof.
  intros H. assert (n / 10 = 0)%N as E by now apply N.div_small.
  rewrite <- (N.mod_small n 10) at 2 by assumption.
  destruct fuel; cbn [digitsOf]; [reflexivity|]. now rewrite E.
Qed.

Lemma digitsOf_digits (fuel : nat) :
  forall n, forallb isDigit (digitsOf fuel n []) = true.
Proof.
  assert (D : forall n, isDigit (digitChar (n mod 10)) = true).
  { intros n. apply isDigit_digitChar. now apply N.mod_lt. }
  induction fuel as [|f IH]; intros n; cbn [digitsOf].
  - cbn [forallb]. now rewrite D.
  - destruct (n / 10 =? 0)%N.
    + cbn [forallb]. now rewrite D.
    + rewrite digitsOf_acc, forallb_app, IH. cbn [forallb]. now rewrite D.
Qed.

Lemma parseDigits_snoc (ds : jsstring) (d : ascii) :
  forall a,
    forallb isDigit ds = true -> isDigit d = true ->
    parseDigits (ds ++ [d]) a = 10 * parseDigits ds a + digitValue d.
Proof.
  induction ds as [|c ds IH]; intros a Hds Hd.
  - cbn [app parseDigits]. now rewrite Hd.
  - cbn [forallb] in Hds. apply andb_true_iff in Hds as [Hc Hds].
    cbn [app parseDigits]. rewrite Hc. now apply IH.
Qed.

Lemma parseDigits_digitsOf (fuel : nat) :
  forall n, (n < 10 ^ N.of_nat (S fuel))%N ->
            parseDigits (digitsOf fuel n []) 0 = Z.of_N n.
Proof.
  induction fuel as [|f IH]; intros n H.
  - change (10 ^ N.of_nat 1)%N with 10%N in H.
    rewrite digitsOf_small by assumption.
    cbn [parseDigits]. rewrite isDigit_digitChar by assumption.
    rewrite digitValue_digitChar by assumption. lia.
  - destruct (N.eq_dec (n / 10) 0) as [E|E].
    + assert (n < 10)%N by (apply N.div_small_iff in E; lia).
      rewrite digitsOf_small by assumption.
      cbn [parseDigits]. rewrite isDigit_digitChar by assumption.
      rewrite digitValue_digitChar by assumption. lia.
    + rewrite digitsOf_snoc by assumption.
      rewrite parseDigits_snoc.
      * rewrite IH.
        -- rewrite digitValue_digitChar by now apply N.mod_lt.
           rewrite (N.div_mod n 10) at 3 by lia. lia.
        -- apply N.Div0.div_lt_upper_bound.
           rewrite Nat2N.inj_succ, N.pow_succ_r' in H. exact H.
      * apply digitsOf_digits.
      * apply isDigit_digitChar. now apply N.mod_lt.
Qed.

Lemma log2_fuel (n : N) : (n < 10 ^ N.of_nat (S (N.to_nat (N.log2 n))))%N.
Proof.
  rewrite Nat2N.inj_succ, N2Nat.id.
  destruct (N.eq_dec n 0) as [->|Hn]; [reflexivity|].
  apply N.lt_le_trans with (2 ^ N.succ (N.log2 n))%N.
  - apply N.log2_spec. lia.
  - apply N.pow_le_mono_l. lia.
Qed.

Lemma natToString_digits (n : N) : forallb isDigit (natToString n) = true.
Proof. apply digitsOf_digits. Qed.

Lemma natToString_nonempty (n : N) :
  exists d ds, natToString n = d :: ds.
Proof.
  unfold natToString. generalize (N.to_nat (N.log2 n)). intros fuel.
  destruct fuel; cbn [digitsOf]; [now eexists; eexists|].
  destruct (n / 10 =? 0)%N; [now eexists; eexists|].
  rewrite digitsOf_acc.
  destruct (digitsOf fuel (n / 10) []); cbn [app]; now eexists; eexists.
Qed.

Lemma parseDigits_natToString (n : N) :
  parseDigits (natToString n) 0 = Z.of_N n.
Proof. apply parseDigits_digitsOf, log2_fuel. Qed.

(** [parseInt] on a string of digits answers the number for their
    value. *)
Lemma parseInt10_digits (d : ascii) (ds : jsstring) :
  isDigit d = true ->
  parseInt10 (d :: ds) = numberValue 1 (parseDigits (d :: ds) 0).
Proof.
  intros Hd. destruct (isDigit_plain d Hd) as (Hw & Hm & Hpl).
  unfold parseInt10. cbn [trimStart]. now rewrite Hw, Hm, Hpl, Hd.
Qed.

(** Reading back the decimal form of a natural number. *)
Lemma parseInt10_natToString (n : N) :
  parseInt10 (natToString n) = numberValue 1 (Z.of_N n).
Proof.
  pose proof (natToString_digits n) as Hd.
  pose proof (parseDigits_digitsOf _ n (log2_fuel n)) as Hp.
  fold (natToString n) in Hp.
  destruct (natToString_nonempty n) as (d & ds & E).
  rewrite E in *. cbn [forallb] in Hd.
  apply andb_true_iff in Hd as [Hd Hds].
  rewrite parseInt10_digits by exact Hd. now rewrite Hp.
Qed.

(** Every integer up to 2^53 is a number of the runtime. *)
Lemma heldExactly_safe (n : Z) : Z.abs n <= 2 ^ 53 -> heldExactly n = true.
Proof.
  intros H. unfold heldExactly.
  assert (B : 2 ^ 53 < 2 ^ 1024) by (apply Z.pow_lt_mono_r; lia).
  apply andb_true_iff. split; [|apply Z.ltb_lt; lia].
  apply Z.eqb_eq. unfold roundToDouble.
  destruct (Z.abs n <? 2 ^ 53) eqn:E; [reflexivity|].
  apply Z.ltb_ge in E. replace (Z.abs n) with (2 ^ 53) by lia.
  now vm_compute.
Qed.

(** The number for an integer that the runtime holds is that integer. *)
Lemma numberValue_held (n : Z) :
  0 <= n -> heldExactly n = true -> numberValue 1 n = Int n.
Proof.
  intros H0 H. unfold heldExactly in H.
  apply andb_true_iff in H as [H1 H2].
  apply Z.eqb_eq in H1. apply Z.ltb_lt in H2.
  rewrite Z.abs_eq in * by exact H0.
  unfold numberValue. rewrite H1.
  destruct (2 ^ 1024 <=? n) eqn:E; [apply Z.leb_le in E; lia|].
  f_equal. lia.
Qed.

(** Below 10^21 a number prints as its digits. *)
Lemma numberToString_decimal (n : Z) :
  0 <= n < 10 ^ 21 -> numberToString n = natToString (Z.to_N n).
Proof.
  intros [H0 H1]. unfold numberToString.
  destruct (n <? 0) eqn:E; [apply Z.ltb_lt in E; lia|].
  rewrite Z.abs_eq by exact H0.
  destruct (n <? 10 ^ 21) eqn:E1; [reflexivity|].
  apply Z.ltb_ge in E1. lia.
Qed.

End Decimal.

(** ** One or more characters of a class *)

Section PlusFacts.

Variable fuel : nat.
Variable r : regex.
Variable p : ascii -> bool.
Hypothesis r_step : forall x k, m fuel r x k = step p x k.

(** [r+] fails where the class does. *)
Lemma plus_stops (s : jsstring) (i : nat) cs (k : cont) :
  stopsAt p s -> m fuel (Plus r) (MState s i cs) k = None.
Proof.
  intros H. unfold Plus. cbn [m]. rewrite r_step. now apply step_stops.
Qed.

(** [r+] takes the whole run [c :: u] when the continuation accepts
    there. *)
Lemma plus_accept (c : ascii) (u v : jsstring) (i : nat) cs (k : cont)
      (z : mstate) :
  p c = true -> forallb p u = true -> stopsAt p v ->
  (length u < fuel)%nat ->
  k (MState v (i + S (length u)) cs) = Some z ->
  m fuel (Plus r) (MState (c :: u ++ v) i cs) k = Some z.
Proof.
  intros Hc Hu Hv Hf Hk. unfold Plus. cbn [m]. rewrite r_step.
  unfold step at 1. cbn [rest pos caps]. rewrite Hc.
  apply (greedy_accept (m fuel r) p r_step); trivial.
  now rewrite <- Nat.add_succ_comm in Hk.
Qed.

(** [r+] fails when the continuation rejects every non-empty prefix of
    the run. *)
Lemma plus_reject (c : ascii) (u v : jsstring) (i : nat) cs (k : cont) :
  p c = true -> forallb p u = true -> stopsAt p v ->
  (forall j, (1 <= j <= S (length u))%nat ->
             k (MState (skipn j (c :: u ++ v)) (i + j) cs) = None) ->
  m fuel (Plus r) (MState (c :: u ++ v) i cs) k = None.
Proof.
  intros Hc Hu Hv Hk. unfold Plus. cbn [m]. rewrite r_step.
  unfold step at 1. cbn [rest pos caps]. rewrite Hc.
  apply (greedy_reject (m fuel r) p r_step); trivial.
  intros j Hj. specialize (Hk (S j)). cbn [skipn] in Hk.
  rewrite Nat.add_succ_comm. apply Hk. lia.
Qed.

End PlusFacts.

(** ** Branch names *)

Section BranchNames.

Lemma firstn_length_app {A} (u v : list A) : firstn (length u) (u ++ v) = u.
Proof.
  rewrite firstn_app, Nat.sub_diag, firstn_all. cbn [firstn].
  apply app_nil_r.
Qed.

Lemma skipn_length_app {A} (u v : list A) : skipn (length u) (u ++ v) = v.
Proof.
  rewrite skipn_app, Nat.sub_diag, skipn_all. reflexivity.
Qed.

(** The branch pattern reads back the digits that follow [todo/]. *)
Lemma branchPattern_digits (ds tl : jsstring) (d : ascii) :
  forallb isDigit (d :: ds) = true ->
  parsedGroup branchPattern (str "todo/" ++ (d :: ds) ++ str "-" ++ tl)
  = Some (parseInt10 (d :: ds)).
Proof.
  intros H. cbn [forallb] in H. apply andb_true_iff in H as [Hd Hds].
  unfold parsedGroup, execAt. cbn [Nat.leb skipn].
  set (s := str "todo/" ++ (d :: ds) ++ str "-" ++ tl).
  set (fuel := S (length s)).
  set (y := MState tl (0 + 5 + S (length ds) + 1)
                   [(1%nat, d :: ds)]).
  rewrite (search_here fuel branchPattern s 0 y).
  - reflexivity.
  - unfold branchPattern. cbn [seqs m]. cbn [Nat.eqb pos].
    rewrite m_lit. cbn [rest pos caps].
    unfold s at 1. rewrite startsWith_app.
    unfold s. rewrite skipn_length_app.
    change (length (str "todo/")) with 5%nat.
    change (str "-" ++ tl) with ("-"%char :: tl).
    apply (plus_accept fuel digit isDigit (fun _ _ => eq_refl)); trivial.
    + reflexivity.
    + subst fuel s. cbn [str list_ascii_of_string app length].
      rewrite ?length_app. cbn [length]. lia.
    + cbn [rest pos caps]. unfold step. cbn [rest pos caps].
      rewrite Ascii.eqb_refl.
      replace (0 + 5 + S (length ds) - (0 + 5))%nat with (length (d :: ds))
        by (cbn [length]; lia).
      change (d :: ds ++ "-"%char :: tl) with ((d :: ds) ++ "-"%char :: tl).
      rewrite firstn_length_app. subst y. f_equal. f_equal. lia.
Qed.

End BranchNames.




(** The number that the runtime holds just below 10^21, the last one
    printed without an exponent, is still read back. *)
Example extractIssueNumberFromBranch_large :
  let n := 10 ^ 21 - 2 ^ 17 in
  heldExactly n = true
  /\ extractIssueNumberFromBranch
       (getIssueBranchName {| number := n; title := str "x" |})
     = Some (Int n).
Proof. now vm_compute. Qed.

(** A negative number is not read back: the decoder wants a digit right
    after [todo/]. *)
Example extractIssueNumberFromBranch_negative :
  extractIssueNumberFromBranch
    (getIssueBranchName {| number := -5; title := str "x" |}) = None.
Proof. now vm_compute. Qed.

(** ** [indexOf] and occurrences *)

Section IndexOf.

Variable w : jsstring.

Lemma occursAt_startsWith (s : jsstring) (i : nat) :
  occursAt w s i <-> (i <= length s)%nat /\ startsWith (skipn i s) w = true.
Proof.
  split.
  - intros (pre & post & -> & <-). split.
    + rewrite length_app. lia.
    + rewrite skipn_length_app. apply startsWith_app.
  - intros [Hi H]. apply startsWith_iff in H as [post E].
    exists (firstn i s), post. split.
    + now rewrite <- E, firstn_skipn.
    + apply firstn_length_le. exact Hi.
Qed.

Lemma occursAt_cons (c : ascii) (s : jsstring) (i : nat) :
  occursAt w (c :: s) (S i) <-> occursAt w s i.
Proof.
  rewrite !occursAt_startsWith. cbn [length skipn]. intuition lia.
Qed.

Lemma occursAt_0 (s : jsstring) :
  occursAt w s 0 <-> startsWith s w = true.
Proof.
  rewrite occursAt_startsWith. cbn [skipn]. intuition lia.
Qed.

Lemma not_occurs_cons (c : ascii) (s : jsstring) :
  startsWith (c :: s) w = false -> ~ occurs w s -> ~ occurs w (c :: s).
Proof.
  intros H0 Hs [[|i] Hi].
  - apply occursAt_0 in Hi. congruence.
  - apply occursAt_cons in Hi. apply Hs. now exists i.
Qed.

(** What [indexOfFrom] returns: [-1] when the word does not occur, the
    index of the first occurrence otherwise. *)
Lemma indexOfFrom_spec (s : jsstring) :
  forall k,
    (indexOfFrom s w k = -1 /\ ~ occurs w s)
    \/ exists i, indexOfFrom s w k = k + Z.of_nat i /\ firstAt w s i.
Proof.
  induction s as [|c s IH]; intros k; cbn [indexOfFrom].
  - destruct (startsWith [] w) eqn:E.
    + right. exists 0%nat. split; [lia|]. split; [now apply occursAt_0|].
      intros j Hj. lia.
    + left. split; [reflexivity|]. intros [i Hi].
      apply occursAt_startsWith in Hi as [Hi Hs]. cbn [length] in Hi.
      assert (i = 0)%nat as -> by lia. cbn [skipn] in Hs. congruence.
  - destruct (startsWith (c :: s) w) eqn:E.
    + right. exists 0%nat. split; [lia|]. split; [now apply occursAt_0|].
      intros j Hj. lia.
    + destruct (IH (k + 1)) as [[H Hn] | (i & H & Ho & Hf)].
      * left. split; [exact H|]. now apply not_occurs_cons.
      * right. exists (S i). split; [lia|]. split; [now apply occursAt_cons|].
        intros [|j] Hj Hc.
        -- apply occursAt_0 in Hc. congruence.
        -- apply occursAt_cons in Hc. apply (Hf j); [lia | exact Hc].
Qed.

Lemma firstAt_unique (s : jsstring) (i j : nat) :
  firstAt w s i -> firstAt w s j -> i = j.
Proof.
  intros [Hi Hfi] [Hj Hfj].
  destruct (Nat.lt_trichotomy i j) as [H|[H|H]]; [|exact H|].
  - now destruct (Hfj i H).
  - now destruct (Hfi j H).
Qed.

Lemma indexOf_absent (s : jsstring) : ~ occurs w s <-> indexOf s w = -1.
Proof.
  unfold indexOf.
  destruct (indexOfFrom_spec s 0) as [[H Hn] | (i & H & Ho & Hf)].
  - tauto.
  - split; [|lia]. intros Hn. destruct Hn. now exists i.
Qed.

Lemma indexOf_first (s : jsstring) (i : nat) :
  firstAt w s i <-> indexOf s w = Z.of_nat i.
Proof.
  unfold indexOf.
  destruct (indexOfFrom_spec s 0) as [[H Hn] | (i' & H & Hf)].
  - split; [|lia]. intros [Ho _]. destruct Hn. now exists i.
  - split.
    + intros Hi. rewrite (firstAt_unique s i i' Hi Hf). lia.
    + intros E. assert (i = i') as -> by lia. exact Hf.
Qed.

(** [indexOf] is [-1] or an index into the string. *)
Lemma indexOf_range (s : jsstring) :
  indexOf s w = -1 \/ 0 <= indexOf s w <= len s.
Proof.
  unfold indexOf.
  destruct (indexOfFrom_spec s 0) as [[H Hn] | (i & H & Ho & Hf)];
    [now left | right].
  apply occursAt_startsWith in Ho as [Hi _]. unfold len. lia.
Qed.

Lemma indexOfFrom_shift (s : jsstring) (k : Z) :
  indexOfFrom s w k
  = if indexOf s w =? -1 then -1 else k + indexOf s w.
Proof.
  unfold indexOf.
  destruct (indexOfFrom_spec s k) as [[H Hn] | (i & H & Hf)];
    destruct (indexOfFrom_spec s 0) as [[H0 Hn0] | (i0 & H0 & Hf0)].
  - now rewrite H, H0.
  - destruct Hn. exists i0. apply Hf0.
  - destruct Hn0. exists i. apply Hf.
  - rewrite (firstAt_unique s i i0 Hf Hf0) in H. rewrite H, H0.
    destruct (0 + Z.of_nat i0 =? -1) eqn:E; [apply Z.eqb_eq in E; lia|].
    lia.
Qed.

Lemma indexOf_here (s : jsstring) : startsWith s w = true -> indexOf s w = 0.
Proof.
  intros H. unfold indexOf. destruct s; cbn [indexOfFrom]; now rewrite H.
Qed.

(** A separator that is not a character of [w] cuts the search in two. *)
Lemma startsWith_sep (c : ascii) (v : jsstring) :
  ~ In c w -> w <> [] ->
  forall u, startsWith (u ++ c :: v) w = startsWith u w.
Proof.
  intros Hc Hw. clear Hw. revert Hc.
  induction w as [|d w' IH]; intros Hc u; [now rewrite !startsWith_nil|].
  destruct u as [|a u]; cbn [app startsWith].
  - destruct (Ascii.eqb d c) eqn:E; [|reflexivity].
    apply Ascii.eqb_eq in E. subst. destruct Hc. now left.
  - rewrite IH; [reflexivity|]. intros H. apply Hc. now right.
Qed.

Lemma indexOf_sep (c : ascii) (u v : jsstring) :
  ~ In c w -> w <> [] ->
  indexOf (u ++ c :: v) w
  = if indexOf u w =? -1
    then if indexOf v w =? -1 then -1 else len u + 1 + indexOf v w
    else indexOf u w.
Proof.
  intros Hc Hw.
  assert (G : forall k, 0 <= k ->
            indexOfFrom (u ++ c :: v) w k
            = if indexOfFrom u w k =? -1
              then indexOfFrom v w (k + len u + 1)
              else indexOfFrom u w k).
  { induction u as [|a u IH]; intros k Hk.
    - pose proof (startsWith_sep c v Hc Hw []) as E0. cbn [app] in E0.
      cbn [app indexOfFrom]. rewrite E0.
      destruct (startsWith [] w) eqn:E.
      + destruct w; [now destruct Hw | discriminate E].
      + cbn. f_equal. unfold len. cbn [length]. lia.
    - pose proof (startsWith_sep c v Hc Hw (a :: u)) as E0. cbn [app] in E0.
      cbn [app indexOfFrom]. rewrite E0.
      destruct (startsWith (a :: u) w).
      + destruct (k =? -1) eqn:E; [apply Z.eqb_eq in E; lia | reflexivity].
      + rewrite IH by lia. unfold len. cbn [length].
        replace (k + 1 + Z.of_nat (length u) + 1)
          with (k + Z.of_nat (S (length u)) + 1) by lia.
        reflexivity. }
  unfold indexOf at 1. rewrite G by lia.
  fold (indexOf u w). rewrite indexOfFrom_shift.
  destruct (indexOf u w =? -1); [|reflexivity].
  destruct (indexOf v w =? -1); [reflexivity | lia].
Qed.

(** An occurrence inside a prefix is an occurrence in the whole. *)
Lemma indexOf_app_hit (u v : jsstring) :
  indexOf u w <> -1 -> indexOf (u ++ v) w = indexOf u w.
Proof.
  intros H.
  destruct (indexOf_range u) as [E | _]; [contradiction|].
  destruct (indexOfFrom_spec u 0) as [[H0 _] | (i & H0 & Ho & Hf)];
    [contradiction|].
  fold (indexOf u w) in H0. rewrite H0, Z.add_0_l.
  apply indexOf_first. split.
  - destruct Ho as (pre & post & -> & <-).
    exists pre, (post ++ v). now rewrite <- !app_assoc.
  - intros j Hj Hc. apply (Hf j Hj).
    apply occursAt_startsWith in Ho as [Hi Hs].
    apply occursAt_startsWith in Hc as [Hi' Hs'].
    apply occursAt_startsWith. split; [lia|].
    apply startsWith_iff in Hs as [post E].
    apply startsWith_iff in Hs' as [post' E'].
    apply startsWith_iff.
    assert (L : (j + length w <= length u)%nat).
    { apply (f_equal (@length _)) in E. rewrite length_skipn, length_app in E.
      lia. }
    exists (firstn (length u - j - length w) post').
    rewrite skipn_app in E'.
    replace (j - length u)%nat with 0%nat in E' by lia. cbn [skipn] in E'.
    apply (f_equal (firstn (length u - j))) in E'.
    rewrite firstn_app, length_skipn in E'.
    replace (length u - j - (length u - j))%nat with 0%nat in E' by lia.
    rewrite firstn_all2 in E' by (rewrite length_skipn; lia).
    cbn [firstn] in E'. rewrite app_nil_r in E'. rewrite E'.
    rewrite firstn_app. rewrite firstn_all2 by lia. reflexivity.
Qed.

(** Before the first occurrence the word does not start anywhere. *)
Lemma indexOf_before (s : jsstring) (i j : nat) :
  indexOf s w = Z.of_nat i -> (j < i)%nat ->
  startsWith (skipn j s) w = false.
Proof.
  intros H Hj. apply indexOf_first in H as [Ho Hf].
  destruct (startsWith (skipn j s) w) eqn:E; [|reflexivity].
  destruct (Hf j Hj). apply occursAt_startsWith. split; [|exact E].
  apply occursAt_startsWith in Ho as [Hi _]. lia.
Qed.

End IndexOf.

(** ** The agent-notes section *)

(** C2: when the start marker is missing, or the end marker is missing,
    or the first end marker is not after the first start marker, there is
    no agent-notes section and the whole body, trimmed, is user
    content. *)
Theorem malformed_markers_no_section
        (b : jsstring)
        (malformed :
           ~ occurs PI_SECTION_START b
           \/ ~ occurs PI_SECTION_END b
           \/ exists i j, firstAt PI_SECTION_START b i
                          /\ firstAt PI_SECTION_END b j /\ (j <= i)%nat) :
  extractPiSection b = None /\ extractUserContent b = trim b.
Proof.
  assert (E : noSection (indexOf b PI_SECTION_START) (indexOf b PI_SECTION_END)
              = true).
  { unfold noSection. destruct malformed as [H | [H | (i & j & Hi & Hj & L)]].
    - apply indexOf_absent in H. rewrite H. reflexivity.
    - apply indexOf_absent in H. rewrite H. now rewrite orb_true_r.
    - apply indexOf_first in Hi, Hj. rewrite Hi, Hj.
      rewrite !orb_true_iff. right. apply Z.leb_le. lia. }
  unfold extractPiSection, extractUserContent. now rewrite E.
Qed.

Lemma malformed_markers_no_section_witness :
  extractPiSection (str "  plain body  ") = None
  /\ extractUserContent (str "  plain body  ") = trim (str "  plain body  ").
Proof.
  apply (malformed_markers_no_section (str "  plain body  ")).
  left. apply indexOf_absent. reflexivity.
Defined.

(** The end marker in front of the start marker: no section either. *)
Example end_before_start :
  let b := PI_SECTION_END ++ str " x " ++ PI_SECTION_START in
  extractPiSection b = None /\ extractUserContent b = trim b.
Proof. now vm_compute. Qed.

(** ** Runs of characters *)

Section Runs.

Variable p : ascii -> bool.

(** Every string starts with a maximal run of [p]. *)
Lemma span (s : jsstring) :
  exists u v, s = u ++ v /\ forallb p u = true /\ stopsAt p v.
Proof.
  induction s as [|c s (u & v & -> & Hu & Hv)].
  - now exists [], [].
  - destruct (p c) eqn:E.
    + exists (c :: u), v. cbn [forallb]. rewrite E, Hu. now repeat split.
    + exists [], (c :: u ++ v). now repeat split.
Qed.

Lemma dropWhile_run (u v : jsstring) :
  forallb p u = true -> stopsAt p v -> dropWhile p (u ++ v) = v.
Proof.
  intros Hu Hv. induction u as [|c u IH]; cbn [app dropWhile].
  - destruct v as [|d v]; [reflexivity|]. cbn in Hv. cbn. now rewrite Hv.
  - cbn [forallb] in Hu. apply andb_true_iff in Hu as [-> Hu]. now apply IH.
Qed.

Lemma forallb_rev (u : jsstring) : forallb p (rev u) = forallb p u.
Proof.
  induction u as [|c u IH]; [reflexivity|].
  cbn [rev forallb]. rewrite forallb_app, IH. cbn [forallb].
  now rewrite andb_true_r, andb_comm.
Qed.

Lemma dropWhileEnd_run (b d : jsstring) :
  endsOutside p b -> forallb p d = true -> dropWhileEnd p (b ++ d) = b.
Proof.
  intros Hb Hd. unfold dropWhileEnd. rewrite rev_app_distr.
  rewrite dropWhile_run.
  - apply rev_involutive.
  - now rewrite forallb_rev.
  - destruct Hb as [-> | (b' & x & -> & Hx)]; [exact I|].
    rewrite rev_app_distr. exact Hx.
Qed.

(** Every string is such a string followed by a run of [p]. *)
Lemma span_end (s : jsstring) :
  exists b d, s = b ++ d /\ endsOutside p b /\ forallb p d = true.
Proof.
  destruct (span (rev s)) as (u & v & E & Hu & Hv).
  exists (rev v), (rev u). split; [|split].
  - rewrite <- rev_app_distr, <- E. symmetry. apply rev_involutive.
  - destruct v as [|x v]; [now left|]. right.
    exists (rev v), x. split; [reflexivity | exact Hv].
  - now rewrite forallb_rev.
Qed.

(** Inside a string that ends outside [p], every position starts a run
    of [p] that stops before the end. *)
Lemma run_then_stop (t : jsstring) (x : ascii) (tl : jsstring) :
  p x = false ->
  exists u d v, t ++ x :: tl = u ++ d :: v
                /\ forallb p u = true /\ p d = false.
Proof.
  intros Hx. induction t as [|c t (u & d & v & E & Hu & Hd)].
  - now exists [], x, tl.
  - destruct (p c) eqn:Ec.
    + exists (c :: u), d, v. cbn [app forallb]. rewrite E, Ec, Hu.
      now repeat split.
    + now exists [], c, (t ++ x :: tl).
Qed.

End Runs.

(** ** The slug *)

Section CollapseRuns.

Let bad (c : ascii) : bool := negb (isLowerAlnum c).

Variable fuel : nat.

Lemma bad_step : forall x k, m fuel (Cls bad) x k = step bad x k.
Proof. reflexivity. Qed.

Lemma collapse_stop (v : jsstring) (inRun : bool) :
  stopsAt bad v -> collapseRuns bad inRun v = collapseRuns bad false v.
Proof.
  destruct v as [|c v]; [reflexivity|]. cbn [stopsAt collapseRuns].
  now intros ->.
Qed.

Lemma collapse_good_false (g v : jsstring) :
  forallb isLowerAlnum g = true ->
  collapseRuns bad false (g ++ v) = g ++ collapseRuns bad false v.
Proof.
  intros Hg. induction g as [|c g IH]; [reflexivity|].
  cbn [forallb] in Hg. apply andb_true_iff in Hg as [Hc Hg].
  cbn [app collapseRuns]. unfold bad at 1. rewrite Hc. cbn [negb].
  f_equal. now apply IH.
Qed.

Lemma collapse_bad_run (u v : jsstring) :
  forallb bad u = true ->
  collapseRuns bad true (u ++ v) = collapseRuns bad true v.
Proof.
  intros Hu. induction u as [|c u IH]; [reflexivity|].
  cbn [forallb] in Hu. apply andb_true_iff in Hu as [Hc Hu].
  cbn [app collapseRuns]. rewrite Hc. now apply IH.
Qed.

(** No match starts on a character of [a-z0-9]. *)
Lemma search_good (g : jsstring) :
  forall v i,
    forallb isLowerAlnum g = true ->
    search fuel nonAlnumRun (g ++ v) i
    = search fuel nonAlnumRun v (i + length g).
Proof.
  induction g as [|c g IH]; intros v i Hg.
  - cbn [app length]. now rewrite Nat.add_0_r.
  - cbn [forallb] in Hg. apply andb_true_iff in Hg as [Hc Hg].
    cbn [app search]. unfold nonAlnumRun at 1.
    rewrite (plus_stops fuel _ bad bad_step).
    + rewrite IH by assumption. cbn [length]. now rewrite Nat.add_succ_r.
    + cbn. unfold bad. now rewrite Hc.
Qed.

Lemma search_bad (c : ascii) (u v : jsstring) (i : nat) :
  bad c = true -> forallb bad u = true -> stopsAt bad v ->
  (length u < fuel)%nat ->
  search fuel nonAlnumRun (c :: u ++ v) i
  = Some (i, MState v (i + S (length u)) []).
Proof.
  intros Hc Hu Hv Hf. apply search_here. unfold nonAlnumRun.
  now apply (plus_accept fuel _ bad bad_step).
Qed.

Lemma search_end (i : nat) : search fuel nonAlnumRun [] i = None.
Proof.
  cbn [search]. unfold nonAlnumRun.
  now rewrite (plus_stops fuel _ bad bad_step).
Qed.

End CollapseRuns.

Section ReplaceRuns.

Let bad (c : ascii) : bool := negb (isLowerAlnum c).

Lemma execAt_suffix (re : regex) (pre suf : jsstring) :
  execAt re (pre ++ suf) (length pre)
  = search (S (length (pre ++ suf))) re suf (length pre).
Proof.
  unfold execAt. rewrite skipn_length_app.
  rewrite (proj2 (Nat.leb_le _ _)); [reflexivity|].
  rewrite length_app. lia.
Qed.

(** The loop of the global replace, run on [/[^a-z0-9]+/g]. *)
Lemma replaceLoop_collapse (n : nat) :
  forall suf pre acc,
    (length suf < n)%nat ->
    replaceLoop n nonAlnumRun (pre ++ suf) (str "-")
                (length pre) (length pre) acc
    = acc ++ collapseRuns bad false suf.
Proof.
  induction n as [|n IH]; intros suf pre acc Hn; [lia|].
  cbn [replaceLoop]. rewrite execAt_suffix.
  destruct (span isLowerAlnum suf) as (g & tl & -> & Hg & Htl).
  rewrite search_good by assumption.
  rewrite collapse_good_false by assumption.
  destruct tl as [|c tl].
  - rewrite search_end, skipn_length_app. reflexivity.
  - cbn [stopsAt] in Htl.
    assert (Hc : bad c = true) by (unfold bad; now rewrite Htl).
    destruct (span bad tl) as (u & v & -> & Hu & Hv).
    rewrite length_app in Hn. cbn [length] in Hn. rewrite length_app in Hn.
    rewrite search_bad; trivial.
    2:{ rewrite !length_app. cbn [length]. rewrite length_app. lia. }
    cbn [pos].
    rewrite (proj2 (Nat.eqb_neq _ _)) by lia.
    rewrite skipn_length_app.
    replace (length pre + length g - length pre)%nat with (length g) by lia.
    rewrite firstn_length_app.
    replace (pre ++ g ++ c :: u ++ v) with ((pre ++ g ++ c :: u) ++ v)
      by (rewrite <- !app_assoc; cbn [app]; now rewrite <- ?app_assoc).
    replace (length pre + length g + S (length u))%nat
      with (length (pre ++ g ++ c :: u))
      by (rewrite !length_app; cbn [length]; lia).
    rewrite IH by lia.
    cbn [collapseRuns]. rewrite Htl. cbn [negb].
    rewrite collapse_bad_run by assumption.
    rewrite (collapse_stop v true) by assumption.
    rewrite <- !app_assoc. reflexivity.
Qed.

Lemma replaceAll_nonAlnumRun (s : jsstring) :
  replaceAll nonAlnumRun s (str "-") = collapseRuns bad false s.
Proof.
  unfold replaceAll.
  apply (replaceLoop_collapse (length s + 2) s [] []). lia.
Qed.

End ReplaceRuns.

Section Dashes.

Variable fuel : nat.

Local Abbreviation dash := (Chr "-").

Lemma dash_step : forall x k, m fuel dash x k = step isDash x k.
Proof. reflexivity. Qed.

Lemma skipn_app_within {A} (j : nat) (l1 l2 : list A) :
  (j <= length l1)%nat -> skipn j (l1 ++ l2) = skipn j l1 ++ l2.
Proof.
  intros H. rewrite skipn_app.
  replace (j - length l1)%nat with 0%nat by lia. reflexivity.
Qed.

(** [-+$] fails on dashes followed by something else. *)
Lemma trailing_fail (u : jsstring) (d : ascii) (v : jsstring) (i : nat) cs :
  forallb isDash u = true -> isDash d = false ->
  m fuel trailingDashes (MState (u ++ d :: v) i cs) Some = None.
Proof.
  intros Hu Hd. unfold trailingDashes. cbn [m].
  destruct u as [|c u].
  - apply (plus_stops fuel dash isDash dash_step). exact Hd.
  - cbn [forallb] in Hu. apply andb_true_iff in Hu as [Hc Hu].
    apply (plus_reject fuel dash isDash dash_step); trivial.
    intros j Hj.
    change (c :: u ++ d :: v) with ((c :: u) ++ d :: v).
    rewrite skipn_app_within by (cbn [length]; lia).
    destruct (skipn j (c :: u)); reflexivity.
Qed.

(** [-+$] takes a run of dashes that ends the input. *)
Lemma trailing_ok (c : ascii) (u : jsstring) (i : nat) cs :
  isDash c = true -> forallb isDash u = true -> (length u < fuel)%nat ->
  m fuel trailingDashes (MState (c :: u) i cs) Some
  = Some (MState [] (i + S (length u)) cs).
Proof.
  intros Hc Hu Hf. unfold trailingDashes. cbn [m].
  rewrite <- (app_nil_r u) at 1.
  now apply (plus_accept fuel dash isDash dash_step).
Qed.

Lemma trailing_nil (i : nat) cs (k : cont) :
  m fuel trailingDashes (MState [] i cs) k = None.
Proof.
  unfold trailingDashes. cbn [m].
  now apply (plus_stops fuel dash isDash dash_step).
Qed.

(** Away from the start, [^-+|-+$] is [-+$]. *)
Lemma edge_pos (s : jsstring) (i : nat) cs (k : cont) :
  (0 < i)%nat ->
  m fuel edgeDashes (MState s i cs) k = m fuel trailingDashes (MState s i cs) k.
Proof.
  intros Hi. unfold edgeDashes, trailingDashes. cbn [m pos].
  now rewrite (proj2 (Nat.eqb_neq i 0)) by lia.
Qed.

(** At the start, [^-+] takes the leading run. *)
Lemma edge_lead (c : ascii) (u v : jsstring) cs :
  isDash c = true -> forallb isDash u = true -> stopsAt isDash v ->
  (length u < fuel)%nat ->
  m fuel edgeDashes (MState (c :: u ++ v) 0 cs) Some
  = Some (MState v (S (length u)) cs).
Proof.
  intros Hc Hu Hv Hf. unfold edgeDashes. cbn [m pos Nat.eqb].
  now rewrite (plus_accept fuel dash isDash dash_step c u v 0 cs Some
                 (MState v (S (length u)) cs)).
Qed.

Lemma edge_stop (s : jsstring) (i : nat) cs (k : cont) :
  stopsAt isDash s -> m fuel edgeDashes (MState s i cs) k = None.
Proof.
  intros H. unfold edgeDashes. cbn [m pos].
  rewrite !(plus_stops fuel dash isDash dash_step) by assumption.
  now destruct (Nat.eqb i 0).
Qed.

Lemma search_trailing_skip (t : jsstring) :
  forall (x : ascii) (tl : jsstring) (i : nat),
    isDash x = false ->
    search fuel trailingDashes (t ++ x :: tl) i
    = search fuel trailingDashes tl (i + S (length t)).
Proof.
  induction t as [|c t IH]; intros x tl i Hx.
  - pose proof (trailing_fail [] x tl i [] eq_refl Hx) as F.
    cbn [app] in F. cbn [app search length]. rewrite F.
    now rewrite Nat.add_1_r.
  - destruct (run_then_stop isDash (c :: t) x tl Hx) as (u & d & v & E & Hu & Hd).
    cbn [app] in E. cbn [app search]. rewrite E at 1.
    rewrite trailing_fail by assumption.
    rewrite IH by assumption. cbn [length]. f_equal. lia.
Qed.

Lemma search_edge_skip (t : jsstring) :
  forall (x : ascii) (tl : jsstring) (i : nat),
    isDash x = false ->
    (0 < i)%nat \/ stopsAt isDash (t ++ x :: tl) ->
    search fuel edgeDashes (t ++ x :: tl) i
    = search fuel edgeDashes tl (i + S (length t)).
Proof.
  induction t as [|c t IH]; intros x tl i Hx Hi.
  - cbn [app search length].
    rewrite (edge_stop (x :: tl) i [] Some Hx).
    now rewrite Nat.add_1_r.
  - assert (F : m fuel edgeDashes (MState ((c :: t) ++ x :: tl) i []) Some
                = None).
    { destruct Hi as [Hi | Hs]; [|now apply edge_stop].
      rewrite edge_pos by assumption.
      destruct (run_then_stop isDash (c :: t) x tl Hx)
        as (u & d & v & -> & Hu & Hd).
      now apply trailing_fail. }
    cbn [app] in F. cbn [app search]. rewrite F.
    rewrite IH; [|assumption | left; lia]. cbn [length]. f_equal. lia.
Qed.

Lemma search_trailing_dashes (c : ascii) (u : jsstring) (i : nat) :
  isDash c = true -> forallb isDash u = true -> (length u < fuel)%nat ->
  search fuel trailingDashes (c :: u) i
  = Some (i, MState [] (i + S (length u)) []).
Proof. intros. apply search_here. now apply trailing_ok. Qed.

Lemma search_edge_dashes (c : ascii) (u : jsstring) (i : nat) :
  (0 < i)%nat ->
  isDash c = true -> forallb isDash u = true -> (length u < fuel)%nat ->
  search fuel edgeDashes (c :: u) i
  = Some (i, MState [] (i + S (length u)) []).
Proof.
  intros. apply search_here. rewrite edge_pos by assumption.
  now apply trailing_ok.
Qed.

Lemma search_trailing_nil (i : nat) : search fuel trailingDashes [] i = None.
Proof. cbn [search]. now rewrite trailing_nil. Qed.

Lemma search_edge_nil (i : nat) : search fuel edgeDashes [] i = None.
Proof. cbn [search]. now rewrite (edge_stop [] i [] Some I). Qed.

End Dashes.

Section StripDashes.

(** A run of dashes that stops at once is empty. *)
Lemma run_stops_nil (d : jsstring) :
  forallb isDash d = true -> stopsAt isDash d -> d = [].
Proof.
  destruct d as [|c d]; [reflexivity|]. cbn [forallb stopsAt].
  intros H Hc. rewrite Hc in H. discriminate.
Qed.

Lemma execAt_end (re : regex) (s : jsstring) :
  execAt re s (length s) = search (S (length s)) re [] (length s).
Proof.
  pose proof (execAt_suffix re s []) as E. now rewrite app_nil_r in E.
Qed.

(** [replace(/-+$/, "")] strips the trailing dashes. *)
Lemma replaceFirst_trailingDashes (s : jsstring) :
  replaceFirst trailingDashes s [] = dropWhileEnd isDash s.
Proof.
  destruct (span_end isDash s) as (b & d & -> & Hb & Hd).
  rewrite dropWhileEnd_run by assumption.
  unfold replaceFirst.
  pose proof (execAt_suffix trailingDashes [] (b ++ d)) as E.
  cbn [app length] in E. rewrite E. clear E.
  set (fuel := S (length (b ++ d))).
  assert (Hf : forall c u, d = c :: u -> (length u < fuel)%nat).
  { intros c u ->. subst fuel. rewrite length_app. cbn [length]. lia. }
  destruct Hb as [-> | (b' & x & -> & Hx)].
  - cbn [app] in *. destruct d as [|c u].
    + now rewrite search_trailing_nil.
    + cbn [forallb] in Hd. apply andb_true_iff in Hd as [Hc Hu].
      rewrite search_trailing_dashes; trivial; [|now apply (Hf c u)].
      cbn [pos firstn app Nat.add]. apply skipn_all.
  - rewrite <- app_assoc. cbn [app].
    rewrite search_trailing_skip by assumption. cbn [Nat.add].
    destruct d as [|c u].
    + now rewrite search_trailing_nil.
    + cbn [forallb] in Hd. apply andb_true_iff in Hd as [Hc Hu].
      rewrite search_trailing_dashes; trivial; [|now apply (Hf c u)].
      cbn [pos app].
      replace (S (length b')) with (length (b' ++ [x]))
        by (rewrite length_app; cbn [length]; lia).
      change (b' ++ x :: c :: u) with (b' ++ [x] ++ c :: u).
      rewrite app_assoc, firstn_length_app.
      rewrite skipn_all2; [now rewrite app_nil_r|].
      rewrite !length_app. cbn [length]. lia.
Qed.

(** The loop of the global replace on [/^-+|-+$/g], once the leading
    run is behind: what is left is stripped of its trailing dashes. *)
Lemma replaceLoop_edge_tail (n : nat) (pre r0 acc : jsstring) :
  (2 <= n)%nat ->
  stopsAt isDash r0 ->
  replaceLoop n edgeDashes (pre ++ r0) [] (length pre) (length pre) acc
  = acc ++ dropWhileEnd isDash r0.
Proof.
  intros Hn Hr.
  destruct (span_end isDash r0) as (b & d & -> & Hb & Hd).
  rewrite dropWhileEnd_run by assumption.
  destruct n as [|n]; [lia|]. cbn [replaceLoop]. rewrite execAt_suffix.
  set (s := pre ++ b ++ d). set (fuel := S (length s)).
  destruct Hb as [-> | (b' & x & -> & Hx)].
  - cbn [app] in *. pose proof (run_stops_nil d Hd Hr) as Ed.
    subst fuel s. rewrite Ed.
    rewrite search_edge_nil. now rewrite skipn_length_app.
  - rewrite <- app_assoc. cbn [app].
    rewrite search_edge_skip; trivial.
    2:{ destruct pre as [|a pre]; [right | left; cbn [length]; lia].
        rewrite <- app_assoc in Hr. exact Hr. }
    destruct d as [|c u].
    + rewrite search_edge_nil. subst s.
      now rewrite skipn_length_app, app_nil_r.
    + cbn [forallb] in Hd. apply andb_true_iff in Hd as [Hc Hu].
      rewrite search_edge_dashes; trivial; try lia.
      2:{ subst fuel s. rewrite !length_app. cbn [length]. lia. }
      cbn [pos].
      rewrite (proj2 (Nat.eqb_neq _ _)) by lia.
      replace (length pre + S (length b') + S (length u))%nat
        with (length s)
        by (subst s; rewrite !length_app; cbn [length]; lia).
      destruct n as [|n]; [lia|]. cbn [replaceLoop].
      rewrite execAt_end, search_edge_nil.
      rewrite skipn_all, !app_nil_r.
      f_equal. subst s. rewrite skipn_length_app.
      replace (length pre + S (length b') - length pre)%nat
        with (length (b' ++ [x]))
        by (rewrite length_app; cbn [length]; lia).
      now rewrite firstn_length_app.
Qed.

(** [replace(/^-+|-+$/g, "")] strips the dashes at both ends. *)
Lemma replaceAll_edgeDashes (s : jsstring) :
  replaceAll edgeDashes s [] = dropWhileEnd isDash (dropWhile isDash s).
Proof.
  destruct (span isDash s) as (lead & r0 & -> & Hl & Hr).
  rewrite dropWhile_run by assumption.
  unfold replaceAll.
  destruct lead as [|c u].
  - cbn [app]. apply (replaceLoop_edge_tail _ [] r0 []); [lia | exact Hr].
  - cbn [forallb] in Hl. apply andb_true_iff in Hl as [Hc Hu].
    replace (length ((c :: u) ++ r0) + 2)%nat
      with (S (length ((c :: u) ++ r0) + 1)) by lia.
    cbn [replaceLoop].
    pose proof (execAt_suffix edgeDashes [] ((c :: u) ++ r0)) as E.
    cbn [app length] in E. cbn [app]. rewrite E. clear E.
    rewrite (search_here _ edgeDashes _ 0 (MState r0 (S (length u)) [])).
    2:{ apply edge_lead; trivial. cbn [length]. rewrite length_app. lia. }
    cbn [pos Nat.eqb skipn firstn Nat.sub app].
    change (c :: u ++ r0) with ((c :: u) ++ r0).
    change (S (length u)) with (length (c :: u)).
    apply (replaceLoop_edge_tail _ (c :: u) r0 []); [|exact Hr].
    cbn [length app]. lia.
Qed.

(** The slug of the code is the slug of the specification. *)
Lemma slug_specSlug (title : jsstring) : slug title = specSlug title.
Proof.
  unfold slug, specSlug.
  rewrite replaceFirst_trailingDashes.
  change 50 with (Z.of_nat 50). rewrite slice_0_firstn.
  now rewrite replaceAll_edgeDashes, replaceAll_nonAlnumRun.
Qed.

End StripDashes.

(** C3: the branch name is [todo/], the number, a dash and the slug:
    the title lowercased, every run of characters outside [a-z0-9]
    collapsed to one dash, the dashes at both ends stripped, cut to 50
    characters, and trailing dashes stripped again; the sample issue of
    the specification gets [todo/7-fix-the-thing-v2]. *)
Theorem getIssueBranchName_slug :
  (forall issue : IssueRef,
      getIssueBranchName issue
      = str "todo/" ++ numberToString (number issue) ++ str "-"
        ++ specSlug (title issue))
  /\ getIssueBranchName {| number := 7; title := str "Fix!! the Thing (v2)" |}
     = str "todo/7-fix-the-thing-v2".
Proof.
  split; [|now vm_compute].
  intros issue. unfold getIssueBranchName. now rewrite slug_specSlug.
Qed.

(** A title without letters or digits gives the empty slug. *)
Example getIssueBranchName_empty_slug :
  getIssueBranchName {| number := 3; title := str "?!?" |} = str "todo/3-".
Proof. now vm_compute. Qed.

(** ** Trimming *)

Section Trim.

Local Abbreviation ws := isWhiteSpace.

Lemma trimStart_dropWhile (s : jsstring) : trimStart s = dropWhile ws s.
Proof.
  induction s as [|c s IH]; [reflexivity|].
  cbn [trimStart dropWhile]. now rewrite IH.
Qed.

Lemma trim_dropWhile (s : jsstring) :
  trim s = dropWhileEnd ws (dropWhile ws s).
Proof.
  unfold trim, trimEnd, dropWhileEnd. now rewrite !trimStart_dropWhile.
Qed.

(** White space around a clean string is what [trim] removes. *)
Lemma trim_core (lead b d : jsstring) :
  forallb ws lead = true -> forallb ws d = true -> clean b ->
  trim (lead ++ b ++ d) = b.
Proof.
  intros Hl Hd [Hs He]. rewrite trim_dropWhile.
  destruct b as [|c b].
  - cbn [app]. rewrite <- (app_nil_r (lead ++ d)).
    rewrite dropWhile_run; [reflexivity | | exact I].
    now rewrite forallb_app, Hl, Hd.
  - rewrite dropWhile_run; [|assumption | exact Hs].
    now apply dropWhileEnd_run.
Qed.

Lemma trim_clean (s : jsstring) : clean (trim s).
Proof.
  rewrite trim_dropWhile.
  destruct (span ws s) as (lead & r0 & -> & Hl & Hr).
  rewrite dropWhile_run by assumption.
  destruct (span_end ws r0) as (b & d & -> & Hb & Hd).
  rewrite dropWhileEnd_run by assumption.
  split; [|exact Hb].
  destruct b as [|c b]; [exact I | exact Hr].
Qed.

(** [trim] leaves a piece of its argument. *)
Lemma trim_inside (s : jsstring) :
  exists lead d, s = lead ++ trim s ++ d.
Proof.
  rewrite trim_dropWhile.
  destruct (span ws s) as (lead & r0 & -> & Hl & Hr).
  rewrite dropWhile_run by assumption.
  destruct (span_end ws r0) as (b & d & -> & Hb & Hd).
  rewrite dropWhileEnd_run by assumption.
  now exists lead, d.
Qed.

Lemma trim_of_clean (t : jsstring) : clean t -> trim t = t.
Proof.
  intros H. rewrite <- (trim_core [] t [] eq_refl eq_refl H) at 2.
  cbn [app]. now rewrite app_nil_r.
Qed.

Lemma trim_idempotent (s : jsstring) : trim (trim s) = trim s.
Proof. apply trim_of_clean, trim_clean. Qed.

Lemma trim_nil : trim [] = [].
Proof. reflexivity. Qed.

End Trim.

(** ** Slices *)

Section Slices.

Lemma clampIndex_nat (n k : nat) :
  (k <= n)%nat -> clampIndex (Z.of_nat n) (Z.of_nat k) = Z.of_nat k.
Proof.
  intros H. unfold clampIndex.
  destruct (Z.of_nat k <? 0) eqn:E; [apply Z.ltb_lt in E; lia | lia].
Qed.

Lemma slice_nat (s : jsstring) (a b : nat) :
  (a <= length s)%nat -> (b <= length s)%nat ->
  slice s (Z.of_nat a) (Z.of_nat b) = firstn (b - a) (skipn a s).
Proof.
  intros Ha Hb. unfold slice, len. rewrite !clampIndex_nat by assumption.
  f_equal; [|now rewrite Nat2Z.id]. lia.
Qed.

Lemma sliceFrom_nat (s : jsstring) (a : nat) :
  (a <= length s)%nat -> sliceFrom s (Z.of_nat a) = skipn a s.
Proof.
  intros Ha. unfold sliceFrom, len. rewrite slice_nat by lia.
  apply firstn_all2. rewrite length_skipn. lia.
Qed.

End Slices.

(** ** Occurrences inside pieces *)

Section Pieces.

Variable w : jsstring.

Lemma occurs_inside (a s c : jsstring) : occurs w s -> occurs w (a ++ s ++ c).
Proof.
  intros (i & pre & post & -> & _).
  exists (length (a ++ pre)), (a ++ pre), (post ++ c).
  split; [|reflexivity]. now rewrite <- !app_assoc.
Qed.

Lemma not_occurs_trim (s : jsstring) : ~ occurs w s -> ~ occurs w (trim s).
Proof.
  intros H Ht. destruct (trim_inside s) as (lead & d & E).
  apply H. rewrite E. now apply occurs_inside.
Qed.

(** Before its first occurrence, a non-empty word does not occur. *)
Lemma not_occurs_before (s : jsstring) (i k : nat) :
  w <> [] -> firstAt w s k -> (i <= k)%nat -> ~ occurs w (firstn i s).
Proof.
  intros Hw [_ Hf] Hik (j & pre & post & E & <-).
  assert (Hl : (length pre + length w <= i)%nat).
  { apply (f_equal (@length _)) in E.
    rewrite length_firstn, !length_app in E. lia. }
  assert (0 < length w)%nat by (destruct w; [congruence | cbn; lia]).
  apply (Hf (length pre)); [lia|].
  exists pre, (post ++ skipn i s). split; [|reflexivity].
  rewrite <- (firstn_skipn i s) at 1. rewrite E.
  now rewrite <- !app_assoc.
Qed.

End Pieces.

(** ** The details pattern on a wrapped block *)

Section DetailsPattern.

Variable t : jsstring.
Hypothesis no_close : ~ occurs (str "</details>") t.

Lemma indexOf_line (w u v : jsstring) (k : nat) :
  ~ In LF w -> w <> [] ->
  indexOf u w = -1 ->
  indexOf v w = Z.of_nat k ->
  indexOf (u ++ LF :: v) w = Z.of_nat (length u + 1 + k).
Proof.
  intros Hc Hw Hu Hv. rewrite indexOf_sep by assumption.
  rewrite Hu, Hv, Z.eqb_refl.
  destruct (Z.of_nat k =? -1) eqn:E; [apply Z.eqb_eq in E; lia|].
  unfold len. lia.
Qed.

Lemma search_next (fuel : nat) (re : regex) (c : ascii) (s : jsstring)
      (i : nat) :
  m fuel re (MState (c :: s) i []) Some = None ->
  search fuel re (c :: s) i = search fuel re s (S i).
Proof. intros H. cbn [search]. now rewrite H. Qed.

Lemma anyChar_step (fuel : nat) :
  forall x k,
    m fuel anyChar x k
    = step (fun c => isWhiteSpace c || negb (isWhiteSpace c)) x k.
Proof. reflexivity. Qed.

Lemma anyChar_all (u : jsstring) :
  forallb (fun c => isWhiteSpace c || negb (isWhiteSpace c)) u = true.
Proof.
  induction u as [|c u IH]; [reflexivity|].
  cbn [forallb]. now rewrite orb_negb_r, IH.
Qed.

Lemma close_tag_first :
  indexOf (LF :: LF :: t ++ LF :: LF :: str "</details>" ++ [LF])
          (str "</details>")
  = Z.of_nat (length t + 4).
Proof.
  assert (Hc : ~ In LF (str "</details>")).
  { cbn. intros H. repeat (destruct H as [H|H]; [discriminate H|]). exact H. }
  assert (Hw : str "</details>" <> []) by discriminate.
  pose proof (indexOf_here (str "</details>") (str "</details>" ++ [LF])
                (startsWith_app _ _)) as A0.
  change 0 with (Z.of_nat 0) in A0.
  pose proof (indexOf_line _ [] _ _ Hc Hw eq_refl A0) as A1.
  apply indexOf_absent in no_close.
  pose proof (indexOf_line _ t _ _ Hc Hw no_close A1) as A2.
  pose proof (indexOf_line _ [] _ _ Hc Hw eq_refl A2) as A3.
  pose proof (indexOf_line _ [] _ _ Hc Hw eq_refl A3) as A4.
  cbn [app length] in A4. rewrite A4. f_equal. lia.
Qed.

Lemma detailsPattern_sectionText :
  exists y,
    execAt detailsPattern (sectionText t) 0 = Some (1%nat, y)
    /\ capture 1 (caps y) = Some (LF :: LF :: t ++ [LF; LF]).
Proof.
  unfold execAt. cbn [Nat.leb skipn].
  set (fuel := S (length (sectionText t))).
  assert (Hf : (length t + 59 < fuel)%nat).
  { subst fuel. unfold sectionText.
    cbn [app str list_ascii_of_string length].
    rewrite length_app. cbn [length]. lia. }
  unfold sectionText at 1.
  rewrite search_next.
  2:{ unfold detailsPattern. cbn [seqs m]. rewrite m_lit. reflexivity. }
  eexists. split.
  - apply search_here.
    unfold detailsPattern. cbn [seqs m]. rewrite m_lit. cbn [rest pos caps].
    rewrite startsWith_app, skipn_length_app.
    eapply (lazy_accept _ _ (anyChar_step fuel) [LF]).
    + reflexivity.
    + cbn [length]. lia.
    + intros j Hj. cbn [length] in Hj. assert (j = 0)%nat as -> by lia.
      rewrite m_lit. reflexivity.
    + rewrite m_lit. cbn [rest pos caps].
      rewrite startsWith_app, skipn_length_app.
      eapply (greedy_accept _ _ (fun _ _ => eq_refl) (str "Pi Agent Notes")).
      * reflexivity.
      * reflexivity.
      * cbn [length str list_ascii_of_string]. lia.
      * rewrite m_lit. cbn [rest pos caps].
        rewrite startsWith_app, skipn_length_app.
        set (u := LF :: LF :: t ++ [LF; LF]).
        set (v := str "</details>" ++ [LF]).
        assert (Eu : LF :: LF :: t ++ LF :: LF :: v = u ++ v).
        { subst u. cbn [app]. now rewrite <- app_assoc. }
        assert (Lu : length u = (length t + 4)%nat).
        { subst u. cbn [length]. rewrite length_app. cbn [length]. lia. }
        pose proof close_tag_first as Hfirst. fold v in Hfirst.
        rewrite Eu in Hfirst. rewrite Eu.
        eapply (lazy_accept _ _ (anyChar_step fuel) u v).
        -- apply anyChar_all.
        -- lia.
        -- intros j Hj. rewrite m_lit. cbn [rest pos caps].
           rewrite (indexOf_before _ _ _ j Hfirst) by lia. reflexivity.
        -- rewrite m_lit. cbn [rest pos caps].
           subst v. rewrite startsWith_app. reflexivity.
  - cbn [caps capture Nat.eqb]. f_equal.
    match goal with
    | |- firstn ?n _ = _ => replace n with (length (LF :: LF :: t ++ [LF; LF]))
    end.
    + apply firstn_length_app.
    + lia.
Qed.

End DetailsPattern.

(** ** Updating the agent-notes section *)

Section NotesBlock.

Variables t post : jsstring.

Lemma notesBlock_shape :
  notesBlock t post
  = PI_SECTION_START ++ sectionText t ++ PI_SECTION_END ++ post.
Proof.
  unfold notesBlock, sectionText.
  cbn [app str list_ascii_of_string PI_SECTION_START].
  rewrite <- app_assoc. reflexivity.
Qed.

Lemma length_sectionText : length (sectionText t) = (length t + 59)%nat.
Proof.
  unfold sectionText. cbn [app str list_ascii_of_string length].
  rewrite length_app. cbn [length]. lia.
Qed.

Lemma notesBlock_start : indexOf (notesBlock t post) PI_SECTION_START = 0.
Proof. apply indexOf_here. unfold notesBlock. apply startsWith_app. Qed.

Hypothesis no_end : ~ occurs PI_SECTION_END t.

Lemma notesBlock_end :
  indexOf (notesBlock t post) PI_SECTION_END
  = Z.of_nat (length PI_SECTION_START + length (sectionText t)).
Proof.
  assert (Hc : ~ In LF PI_SECTION_END).
  { cbn. intros H. repeat (destruct H as [H|H]; [discriminate H|]). exact H. }
  assert (Hw : PI_SECTION_END <> []) by discriminate.
  pose proof (indexOf_here PI_SECTION_END (PI_SECTION_END ++ post)
                (startsWith_app _ _)) as A0.
  change 0 with (Z.of_nat 0) in A0.
  pose proof (indexOf_line _ (str "</details>") _ _ Hc Hw eq_refl A0) as A1.
  pose proof (indexOf_line _ [] _ _ Hc Hw eq_refl A1) as A2.
  apply indexOf_absent in no_end.
  pose proof (indexOf_line _ t _ _ Hc Hw no_end A2) as A3.
  pose proof (indexOf_line _ [] _ _ Hc Hw eq_refl A3) as A4.
  pose proof (indexOf_line _ (str "<summary>Pi Agent Notes</summary>")
                _ _ Hc Hw eq_refl A4) as A5.
  pose proof (indexOf_line _ (str "<details>") _ _ Hc Hw eq_refl A5) as A6.
  pose proof (indexOf_line _ PI_SECTION_START _ _ Hc Hw eq_refl A6) as A7.
  unfold notesBlock. rewrite A7. f_equal.
  rewrite length_sectionText.
  cbn [length str list_ascii_of_string]. lia.
Qed.

End NotesBlock.

Section RoundTrip.

Lemma noSection_false (a b : nat) :
  (a < b)%nat -> noSection (Z.of_nat a) (Z.of_nat b) = false.
Proof.
  intros H. unfold noSection.
  rewrite !orb_false_iff. repeat split.
  - apply Z.eqb_neq. lia.
  - apply Z.eqb_neq. lia.
  - apply Z.leb_gt. lia.
Qed.

Lemma keepNonEmpty_cons (p : jsstring) (l : list jsstring) :
  p <> [] -> keepNonEmpty (p :: l) = p :: keepNonEmpty l.
Proof.
  intros H. unfold keepNonEmpty. cbn [filter].
  destruct p as [|c p]; [congruence|]. reflexivity.
Qed.

Lemma keepNonEmpty_nil (l : list jsstring) :
  keepNonEmpty ([] :: l) = keepNonEmpty l.
Proof. reflexivity. Qed.

Lemma notesBlock_nonempty (t post : jsstring) : notesBlock t post <> [].
Proof. discriminate. Qed.

Lemma notesBlock_app (t post x : jsstring) :
  notesBlock t post ++ x = notesBlock t (post ++ x).
Proof.
  rewrite !notesBlock_shape. now rewrite <- !app_assoc.
Qed.

Variable t : jsstring.
Hypothesis t_clean : clean t.
Hypothesis no_end : ~ occurs PI_SECTION_END t.
Hypothesis no_close : ~ occurs (str "</details>") t.

Lemma indexOf_nil (w : jsstring) : w <> [] -> indexOf [] w = -1.
Proof. destruct w; [congruence | reflexivity]. Qed.

Lemma markersAt_nil (post : jsstring) : markersAt t [] post.
Proof.
  split; cbn [app length Nat.add].
  - apply notesBlock_start.
  - now apply notesBlock_end.
Qed.

Lemma markersAt_blank (u post : jsstring) :
  ~ occurs PI_SECTION_START u -> ~ occurs PI_SECTION_END u ->
  markersAt t (u ++ blankLine) post.
Proof.
  intros Hs He. apply indexOf_absent in Hs, He.
  assert (forall w k, ~ In LF w -> w <> [] -> indexOf u w = -1 ->
                      indexOf (notesBlock t post) w = Z.of_nat k ->
                      indexOf ((u ++ blankLine) ++ notesBlock t post) w
                      = Z.of_nat (length (u ++ blankLine) + k)) as G.
  { intros w k Hc Hw Hu Hk.
    pose proof (indexOf_line _ [] _ _ Hc Hw (indexOf_nil w Hw) Hk) as A1.
    pose proof (indexOf_line _ u _ _ Hc Hw Hu A1) as A2.
    rewrite <- app_assoc. unfold blankLine. cbn [app] in *. rewrite A2.
    f_equal. rewrite length_app. cbn [length]. lia. }
  assert (Hcs : ~ In LF PI_SECTION_START).
  { cbn. intros H. repeat (destruct H as [H|H]; [discriminate H|]). exact H. }
  assert (Hce : ~ In LF PI_SECTION_END).
  { cbn. intros H. repeat (destruct H as [H|H]; [discriminate H|]). exact H. }
  assert (Hws : PI_SECTION_START <> []) by discriminate.
  assert (Hwe : PI_SECTION_END <> []) by discriminate.
  split.
  - rewrite (G _ 0%nat Hcs Hws Hs (notesBlock_start t post)).
    f_equal. lia.
  - apply (G _ _ Hce Hwe He). now apply notesBlock_end.
Qed.

(** Reading a body in which the block's markers come first. *)
Lemma block_core (pre post : jsstring) :
  markersAt t pre post ->
  extractPiSection (pre ++ notesBlock t post) = Some t
  /\ extractUserContent (pre ++ notesBlock t post)
     = join blankLine (keepNonEmpty [trim pre; trim post]).
Proof.
  intros [H1 H2].
  set (r := pre ++ notesBlock t post) in *.
  assert (Er : r = (pre ++ PI_SECTION_START) ++ sectionText t
                   ++ (PI_SECTION_END ++ post)).
  { subst r. rewrite notesBlock_shape. now rewrite <- !app_assoc. }
  assert (Lr : length r = (length pre + length PI_SECTION_START
                           + length (sectionText t)
                           + length PI_SECTION_END + length post)%nat).
  { rewrite Er, !length_app. lia. }
  assert (Ls : length PI_SECTION_START = 29%nat) by reflexivity.
  assert (noSection (Z.of_nat (length pre))
            (Z.of_nat (length pre + (length PI_SECTION_START
                                     + length (sectionText t)))) = false) as N.
  { apply noSection_false. lia. }
  split.
  - unfold extractPiSection. fold r. rewrite H1, H2, N.
    unfold len. rewrite <- Nat2Z.inj_add.
    rewrite slice_nat by lia.
    replace (length pre + (length PI_SECTION_START + length (sectionText t))
             - (length pre + length PI_SECTION_START))%nat
      with (length (sectionText t)) by lia.
    replace (length pre + length PI_SECTION_START)%nat
      with (length (pre ++ PI_SECTION_START)) by now rewrite length_app.
    rewrite Er, skipn_length_app, firstn_length_app.
    destruct (detailsPattern_sectionText t no_close) as (y & -> & ->).
    f_equal.
    change (LF :: LF :: t ++ [LF; LF]) with ([LF; LF] ++ t ++ [LF; LF]).
    now apply trim_core.
  - unfold extractUserContent. fold r. rewrite H1, H2, N.
    change 0 with (Z.of_nat 0). rewrite slice_nat by lia.
    cbn [skipn]. rewrite Nat.sub_0_r.
    unfold len. rewrite <- Nat2Z.inj_add. rewrite sliceFrom_nat by lia.
    assert (E1 : firstn (length pre) r = pre).
    { subst r. apply firstn_length_app. }
    assert (E2 : skipn (length pre
                        + (length PI_SECTION_START + length (sectionText t))
                        + length PI_SECTION_END) r = post).
    { replace (length pre + (length PI_SECTION_START + length (sectionText t))
               + length PI_SECTION_END)%nat
        with (length (pre ++ PI_SECTION_START ++ sectionText t
                      ++ PI_SECTION_END))
        by (rewrite !length_app; lia).
      subst r. rewrite notesBlock_shape.
      replace (pre ++ PI_SECTION_START ++ sectionText t ++ PI_SECTION_END ++ post)
        with ((pre ++ PI_SECTION_START ++ sectionText t ++ PI_SECTION_END)
              ++ post)
        by now rewrite <- !app_assoc.
      apply skipn_length_app. }
    now rewrite E1, E2.
Qed.

End RoundTrip.

Lemma wrap_notesBlock (n : jsstring) :
  trim n <> [] -> wrapInCollapsible n = notesBlock (trim n) [].
Proof.
  intros notes_nonempty. unfold wrapInCollapsible, notesBlock.
  destruct (trim n) as [|c t]; [congruence|].
  cbn [nonEmpty negb].
  cbn [app str list_ascii_of_string PI_SECTION_START PI_SECTION_TITLE].
  now rewrite app_nil_r.
Qed.

Section UpdatePiSection.

Variable n : jsstring.

Hypothesis notes_nonempty : trim n <> [].
Hypothesis notes_no_end : ~ occurs PI_SECTION_END (trim n).
Hypothesis notes_no_close : ~ occurs (str "</details>") (trim n).

(** White space around a string does not change what [trim] leaves. *)
Lemma trim_pad (l1 u l2 : jsstring) :
  forallb isWhiteSpace l1 = true -> forallb isWhiteSpace l2 = true ->
  trim (l1 ++ u ++ l2) = trim u.
Proof.
  intros H1 H2.
  destruct (span isWhiteSpace u) as (l & r0 & E0 & Hl & Hr).
  destruct (span_end isWhiteSpace r0) as (bb & dd & E1 & Hb & Hd).
  assert (Hc : clean bb).
  { split; [|exact Hb]. subst r0. destruct bb; [exact I | exact Hr]. }
  subst u r0.
  rewrite (trim_core l bb dd Hl Hd Hc).
  replace (l1 ++ (l ++ bb ++ dd) ++ l2) with ((l1 ++ l) ++ bb ++ (dd ++ l2))
    by now rewrite <- !app_assoc.
  apply trim_core; [| |exact Hc].
  - now rewrite forallb_app, H1, Hl.
  - now rewrite forallb_app, Hd, H2.
Qed.

Lemma trim_blank_after (u : jsstring) : trim (u ++ blankLine) = trim u.
Proof. now apply (trim_pad [] u blankLine). Qed.

Lemma trim_blank_before (u : jsstring) : trim (blankLine ++ u) = trim u.
Proof.
  pose proof (trim_pad blankLine u [] eq_refl eq_refl) as H.
  now rewrite app_nil_r in H.
Qed.

(** The round trip through a body whose user part is [before] and
    [after], both trimmed. *)
Lemma round_trip_parts (before after : jsstring) :
  ~ occurs PI_SECTION_START before -> ~ occurs PI_SECTION_END before ->
  trim before = before -> trim after = after ->
  let r := join blankLine (keepNonEmpty [before; wrapInCollapsible n; after]) in
  extractPiSection r = Some (trim n)
  /\ extractUserContent r = join blankLine (keepNonEmpty [before; after]).
Proof.
  intros Hs He Tb Ta r. subst r. rewrite wrap_notesBlock by assumption.
  pose proof (trim_clean n) as Hc.
  pose proof (notesBlock_nonempty (trim n) []) as Hw.
  destruct before as [|c before]; destruct after as [|a after];
    rewrite ?keepNonEmpty_nil;
    repeat (rewrite keepNonEmpty_cons by (assumption || discriminate));
    rewrite ?keepNonEmpty_nil; cbn [keepNonEmpty filter].
  - match goal with
    | |- context [extractPiSection (join blankLine ?l)] =>
        assert (Er : join blankLine l
                     = [] ++ notesBlock (trim n) [])
          by reflexivity;
        rewrite Er; clear Er
    end.
    destruct (block_core (trim n) Hc notes_no_close [] []
                (markersAt_nil (trim n) notes_no_end [])) as [H1 H2].
    now rewrite H1, H2.
  - match goal with
    | |- context [extractPiSection (join blankLine ?l)] =>
        assert (Er : join blankLine l
                     = [] ++ notesBlock (trim n) (blankLine ++ a :: after))
          by (cbn [join app]; now rewrite notesBlock_app);
        rewrite Er; clear Er
    end.
    destruct (block_core (trim n) Hc notes_no_close [] (blankLine ++ a :: after)
                (markersAt_nil (trim n) notes_no_end _)) as [H1 H2].
    rewrite H1, H2, trim_blank_before, Ta. now split.
  - match goal with
    | |- context [extractPiSection (join blankLine ?l)] =>
        assert (Er : join blankLine l
                     = ((c :: before) ++ blankLine) ++ notesBlock (trim n) [])
          by (cbn [join]; now rewrite <- app_assoc);
        rewrite Er; clear Er
    end.
    destruct (block_core (trim n) Hc notes_no_close
                ((c :: before) ++ blankLine) []
                (markersAt_blank (trim n) notes_no_end _ [] Hs He)) as [H1 H2].
    rewrite H1, H2, trim_blank_after, Tb. now split.
  - match goal with
    | |- context [extractPiSection (join blankLine ?l)] =>
        assert (Er : join blankLine l
                     = ((c :: before) ++ blankLine)
                       ++ notesBlock (trim n) (blankLine ++ a :: after))
          by (cbn [join]; now rewrite notesBlock_app, <- app_assoc);
        rewrite Er; clear Er
    end.
    destruct (block_core (trim n) Hc notes_no_close
                ((c :: before) ++ blankLine) (blankLine ++ a :: after)
                (markersAt_blank (trim n) notes_no_end _ _ Hs He)) as [H1 H2].
    rewrite H1, H2, trim_blank_after, trim_blank_before, Tb, Ta. now split.
Qed.

End UpdatePiSection.

(** ** The user content across an update *)

Section UserContent.

(** Reading the user content of a body in which the block's markers
    come first; the notes may hold anything but the end marker. *)
Lemma block_user_content (t pre post : jsstring) :
  markersAt t pre post ->
  extractUserContent (pre ++ notesBlock t post)
  = join blankLine (keepNonEmpty [trim pre; trim post]).
Proof.
  intros [H1 H2].
  set (r := pre ++ notesBlock t post) in *.
  assert (N : noSection (Z.of_nat (length pre))
                (Z.of_nat (length pre + (length PI_SECTION_START
                                         + length (sectionText t)))) = false).
  { apply noSection_false. change (length PI_SECTION_START) with 29%nat. lia. }
  assert (Lr : length r = (length pre + length PI_SECTION_START
                           + length (sectionText t)
                           + length PI_SECTION_END + length post)%nat).
  { subst r. rewrite notesBlock_shape, !length_app. lia. }
  unfold extractUserContent. fold r. rewrite H1, H2, N.
  change 0 with (Z.of_nat 0). rewrite slice_nat by lia.
  cbn [skipn]. rewrite Nat.sub_0_r.
  unfold len. rewrite <- Nat2Z.inj_add. rewrite sliceFrom_nat by lia.
  assert (E1 : firstn (length pre) r = pre).
  { subst r. apply firstn_length_app. }
  assert (E2 : skipn (length pre
                      + (length PI_SECTION_START + length (sectionText t))
                      + length PI_SECTION_END) r = post).
  { replace (length pre + (length PI_SECTION_START + length (sectionText t))
             + length PI_SECTION_END)%nat
      with (length (pre ++ PI_SECTION_START ++ sectionText t
                    ++ PI_SECTION_END))
      by (rewrite !length_app; lia).
    subst r. rewrite notesBlock_shape.
    replace (pre ++ PI_SECTION_START ++ sectionText t ++ PI_SECTION_END ++ post)
      with ((pre ++ PI_SECTION_START ++ sectionText t ++ PI_SECTION_END)
            ++ post)
      by now rewrite <- !app_assoc.
    apply skipn_length_app. }
  now rewrite E1, E2.
Qed.

(** The user content of a body put together from a user part [before],
    the wrapped notes and a user part [after]. *)
Lemma user_content_parts (n before after : jsstring) :
  trim n <> [] -> ~ occurs PI_SECTION_END (trim n) ->
  ~ occurs PI_SECTION_START before -> ~ occurs PI_SECTION_END before ->
  trim before = before -> trim after = after ->
  extractUserContent
    (join blankLine (keepNonEmpty [before; wrapInCollapsible n; after]))
  = join blankLine (keepNonEmpty [before; after]).
Proof.
  intros notes_nonempty notes_no_end Hs He Tb Ta.
  rewrite wrap_notesBlock by assumption.
  pose proof (notesBlock_nonempty (trim n) []) as Hw.
  destruct before as [|c before]; destruct after as [|a after];
    rewrite ?keepNonEmpty_nil;
    repeat (rewrite keepNonEmpty_cons by (assumption || discriminate));
    rewrite ?keepNonEmpty_nil; cbn [keepNonEmpty filter].
  - match goal with
    | |- context [extractUserContent (join blankLine ?l)] =>
        assert (Er : join blankLine l = [] ++ notesBlock (trim n) [])
          by reflexivity;
        rewrite Er; clear Er
    end.
    now rewrite (block_user_content (trim n) [] []
                   (markersAt_nil (trim n) notes_no_end [])).
  - match goal with
    | |- context [extractUserContent (join blankLine ?l)] =>
        assert (Er : join blankLine l
                     = [] ++ notesBlock (trim n) (blankLine ++ a :: after))
          by (cbn [join app]; now rewrite notesBlock_app);
        rewrite Er; clear Er
    end.
    rewrite (block_user_content (trim n) [] (blankLine ++ a :: after)
               (markersAt_nil (trim n) notes_no_end _)).
    now rewrite trim_blank_before, Ta.
  - match goal with
    | |- context [extractUserContent (join blankLine ?l)] =>
        assert (Er : join blankLine l
                     = ((c :: before) ++ blankLine) ++ notesBlock (trim n) [])
          by (cbn [join]; now rewrite <- app_assoc);
        rewrite Er; clear Er
    end.
    rewrite (block_user_content (trim n) ((c :: before) ++ blankLine) []
               (markersAt_blank (trim n) notes_no_end _ [] Hs He)).
    now rewrite trim_blank_after, Tb.
  - match goal with
    | |- context [extractUserContent (join blankLine ?l)] =>
        assert (Er : join blankLine l
                     = ((c :: before) ++ blankLine)
                       ++ notesBlock (trim n) (blankLine ++ a :: after))
          by (cbn [join]; now rewrite notesBlock_app, <- app_assoc);
        rewrite Er; clear Er
    end.
    rewrite (block_user_content (trim n) ((c :: before) ++ blankLine)
               (blankLine ++ a :: after)
               (markersAt_blank (trim n) notes_no_end _ _ Hs He)).
    now rewrite trim_blank_after, trim_blank_before, Tb, Ta.
Qed.

(** The user content is kept by an update with notes that are not
    blank and hold no end marker. *)
Lemma update_keeps_user_content (b n : jsstring) :
  trim n <> [] -> ~ occurs PI_SECTION_END (trim n) ->
  markerFree b \/ wellFormed b ->
  extractUserContent (updatePiSection b n) = extractUserContent b.
Proof.
  intros notes_nonempty notes_no_end body_shape.
  assert (Hs0 : PI_SECTION_START <> []) by discriminate.
  assert (He0 : PI_SECTION_END <> []) by discriminate.
  destruct body_shape as [[Hs He] | (i & j & Hi & Hj & Hlt)].
  - pose proof (user_content_parts n (trim b) [] notes_nonempty notes_no_end
                  (not_occurs_trim _ _ Hs) (not_occurs_trim _ _ He)
                  (trim_idempotent b) trim_nil) as R.
    apply indexOf_absent in Hs.
    unfold updatePiSection, extractUserContent at 2. rewrite Hs.
    cbn [noSection Z.eqb orb].
    assert (Er : (if negb (nonEmpty (trim b)) then wrapInCollapsible n
                  else trim b ++ blankLine ++ wrapInCollapsible n)
                 = join blankLine
                     (keepNonEmpty [trim b; wrapInCollapsible n; []])).
    { rewrite (wrap_notesBlock n notes_nonempty).
      pose proof (notesBlock_nonempty (trim n) []) as Hw.
      destruct (trim b) as [|c u]; rewrite ?keepNonEmpty_nil;
        repeat (rewrite keepNonEmpty_cons by (assumption || discriminate));
        reflexivity. }
    rewrite Er. etransitivity; [exact R|].
    destruct (trim b); reflexivity.
  - assert (Bs : ~ occurs PI_SECTION_START (firstn i b)).
    { apply (not_occurs_before _ b i i Hs0 Hi). lia. }
    assert (Be : ~ occurs PI_SECTION_END (firstn i b)).
    { apply (not_occurs_before _ b i j He0 Hj). lia. }
    apply indexOf_first in Hi, Hj.
    unfold updatePiSection, extractUserContent at 2. rewrite Hi, Hj.
    rewrite noSection_false by assumption.
    change 0 with (Z.of_nat 0). rewrite slice_0_firstn.
    apply (user_content_parts n _ _ notes_nonempty notes_no_end).
    + now apply not_occurs_trim.
    + now apply not_occurs_trim.
    + apply trim_idempotent.
    + apply trim_idempotent.
Qed.

(** The three-way test of the code finds a section exactly in a
    well-formed body. *)
Lemma noSection_wellFormed (s : jsstring) :
  noSection (indexOf s PI_SECTION_START) (indexOf s PI_SECTION_END) = false
  <-> wellFormed s.
Proof.
  split.
  - intros H. unfold noSection in H.
    apply orb_false_iff in H as [H Hle].
    apply orb_false_iff in H as [Hs He].
    apply Z.eqb_neq in Hs, He. apply Z.leb_gt in Hle.
    destruct (indexOf_range PI_SECTION_START s) as [E|[Rs _]]; [contradiction|].
    destruct (indexOf_range PI_SECTION_END s) as [E|[Re _]]; [contradiction|].
    exists (Z.to_nat (indexOf s PI_SECTION_START)),
           (Z.to_nat (indexOf s PI_SECTION_END)).
    repeat split; try (apply indexOf_first; now rewrite Z2Nat.id); lia.
  - intros (i & j & Hi & Hj & Hlt).
    apply indexOf_first in Hi, Hj. rewrite Hi, Hj.
    now apply noSection_false.
Qed.

(** A blank line at the end moves no marker. *)
Lemma indexOf_blank_after (w u : jsstring) :
  ~ In LF w -> w <> [] -> indexOf (u ++ blankLine) w = indexOf u w.
Proof.
  intros Hc Hw.
  destruct (Z.eq_dec (indexOf u w) (-1)) as [E | E].
  - rewrite E. unfold blankLine.
    rewrite (indexOf_sep w LF u [LF]) by assumption.
    rewrite E.
    change [LF] with ([] ++ LF :: []).
    rewrite (indexOf_sep w LF [] []) by assumption.
    now rewrite (indexOf_nil w Hw).
  - now apply indexOf_app_hit.
Qed.

(** The user content of a body is trimmed. *)
Lemma trim_user_parts (x y : jsstring) :
  trim (join blankLine (keepNonEmpty [trim x; trim y]))
  = join blankLine (keepNonEmpty [trim x; trim y]).
Proof.
  pose proof (trim_clean x) as Cx. pose proof (trim_clean y) as Cy.
  destruct (trim x) as [|a u] eqn:Ex; destruct (trim y) as [|c v] eqn:Ey;
    rewrite ?keepNonEmpty_nil;
    repeat (rewrite keepNonEmpty_cons by discriminate);
    rewrite ?keepNonEmpty_nil; cbn [keepNonEmpty filter join].
  - apply trim_nil.
  - rewrite <- Ey. apply trim_idempotent.
  - rewrite <- Ex. apply trim_idempotent.
  - apply trim_of_clean. destruct Cx as [Sx _]. destruct Cy as [_ Ey'].
    split; [exact Sx|].
    destruct Ey' as [Ey' | (b' & z & Eb & Hz)]; [discriminate|].
    right. exists ((a :: u) ++ blankLine ++ b'), z.
    split; [|exact Hz]. rewrite Eb. now rewrite <- !app_assoc.
Qed.

(** Blank notes leave the user content of a body that holds no section
    inside its user content. *)
Lemma update_blank_keeps_user_content (b n : jsstring) :
  trim n = [] -> ~ wellFormed (extractUserContent b) ->
  extractUserContent (updatePiSection b n) = extractUserContent b.
Proof.
  intros Bn Hu.
  assert (Hcs : ~ In LF PI_SECTION_START).
  { cbn. intros H. repeat (destruct H as [H|H]; [discriminate H|]). exact H. }
  assert (Hce : ~ In LF PI_SECTION_END).
  { cbn. intros H. repeat (destruct H as [H|H]; [discriminate H|]). exact H. }
  assert (Hws : PI_SECTION_START <> []) by discriminate.
  assert (Hwe : PI_SECTION_END <> []) by discriminate.
  assert (W : wrapInCollapsible n = []).
  { unfold wrapInCollapsible. now rewrite Bn. }
  assert (N : forall u, ~ wellFormed u ->
                        noSection (indexOf u PI_SECTION_START)
                                  (indexOf u PI_SECTION_END) = true).
  { intros u H.
    destruct (noSection _ _) eqn:E; [reflexivity|].
    destruct H. now apply noSection_wellFormed. }
  unfold updatePiSection. rewrite W.
  unfold extractUserContent at 2. unfold extractUserContent in Hu.
  cbv zeta in *.
  destruct (noSection (indexOf b PI_SECTION_START)
                      (indexOf b PI_SECTION_END)) eqn:Eb.
  - destruct (trim b) as [|c u] eqn:Et; cbn [nonEmpty negb].
    + reflexivity.
    + rewrite app_nil_r. unfold extractUserContent.
      rewrite !indexOf_blank_after by assumption.
      rewrite (N _ Hu), trim_blank_after.
      rewrite <- Et. apply trim_idempotent.
  - set (before := trim (slice b 0 (indexOf b PI_SECTION_START))) in *.
    set (after := trim (sliceFrom b (indexOf b PI_SECTION_END
                                     + len PI_SECTION_END))) in *.
    assert (K : keepNonEmpty [before; []; after]
                = keepNonEmpty [before; after]).
    { unfold keepNonEmpty. cbn [filter].
      destruct (0 <? len before); reflexivity. }
    transitivity
      (extractUserContent (join blankLine (keepNonEmpty [before; after]))).
    { exact (f_equal (fun l => extractUserContent (join blankLine l)) K). }
    unfold extractUserContent. rewrite (N _ Hu).
    apply trim_user_parts.
Qed.

End UserContent.

(** C1, as the code has it.  Reading back: for a body that holds no
    marker, or a well-formed pair of markers, and notes whose trimmed
    text is not empty and holds neither the end marker nor the closing
    details tag, updating the section and reading it back gives the
    trimmed notes.  User content: it is the same before and after an
    update with notes that are not blank and hold no end marker, on a
    body that holds no marker or a well-formed pair; and the same before
    and after an update with blank notes, on a body whose user content
    holds no section of its own. *)
Theorem updatePiSection_round_trip (b n : jsstring) :
  (trim n <> [] ->
   ~ occurs PI_SECTION_END (trim n) ->
   ~ occurs (str "</details>") (trim n) ->
   markerFree b \/ wellFormed b ->
   extractPiSection (updatePiSection b n) = Some (trim n))
  /\ (trim n <> [] ->
      ~ occurs PI_SECTION_END (trim n) ->
      markerFree b \/ wellFormed b ->
      extractUserContent (updatePiSection b n) = extractUserContent b)
  /\ (trim n = [] ->
      ~ wellFormed (extractUserContent b) ->
      extractUserContent (updatePiSection b n) = extractUserContent b).
Proof.
  split; [|split].
  - intros notes_nonempty notes_no_end notes_no_close body_shape.
    assert (Hs0 : PI_SECTION_START <> []) by discriminate.
    assert (He0 : PI_SECTION_END <> []) by discriminate.
    destruct body_shape as [[Hs He] | (i & j & Hi & Hj & Hlt)].
    + pose proof (round_trip_parts n notes_nonempty notes_no_end
                    notes_no_close (trim b) []
                    (not_occurs_trim _ _ Hs) (not_occurs_trim _ _ He)
                    (trim_idempotent b) trim_nil) as R.
      cbv zeta in R.
      apply indexOf_absent in Hs.
      unfold updatePiSection. rewrite Hs.
      cbn [noSection Z.eqb orb].
      assert (Er : (if negb (nonEmpty (trim b)) then wrapInCollapsible n
                    else trim b ++ blankLine ++ wrapInCollapsible n)
                   = join blankLine
                       (keepNonEmpty [trim b; wrapInCollapsible n; []])).
      { rewrite (wrap_notesBlock n notes_nonempty).
        pose proof (notesBlock_nonempty (trim n) []) as Hw.
        destruct (trim b) as [|c u]; rewrite ?keepNonEmpty_nil;
          repeat (rewrite keepNonEmpty_cons by (assumption || discriminate));
          reflexivity. }
      rewrite Er. apply R.
    + assert (Bs : ~ occurs PI_SECTION_START (firstn i b)).
      { apply (not_occurs_before _ b i i Hs0 Hi). lia. }
      assert (Be : ~ occurs PI_SECTION_END (firstn i b)).
      { apply (not_occurs_before _ b i j He0 Hj). lia. }
      apply indexOf_first in Hi, Hj.
      unfold updatePiSection. rewrite Hi, Hj.
      rewrite noSection_false by assumption.
      change 0 with (Z.of_nat 0). rewrite slice_0_firstn.
      apply (round_trip_parts n notes_nonempty notes_no_end notes_no_close).
      * now apply not_occurs_trim.
      * now apply not_occurs_trim.
      * apply trim_idempotent.
      * apply trim_idempotent.
  - apply update_keeps_user_content.
  - apply update_blank_keeps_user_content.
Qed.

Lemma updatePiSection_round_trip_witness :
  extractPiSection
    (updatePiSection (str "Fix the parser.") (str "  plan: step one  "))
  = Some (trim (str "  plan: step one  "))
  /\ extractUserContent
       (updatePiSection (str "Fix the parser.") (str "  plan: step one  "))
     = extractUserContent (str "Fix the parser.")
  /\ extractUserContent (updatePiSection (str "Fix the parser.") (str "  "))
     = extractUserContent (str "Fix the parser.").
Proof.
  assert (F : markerFree (str "Fix the parser.")).
  { split; apply indexOf_absent; vm_compute; reflexivity. }
  destruct (updatePiSection_round_trip
              (str "Fix the parser.") (str "  plan: step one  "))
    as (R & U & _).
  destruct (updatePiSection_round_trip (str "Fix the parser.") (str "  "))
    as (_ & _ & B).
  split; [|split].
  - apply R.
    + vm_compute. discriminate.
    + apply indexOf_absent. vm_compute. reflexivity.
    + apply indexOf_absent. vm_compute. reflexivity.
    + left. exact F.
  - apply U.
    + vm_compute. discriminate.
    + apply indexOf_absent. vm_compute. reflexivity.
    + left. exact F.
  - apply B.
    + reflexivity.
    + intros W. apply noSection_wellFormed in W. vm_compute in W.
      discriminate W.
Defined.

(** The round trip over a body that already holds a section. *)
Example updatePiSection_replaces :
  let b := str "intro  " ++ wrapInCollapsible (str "old") ++ str "  outro" in
  extractPiSection (updatePiSection b (str "new")) = Some (str "new")
  /\ extractUserContent (updatePiSection b (str "new")) = extractUserContent b.
Proof. now vm_compute. Qed.

(** Notes that hold the closing details tag, and blank notes, are not
    read back, but the user content is the same after the update; so it
    is after blank notes on a body with a stray marker. *)
Example updatePiSection_keeps_user_content :
  extractUserContent (updatePiSection (str "body") (str "a</details>b"))
  = extractUserContent (str "body")
  /\ extractUserContent (updatePiSection (str "body") [])
     = extractUserContent (str "body")
  /\ (let b := str "a " ++ PI_SECTION_END ++ str " b" in
      extractUserContent (updatePiSection b (str "  "))
      = extractUserContent b).
Proof. now vm_compute. Qed.

(** C1 as stated fails.  Reading back: empty notes do not read back as
    the empty string; notes that hold the closing details tag or the end
    marker are cut short; after a stray end marker no section is found,
    and after a stray start marker the first details block is read,
    which need not be the one written.  User content: it changes when
    the notes hold the end marker, when the body holds a stray marker
    and the notes are not blank, and when blank notes are written over
    the first of two sections. *)
Lemma updatePiSection_round_trip_fails :
  extractPiSection (updatePiSection (str "body") []) <> Some (trim [])
  /\ extractPiSection (updatePiSection (str "body") (str "a</details>b"))
     <> Some (trim (str "a</details>b"))
  /\ (let n := str "a" ++ PI_SECTION_END ++ str "b" in
      extractPiSection (updatePiSection (str "body") n) <> Some (trim n)
      /\ extractUserContent (updatePiSection (str "body") n)
         <> extractUserContent (str "body"))
  /\ (let b := PI_SECTION_END in
      extractPiSection (updatePiSection b (str "x")) <> Some (trim (str "x"))
      /\ extractUserContent (updatePiSection b (str "x"))
         <> extractUserContent b)
  /\ (let b := PI_SECTION_START in
      extractUserContent (updatePiSection b (str "x"))
      <> extractUserContent b)
  /\ (let b := PI_SECTION_START
               ++ str "<details><summary>t</summary>evil</details>" in
      extractPiSection (updatePiSection b (str "x"))
      <> Some (trim (str "x")))
  /\ (let b := wrapInCollapsible (str "old") ++ str " x "
               ++ wrapInCollapsible (str "other") in
      extractUserContent (updatePiSection b [])
      <> extractUserContent b).
Proof.
  repeat split; vm_compute; discriminate.
Qed.

(** * Further properties of the code *)

(** ** Session names, read back *)

Section SessionNames.

(** A pattern anchored with [^] matches nowhere but at index 0. *)
Lemma search_anchored (fuel : nat) (r : regex) (s : jsstring) :
  forall i, search fuel (Seq Bol r) s (S i) = None.
Proof.
  induction s as [|c s IH]; intros i; cbn [search m pos Nat.eqb].
  - reflexivity.
  - apply IH.
Qed.

(** The session pattern reads back the digits that follow [#]. *)
Lemma sessionPattern_digits (ds tl : jsstring) (d : ascii) :
  forallb isDigit (d :: ds) = true ->
  parsedGroup sessionPattern (str "#" ++ (d :: ds) ++ str ":" ++ tl)
  = Some (parseInt10 (d :: ds)).
Proof.
  intros H. cbn [forallb] in H. apply andb_true_iff in H as [Hd Hds].
  unfold parsedGroup, execAt. cbn [Nat.leb skipn].
  set (s := str "#" ++ (d :: ds) ++ str ":" ++ tl).
  set (fuel := S (length s)).
  set (y := MState tl (1 + S (length ds) + 1) [(1%nat, d :: ds)]).
  rewrite (search_here fuel sessionPattern s 0 y).
  - reflexivity.
  - unfold sessionPattern. cbn [seqs m]. cbn [Nat.eqb pos].
    unfold step at 1. subst s. cbn [str list_ascii_of_string app rest pos caps].
    rewrite Ascii.eqb_refl.
    change (d :: ds ++ ":"%char :: tl) with (d :: ds ++ (":"%char :: tl)).
    apply (plus_accept fuel digit isDigit (fun _ _ => eq_refl)); trivial.
    + reflexivity.
    + subst fuel. cbn [str list_ascii_of_string app length].
      rewrite ?length_app. cbn [length]. lia.
    + cbn [rest pos caps]. unfold step. cbn [rest pos caps].
      rewrite Ascii.eqb_refl.
      replace (1 + S (length ds) - 1)%nat with (length (d :: ds))
        by (cbn [length]; lia).
      change (d :: ds ++ ":"%char :: tl) with ((d :: ds) ++ ":"%char :: tl).
      rewrite firstn_length_app. subst y. f_equal. f_equal. lia.
Qed.

(** No match when something else than a digit follows [#]. *)
Lemma sessionPattern_no_digit (tl : jsstring) :
  stopsAt isDigit tl ->
  parsedGroup sessionPattern (str "#" ++ tl) = None.
Proof.
  intros H. unfold parsedGroup, execAt. cbn [Nat.leb skipn].
  set (fuel := S (length (str "#" ++ tl))).
  cbn [str list_ascii_of_string app search].
  assert (E : m fuel sessionPattern (MState ("#"%char :: tl) 0 []) Some = None).
  { unfold sessionPattern. cbn [seqs m]. cbn [Nat.eqb pos].
    unfold step at 1. cbn [rest pos caps]. rewrite Ascii.eqb_refl.
    apply (plus_stops fuel digit isDigit (fun _ _ => eq_refl)). exact H. }
  rewrite E. unfold sessionPattern. cbn [seqs].
  now rewrite search_anchored.
Qed.

Lemma natToString_head (n : N) :
  exists d ds, natToString n = d :: ds /\ forallb isDigit (d :: ds) = true.
Proof.
  destruct (natToString_nonempty n) as (d & ds & E).
  exists d, ds. split; [exact E|]. rewrite <- E. apply natToString_digits.
Qed.

(** No match when a single digit follows [#] and something else than
    [:] follows the digit. *)
Lemma sessionPattern_one_digit (d x : ascii) (tl : jsstring) :
  isDigit d = true -> isDigit x = false -> x <> ":"%char ->
  parsedGroup sessionPattern (str "#" ++ d :: x :: tl) = None.
Proof.
  intros Hd Hx Hc. unfold parsedGroup, execAt. cbn [Nat.leb skipn].
  set (fuel := S (length (str "#" ++ d :: x :: tl))).
  cbn [str list_ascii_of_string app search].
  assert (E : m fuel sessionPattern (MState ("#"%char :: d :: x :: tl) 0 [])
                Some = None).
  { unfold sessionPattern. cbn [seqs m]. cbn [Nat.eqb pos].
    unfold step at 1. cbn [rest pos caps]. rewrite Ascii.eqb_refl.
    apply (plus_reject fuel digit isDigit (fun _ _ => eq_refl) d [] (x :: tl));
      trivial.
    intros j Hj. cbn [length] in Hj. assert (j = 1%nat) as -> by lia.
    cbn [skipn app rest pos caps]. unfold step. cbn [rest pos caps].
    destruct (Ascii.eqb ":" x) eqn:Ex; [|reflexivity].
    apply Ascii.eqb_eq in Ex. congruence. }
  rewrite E. unfold sessionPattern. cbn [seqs].
  now rewrite search_anchored.
Qed.

(** The exponent notation is one digit and then a point or the [e]. *)
Lemma exponential_shape (d : ascii) (ds : jsstring) :
  exists x tl, exponential (d :: ds) = d :: x :: tl
               /\ isDigit x = false /\ x <> ":"%char.
Proof.
  unfold exponential.
  destruct (nonEmpty (significant ds)).
  - exists "."%char. eexists. split; [reflexivity|]. now split.
  - exists "e"%char. eexists. split; [reflexivity|]. now split.
Qed.

End SessionNames.

Lemma sessionName_read_back (issue : IssueRef) :
  (0 <= number issue < 10 ^ 21 -> heldExactly (number issue) = true ->
   extractIssueNumberFromSession (Some (getIssueSessionName issue))
   = Some (Int (number issue)))
  /\ (number issue < 0 \/ 10 ^ 21 <= number issue ->
      extractIssueNumberFromSession (Some (getIssueSessionName issue))
      = None).
Proof.
  unfold extractIssueNumberFromSession, getIssueSessionName.
  cbn [str list_ascii_of_string app nonEmpty negb].
  split.
  - intros R H. rewrite numberToString_decimal by exact R.
    destruct (natToString_head (Z.to_N (number issue))) as (d & ds & Ed & Hd).
    pose proof (parseInt10_natToString (Z.to_N (number issue))) as Hp.
    rewrite Ed in *.
    pose proof (sessionPattern_digits ds (str " " ++ title issue) d Hd) as S.
    cbn [str list_ascii_of_string app] in S.
    change ((d :: ds) ++ ":"%char :: " "%char :: title issue)
      with (d :: ds ++ ":"%char :: " "%char :: title issue) in *.
    etransitivity; [exact S|].
    rewrite Hp, Z2N.id by lia. f_equal.
    apply numberValue_held; [lia | exact H].
  - intros R. unfold numberToString.
    destruct (number issue <? 0) eqn:E.
    + apply (sessionPattern_no_digit (str "-" ++ _ ++ str ": " ++ title issue)).
      reflexivity.
    + apply Z.ltb_ge in E.
      destruct (Z.abs (number issue) <? 10 ^ 21) eqn:E1;
        [apply Z.ltb_lt in E1; lia|].
      cbn [app].
      destruct (natToString_head (Z.to_N (Z.abs (number issue))))
        as (d & ds & -> & Hd).
      destruct (exponential_shape d ds) as (x & tl & -> & Hx & Hc).
      apply andb_true_iff in Hd as [Hd _].
      apply (sessionPattern_one_digit d x _ Hd Hx Hc).
Qed.

(** X1: the session name of an issue whose number is a natural number
    below 10^21 that the runtime holds (every integer up to 2^53 is one)
    is read back by the session-number decoder as that number, whatever
    the title.  A negative number is not read back at all, the decoder
    wanting a digit right after the [#]; nor is a number from 10^21 on,
    which is printed with an exponent. *)
Theorem extractIssueNumberFromSession_getIssueSessionName (issue : IssueRef) :
  (0 <= number issue < 10 ^ 21 -> heldExactly (number issue) = true ->
   extractIssueNumberFromSession (Some (getIssueSessionName issue))
   = Some (Int (number issue)))
  /\ (number issue < 0 \/ 10 ^ 21 <= number issue ->
      extractIssueNumberFromSession (Some (getIssueSessionName issue))
      = None).
Proof. exact (sessionName_read_back issue). Qed.

(** The session names of 7, of -7 and of 10^21. *)
Example extractIssueNumberFromSession_samples :
  extractIssueNumberFromSession
    (Some (getIssueSessionName {| number := 7; title := str "x" |}))
  = Some (Int 7)
  /\ extractIssueNumberFromSession
       (Some (getIssueSessionName {| number := -7; title := str "x" |}))
     = None
  /\ getIssueSessionName {| number := 10 ^ 21; title := str "x" |}
     = str "#1e+21: x"
  /\ extractIssueNumberFromSession
       (Some (getIssueSessionName {| number := 10 ^ 21; title := str "x" |}))
     = None.
Proof. now vm_compute. Qed.

(** ** One session name, one issue *)

Section SessionPrefix.

Lemma natToString_chars (k : N) (c : ascii) :
  In c (natToString k) -> isDigit c = true.
Proof.
  pose proof (natToString_digits k) as H.
  rewrite forallb_forall in H. apply H.
Qed.

(** What [dropZeros] leaves is the end of the string. *)
Lemma dropZeros_suffix (s : jsstring) :
  exists z, s = z ++ dropZeros s /\ z = repeat "0"%char (length z).
Proof.
  induction s as [|c s (z & E & Z)]; cbn [dropZeros].
  - exists []. now split.
  - destruct (Ascii.eqb c "0") eqn:Ec.
    + apply Ascii.eqb_eq in Ec. subst c. exists ("0"%char :: z).
      cbn [app length repeat]. split; congruence.
    + exists []. now split.
Qed.

(** A decimal is its significant digits and zeros. *)
Lemma significant_pad (ds : jsstring) :
  ds = significant ds
       ++ repeat "0"%char (length ds - length (significant ds)).
Proof.
  unfold significant.
  destruct (dropZeros_suffix (rev ds)) as (z & E & Z).
  apply (f_equal (@rev _)) in E. rewrite rev_involutive, rev_app_distr in E.
  rewrite Z in E at 1. rewrite rev_repeat in E.
  rewrite E at 1. f_equal. f_equal.
  rewrite E at 1. rewrite length_app, repeat_length. lia.
Qed.

Lemma significant_chars (ds : jsstring) (c : ascii) :
  In c (significant ds) -> In c ds.
Proof.
  intros H. rewrite (significant_pad ds). apply in_or_app. now left.
Qed.

(** The characters of the exponent notation of a decimal. *)
Lemma exponential_chars (ds : jsstring) (c : ascii) :
  forallb isDigit ds = true ->
  In c (exponential ds) ->
  isDigit c = true \/ c = "."%char \/ c = "e"%char \/ c = "+"%char.
Proof.
  intros Hd. rewrite forallb_forall in Hd.
  destruct ds as [|d ds]; [intros []|].
  unfold exponential. intros [<- | H].
  - left. apply Hd. now left.
  - apply in_app_or in H as [H | H].
    + destruct (nonEmpty (significant ds)); [|destruct H].
      destruct H as [<- | H]; [tauto|].
      left. apply Hd. right. now apply significant_chars.
    + cbn [str list_ascii_of_string app] in H.
      destruct H as [<- | [<- | H]]; [tauto | tauto |].
      left. now apply natToString_chars in H.
Qed.

(** The printed form of an integer holds digits, at most a sign in
    front and, from 10^21 on, a point, an [e] and a [+]: no colon. *)
Lemma numberToString_chars (n : Z) :
  Forall (fun c => c <> ":"%char) (numberToString n).
Proof.
  apply Forall_forall. intros c H E. subst c.
  unfold numberToString in H. apply in_app_or in H as [H | H].
  - destruct (n <? 0); [|destruct H].
    destruct H as [H | []]. discriminate H.
  - destruct (Z.abs n <? 10 ^ 21).
    + apply natToString_chars in H. discriminate H.
    + apply exponential_chars in H; [|apply natToString_digits].
      destruct H as [H | [H | [H | H]]]; discriminate H.
Qed.

(** Two words without [c], each followed by [c], that start the same
    text are the same word. *)
Lemma before_separator (c : ascii) (u v x y : jsstring) :
  Forall (fun d => d <> c) u -> Forall (fun d => d <> c) v ->
  u ++ c :: x = v ++ c :: y -> u = v.
Proof.
  revert v. induction u as [|a u IH]; intros [|b v] Hu Hv E; cbn [app] in E.
  - reflexivity.
  - injection E as -> _. inversion Hv; congruence.
  - injection E as -> _. inversion Hu; congruence.
  - injection E as -> E. f_equal.
    inversion Hu; inversion Hv; subst. now apply IH.
Qed.

Lemma natToString_inj (a b : N) : natToString a = natToString b -> a = b.
Proof.
  intros E. pose proof (parseDigits_natToString a) as Ha.
  rewrite E, parseDigits_natToString in Ha. lia.
Qed.

(** The exponent notation tells two decimals apart. *)
Lemma exponential_inj (a b : jsstring) :
  a <> [] -> b <> [] ->
  forallb isDigit a = true -> forallb isDigit b = true ->
  exponential a = exponential b -> a = b.
Proof.
  intros Na Nb Ha Hb.
  destruct a as [|d ds]; [congruence|]. destruct b as [|d' ds']; [congruence|].
  cbn [forallb] in Ha, Hb.
  apply andb_true_iff in Ha as [_ Ha]. apply andb_true_iff in Hb as [_ Hb].
  rewrite forallb_forall in Ha, Hb.
  unfold exponential. intros E. injection E as <- E.
  set (f := significant ds) in *. set (f' := significant ds') in *.
  assert (P : forall g gs, (forall c, In c gs -> isDigit c = true) ->
                           g = significant gs ->
                           Forall (fun c => c <> "e"%char)
                                  (if nonEmpty g then "."%char :: g else [])).
  { intros g gs Hg ->. destruct (nonEmpty (significant gs)); [|constructor].
    constructor; [discriminate|].
    apply Forall_forall. intros c Hc Ec. subst c.
    apply significant_chars, Hg in Hc. discriminate Hc. }
  cbn [str list_ascii_of_string app] in E.
  pose proof (before_separator "e" _ _ _ _
                (P f ds Ha eq_refl) (P f' ds' Hb eq_refl) E) as Ef.
  rewrite Ef in E. apply app_inv_head in E. injection E as E.
  apply natToString_inj, Nat2N.inj in E.
  assert (F : f = f').
  { destruct f as [|c f0]; destruct f' as [|c' f0']; cbn [nonEmpty] in Ef;
      congruence. }
  f_equal. rewrite (significant_pad ds), (significant_pad ds').
  fold f f'. now rewrite F, E.
Qed.

Lemma numberToString_inj (a b : Z) :
  numberToString a = numberToString b -> a = b.
Proof.
  assert (H : forall n,
             exists d tl,
               (if Z.abs n <? 10 ^ 21
                then natToString (Z.to_N (Z.abs n))
                else exponential (natToString (Z.to_N (Z.abs n)))) = d :: tl
               /\ isDigit d = true).
  { intros n.
    destruct (natToString_head (Z.to_N (Z.abs n))) as (d & ds & -> & Hd).
    apply andb_true_iff in Hd as [Hd _].
    destruct (Z.abs n <? 10 ^ 21); [now exists d, ds|].
    unfold exponential. now eexists; eexists. }
  assert (B : forall x y,
             (if Z.abs x <? 10 ^ 21
              then natToString (Z.to_N (Z.abs x))
              else exponential (natToString (Z.to_N (Z.abs x))))
             = (if Z.abs y <? 10 ^ 21
                then natToString (Z.to_N (Z.abs y))
                else exponential (natToString (Z.to_N (Z.abs y)))) ->
             Z.abs x = Z.abs y).
  { assert (M : forall p q, natToString p = exponential (natToString q)
                            -> False).
    { intros p q E.
      destruct (natToString_head q) as (d & ds & Eq & _).
      assert (I : In "e"%char (exponential (natToString q))).
      { rewrite Eq. unfold exponential. right. apply in_or_app. right.
        now left. }
      rewrite <- E in I. apply natToString_chars in I. discriminate I. }
    intros x y E.
    destruct (Z.abs x <? 10 ^ 21); destruct (Z.abs y <? 10 ^ 21).
    - apply natToString_inj in E. lia.
    - destruct (M _ _ E).
    - symmetry in E. destruct (M _ _ E).
    - apply exponential_inj in E; try apply natToString_digits.
      + apply natToString_inj in E. lia.
      + destruct (natToString_nonempty (Z.to_N (Z.abs x))) as (d & ds & ->).
        discriminate.
      + destruct (natToString_nonempty (Z.to_N (Z.abs y))) as (d & ds & ->).
        discriminate. }
  unfold numberToString. cbv zeta.
  destruct (H a) as (da & ta & Ea & Da). destruct (H b) as (db & tb & Eb & Db).
  specialize (B a b).
  destruct (a <? 0) eqn:Sa; destruct (b <? 0) eqn:Sb;
    cbn [str list_ascii_of_string app]; intros E.
  - injection E as E. apply B in E. apply Z.ltb_lt in Sa, Sb. lia.
  - pose proof (eq_trans E Eb) as E2. injection E2 as <- _. discriminate Db.
  - pose proof (eq_trans (eq_sym Ea) E) as E2. injection E2 as -> _.
    discriminate Da.
  - apply B in E. apply Z.ltb_ge in Sa, Sb. lia.
Qed.

End SessionPrefix.

(** X2: the session name made for an issue matches that issue's number
    and no other number, whatever the title: [#12: ...] is not taken
    for a session of issue 1 or of issue 120. *)
Theorem sessionMatchesIssue_getIssueSessionName (issue : IssueRef) (n : Z) :
  sessionMatchesIssue (Some (getIssueSessionName issue)) n = true
  <-> n = number issue.
Proof.
  unfold sessionMatchesIssue, getIssueSessionName, getIssueSessionPrefix.
  cbn [str list_ascii_of_string app nonEmpty negb startsWith].
  rewrite Ascii.eqb_refl. cbn [andb]. rewrite startsWith_iff.
  split.
  - intros [r E]. rewrite <- app_assoc in E. cbn [app] in E.
    apply before_separator in E; try apply numberToString_chars.
    symmetry. now apply numberToString_inj.
  - intros ->. exists (title issue). now rewrite <- app_assoc.
Qed.

(** ** The entries after the checkpoint *)

Section EntriesAfter.

Lemma findIndexFrom_first {A} (p : A -> bool) (older : list A) (e : A)
      (newer : list A) :
  forall i,
    Forall (fun x => p x = false) older -> p e = true ->
    findIndexFrom p (older ++ e :: newer) i = i + Z.of_nat (length older).
Proof.
  induction older as [|x older IH]; intros i Ho He; cbn [app findIndexFrom].
  - rewrite He. cbn [length]. lia.
  - inversion Ho as [|? ? Hx Ho']; subst. rewrite Hx, IH by assumption.
    cbn [length]. lia.
Qed.

Lemma findIndexFrom_none {A} (p : A -> bool) (l : list A) :
  forall i, Forall (fun x => p x = false) l -> findIndexFrom p l i = -1.
Proof.
  induction l as [|x l IH]; intros i H; cbn [findIndexFrom]; [reflexivity|].
  inversion H as [|? ? Hx H']; subst. rewrite Hx. now apply IH.
Qed.

Lemma findIndexFrom_range {A} (p : A -> bool) (l : list A) :
  forall i, 0 <= i ->
            findIndexFrom p l i = -1
            \/ i <= findIndexFrom p l i < i + Z.of_nat (length l).
Proof.
  induction l as [|x l IH]; intros i Hi; cbn [findIndexFrom length].
  - now left.
  - destruct (p x); [right; lia|].
    destruct (IH (i + 1)) as [E|E]; [lia | now left | right; lia].
Qed.

End EntriesAfter.

Lemma entries_after_checkpoint
      (ctx : ExtensionContext) (older newer : list SessionEntry)
      (e : SessionEntry)
      (branch : getBranch ctx = older ++ e :: newer)
      (checkpoint : labelled ctx e)
      (later_unlabelled : Forall (fun e' => ~ labelled ctx e') newer)
      (id_nonempty : id e <> [])
      (id_fresh : Forall (fun e' => id e' <> id e) older) :
  getEntriesAfter ctx (findLastPrCheckpointEntryId ctx) = newer.
Proof.
  rewrite (findLast_at ctx older newer e branch checkpoint later_unlabelled).
  unfold getEntriesAfter. rewrite branch.
  destruct (id e) as [|c i] eqn:Ei; [congruence|].
  cbn [nonEmpty negb]. rewrite <- Ei in *.
  rewrite findIndexFrom_first.
  - destruct (0 + Z.of_nat (length older) =? -1) eqn:E;
      [apply Z.eqb_eq in E; lia|].
    replace (Z.to_nat (0 + Z.of_nat (length older) + 1))
      with (length (older ++ [e])) by (rewrite length_app; cbn [length]; lia).
    replace (older ++ e :: newer) with ((older ++ [e]) ++ newer)
      by now rewrite <- app_assoc.
    apply skipn_length_app.
  - eapply Forall_impl; [|exact id_fresh].
    intros x Hx. now apply strEq_false.
  - apply strEq_refl.
Qed.

(** X3: when the ids of the branch tell the checkpoint entry from the
    entries before it, the entries after the last checkpoint are exactly
    those that follow the last labelled entry.  (An empty id, or an older
    entry with the same id, would bring older entries back.) *)
Theorem getEntriesAfter_last_checkpoint
        (ctx : ExtensionContext) (older newer : list SessionEntry)
        (e : SessionEntry)
        (branch : getBranch ctx = older ++ e :: newer)
        (checkpoint : labelled ctx e)
        (later_unlabelled : Forall (fun e' => ~ labelled ctx e') newer)
        (id_nonempty : id e <> [])
        (id_fresh : Forall (fun e' => id e' <> id e) older) :
  getEntriesAfter ctx (findLastPrCheckpointEntryId ctx) = newer.
Proof.
  now apply (entries_after_checkpoint ctx older newer e).
Qed.

Lemma getEntriesAfter_last_checkpoint_witness :
  getEntriesAfter sampleBranch (findLastPrCheckpointEntryId sampleBranch)
  = [ {| id := str "e3"; kind := OtherEntry |} ].
Proof.
  apply (getEntriesAfter_last_checkpoint sampleBranch
           [ {| id := str "e1"; kind := OtherEntry |} ]
           [ {| id := str "e3"; kind := OtherEntry |} ]
           {| id := str "e2"; kind := OtherEntry |}).
  - reflexivity.
  - left. reflexivity.
  - repeat constructor. intros [H|H]; vm_compute in H; discriminate H.
  - discriminate.
  - repeat constructor. cbn [id]. str_discr.
Defined.

(** Whatever the ids and labels, the entries handed out are a suffix of
    the branch: none is invented and none changes place. *)
Lemma getEntriesAfter_suffix (ctx : ExtensionContext) (a : option jsstring) :
  exists skipped, getBranch ctx = skipped ++ getEntriesAfter ctx a.
Proof.
  unfold getEntriesAfter.
  destruct a as [a|]; [|now exists []].
  destruct (negb (nonEmpty a)); [now exists []|].
  destruct (_ =? -1); [now exists []|].
  eexists. symmetry. apply firstn_skipn.
Qed.

(** An older entry that shares the checkpoint's id brings itself and
    everything after it back into scope. *)
Example getEntriesAfter_shared_id :
  let e := fun i => {| id := i; kind := OtherEntry |} in
  let ctx := {| getBranch := [e (str "x"); e (str "y"); e (str "x");
                              e (str "z")];
                getLabel := fun i => if strEq i (str "x")
                                     then Some (str "pr-update") else None |} in
  getEntriesAfter ctx (findLastPrCheckpointEntryId ctx)
  = [e (str "y"); e (str "x"); e (str "z")].
Proof. now vm_compute. Qed.

(** ** Writing the notes twice *)

Section UpdateTwice.

(** Updating a body in which the block's markers come first: the block
    is replaced, the text around it trimmed. *)
Lemma update_core (t pre post n : jsstring) :
  markersAt t pre post ->
  updatePiSection (pre ++ notesBlock t post) n
  = join blankLine (keepNonEmpty [trim pre; wrapInCollapsible n; trim post]).
Proof.
  intros [H1 H2].
  set (r := pre ++ notesBlock t post) in *.
  assert (Lr : length r = (length pre + length PI_SECTION_START
                           + length (sectionText t)
                           + length PI_SECTION_END + length post)%nat).
  { subst r. rewrite notesBlock_shape, !length_app. lia. }
  assert (Ls : length PI_SECTION_START = 29%nat) by reflexivity.
  assert (noSection (Z.of_nat (length pre))
            (Z.of_nat (length pre + (length PI_SECTION_START
                                     + length (sectionText t)))) = false) as N.
  { apply noSection_false. lia. }
  unfold updatePiSection. fold r. rewrite H1, H2, N.
  change 0 with (Z.of_nat 0). rewrite slice_nat by lia.
  cbn [skipn]. rewrite Nat.sub_0_r.
  unfold len. rewrite <- Nat2Z.inj_add. rewrite sliceFrom_nat by lia.
  assert (E1 : firstn (length pre) r = pre).
  { subst r. apply firstn_length_app. }
  assert (E2 : skipn (length pre
                      + (length PI_SECTION_START + length (sectionText t))
                      + length PI_SECTION_END) r = post).
  { replace (length pre + (length PI_SECTION_START + length (sectionText t))
             + length PI_SECTION_END)%nat
      with (length (pre ++ PI_SECTION_START ++ sectionText t
                    ++ PI_SECTION_END))
      by (rewrite !length_app; lia).
    subst r. rewrite notesBlock_shape.
    replace (pre ++ PI_SECTION_START ++ sectionText t ++ PI_SECTION_END ++ post)
      with ((pre ++ PI_SECTION_START ++ sectionText t ++ PI_SECTION_END)
            ++ post)
      by now rewrite <- !app_assoc.
    apply skipn_length_app. }
  now rewrite E1, E2.
Qed.

Variables n1 n2 : jsstring.

Hypothesis first_nonempty : trim n1 <> [].
Hypothesis first_no_end : ~ occurs PI_SECTION_END (trim n1).

(** The second update of a body whose user part is [before] and [after],
    both trimmed. *)
Lemma update_parts (before after : jsstring) :
  ~ occurs PI_SECTION_START before -> ~ occurs PI_SECTION_END before ->
  trim before = before -> trim after = after ->
  updatePiSection
    (join blankLine (keepNonEmpty [before; wrapInCollapsible n1; after])) n2
  = join blankLine (keepNonEmpty [before; wrapInCollapsible n2; after]).
Proof.
  intros Hs He Tb Ta. rewrite (wrap_notesBlock n1) by assumption.
  pose proof (notesBlock_nonempty (trim n1) []) as Hw.
  destruct before as [|c before]; destruct after as [|a after];
    rewrite ?keepNonEmpty_nil;
    repeat (rewrite (keepNonEmpty_cons (notesBlock _ _)) by assumption);
    repeat (rewrite (keepNonEmpty_cons (_ :: _)) by discriminate);
    rewrite ?keepNonEmpty_nil.
  - change (keepNonEmpty []) with (@nil jsstring).
    etransitivity;
      [apply (update_core (trim n1) [] [] n2
                (markersAt_nil (trim n1) first_no_end []))|].
    now rewrite trim_nil.
  - change (keepNonEmpty []) with (@nil jsstring).
    assert (Er : join blankLine [notesBlock (trim n1) []; a :: after]
                 = [] ++ notesBlock (trim n1) (blankLine ++ a :: after))
      by (cbn [join app]; now rewrite notesBlock_app).
    etransitivity; [apply (f_equal (fun r => updatePiSection r n2) Er)|].
    etransitivity;
      [apply (update_core (trim n1) [] (blankLine ++ a :: after) n2
                (markersAt_nil (trim n1) first_no_end _))|].
    now rewrite trim_nil, trim_blank_before, Ta.
  - change (keepNonEmpty []) with (@nil jsstring).
    assert (Er : join blankLine [c :: before; notesBlock (trim n1) []]
                 = ((c :: before) ++ blankLine) ++ notesBlock (trim n1) [])
      by (cbn [join]; now rewrite <- app_assoc).
    etransitivity; [apply (f_equal (fun r => updatePiSection r n2) Er)|].
    etransitivity;
      [apply (update_core (trim n1) ((c :: before) ++ blankLine) [] n2
                (markersAt_blank (trim n1) first_no_end _ [] Hs He))|].
    now rewrite trim_nil, trim_blank_after, Tb.
  - change (keepNonEmpty []) with (@nil jsstring).
    assert (Er : join blankLine
                   [c :: before; notesBlock (trim n1) []; a :: after]
                 = ((c :: before) ++ blankLine)
                   ++ notesBlock (trim n1) (blankLine ++ a :: after))
      by (cbn [join]; now rewrite notesBlock_app, <- app_assoc).
    etransitivity; [apply (f_equal (fun r => updatePiSection r n2) Er)|].
    etransitivity;
      [apply (update_core (trim n1) ((c :: before) ++ blankLine)
                (blankLine ++ a :: after) n2
                (markersAt_blank (trim n1) first_no_end _ _ Hs He))|].
    now rewrite trim_blank_after, trim_blank_before, Tb, Ta.
Qed.

Variable b : jsstring.
Hypothesis body_shape : markerFree b \/ wellFormed b.

(** The user part of the body, before and after the section. *)
Lemma update_twice :
  exists before after,
    extractUserContent b = join blankLine (keepNonEmpty [before; after])
    /\ updatePiSection (updatePiSection b n1) n2
       = join blankLine (keepNonEmpty [before; wrapInCollapsible n2; after])
    /\ (trim n2 <> [] ->
        updatePiSection b n2
        = join blankLine (keepNonEmpty [before; wrapInCollapsible n2; after])).
Proof.
  assert (Hs0 : PI_SECTION_START <> []) by discriminate.
  assert (He0 : PI_SECTION_END <> []) by discriminate.
  assert (W : forall n, trim n <> [] -> wrapInCollapsible n <> []).
  { intros n Hn. rewrite (wrap_notesBlock n Hn). apply notesBlock_nonempty. }
  assert (J : forall n, wrapInCollapsible n <> [] ->
                (if negb (nonEmpty (trim b)) then wrapInCollapsible n
                 else trim b ++ blankLine ++ wrapInCollapsible n)
                = join blankLine
                    (keepNonEmpty [trim b; wrapInCollapsible n; []])).
  { intros n Hn.
    destruct (trim b) as [|c u]; rewrite ?keepNonEmpty_nil;
      repeat (rewrite keepNonEmpty_cons by (assumption || discriminate));
      reflexivity. }
  destruct body_shape as [[Hs He] | (i & j & Hi & Hj & Hlt)].
  - exists (trim b), [].
    pose proof (not_occurs_trim _ _ Hs) as Ts.
    pose proof (not_occurs_trim _ _ He) as Te.
    apply indexOf_absent in Hs.
    assert (U : forall n, wrapInCollapsible n <> [] ->
                  updatePiSection b n
                  = join blankLine
                      (keepNonEmpty [trim b; wrapInCollapsible n; []])).
    { intros n Hn. unfold updatePiSection. rewrite Hs.
      cbn [noSection Z.eqb orb]. now apply J. }
    split; [|split].
    + unfold extractUserContent. rewrite Hs. cbn [noSection Z.eqb orb].
      destruct (trim b); reflexivity.
    + rewrite (U n1) by now apply W.
      apply update_parts; trivial using trim_idempotent, trim_nil.
    + intros Hn. apply U. now apply W.
  - exists (trim (firstn i b)),
           (trim (sliceFrom b (Z.of_nat j + len PI_SECTION_END))).
    assert (Bs : ~ occurs PI_SECTION_START (firstn i b)).
    { apply (not_occurs_before _ b i i Hs0 Hi). lia. }
    assert (Be : ~ occurs PI_SECTION_END (firstn i b)).
    { apply (not_occurs_before _ b i j He0 Hj). lia. }
    apply indexOf_first in Hi, Hj.
    assert (U : forall n,
                  updatePiSection b n
                  = join blankLine
                      (keepNonEmpty
                         [trim (firstn i b); wrapInCollapsible n;
                          trim (sliceFrom b (Z.of_nat j + len PI_SECTION_END))])).
    { intros n. unfold updatePiSection. rewrite Hi, Hj.
      rewrite noSection_false by assumption.
      change 0 with (Z.of_nat 0). now rewrite slice_0_firstn. }
    split; [|split].
    + unfold extractUserContent. rewrite Hi, Hj.
      rewrite noSection_false by assumption.
      change 0 with (Z.of_nat 0). now rewrite slice_0_firstn.
    + rewrite (U n1).
      apply update_parts; try apply trim_idempotent;
        now apply not_occurs_trim.
    + intros _. apply U.
Qed.

End UpdateTwice.

(** X4: the last write wins.  On a body that holds no marker or a
    well-formed pair of markers, writing notes and then writing other
    (non-blank) notes leaves the same body as writing the other notes
    directly, provided the first notes do not hold the end marker.  In
    particular writing the same notes twice changes nothing more. *)
Theorem updatePiSection_last_write_wins
        (b n1 n2 : jsstring)
        (first_nonempty : trim n1 <> [])
        (first_no_end : ~ occurs PI_SECTION_END (trim n1))
        (second_nonempty : trim n2 <> [])
        (body_shape : markerFree b \/ wellFormed b) :
  updatePiSection (updatePiSection b n1) n2 = updatePiSection b n2.
Proof.
  destruct (update_twice n1 n2 first_nonempty first_no_end b body_shape)
    as (before & after & _ & E1 & E2).
  now rewrite E1, E2.
Qed.

Lemma updatePiSection_last_write_wins_witness :
  updatePiSection (updatePiSection (str "Fix the parser.") (str "plan A"))
                  (str " plan B ")
  = updatePiSection (str "Fix the parser.") (str " plan B ").
Proof.
  apply (updatePiSection_last_write_wins
           (str "Fix the parser.") (str "plan A") (str " plan B ")).
  - vm_compute. discriminate.
  - apply indexOf_absent. vm_compute. reflexivity.
  - vm_compute. discriminate.
  - left. split; apply indexOf_absent; vm_compute; reflexivity.
Defined.

(** X5: writing blank notes over a section takes the section out and
    leaves the user content, trimmed: after notes were written to a body
    (no marker, or a well-formed pair), an update with notes that are
    empty or white space returns the user content of the body. *)
Theorem updatePiSection_blank_clears
        (b n1 n2 : jsstring)
        (first_nonempty : trim n1 <> [])
        (first_no_end : ~ occurs PI_SECTION_END (trim n1))
        (second_blank : trim n2 = [])
        (body_shape : markerFree b \/ wellFormed b) :
  updatePiSection (updatePiSection b n1) n2 = extractUserContent b.
Proof.
  destruct (update_twice n1 n2 first_nonempty first_no_end b body_shape)
    as (before & after & E0 & E1 & _).
  rewrite E1, E0. unfold wrapInCollapsible. rewrite second_blank.
  cbn [nonEmpty negb]. destruct before; reflexivity.
Qed.

Lemma updatePiSection_blank_clears_witness :
  updatePiSection (updatePiSection (str " Fix the parser. ") (str "plan A"))
                  (str "  ")
  = extractUserContent (str " Fix the parser. ").
Proof.
  apply (updatePiSection_blank_clears
           (str " Fix the parser. ") (str "plan A") (str "  ")).
  - vm_compute. discriminate.
  - apply indexOf_absent. vm_compute. reflexivity.
  - reflexivity.
  - left. split; apply indexOf_absent; vm_compute; reflexivity.
Defined.

(** On a body without a section, blank notes still leave a trace: the
    body comes back trimmed with a blank line after it. *)
Example updatePiSection_blank_on_plain_body :
  updatePiSection (str " Fix the parser. ") (str "  ")
  = str "Fix the parser." ++ blankLine.
Proof. now vm_compute. Qed.

(** ** The characters of a branch name *)

Section SlugShape.

Variable p : ascii -> bool.

Lemma dropWhile_suffix (s : jsstring) :
  exists u, s = u ++ dropWhile p s.
Proof.
  induction s as [|c s [u IH]]; cbn [dropWhile]; [now exists []|].
  destruct (p c); [|now exists []].
  exists (c :: u). cbn [app]. now f_equal.
Qed.

Lemma dropWhile_stops (s : jsstring) : stopsAt p (dropWhile p s).
Proof.
  induction s as [|c s IH]; cbn [dropWhile]; [exact I|].
  destruct (p c) eqn:E; [exact IH | exact E].
Qed.

Lemma dropWhileEnd_prefix (s : jsstring) :
  exists d, s = dropWhileEnd p s ++ d.
Proof.
  unfold dropWhileEnd. destruct (dropWhile_suffix (rev s)) as [u E].
  exists (rev u). rewrite <- rev_app_distr, <- E. now rewrite rev_involutive.
Qed.

Lemma dropWhileEnd_ends (s : jsstring) : endsOutside p (dropWhileEnd p s).
Proof.
  unfold dropWhileEnd, endsOutside.
  pose proof (dropWhile_stops (rev s)) as H.
  destruct (dropWhile p (rev s)) as [|x r]; [now left|].
  right. exists (rev r), x. split; [reflexivity | exact H].
Qed.

(** A prefix of a string that starts outside [p] starts outside [p]. *)
Lemma stopsAt_prefix (s u d : jsstring) :
  stopsAt p s -> s = u ++ d -> stopsAt p u.
Proof.
  intros H ->. destruct u as [|c u]; [exact I | exact H].
Qed.

Lemma Forall_dropWhile (P : ascii -> Prop) (s : jsstring) :
  Forall P s -> Forall P (dropWhile p s).
Proof.
  intros H. destruct (dropWhile_suffix s) as [u E].
  rewrite E in H. now apply Forall_app in H.
Qed.

Lemma Forall_dropWhileEnd (P : ascii -> Prop) (s : jsstring) :
  Forall P s -> Forall P (dropWhileEnd p s).
Proof.
  intros H. destruct (dropWhileEnd_prefix s) as [d E].
  rewrite E in H. now apply Forall_app in H.
Qed.

Lemma length_dropWhileEnd (s : jsstring) :
  (length (dropWhileEnd p s) <= length s)%nat.
Proof.
  destruct (dropWhileEnd_prefix s) as [d E].
  rewrite E at 2. rewrite length_app. lia.
Qed.

Lemma collapseRuns_chars (s : jsstring) :
  forall inRun,
    Forall (fun c => p c = false \/ c = "-"%char) (collapseRuns p inRun s).
Proof.
  induction s as [|c s IH]; intros inRun; cbn [collapseRuns]; [constructor|].
  destruct (p c) eqn:E.
  - destruct inRun; [apply IH|]. constructor; [now right | apply IH].
  - constructor; [now left | apply IH].
Qed.

End SlugShape.

(** X6: whatever the title, the slug of a branch name holds only
    lower-case letters, digits and dashes, is at most 50 characters long,
    and neither starts nor ends with a dash. *)
Theorem slug_shape (title : jsstring) :
  Forall (fun c => isLowerAlnum c = true \/ c = "-"%char) (slug title)
  /\ (length (slug title) <= 50)%nat
  /\ stopsAt isDash (slug title)
  /\ endsOutside isDash (slug title).
Proof.
  rewrite slug_specSlug. unfold specSlug.
  set (collapsed := collapseRuns _ false (toLowerCase title)).
  set (stripped := dropWhileEnd isDash (dropWhile isDash collapsed)).
  repeat split.
  - apply Forall_dropWhileEnd.
    assert (H : Forall (fun c => isLowerAlnum c = true \/ c = "-"%char)
                       stripped).
    { apply Forall_dropWhileEnd, Forall_dropWhile.
      eapply Forall_impl; [|apply collapseRuns_chars].
      intros c [H|H]; [left | now right].
      now apply negb_false_iff in H. }
    rewrite <- (firstn_skipn 50 stripped) in H. now apply Forall_app in H.
  - etransitivity; [apply length_dropWhileEnd|]. apply firstn_le_length.
  - destruct (dropWhileEnd_prefix isDash (firstn 50 stripped)) as [d1 E1].
    destruct (dropWhileEnd_prefix isDash (dropWhile isDash collapsed))
      as [d2 E2].
    fold stripped in E2.
    pose proof (dropWhile_stops isDash collapsed) as H.
    apply (stopsAt_prefix isDash _ _ _ H) in E2.
    rewrite <- (firstn_skipn 50 stripped) in E2 at 1.
    assert (H50 : stopsAt isDash (firstn 50 stripped)).
    { destruct stripped as [|c s]; [exact I | exact E2]. }
    exact (stopsAt_prefix isDash _ _ _ H50 E1).
  - apply dropWhileEnd_ends.
Qed.

(** ** The [pr] action finds its issue *)

Section PrIssue.

Import Parse Tool.

(** The calls made are added to the history, which is kept. *)
Lemma run_extends {R} (w : world) (p : prog R) :
  forall h, exists calls, fst (run w p h) = h ++ calls.
Proof.
  induction p as [r|msg|X c k IH]; intros h; cbn [run fst].
  - exists []. now rewrite app_nil_r.
  - exists []. now rewrite app_nil_r.
  - destruct (IH (w X h c) (h ++ [Logged c])) as [calls E].
    exists (Logged c :: calls). rewrite E. now rewrite <- app_assoc.
Qed.

Lemma getIssueBranchName_not_main (issue : IssueRef) :
  isMainBranch (getIssueBranchName issue) = false.
Proof.
  unfold isMainBranch, getIssueBranchName.
  apply orb_false_iff. split; apply strEq_false; discriminate.
Qed.

Variable w : world.
Variable params : Params.
Variable ctx : ExtensionContext.
Variables onBranch inSession : IssueRef.

Hypothesis branch_number : 0 <= Utils.number onBranch < 10 ^ 21.
Hypothesis branch_held : heldExactly (Utils.number onBranch) = true.
Hypothesis session_number : 0 <= Utils.number inSession < 10 ^ 21.
Hypothesis session_held : heldExactly (Utils.number inSession) = true.
Hypothesis gh_found : forall h, w _ h CheckGhCli = Returned true.
Hypothesis not_cancelled : forall h, w _ h SignalAborted = false.
Hypothesis current_branch :
  forall h, w _ h GetCurrentBranch = Returned (getIssueBranchName onBranch).
Hypothesis session_name :
  forall h, w _ h GetSessionName = Some (getIssueSessionName inSession).

Lemma branch_decoded :
  extractIssueNumberFromBranch (getIssueBranchName onBranch)
  = Some (Int (Utils.number onBranch)).
Proof.
  unfold extractIssueNumberFromBranch, getIssueBranchName.
  rewrite numberToString_decimal by exact branch_number.
  destruct (natToString_head (Z.to_N (Utils.number onBranch)))
    as (d & ds & Ed & Hd).
  pose proof (parseInt10_natToString (Z.to_N (Utils.number onBranch))) as Hp.
  rewrite Ed in *.
  rewrite branchPattern_digits by assumption.
  rewrite Hp, Z2N.id by lia. f_equal.
  apply numberValue_held; [lia | exact branch_held].
Qed.

Lemma session_decoded :
  extractIssueNumberFromSession (Some (getIssueSessionName inSession))
  = Some (Int (Utils.number inSession)).
Proof.
  now apply sessionName_read_back.
Qed.

Ltac answer :=
  repeat (first [ rewrite gh_found | rewrite not_cancelled
                | rewrite current_branch | rewrite session_name ];
          cbn [bind tryCatch run app negb]).

(** Branch and session name different issues: the action stops after
    reading the session name. *)
Lemma execute_mismatch :
  Utils.number onBranch <> Utils.number inSession ->
  run w (execute params ctx) []
  = ([Logged CheckGhCli; Logged SignalAborted; Logged GetCurrentBranch;
      Logged SignalAborted; Logged GetSessionName],
     Returned (branchSessionMismatch
                 (Some (Int (Utils.number onBranch)))
                 (Some (Int (Utils.number inSession))))).
Proof.
  intros Hne.
  unfold execute, prAction, unlessAborted, await, ask.
  cbn [bind tryCatch run app]. answer.
  rewrite getIssueBranchName_not_main. cbn [bind tryCatch run app]. answer.
  rewrite branch_decoded, session_decoded.
  unfold mismatch, numNeq.
  rewrite (proj2 (Z.eqb_neq _ _) Hne). reflexivity.
Qed.

(** They name the same issue: the action goes on to fetch the issue
    asked for. *)
Lemma execute_fetches (requested : Z) :
  Utils.number onBranch = Utils.number inSession ->
  requested = match Tool.number params with
              | Some k => k
              | None => Utils.number inSession
              end ->
  requested <> 0 ->
  exists calls,
    fst (run w (execute params ctx) [])
    = [Logged CheckGhCli; Logged SignalAborted; Logged GetCurrentBranch;
       Logged SignalAborted; Logged GetSessionName;
       Logged (GetIssue (Int requested))] ++ calls.
Proof.
  intros Heq Hreq Hnz.
  unfold execute, prAction, unlessAborted, await, ask.
  cbn [bind tryCatch run app]. answer.
  rewrite getIssueBranchName_not_main. cbn [bind tryCatch run app]. answer.
  rewrite branch_decoded, session_decoded.
  unfold mismatch, numNeq. rewrite Heq, Z.eqb_refl. cbn [negb].
  assert (E : orNullish (option_map Int (Tool.number params))
                (orNullish (Some (Int (Utils.number inSession)))
                           (Some (Int (Utils.number inSession))))
              = Some (Int requested)).
  { subst requested. now destruct (Tool.number params). }
  rewrite E. unfold noNumber.
  rewrite (proj2 (Z.eqb_neq _ _) Hnz).
  cbn [bind tryCatch run app].
  match goal with
  | |- context [run w ?p ?h] => destruct (run_extends w p h) as [calls Ec]
  end.
  exists calls. exact Ec.
Qed.

End PrIssue.

(** X7: on the branch made for one issue, in the session made for
    another, the [pr] action fetches no issue and creates no PR: it makes
    five calls, the last one reading the session name, and reports a
    branch/session mismatch, even when an explicit number is passed.
    The two numbers are natural numbers below 10^21 that the runtime
    holds, the numbers that the decoders read back. *)
Theorem pr_branch_session_mismatch
        (w : Tool.world) (params : Tool.Params) (ctx : ExtensionContext)
        (onBranch inSession : IssueRef)
        (branch_number : 0 <= number onBranch < 10 ^ 21)
        (branch_held : heldExactly (number onBranch) = true)
        (session_number : 0 <= number inSession < 10 ^ 21)
        (session_held : heldExactly (number inSession) = true)
        (different : number onBranch <> number inSession)
        (gh_found : forall h, w _ h Tool.CheckGhCli = Parse.Returned true)
        (not_cancelled : forall h, w _ h Tool.SignalAborted = false)
        (current_branch :
           forall h, w _ h Tool.GetCurrentBranch
                     = Parse.Returned (getIssueBranchName onBranch))
        (session_name :
           forall h, w _ h Tool.GetSessionName
                     = Some (getIssueSessionName inSession)) :
  exists r,
    Tool.run w (Tool.execute params ctx) []
    = ([Tool.Logged Tool.CheckGhCli; Tool.Logged Tool.SignalAborted;
        Tool.Logged Tool.GetCurrentBranch; Tool.Logged Tool.SignalAborted;
        Tool.Logged Tool.GetSessionName],
       Parse.Returned r)
    /\ Tool.error (Tool.details r) = Some (str "branch/session mismatch")
    /\ Tool.isError r = true
    /\ Tool.text r
       = str "Error: Branch todo/" ++ numberToString (number onBranch)
         ++ str "-* doesn't match session issue #"
         ++ numberToString (number inSession)
         ++ str ". Session and branch should be for the same issue.".
Proof.
  eexists. split.
  - now apply (execute_mismatch w params ctx onBranch inSession).
  - now repeat split.
Qed.

Lemma pr_branch_session_mismatch_witness :
  let w := Worlds.worldOn
             (getIssueBranchName {| number := 7; title := str "a" |})
             (Some (getIssueSessionName {| number := 8; title := str "b" |})) in
  exists r,
    Tool.run w (Tool.execute Tool.noParams Tool.emptyContext) []
    = ([Tool.Logged Tool.CheckGhCli; Tool.Logged Tool.SignalAborted;
        Tool.Logged Tool.GetCurrentBranch; Tool.Logged Tool.SignalAborted;
        Tool.Logged Tool.GetSessionName],
       Parse.Returned r)
    /\ Tool.error (Tool.details r) = Some (str "branch/session mismatch")
    /\ Tool.isError r = true
    /\ Tool.text r
       = str "Error: Branch todo/" ++ numberToString 7
         ++ str "-* doesn't match session issue #"
         ++ numberToString 8
         ++ str ". Session and branch should be for the same issue.".
Proof.
  apply (pr_branch_session_mismatch
           (Worlds.worldOn
              (getIssueBranchName {| number := 7; title := str "a" |})
              (Some (getIssueSessionName {| number := 8; title := str "b" |})))
           Tool.noParams Tool.emptyContext
           {| number := 7; title := str "a" |}
           {| number := 8; title := str "b" |}).
  - split; now vm_compute.
  - reflexivity.
  - split; now vm_compute.
  - reflexivity.
  - cbn. lia.
  - reflexivity.
  - reflexivity.
  - reflexivity.
  - reflexivity.
Defined.

(** X8: on the branch and in the session made for one and the same
    issue, a natural number below 10^21 that the runtime holds, the [pr]
    action goes on to fetch an issue: the one whose number was passed, or
    else the issue of the session.  The number must not be zero, which
    reads as no number at all. *)
Theorem pr_fetches_issue
        (w : Tool.world) (params : Tool.Params) (ctx : ExtensionContext)
        (onBranch inSession : IssueRef) (requested : Z)
        (branch_number : 0 <= number onBranch < 10 ^ 21)
        (branch_held : heldExactly (number onBranch) = true)
        (same_issue : number onBranch = number inSession)
        (asked_for :
           requested = match Tool.number params with
                       | Some k => k
                       | None => number inSession
                       end)
        (not_zero : requested <> 0)
        (gh_found : forall h, w _ h Tool.CheckGhCli = Parse.Returned true)
        (not_cancelled : forall h, w _ h Tool.SignalAborted = false)
        (current_branch :
           forall h, w _ h Tool.GetCurrentBranch
                     = Parse.Returned (getIssueBranchName onBranch))
        (session_name :
           forall h, w _ h Tool.GetSessionName
                     = Some (getIssueSessionName inSession)) :
  exists calls,
    fst (Tool.run w (Tool.execute params ctx) [])
    = [Tool.Logged Tool.CheckGhCli; Tool.Logged Tool.SignalAborted;
       Tool.Logged Tool.GetCurrentBranch; Tool.Logged Tool.SignalAborted;
       Tool.Logged Tool.GetSessionName;
       Tool.Logged (Tool.GetIssue (Int requested))] ++ calls.
Proof.
  apply (execute_fetches w params ctx onBranch inSession); trivial;
    now rewrite <- same_issue.
Qed.

Lemma pr_fetches_issue_witness :
  let w := Worlds.worldOn
             (getIssueBranchName {| number := 7; title := str "a" |})
             (Some (getIssueSessionName {| number := 7; title := str "A" |})) in
  exists calls,
    fst (Tool.run w (Tool.execute Tool.noParams Tool.emptyContext) [])
    = [Tool.Logged Tool.CheckGhCli; Tool.Logged Tool.SignalAborted;
       Tool.Logged Tool.GetCurrentBranch; Tool.Logged Tool.SignalAborted;
       Tool.Logged Tool.GetSessionName;
       Tool.Logged (Tool.GetIssue (Int 7))] ++ calls.
Proof.
  apply (pr_fetches_issue
           (Worlds.worldOn
              (getIssueBranchName {| number := 7; title := str "a" |})
              (Some (getIssueSessionName {| number := 7; title := str "A" |})))
           Tool.noParams Tool.emptyContext
           {| number := 7; title := str "a" |}
           {| number := 7; title := str "A" |} 7).
  - split; now vm_compute.
  - reflexivity.
  - reflexivity.
  - reflexivity.
  - lia.
  - reflexivity.
  - reflexivity.
  - reflexivity.
  - reflexivity.
Defined.

(** Issue number zero cannot be worked on: it reads as no number. *)
Example pr_issue_zero :
  let w := Worlds.worldOn
             (getIssueBranchName {| number := 0; title := str "a" |})
             (Some (getIssueSessionName {| number := 0; title := str "a" |})) in
  snd (Tool.run w (Tool.execute Tool.noParams Tool.emptyContext) [])
  = Parse.Returned Tool.noIssueNumber.
Proof. now vm_compute. Qed.

(** ** A list of issues is parsed whole or not at all *)

Section AllOrNothing.

Import Parse.

Lemma mapM_None {A B} (f : A -> option B) (l : list A) :
  mapM f l = None <-> exists a, In a l /\ f a = None.
Proof.
  induction l as [|a l IH]; cbn [mapM].
  - split; [discriminate | intros (a & [] & _)].
  - destruct (f a) as [b|] eqn:Ea.
    + destruct (mapM f l) as [bs|].
      * split; [discriminate|]. intros (x & [<-|Hx] & E); [congruence|].
        assert (Some bs = None) as F by (apply IH; now exists x).
        discriminate F.
      * split; [|reflexivity]. intros _.
        destruct (proj1 IH eq_refl) as (x & Hx & E).
        exists x. split; [now right | exact E].
    + split; [|reflexivity]. intros _. exists a. split; [now left | exact Ea].
Qed.

Lemma mapM_Forall2 {A B} (f : A -> option B) (l : list A) :
  forall l', mapM f l = Some l' -> Forall2 (fun a b => f a = Some b) l l'.
Proof.
  induction l as [|a l IH]; intros l' H; cbn [mapM] in H.
  - injection H as <-. constructor.
  - destruct (f a) as [b|] eqn:Ea; [|discriminate].
    destruct (mapM f l) as [bs|]; [|discriminate].
    injection H as <-. constructor; [exact Ea | now apply IH].
Qed.

End AllOrNothing.

(** X9: [parseIssues] parses an array whole or not at all.  When every
    element can be turned into an issue, the result lists the issues of
    the elements, one for one and in order; when a single element cannot
    (a [null] among the issues, say), the result is the empty list and
    the issues that could be read are lost with it. *)
Theorem parseIssues_all_or_nothing
        (JSON_parse : jsstring -> option Parse.value) (s : jsstring)
        (vs : list Parse.value)
        (array : JSON_parse s = Some (Parse.VArr vs)) :
  ((forall v, In v vs -> exists i, Parse.toIssue v = Some i) ->
   Forall2 (fun v i => Parse.toIssue v = Some i)
           vs (Parse.parseIssues JSON_parse s))
  /\ ((exists v, In v vs /\ Parse.toIssue v = None) ->
      Parse.parseIssues JSON_parse s = [])
  /\ (In Parse.VNull vs -> Parse.parseIssues JSON_parse s = []).
Proof.
  unfold Parse.parseIssues. rewrite array.
  destruct (Parse.mapM Parse.toIssue vs) as [issues|] eqn:E.
  - pose proof (mapM_Forall2 _ _ _ E) as F.
    assert (N : forall v, In v vs -> Parse.toIssue v = None -> False).
    { intros v Hv Ev.
      assert (Parse.mapM Parse.toIssue vs = None) as E'
          by (apply mapM_None; now exists v).
      congruence. }
    repeat split.
    + intros _. exact F.
    + intros (v & Hv & Ev). destruct (N v Hv Ev).
    + intros Hv. destruct (N _ Hv eq_refl).
  - repeat split; trivial.
    intros H. apply mapM_None in E as (v & Hv & Ev).
    destruct (H v Hv) as [i Ei]. congruence.
Qed.

Lemma parseIssues_all_or_nothing_witness :
  ((forall v, In v [Parse.VObj [(str "state", Parse.VStr (str "OPEN"))]] ->
              exists i, Parse.toIssue v = Some i) ->
   Forall2 (fun v i => Parse.toIssue v = Some i)
           [Parse.VObj [(str "state", Parse.VStr (str "OPEN"))]]
           (Parse.parseIssues Parse.sampleParse Parse.openListText))
  /\ ((exists v, In v [Parse.VObj [(str "state", Parse.VStr (str "OPEN"))]]
                 /\ Parse.toIssue v = None) ->
      Parse.parseIssues Parse.sampleParse Parse.openListText = [])
  /\ (In Parse.VNull [Parse.VObj [(str "state", Parse.VStr (str "OPEN"))]] ->
      Parse.parseIssues Parse.sampleParse Parse.openListText = []).
Proof.
  apply (parseIssues_all_or_nothing Parse.sampleParse Parse.openListText).
  reflexivity.
Defined.

(** ** The commits that are not pushed yet *)

Section Commits.

Import Parse Github.

Lemma occurs_char (c : ascii) (s : jsstring) : occurs [c] s <-> In c s.
Proof.
  split.
  - intros (i & pre & post & -> & _). apply in_or_app. right. now left.
  - intros H. apply in_split in H as (pre & post & ->).
    now exists (length pre), pre, post.
Qed.

Lemma split_nonempty (sep : ascii) (s : jsstring) : split sep s <> [].
Proof.
  destruct s as [|c s]; cbn [split]; [discriminate|].
  destruct (Ascii.eqb c sep); [discriminate|].
  destruct (split sep s); discriminate.
Qed.

(** The pieces of a split hold no separator and spell the string again
    when joined by it. *)
Lemma split_join (sep : ascii) (s : jsstring) :
  join [sep] (split sep s) = s
  /\ Forall (fun piece => ~ In sep piece) (split sep s).
Proof.
  induction s as [|c s [IHj IHf]]; cbn [split].
  - split; [reflexivity|]. repeat constructor. intros [].
  - destruct (Ascii.eqb c sep) eqn:E.
    + apply Ascii.eqb_eq in E. subst c. split.
      * pose proof (split_nonempty sep s) as N.
        destruct (split sep s) as [|p ps]; [congruence|].
        cbn [join app] in *. now rewrite <- IHj.
      * constructor; [intros [] | exact IHf].
    + apply Ascii.eqb_neq in E.
      pose proof (split_nonempty sep s) as N.
      destruct (split sep s) as [|p ps]; [congruence|].
      apply Forall_cons_iff in IHf as [Hp Hps]. split.
      * destruct ps; cbn [join app] in *; now rewrite <- IHj.
      * constructor; [|exact Hps]. intros [H|H]; [congruence | now apply Hp].
Qed.

(** A line is cut at its first space. *)
Lemma toCommit_cut (line : jsstring) :
  let c := toCommit line in
  ~ In " "%char (hash c)
  /\ (hash c ++ str " " ++ message c = line
      \/ (~ In " "%char line /\ hash c = line /\ message c = [])).
Proof.
  unfold toCommit.
  destruct (indexOfFrom_spec (str " ") line 0) as [[H Hn] | (i & H & Hf)];
    fold (indexOf line (str " ")) in H; rewrite H.
  - cbn [Z.eqb hash message].
    assert (~ In " "%char line) by (intros Hi; now apply Hn, occurs_char).
    split; [assumption|]. now right.
  - destruct (0 + Z.of_nat i =? -1) eqn:E; [apply Z.eqb_eq in E; lia|].
    cbn [hash message]. rewrite Z.add_0_l.
    pose proof Hf as [(pre & post & El & Hl) _].
    assert (Li : (i + 1 <= length line)%nat).
    { rewrite El, !length_app. cbn [length str list_ascii_of_string]. lia. }
    rewrite slice_0_firstn.
    replace (Z.of_nat i + 1) with (Z.of_nat (i + 1)) by lia.
    rewrite sliceFrom_nat by exact Li.
    split.
    + intros Hi. apply occurs_char in Hi.
      revert Hi. apply (not_occurs_before (str " ") line i i); trivial.
      discriminate.
    + left. subst i. rewrite El at 1 2.
      rewrite firstn_length_app.
      replace (pre ++ str " " ++ post) with ((pre ++ str " ") ++ post)
        by now rewrite <- app_assoc.
      replace (length pre + 1)%nat with (length (pre ++ str " "))
        by (rewrite length_app; reflexivity).
      rewrite skipn_length_app. now symmetry.
Qed.

End Commits.

(** X10: when [git log --oneline] succeeds with some output, the
    unpushed commits are its lines (the trimmed output cut at the line
    feeds), one commit per line and in order; each line is cut at its
    first space, so that the hash holds no space and hash, space and
    message spell the line again; a line without a space is all hash.
    When the command fails or prints nothing but white space there is no
    commit. *)
Theorem getUnpushedCommits_reads_log
        (exec : jsstring -> list jsstring -> Parse.ExecResult)
        (branch : jsstring) :
  let result :=
    exec (str "git") [str "log"; Github.commitRange exec branch;
                      str "--oneline"; str "--no-decorate"] in
  let output := trim (Parse.stdout result) in
  if (Parse.code result =? 0) && nonEmpty output
  then exists lines,
      join [Utils.LF] lines = output
      /\ Forall (fun line => ~ In Utils.LF line) lines
      /\ Forall2 (fun line c =>
                    ~ In " "%char (Github.hash c)
                    /\ (Github.hash c ++ str " " ++ Github.message c = line
                        \/ (~ In " "%char line
                            /\ Github.hash c = line
                            /\ Github.message c = [])))
                 lines (Github.getUnpushedCommits exec branch)
  else Github.getUnpushedCommits exec branch = [].
Proof.
  intros result output. unfold Github.getUnpushedCommits.
  fold result. fold output.
  destruct (Parse.code result =? 0); cbn [negb orb andb]; [|reflexivity].
  destruct (nonEmpty output); cbn [negb]; [|reflexivity].
  exists (Github.split Utils.LF output).
  destruct (split_join Utils.LF output) as [J F].
  split; [exact J|]. split; [exact F|].
  clear. induction (Github.split Utils.LF output) as [|l ls IH];
    cbn [map]; constructor; [apply toCommit_cut | exact IH].
Qed.

(** ** The texts of a pull request *)

Section PrTexts.

Import Parse Github PrBody.

(** One line of the commits section. *)
Lemma commitsSection_lines (commits : list Commit) :
  forall section,
    fold_left (fun section commit =>
                 section ++ str "- " ++ hash commit ++ str " "
                 ++ message commit ++ [LF])
              commits section
    = section
      ++ concat (map (fun c => str "- " ++ hash c ++ str " " ++ message c
                               ++ [LF]) commits).
Proof.
  induction commits as [|c commits IH]; intros section; cbn [fold_left map concat].
  - now rewrite app_nil_r.
  - rewrite IH. now rewrite <- !app_assoc.
Qed.

Lemma commitsSection_cons (c : Commit) (commits : list Commit) :
  commitsSection (c :: commits)
  = [LF; LF] ++ str "### Commits" ++ [LF]
    ++ concat (map (fun c => str "- " ++ hash c ++ str " " ++ message c
                             ++ [LF]) (c :: commits)).
Proof.
  unfold commitsSection.
  replace (0 <? Z.of_nat (length (c :: commits))) with true
    by (symmetry; apply Z.ltb_lt; cbn [length]; lia).
  rewrite commitsSection_lines. now rewrite <- !app_assoc.
Qed.

Lemma textOf_blocksText (content : list ContentBlock) :
  textOf content = blocksText content.
Proof.
  unfold textOf, blocksText.
  induction content as [|c content IH]; cbn [filter map concat]; [reflexivity|].
  destruct (strEq (blockType c) (str "text")); cbn [map concat app];
    now rewrite IH.
Qed.

End PrTexts.

Lemma summary_lists_commits
      (scopedContext : jsstring) (commit : Github.Commit)
      (commits : list Github.Commit) (prNumber : Z)
      (ai : PrBody.Completion) :
  exists head,
    PrBody.generatePrUpdateSummary scopedContext (commit :: commits)
                                   prNumber ai
    = head ++ [Utils.LF; Utils.LF] ++ str "### Commits" ++ [Utils.LF]
      ++ concat (map (fun c => str "- " ++ Github.hash c ++ str " "
                               ++ Github.message c ++ [Utils.LF])
                     (commit :: commits)).
Proof.
  unfold PrBody.generatePrUpdateSummary, PrBody.updateFallback.
  rewrite <- commitsSection_cons.
  replace (0 <? Z.of_nat (length (commit :: commits))) with true
    by (symmetry; apply Z.ltb_lt; cbn [length]; lia).
  rewrite andb_false_r. cbn [negb].
  assert (F : exists head,
             str "## Feedback addressed" ++ [Utils.LF; Utils.LF]
             ++ str "(Changes pushed)"
             ++ PrBody.commitsSection (commit :: commits)
             = head ++ PrBody.commitsSection (commit :: commits)).
  { exists (str "## Feedback addressed" ++ [Utils.LF; Utils.LF]
            ++ str "(Changes pushed)").
    now rewrite <- !app_assoc. }
  destruct ai as [| |content]; try exact F.
  destruct (nonEmpty (PrBody.textOf content)); cbn [negb]; [|exact F].
  now eexists.
Qed.

(** X11: when there are commits, the comment posted by [pr-update] ends
    with the commits section, whatever the model does: no model, a
    failure, an empty answer or an answer of its own (of which the white
    space at the end is dropped first).  The section is the heading
    [### Commits] and one line per commit, in order, with its hash and
    its message. *)
Theorem generatePrUpdateSummary_lists_commits
        (scopedContext : jsstring) (commit : Github.Commit)
        (commits : list Github.Commit) (prNumber : Z)
        (ai : PrBody.Completion) :
  exists head,
    PrBody.generatePrUpdateSummary scopedContext (commit :: commits)
                                   prNumber ai
    = head ++ [Utils.LF; Utils.LF] ++ str "### Commits" ++ [Utils.LF]
      ++ concat (map (fun c => str "- " ++ Github.hash c ++ str " "
                               ++ Github.message c ++ [Utils.LF])
                     (commit :: commits)).
Proof.
  exact (summary_lists_commits scopedContext commit commits prNumber ai).
Qed.

(** An answer of white space only leaves the commits section alone. *)
Example generatePrUpdateSummary_blank_answer :
  PrBody.generatePrUpdateSummary
    (str "User: fix it") [ {| Github.hash := str "abc1234";
                              Github.message := str "Fix it" |} ] 7
    (PrBody.Answered [ {| blockType := str "text"; blockText := str " " |} ])
  = [Utils.LF; Utils.LF] ++ str "### Commits" ++ [Utils.LF]
    ++ str "- abc1234 Fix it" ++ [Utils.LF].
Proof. now vm_compute. Qed.

(** X12: the body of a pull request is never empty.  [generatePrSummary]
    and [fillPrTemplate] return the model's text only when it is not
    empty, and otherwise a text that starts with the link to the issue,
    [Closes #N] or [Related: #N]; with a blank session context
    [generatePrSummary] does not look at the model's answer at all. *)
Theorem pr_body_never_empty
        (issue : Tool.Issue) (sessionContext template : jsstring)
        (closeIssue : bool) (ai : PrBody.Completion) :
  let summary := PrBody.generatePrSummary issue sessionContext closeIssue ai in
  let filled :=
    PrBody.fillPrTemplate template issue sessionContext closeIssue ai in
  let link := (if closeIssue then str "Closes #" else str "Related: #")
              ++ numberToString (Tool.issueNumber issue) in
  nonEmpty summary = true
  /\ nonEmpty filled = true
  /\ ((exists content,
          ai = PrBody.Answered content /\ summary = PrBody.textOf content
          /\ nonEmpty (trim sessionContext) = true)
      \/ summary = link ++ [Utils.LF; Utils.LF] ++ str "## Summary"
                  ++ [Utils.LF; Utils.LF]
                  ++ str "(Add summary of changes here)")
  /\ ((exists content,
          ai = PrBody.Answered content /\ filled = PrBody.textOf content)
      \/ filled = link ++ [Utils.LF; Utils.LF] ++ template).
Proof.
  intros summary filled link.
  assert (L : PrBody.issueLink issue closeIssue = link).
  { unfold PrBody.issueLink. subst link. now destruct closeIssue. }
  assert (N : forall tl, nonEmpty (link ++ tl) = true).
  { intros tl. subst link. now destruct closeIssue. }
  subst summary filled.
  unfold PrBody.generatePrSummary, PrBody.fillPrTemplate. rewrite L.
  repeat split.
  - destruct (nonEmpty (trim sessionContext)); cbn [negb]; [|apply N].
    destruct ai as [| |content]; try apply N.
    destruct (nonEmpty (PrBody.textOf content)) eqn:E; [exact E | apply N].
  - destruct ai as [| |content]; try apply N.
    destruct (nonEmpty (PrBody.textOf content)) eqn:E; [exact E | apply N].
  - destruct (nonEmpty (trim sessionContext)); cbn [negb];
      [|right; rewrite <- ?app_assoc; reflexivity].
    destruct ai as [| |content]; try (right; rewrite <- ?app_assoc; reflexivity).
    destruct (nonEmpty (PrBody.textOf content)) eqn:E;
      [left; now exists content | right; rewrite <- ?app_assoc; reflexivity].
  - destruct ai as [| |content]; try (right; rewrite <- ?app_assoc; reflexivity).
    destruct (nonEmpty (PrBody.textOf content)) eqn:E;
      [left; now exists content | right; rewrite <- ?app_assoc; reflexivity].
Qed.

(** ** Numbers read off a URL *)

Section NumberedUrl.

Variable w : jsstring.

(** The pattern [w(\d+)] fails at a place where [w] does not stand with
    a digit after it. *)
Lemma numbered_fails (fuel : nat) (t : jsstring) (i : nat) cs (k : cont) :
  ~ (exists d post, t = w ++ d :: post /\ isDigit d = true) ->
  m fuel (seqs [lit w; Grp 1 (Plus digit)]) (MState t i cs) k = None.
Proof.
  intros H. cbn [seqs m]. rewrite m_lit. cbn [rest pos caps].
  destruct (startsWith t w) eqn:E; [|reflexivity].
  apply startsWith_iff in E as [r ->]. rewrite skipn_length_app.
  apply (plus_stops fuel digit isDigit (fun _ _ => eq_refl)).
  destruct r as [|c r]; [exact I|]. cbn [stopsAt].
  destruct (isDigit c) eqn:Ec; [|reflexivity].
  destruct H. now exists c, r.
Qed.

(** The pattern [w(\d+)], searched in a text: the match is at the first
    [w] that is followed by a digit, and the group is the whole run of
    digits there. *)
Lemma execAt_numbered (base ds tl : jsstring) (d : ascii) :
  (forall j, (j < length base)%nat ->
             ~ Github.numberedAt w (base ++ w ++ (d :: ds) ++ tl) j) ->
  forallb isDigit (d :: ds) = true ->
  stopsAt isDigit tl ->
  execAt (seqs [lit w; Grp 1 (Plus digit)]) (base ++ w ++ (d :: ds) ++ tl) 0
  = Some (length base,
          MState tl (length base + length w + S (length ds))
                 [(1%nat, d :: ds)]).
Proof.
  intros Hfirst Hd Htl. cbn [forallb] in Hd.
  apply andb_true_iff in Hd as [Hd Hds].
  unfold execAt. cbn [Nat.leb skipn].
  set (s := base ++ w ++ (d :: ds) ++ tl) in *.
  set (fuel := S (length s)).
  rewrite (search_skip fuel _ base (w ++ (d :: ds) ++ tl) 0).
  - cbn [Nat.add].
    apply search_here. cbn [seqs m]. rewrite m_lit. cbn [rest pos caps].
    rewrite startsWith_app, skipn_length_app.
    change ((d :: ds) ++ tl) with (d :: ds ++ tl).
    apply (plus_accept fuel digit isDigit (fun _ _ => eq_refl)); trivial.
    + subst fuel s. rewrite ?length_app. cbn [length].
      rewrite ?length_app. lia.
    + cbn [rest pos caps]. f_equal. f_equal.
      replace (length base + length w + S (length ds)
               - (length base + length w))%nat
        with (length (d :: ds)) by (cbn [length]; lia).
      change (d :: ds ++ tl) with ((d :: ds) ++ tl).
      now rewrite firstn_length_app.
  - intros j Hj. fold s. apply numbered_fails.
    intros (c & post & E & Hc). apply (Hfirst j Hj).
    exists (firstn j s), c, post. split; [|split; [|exact Hc]].
    + rewrite <- E. symmetry. apply firstn_skipn.
    + apply firstn_length_le. subst s. rewrite length_app. lia.
Qed.

(** Without a [w] that is followed by a digit there is no match. *)
Lemma execAt_unnumbered (s : jsstring) :
  (forall j, ~ Github.numberedAt w s j) ->
  execAt (seqs [lit w; Grp 1 (Plus digit)]) s 0 = None.
Proof.
  intros H. unfold execAt. cbn [Nat.leb skipn].
  generalize (S (length s)) as fuel. intros fuel.
  set (re := seqs [lit w; Grp 1 (Plus digit)]).
  generalize 0%nat as i. revert H.
  induction s as [|c s IH]; intros H i; cbn [search]; subst re.
  - rewrite numbered_fails; [reflexivity|].
    intros (d & post & E & Hd). apply (H 0%nat). now exists [], d, post.
  - rewrite numbered_fails.
    + apply IH. intros j (pre & d & post & E & L & Hd).
      apply (H (S j)). exists (c :: pre), d, post.
      cbn [app length]. repeat split; congruence.
    + intros (d & post & E & Hd). apply (H 0%nat). now exists [], d, post.
Qed.

(** Zeros in front do not change the value of a decimal. *)
Lemma parseInt10_zeros (k : nat) (n : N) :
  parseInt10 (repeat "0"%char k ++ natToString n) = numberValue 1 (Z.of_N n).
Proof.
  assert (P : parseDigits (repeat "0"%char k ++ natToString n) 0 = Z.of_N n).
  { induction k as [|k IH]; cbn [repeat app parseDigits].
    - apply parseDigits_natToString.
    - exact IH. }
  destruct k as [|k].
  - apply parseInt10_natToString.
  - cbn [repeat app] in *. rewrite parseInt10_digits by reflexivity.
    now rewrite P.
Qed.

Lemma zeros_head (k : nat) (n : N) :
  exists d ds, repeat "0"%char k ++ natToString n = d :: ds
               /\ forallb isDigit (d :: ds) = true.
Proof.
  assert (F : forallb isDigit (repeat "0"%char k ++ natToString n) = true).
  { rewrite forallb_app, natToString_digits, andb_true_r.
    induction k; [reflexivity | exact IHk]. }
  destruct (repeat "0"%char k ++ natToString n) as [|d ds] eqn:E.
  - destruct k; [|discriminate E].
    destruct (natToString_nonempty n) as (d & ds & En).
    cbn [repeat app] in E. congruence.
  - now exists d, ds.
Qed.

End NumberedUrl.

(** X13: [createPr] reads the number of the new pull request off the URL
    that [gh pr create] prints: the digits, zeros in front included,
    after the first [/pull/] of the trimmed output that is followed by a
    digit.  The number is the one the runtime holds for the value [n] of
    the digits, which is [n] itself up to 2^53.  Without any [/pull/]
    followed by a digit the number is 0, and the URL is the trimmed
    output all the same. *)
Theorem createPr_reads_number
        (result : Parse.ExecResult)
        (success : Parse.code result = 0) :
  let url := trim (Parse.stdout result) in
  (forall (base tl : jsstring) (k : nat) (n : N),
      url = base ++ str "/pull/" ++ repeat "0"%char k ++ natToString n ++ tl ->
      stopsAt isDigit tl ->
      (forall j, (j < length base)%nat ->
                 ~ Github.numberedAt (str "/pull/") url j) ->
      PrBody.createPr result
      = Parse.Returned {| PrBody.url := url;
                          PrBody.number := numberValue 1 (Z.of_N n) |}
      /\ (heldExactly (Z.of_N n) = true ->
          PrBody.createPr result
          = Parse.Returned {| PrBody.url := url;
                              PrBody.number := Int (Z.of_N n) |}))
  /\ ((forall j, ~ Github.numberedAt (str "/pull/") url j) ->
      PrBody.createPr result
      = Parse.Returned {| PrBody.url := url; PrBody.number := Int 0 |}).
Proof.
  intros url. unfold PrBody.createPr, matchGroup. fold url.
  rewrite success. cbn [Z.eqb negb].
  split.
  - intros base tl k n E Htl Hfirst.
    assert (R : Parse.Returned
                  {| PrBody.url := url;
                     PrBody.number :=
                       match
                         match execAt PrBody.pullPattern url 0 with
                         | Some (_, y) => Some (capture 1 (caps y))
                         | None => None
                         end
                       with
                       | Some (Some g) =>
                           if nonEmpty g then parseInt10 g else Int 0
                       | _ => Int 0
                       end |}
                = Parse.Returned
                    {| PrBody.url := url;
                       PrBody.number := numberValue 1 (Z.of_N n) |}).
    { destruct (zeros_head k n) as (d & ds & Ed & Hd).
      pose proof (parseInt10_zeros k n) as Hp.
      rewrite (app_assoc (repeat "0"%char k)), Ed in E.
      rewrite Ed in Hp.
      rewrite E in Hfirst |- *.
      unfold PrBody.pullPattern.
      rewrite (execAt_numbered (str "/pull/") base ds tl d Hfirst Hd Htl).
      cbn [caps capture Nat.eqb nonEmpty]. now rewrite Hp. }
    split; [exact R|].
    intros H. rewrite R.
    now rewrite numberValue_held by (trivial; lia).
  - intros H. unfold PrBody.pullPattern.
    now rewrite (execAt_unnumbered (str "/pull/") _ H).
Qed.

Lemma createPr_reads_number_witness :
  let result := Worlds.sampleExec (str "gh") [str "pr"; str "create"] in
  let url := trim (Parse.stdout result) in
  (forall (base tl : jsstring) (k : nat) (n : N),
      url = base ++ str "/pull/" ++ repeat "0"%char k ++ natToString n ++ tl ->
      stopsAt isDigit tl ->
      (forall j, (j < length base)%nat ->
                 ~ Github.numberedAt (str "/pull/") url j) ->
      PrBody.createPr result
      = Parse.Returned {| PrBody.url := url;
                          PrBody.number := numberValue 1 (Z.of_N n) |}
      /\ (heldExactly (Z.of_N n) = true ->
          PrBody.createPr result
          = Parse.Returned {| PrBody.url := url;
                              PrBody.number := Int (Z.of_N n) |}))
  /\ ((forall j, ~ Github.numberedAt (str "/pull/") url j) ->
      PrBody.createPr result
      = Parse.Returned {| PrBody.url := url; PrBody.number := Int 0 |}).
Proof.
  apply (createPr_reads_number
           (Worlds.sampleExec (str "gh") [str "pr"; str "create"])).
  reflexivity.
Defined.

(** The sample answer of [gh pr create] gives pull request 12; zeros in
    front of a number are read over, a [/pull/] without a digit is
    passed by, and a number above 2^53 comes back rounded. *)
Example createPr_sample :
  PrBody.createPr (Worlds.sampleExec (str "gh") [str "pr"; str "create"])
  = Parse.Returned {| PrBody.url := str "https://github.com/o/r/pull/12";
                      PrBody.number := Int 12 |}
  /\ option_map PrBody.number
       (match PrBody.createPr
                {| Parse.code := 0; Parse.stdout := str "/pull/x/pull/007";
                   Parse.stderr := [] |}
        with Parse.Returned r => Some r | Parse.Thrown _ => None end)
     = Some (Int 7)
  /\ option_map PrBody.number
       (match PrBody.createPr
                {| Parse.code := 0;
                   Parse.stdout := str "/pull/9007199254740993";
                   Parse.stderr := [] |}
        with Parse.Returned r => Some r | Parse.Thrown _ => None end)
     = Some (Int 9007199254740992).
Proof. now vm_compute. Qed.

(** X14: [createIssue] fetches the issue whose number follows the first
    [/issues/] of what [gh issue create] prints that is followed by a
    digit: the number the runtime holds for the value of the digits,
    zeros in front included, which is that value itself up to 2^53.
    When the output holds no [/issues/] followed by a digit, it throws
    instead of fetching anything. *)
Theorem createIssue_fetches_created
        (exec : jsstring -> list jsstring -> Parse.ExecResult)
        (JSON_parse : jsstring -> option Parse.value)
        (title : jsstring) (body : option jsstring)
        (created :
           Parse.code
             (exec (str "gh")
                   [str "issue"; str "create"; str "--title"; title;
                    str "--label"; str "pi-todo"; str "--body";
                    match body with Some b => b | None => [] end]) = 0) :
  let output :=
    Parse.stdout
      (exec (str "gh")
            [str "issue"; str "create"; str "--title"; title;
             str "--label"; str "pi-todo"; str "--body";
             match body with Some b => b | None => [] end]) in
  (forall (base tl : jsstring) (k : nat) (n : N),
      output = base ++ str "/issues/" ++ repeat "0"%char k
               ++ natToString n ++ tl ->
      stopsAt isDigit tl ->
      (forall j, (j < length base)%nat ->
                 ~ Github.numberedAt (str "/issues/") output j) ->
      Github.createIssue exec JSON_parse title body
      = Github.getIssue exec JSON_parse (numberValue 1 (Z.of_N n))
      /\ (heldExactly (Z.of_N n) = true ->
          Github.createIssue exec JSON_parse title body
          = Github.getIssue exec JSON_parse (Int (Z.of_N n))))
  /\ ((forall j, ~ Github.numberedAt (str "/issues/") output j) ->
      Github.createIssue exec JSON_parse title body
      = Parse.Thrown (str "Could not parse created issue number")).
Proof.
  intros output. unfold Github.createIssue.
  change ([str "issue"; str "create"; str "--title"; title;
           str "--label"; Github.PI_TODO_LABEL]
          ++ [str "--body"; match body with Some b => b | None => [] end])
    with [str "issue"; str "create"; str "--title"; title;
          str "--label"; str "pi-todo"; str "--body";
          match body with Some b => b | None => [] end].
  rewrite created. cbn [Z.eqb negb]. fold output.
  unfold parsedGroup, Github.issuesPattern.
  split.
  - intros base tl k n E Htl Hfirst.
    assert (R : match
                  match execAt (seqs [lit (str "/issues/"); Grp 1 (Plus digit)])
                               output 0 with
                  | Some (_, y) =>
                      match capture 1 (caps y) with
                      | Some g => Some (parseInt10 g)
                      | None => None
                      end
                  | None => None
                  end
                with
                | Some issueNum => Github.getIssue exec JSON_parse issueNum
                | None =>
                    Parse.Thrown (str "Could not parse created issue number")
                end
                = Github.getIssue exec JSON_parse (numberValue 1 (Z.of_N n))).
    { destruct (zeros_head k n) as (d & ds & Ed & Hd).
      pose proof (parseInt10_zeros k n) as Hp.
      rewrite (app_assoc (repeat "0"%char k)), Ed in E.
      rewrite Ed in Hp.
      rewrite E in Hfirst |- *.
      rewrite (execAt_numbered (str "/issues/") base ds tl d Hfirst Hd Htl).
      cbn [caps capture Nat.eqb]. now rewrite Hp. }
    split; [exact R|].
    intros H. rewrite R.
    now rewrite numberValue_held by (trivial; lia).
  - intros H.
    now rewrite (execAt_unnumbered (str "/issues/") _ H).
Qed.

Lemma createIssue_fetches_created_witness :
  let output :=
    Parse.stdout
      (Worlds.sampleExec
         (str "gh")
         [str "issue"; str "create"; str "--title"; str "Fix it";
          str "--label"; str "pi-todo"; str "--body"; []]) in
  (forall (base tl : jsstring) (k : nat) (n : N),
      output = base ++ str "/issues/" ++ repeat "0"%char k
               ++ natToString n ++ tl ->
      stopsAt isDigit tl ->
      (forall j, (j < length base)%nat ->
                 ~ Github.numberedAt (str "/issues/") output j) ->
      Github.createIssue Worlds.sampleExec Parse.sampleParse (str "Fix it") None
      = Github.getIssue Worlds.sampleExec Parse.sampleParse
                        (numberValue 1 (Z.of_N n))
      /\ (heldExactly (Z.of_N n) = true ->
          Github.createIssue Worlds.sampleExec Parse.sampleParse
                             (str "Fix it") None
          = Github.getIssue Worlds.sampleExec Parse.sampleParse
                            (Int (Z.of_N n))))
  /\ ((forall j, ~ Github.numberedAt (str "/issues/") output j) ->
      Github.createIssue Worlds.sampleExec Parse.sampleParse (str "Fix it") None
      = Parse.Thrown (str "Could not parse created issue number")).
Proof.
  apply (createIssue_fetches_created
           Worlds.sampleExec Parse.sampleParse (str "Fix it") None).
  reflexivity.
Defined.

(** On the sample command line the issue created is number 12, which
    cannot be viewed there. *)
Example createIssue_sample :
  Github.createIssue Worlds.sampleExec Parse.sampleParse (str "Fix it") None
  = Parse.Thrown (str "Failed to get issue #12: failed").
Proof. now vm_compute. Qed.

(** ** Walking through an action *)

(** One more answer of the world [w]; what the small model says is left
    as it is. *)
Ltac answer w :=
  match goal with
  | |- context [w ?X ?h ?c] =>
      let E := fresh "E" in
      lazymatch X with
      | PrBody.Completion =>
          let ai := fresh "ai" in remember (w X h c) as ai eqn:E
      | _ => destruct (w X h c) as [] eqn:E
      end
  end.

(** One step along an action: [known] uses what is known of the world's
    answers, [stuck] splits on a test the action makes. *)
Ltac step_with w known stuck :=
  first
    [ progress known
    | answer w
    | match goal with
      | |- context [negb ?x] => is_var x; destruct x
      | |- context [match ?x with _ => _ end] => is_var x; destruct x
      end
    | stuck ];
  cbn [Flow.bind Flow.tryCatch Flow.run app negb andb fst snd nonEmpty].

(** ** The [pr-update] action *)

Section PrUpdate.

Import Parse Github Flow Actions.

(** The hook after a [pr-update]: a label exactly when the details hold
    no error and say whether there were code changes. *)
Lemma hook_prUpdate (d : Details) (leaf : jsstring) :
  action d = prUpdate -> nonEmpty leaf = true ->
  onToolResult (str "gh_todo") (Some d) (Some leaf)
  = if match error d with Some e => nonEmpty e | None => false end then None
    else match commentOnly d with
         | Some _ => Some (leaf, PR_LABEL_UPDATED)
         | None => None
         end.
Proof.
  intros Ha Hl. unfold onToolResult. rewrite Ha, Hl.
  change (strEq (str "gh_todo") (str "gh_todo")) with true.
  change (strEq prUpdate (str "pr")) with false.
  change (strEq prUpdate (str "pr-update")) with true.
  cbn [negb andb].
  destruct (match error d with Some e => nonEmpty e | None => false end);
    [reflexivity|].
  now destruct (commentOnly d).
Qed.

Variable w : world call.
Variable ctx : ExtensionContext.

Ltac walk :=
  unfold execute, prUpdateAction, unlessAborted, await, ask;
  cbn [bind tryCatch run app negb andb fst snd].

Ltac tests :=
  first
    [ match goal with
      | |- context [findLastPrCheckpointEntryId ctx] =>
          destruct (findLastPrCheckpointEntryId ctx) as [[|? ?]|] eqn:?
      end
    | match goal with
      | |- context [0 <? Z.of_nat (length ?l)] =>
          destruct (0 <? Z.of_nat (length l)) eqn:?
      end
    | match goal with
      | |- context [0 <? len ?s] => destruct (0 <? len s) eqn:?
      end ].

Ltac step_knowing known := step_with w known tests.
Ltac step := step_knowing idtac.

Lemma label_after_prUpdate (leaf : jsstring) :
  nonEmpty leaf = true ->
  match run w (execute prUpdate (prUpdateAction ctx)) [] with
  | (calls, Returned r) =>
      onToolResult (str "gh_todo") (Some (details r)) (Some leaf)
      = if commentPosted w calls then Some (leaf, PR_LABEL_UPDATED) else None
  | (_, Thrown _) => True
  end.
Proof.
  intros Hleaf. walk. repeat step.
  all: try exact I.
  all: rewrite hook_prUpdate by (reflexivity || assumption).
  all: cbn [details error commentOnly updateError cancelled only nonEmpty].
  all: unfold commentPosted; cbn [rev app].
  all: repeat match goal with
              | E : ?l = _ |- context [?l] => rewrite E
              end.
  all: try reflexivity.
  all: match goal with
       | |- (if ?b then None else None) = None => now destruct b
       end.
Qed.

(** Without a pull request, without a checkpoint or with uncommitted
    changes, nothing is pushed and nothing is posted. *)
Lemma prUpdate_refused :
  (forall h b, w _ h (GetPrForBranch b) = Returned None)
  \/ findLastPrCheckpointEntryId ctx = None
  \/ (forall h, w _ h HasUncommittedChanges = Returned true) ->
  let calls := fst (run w (execute prUpdate (prUpdateAction ctx)) []) in
  existsb isPushBranch calls = false /\ existsb isAddPrComment calls = false.
Proof.
  intros [H | [H | H]] calls; subst calls; walk.
  - repeat step_knowing ltac:(rewrite H). all: now split.
  - rewrite H. cbn [negb].
    repeat step. all: now split.
  - repeat step_knowing ltac:(rewrite H). all: now split.
Qed.

(** Nothing to push, nothing pushed. *)
Lemma prUpdate_no_commits :
  (forall h b, w _ h (GetUnpushedCommits b) = Returned []) ->
  existsb isPushBranch (fst (run w (execute prUpdate (prUpdateAction ctx)) []))
  = false.
Proof.
  intros H. walk.
  repeat step_knowing
    ltac:(first [ rewrite H
                | progress change (0 <? Z.of_nat (length (@nil Commit)))
                    with false ]).
  all: reflexivity.
Qed.

Variables (commit : Commit) (commits : list Commit).

Hypothesis unpushed :
  forall h b, w _ h (GetUnpushedCommits b) = Returned (commit :: commits).

Ltac with_commits :=
  first [ rewrite unpushed
        | progress change (0 <? Z.of_nat (length (commit :: commits)))
            with true ].

(** A push that fails ends the action: nothing is posted. *)
Lemma prUpdate_push_fails :
  (forall h b, exists msg, w _ h (PushBranch b) = Thrown msg) ->
  existsb isAddPrComment
          (fst (run w (execute prUpdate (prUpdateAction ctx)) []))
  = false.
Proof.
  intros H. walk.
  repeat step_knowing ltac:(with_commits).
  all: try reflexivity.
  all: match goal with
       | E : w _ ?h (PushBranch ?b) = Returned _ |- _ =>
           destruct (H h b) as [msg Hm]; congruence
       end.
Qed.

(** A comment is posted at the end of one sequence of calls only: the
    branch is read, its pull request found, the tree clean, the commits
    of the branch pushed and the model asked, with the test for
    cancellation after each step.  The comment goes to that pull
    request and ends with the commits section. *)
Lemma prUpdate_comment (n : Z) (comment : jsstring) :
  let calls := fst (run w (execute prUpdate (prUpdateAction ctx)) []) in
  In (n, comment) (commentsPosted calls) ->
  exists branch pr head,
    calls
    = [Logged CheckGhCli; Logged SignalAborted;
       Logged GetCurrentBranch; Logged SignalAborted;
       Logged (GetPrForBranch branch); Logged SignalAborted;
       Logged HasUncommittedChanges; Logged SignalAborted;
       Logged (GetUnpushedCommits branch); Logged SignalAborted;
       Logged (PushBranch branch); Logged SignalAborted;
       Logged SmallModel; Logged SignalAborted;
       Logged (AddPrComment n comment)]
    /\ w _ (firstn 2 calls) GetCurrentBranch = Returned branch
    /\ w _ (firstn 4 calls) (GetPrForBranch branch) = Returned (Some pr)
    /\ w _ (firstn 10 calls) (PushBranch branch) = Returned tt
    /\ n = pullNumber pr
    /\ comment = head ++ PrBody.commitsSection (commit :: commits).
Proof.
  intros calls. subst calls.
  set (P := fun calls : list (logged call) =>
              exists branch pr head,
                calls
                = [Logged CheckGhCli; Logged SignalAborted;
                   Logged GetCurrentBranch; Logged SignalAborted;
                   Logged (GetPrForBranch branch); Logged SignalAborted;
                   Logged HasUncommittedChanges; Logged SignalAborted;
                   Logged (GetUnpushedCommits branch); Logged SignalAborted;
                   Logged (PushBranch branch); Logged SignalAborted;
                   Logged SmallModel; Logged SignalAborted;
                   Logged (AddPrComment n comment)]
                /\ w _ (firstn 2 calls) GetCurrentBranch = Returned branch
                /\ w _ (firstn 4 calls) (GetPrForBranch branch)
                   = Returned (Some pr)
                /\ w _ (firstn 10 calls) (PushBranch branch) = Returned tt
                /\ n = pullNumber pr
                /\ comment = head ++ PrBody.commitsSection (commit :: commits)).
  change (In (n, comment)
             (commentsPosted
                (fst (run w (execute prUpdate (prUpdateAction ctx)) [])))
          -> P (fst (run w (execute prUpdate (prUpdateAction ctx)) []))).
  walk.
  repeat step_knowing ltac:(with_commits).
  all: cbn [commentsPosted flat_map app In].
  all: try tauto.
  all: intros [Hc|[]]; injection Hc as <- <-.
  all: subst P; cbv beta.
  all: match goal with
       | E : w _ ?h (GetPrForBranch ?b) = Returned (Some ?p) |- _ =>
           destruct (summary_lists_commits (gatherScopedSessionContext ctx)
                       commit commits (pullNumber p) ai) as [head Hh];
           exists b, p, head
       end.
  all: split; [reflexivity|].
  all: cbn [firstn].
  all: repeat split; try assumption.
  all: try (rewrite commitsSection_cons; exact Hh).
  all: match goal with
       | E : w _ ?h (PushBranch ?b) = Returned ?u |- _ = Returned tt =>
           destruct u; exact E
       end.
Qed.

End PrUpdate.

(** X15: the checkpoint moves exactly when a comment was posted.  After
    a [pr-update] that returned, the [tool_result] hook labels the leaf
    [pr-update] when the action ended on [addPrComment] and that call
    succeeded, and sets no label in every other case: a refusal, a
    cancellation, nothing to update, a failed push or a failed
    comment. *)
Theorem prUpdate_labelled_iff_posted
        (w : Flow.world Actions.call) (ctx : ExtensionContext)
        (leaf : jsstring) (r : Actions.ToolResult)
        (leaf_known : nonEmpty leaf = true)
        (returned :
           snd (Flow.run w (Actions.execute Actions.prUpdate
                                            (Actions.prUpdateAction ctx)) [])
           = Parse.Returned r) :
  Actions.onToolResult (str "gh_todo") (Some (Actions.details r)) (Some leaf)
  = if Actions.commentPosted w
         (fst (Flow.run w (Actions.execute Actions.prUpdate
                                           (Actions.prUpdateAction ctx)) []))
    then Some (leaf, PR_LABEL_UPDATED)
    else None.
Proof.
  pose proof (label_after_prUpdate w ctx leaf leaf_known) as H.
  destruct (Flow.run w _ []) as [calls [r'|msg]]; cbn [fst snd] in *;
    [|discriminate returned].
  injection returned as <-. exact H.
Qed.

Lemma prUpdate_labelled_iff_posted_witness :
  let w := Worlds.actionWorld (str "todo/7-fix-it") Worlds.oneCommit false in
  exists r,
    snd (Flow.run w (Actions.execute Actions.prUpdate
                                     (Actions.prUpdateAction sampleBranch)) [])
    = Parse.Returned r
    /\ Actions.onToolResult (str "gh_todo") (Some (Actions.details r))
                            (Some (str "leaf"))
       = if Actions.commentPosted w
              (fst (Flow.run w (Actions.execute
                                  Actions.prUpdate
                                  (Actions.prUpdateAction sampleBranch)) []))
         then Some (str "leaf", PR_LABEL_UPDATED)
         else None.
Proof.
  eexists. split; [reflexivity|].
  apply (prUpdate_labelled_iff_posted
           (Worlds.actionWorld (str "todo/7-fix-it") Worlds.oneCommit false)
           sampleBranch (str "leaf")).
  - reflexivity.
  - reflexivity.
Defined.

(** In that world the comment is posted and the label set. *)
Example prUpdate_sample :
  let w := Worlds.actionWorld (str "todo/7-fix-it") Worlds.oneCommit false in
  let calls :=
    fst (Flow.run w (Actions.execute Actions.prUpdate
                                     (Actions.prUpdateAction sampleBranch)) []) in
  Actions.commentPosted w calls = true
  /\ Actions.commentsPosted calls
     = [(3, str "## Feedback addressed" ++ [Utils.LF; Utils.LF]
            ++ str "(Changes pushed)" ++ [Utils.LF; Utils.LF]
            ++ str "### Commits" ++ [Utils.LF]
            ++ str "- abc1234 Fix it" ++ [Utils.LF])].
Proof. now vm_compute. Qed.

(** X16: [pr-update] pushes nothing and posts nothing when the branch
    has no pull request, when the session has no PR checkpoint, or when
    there are uncommitted changes. *)
Theorem prUpdate_refuses
        (w : Flow.world Actions.call) (ctx : ExtensionContext)
        (refused :
           (forall h b, w _ h (Actions.GetPrForBranch b) = Parse.Returned None)
           \/ findLastPrCheckpointEntryId ctx = None
           \/ (forall h, w _ h Actions.HasUncommittedChanges
                         = Parse.Returned true)) :
  let calls :=
    fst (Flow.run w (Actions.execute Actions.prUpdate
                                     (Actions.prUpdateAction ctx)) []) in
  existsb Actions.isPushBranch calls = false
  /\ existsb Actions.isAddPrComment calls = false.
Proof. exact (prUpdate_refused w ctx refused). Qed.

Lemma prUpdate_refuses_witness :
  let w := Worlds.actionWorld (str "todo/7-fix-it") Worlds.oneCommit false in
  let calls :=
    fst (Flow.run w (Actions.execute Actions.prUpdate
                                     (Actions.prUpdateAction Tool.emptyContext))
                  []) in
  existsb Actions.isPushBranch calls = false
  /\ existsb Actions.isAddPrComment calls = false.
Proof.
  apply (prUpdate_refuses
           (Worlds.actionWorld (str "todo/7-fix-it") Worlds.oneCommit false)
           Tool.emptyContext).
  right. left. reflexivity.
Defined.

(** X17: [pr-update] pushes only when there are unpushed commits, and a
    push that fails ends it: when [getUnpushedCommits] finds none,
    [pushBranch] is not called; when it finds some and [pushBranch]
    throws, no comment is posted. *)
Theorem prUpdate_push_before_comment
        (w : Flow.world Actions.call) (ctx : ExtensionContext) :
  let calls :=
    fst (Flow.run w (Actions.execute Actions.prUpdate
                                     (Actions.prUpdateAction ctx)) []) in
  ((forall h b, w _ h (Actions.GetUnpushedCommits b) = Parse.Returned []) ->
   existsb Actions.isPushBranch calls = false)
  /\ (forall commit commits,
         (forall h b, w _ h (Actions.GetUnpushedCommits b)
                      = Parse.Returned (commit :: commits)) ->
         (forall h b, exists msg,
               w _ h (Actions.PushBranch b) = Parse.Thrown msg) ->
         existsb Actions.isAddPrComment calls = false).
Proof.
  split.
  - apply prUpdate_no_commits.
  - intros commit commits. apply prUpdate_push_fails.
Qed.

(** A push that fails, and what the action answers then. *)
Example prUpdate_push_rejected :
  let w := Worlds.actionWorld (str "todo/7-fix-it") Worlds.oneCommit true in
  let out := Flow.run w (Actions.execute Actions.prUpdate
                                         (Actions.prUpdateAction sampleBranch))
                      [] in
  existsb Actions.isPushBranch (fst out) = true
  /\ existsb Actions.isAddPrComment (fst out) = false
  /\ exists r, snd out = Parse.Returned r
               /\ Actions.error (Actions.details r)
                  = Some (str "push failed: rejected")
               /\ Actions.isError r = true.
Proof.
  split; [reflexivity|]. split; [reflexivity|].
  eexists. split; [reflexivity|]. split; reflexivity.
Qed.

(** X18: when there are unpushed commits, a comment is posted by
    [pr-update] at the end of one sequence of calls only: the current
    branch is read, the pull request of that branch is found, the tree
    is clean, the commits of that branch are listed and the branch is
    pushed, the model is asked, and the comment is posted, with a test
    for cancellation after each step.  The comment goes to the pull
    request that was found for the branch, and it ends with the commits
    section: the heading and one line per commit. *)
Theorem prUpdate_comment_lists_commits
        (w : Flow.world Actions.call) (ctx : ExtensionContext)
        (commit : Github.Commit) (commits : list Github.Commit)
        (n : Z) (comment : jsstring)
        (unpushed :
           forall h b, w _ h (Actions.GetUnpushedCommits b)
                       = Parse.Returned (commit :: commits))
        (posted :
           In (n, comment)
              (Actions.commentsPosted
                 (fst (Flow.run w (Actions.execute
                                     Actions.prUpdate
                                     (Actions.prUpdateAction ctx)) [])))) :
  let calls :=
    fst (Flow.run w (Actions.execute Actions.prUpdate
                                     (Actions.prUpdateAction ctx)) []) in
  exists branch pr head,
    calls
    = [Flow.Logged Actions.CheckGhCli; Flow.Logged Actions.SignalAborted;
       Flow.Logged Actions.GetCurrentBranch;
       Flow.Logged Actions.SignalAborted;
       Flow.Logged (Actions.GetPrForBranch branch);
       Flow.Logged Actions.SignalAborted;
       Flow.Logged Actions.HasUncommittedChanges;
       Flow.Logged Actions.SignalAborted;
       Flow.Logged (Actions.GetUnpushedCommits branch);
       Flow.Logged Actions.SignalAborted;
       Flow.Logged (Actions.PushBranch branch);
       Flow.Logged Actions.SignalAborted;
       Flow.Logged Actions.SmallModel; Flow.Logged Actions.SignalAborted;
       Flow.Logged (Actions.AddPrComment n comment)]
    /\ w _ (firstn 2 calls) Actions.GetCurrentBranch = Parse.Returned branch
    /\ w _ (firstn 4 calls) (Actions.GetPrForBranch branch)
       = Parse.Returned (Some pr)
    /\ w _ (firstn 10 calls) (Actions.PushBranch branch) = Parse.Returned tt
    /\ n = Actions.pullNumber pr
    /\ comment
       = head ++ [Utils.LF; Utils.LF] ++ str "### Commits" ++ [Utils.LF]
         ++ concat (map (fun c => str "- " ++ Github.hash c ++ str " "
                                  ++ Github.message c ++ [Utils.LF])
                        (commit :: commits)).
Proof.
  intros calls.
  destruct (prUpdate_comment w ctx commit commits unpushed n comment posted)
    as (branch & pr & head & E & B & P & U & N & C).
  exists branch, pr, head. fold calls in E, B, P, U.
  repeat split; try assumption.
  rewrite C. now rewrite commitsSection_cons.
Qed.

Lemma prUpdate_comment_lists_commits_witness :
  let w := Worlds.actionWorld (str "todo/7-fix-it") Worlds.oneCommit false in
  let comment :=
    str "## Feedback addressed" ++ [Utils.LF; Utils.LF]
    ++ str "(Changes pushed)" ++ [Utils.LF; Utils.LF]
    ++ str "### Commits" ++ [Utils.LF]
    ++ str "- abc1234 Fix it" ++ [Utils.LF] in
  let calls :=
    fst (Flow.run w (Actions.execute Actions.prUpdate
                                     (Actions.prUpdateAction sampleBranch))
                  []) in
  exists branch pr head,
    calls
    = [Flow.Logged Actions.CheckGhCli; Flow.Logged Actions.SignalAborted;
       Flow.Logged Actions.GetCurrentBranch;
       Flow.Logged Actions.SignalAborted;
       Flow.Logged (Actions.GetPrForBranch branch);
       Flow.Logged Actions.SignalAborted;
       Flow.Logged Actions.HasUncommittedChanges;
       Flow.Logged Actions.SignalAborted;
       Flow.Logged (Actions.GetUnpushedCommits branch);
       Flow.Logged Actions.SignalAborted;
       Flow.Logged (Actions.PushBranch branch);
       Flow.Logged Actions.SignalAborted;
       Flow.Logged Actions.SmallModel; Flow.Logged Actions.SignalAborted;
       Flow.Logged (Actions.AddPrComment 3 comment)]
    /\ w _ (firstn 2 calls) Actions.GetCurrentBranch = Parse.Returned branch
    /\ w _ (firstn 4 calls) (Actions.GetPrForBranch branch)
       = Parse.Returned (Some pr)
    /\ w _ (firstn 10 calls) (Actions.PushBranch branch) = Parse.Returned tt
    /\ 3 = Actions.pullNumber pr
    /\ comment
       = head ++ [Utils.LF; Utils.LF] ++ str "### Commits" ++ [Utils.LF]
         ++ concat (map (fun c => str "- " ++ Github.hash c ++ str " "
                                  ++ Github.message c ++ [Utils.LF])
                        Worlds.oneCommit).
Proof.
  apply (prUpdate_comment_lists_commits
           (Worlds.actionWorld (str "todo/7-fix-it") Worlds.oneCommit false)
           sampleBranch
           {| Github.hash := str "abc1234"; Github.message := str "Fix it" |}
           [] 3).
  - reflexivity.
  - vm_compute. left. reflexivity.
Defined.

(** ** The [start] action *)

Section StartAction.

Import Parse Github Flow Actions.

Lemma sessionName_matches (issue : IssueRef) :
  sessionMatchesIssue (Some (getIssueSessionName issue)) (Utils.number issue)
  = true.
Proof.
  unfold sessionMatchesIssue, getIssueSessionName, getIssueSessionPrefix.
  cbn [str list_ascii_of_string app nonEmpty negb].
  apply startsWith_iff. exists (Utils.title issue).
  cbn [app]. now rewrite <- app_assoc.
Qed.

Lemma find_existsb {A} (p : A -> bool) (l : list A) :
  existsb p l = match find p l with Some _ => true | None => false end.
Proof.
  induction l as [|a l IH]; cbn [existsb find]; [reflexivity|].
  destruct (p a); [reflexivity | exact IH].
Qed.

Variable w : world call.
Variables emDash warningSign : jsstring.
Variable number : option Z.

Ltac walk :=
  unfold execute, startAction, onBranch, unlessAborted, await, ask;
  cbn [bind tryCatch run app negb andb fst snd].

Ltac tests :=
  first
    [ match goal with
      | |- context [isMainBranch ?b] => destruct (isMainBranch b) eqn:?
      end
    | match goal with
      | |- context [if strEq ?a ?b then _ else _] => destruct (strEq a b) eqn:?
      end ].

Ltac step_knowing known := step_with w known tests.
Ltac step := step_knowing idtac.

(** Off the main branch, or with uncommitted changes, the working tree
    is left alone. *)
Lemma start_keeps_tree :
  (exists branch,
      isMainBranch branch = false
      /\ forall h, w _ h GetCurrentBranch = Returned branch)
  \/ (forall h, w _ h HasUncommittedChanges = Returned true) ->
  existsb changesTree
          (fst (run w (execute start
                               (startAction emDash warningSign number)) []))
  = false.
Proof.
  intros [(branch & Hb & H) | H]; walk.
  - repeat step_knowing ltac:(first [rewrite H | rewrite Hb]).
    all: reflexivity.
  - repeat step_knowing ltac:(rewrite H).
    all: reflexivity.
Qed.

(** The one branch that is checked out. *)
Lemma start_checks_out (b : jsstring) :
  let calls :=
    fst (run w (execute start (startAction emDash warningSign number)) []) in
  In b (checkedOut calls) ->
  checkedOut calls = [b]
  /\ exists h n issue,
      number = Some n
      /\ w _ h (GetIssue n) = Returned issue
      /\ b = getIssueBranchName (ref issue).
Proof.
  intros calls. subst calls. walk.
  repeat step.
  all: cbn [checkedOut flat_map app In].
  all: try tauto.
  all: intros [<-|[]]; split; [reflexivity|].
  all: match goal with
       | E : w _ ?h (GetIssue ?n) = Returned ?i |- _ =>
           exists h, n, i; repeat split; exact E
       end.
Qed.

(** The session a result of [start] reports. *)
Lemma start_session (r : ToolResult) (s : jsstring) :
  snd (run w (execute start (startAction emDash warningSign number)) [])
  = Returned r ->
  sessionName (details r) = Some s ->
  exists i h sessions,
    issue (details r) = Some i
    /\ sessionMatchesIssue (Some s) (Actions.number i) = true
    /\ w _ h ListSessions = Returned sessions
    /\ sessionExists (details r)
       = Some (existsb (fun x => sessionMatchesIssue (name x) (Actions.number i))
                       sessions).
Proof.
  walk. repeat step.
  all: intros Hr; try discriminate Hr; injection Hr as <-.
  all: cbn [details sessionName cancelled only].
  all: intros Hs; try discriminate Hs; injection Hs as <-.
  all: match goal with
       | E : w _ ?h ListSessions = Returned ?l,
         G : w _ _ (GetIssue _) = Returned ?i |- _ =>
           exists i, h, l; cbn [issue sessionExists];
           rewrite find_existsb;
           destruct (find _ l) as [[[nm|]]|] eqn:F
       end.
  all: repeat split; try exact E; try assumption; try reflexivity.
  all: try (apply find_some in F as [_ F]; cbn [name] in F; exact F).
  all: try apply (sessionName_matches (ref _)).
  all: try match goal with E : w _ _ ListSessions = _ |- _ => exact E end.
Qed.

End StartAction.

(** X19: [start] leaves the working tree alone unless it stands on a
    clean [main] or [master]: on any other branch, or with uncommitted
    changes, it neither pulls nor checks out a branch. *)
Theorem start_leaves_tree_alone
        (w : Flow.world Actions.call) (emDash warningSign : jsstring)
        (number : option Z)
        (elsewhere_or_dirty :
           (exists branch,
               isMainBranch branch = false
               /\ forall h, w _ h Actions.GetCurrentBranch
                            = Parse.Returned branch)
           \/ (forall h, w _ h Actions.HasUncommittedChanges
                         = Parse.Returned true)) :
  existsb Actions.changesTree
          (fst (Flow.run w (Actions.execute
                              Actions.start
                              (Actions.startAction emDash warningSign number))
                         []))
  = false.
Proof.
  exact (start_keeps_tree w emDash warningSign number elsewhere_or_dirty).
Qed.

Lemma start_leaves_tree_alone_witness :
  existsb Actions.changesTree
          (fst (Flow.run (Worlds.actionWorld (str "todo/7-fix-it") [] false)
                         (Actions.execute Actions.start
                                          (Actions.startAction [] [] (Some 7)))
                         []))
  = false.
Proof.
  apply (start_leaves_tree_alone
           (Worlds.actionWorld (str "todo/7-fix-it") [] false) [] [] (Some 7)).
  left. exists (str "todo/7-fix-it"). split; reflexivity.
Defined.

(** X20: [start] checks out at most one branch, and then the branch
    named after the issue it fetched: [todo/], its number and the slug of
    its title. *)
Theorem start_checks_out_issue_branch
        (w : Flow.world Actions.call) (emDash warningSign : jsstring)
        (number : option Z) (b : jsstring)
        (checked_out :
           In b (Actions.checkedOut
                   (fst (Flow.run w (Actions.execute
                                       Actions.start
                                       (Actions.startAction
                                          emDash warningSign number)) [])))) :
  Actions.checkedOut
    (fst (Flow.run w (Actions.execute
                        Actions.start
                        (Actions.startAction emDash warningSign number)) []))
  = [b]
  /\ exists h n issue,
      number = Some n
      /\ w _ h (Actions.GetIssue n) = Parse.Returned issue
      /\ b = getIssueBranchName (Actions.ref issue).
Proof.
  exact (start_checks_out w emDash warningSign number b checked_out).
Qed.

Lemma start_checks_out_issue_branch_witness :
  let w := Worlds.actionWorld (str "main") [] false in
  Actions.checkedOut
    (fst (Flow.run w (Actions.execute Actions.start
                                      (Actions.startAction [] [] (Some 7))) []))
  = [str "todo/7-fix-it"]
  /\ exists h n issue,
      Some 7 = Some n
      /\ w _ h (Actions.GetIssue n) = Parse.Returned issue
      /\ str "todo/7-fix-it" = getIssueBranchName (Actions.ref issue).
Proof.
  apply (start_checks_out_issue_branch
           (Worlds.actionWorld (str "main") [] false) [] [] (Some 7)
           (str "todo/7-fix-it")).
  vm_compute. left. reflexivity.
Defined.

(** X21: the session that [start] reports belongs to the issue: its
    name starts with [#N: ] for the issue's number, be it the name of a
    listed session or the name a new session would get; and
    [sessionExists] tells whether some listed session has such a name. *)
Theorem start_reports_session
        (w : Flow.world Actions.call) (emDash warningSign : jsstring)
        (number : option Z) (r : Actions.ToolResult) (s : jsstring)
        (returned :
           snd (Flow.run w (Actions.execute
                              Actions.start
                              (Actions.startAction emDash warningSign number))
                         [])
           = Parse.Returned r)
        (reported : Actions.sessionName (Actions.details r) = Some s) :
  exists i h sessions,
    Actions.issue (Actions.details r) = Some i
    /\ sessionMatchesIssue (Some s) (Actions.number i) = true
    /\ w _ h Actions.ListSessions = Parse.Returned sessions
    /\ Actions.sessionExists (Actions.details r)
       = Some (existsb (fun x => sessionMatchesIssue (Actions.name x)
                                                     (Actions.number i))
                       sessions).
Proof.
  exact (start_session w emDash warningSign number r s returned reported).
Qed.

Lemma start_reports_session_witness :
  let w := Worlds.actionWorld (str "main") [] false in
  exists r,
    snd (Flow.run w (Actions.execute Actions.start
                                     (Actions.startAction [] [] (Some 7))) [])
    = Parse.Returned r
    /\ exists i h sessions,
        Actions.issue (Actions.details r) = Some i
        /\ sessionMatchesIssue (Some (str "#7: Fix it")) (Actions.number i)
           = true
        /\ w _ h Actions.ListSessions = Parse.Returned sessions
        /\ Actions.sessionExists (Actions.details r)
           = Some (existsb (fun x => sessionMatchesIssue (Actions.name x)
                                                         (Actions.number i))
                           sessions).
Proof.
  eexists. split; [reflexivity|].
  apply (start_reports_session
           (Worlds.actionWorld (str "main") [] false) [] [] (Some 7)).
  - reflexivity.
  - reflexivity.
Defined.

(** ** Commit messages *)

Section Truncation.

Import Parse Github AutoCommit.

(** [s.slice(-k)] keeps the last [k] code units. *)
Lemma sliceFrom_last (s : jsstring) (k : nat) :
  (0 < k <= length s)%nat ->
  sliceFrom s (- Z.of_nat k) = skipn (length s - k) s.
Proof.
  intros H. unfold sliceFrom, slice, len, clampIndex.
  destruct (- Z.of_nat k <? 0) eqn:E; [|apply Z.ltb_ge in E; lia].
  destruct (Z.of_nat (length s) <? 0) eqn:E2; [apply Z.ltb_lt in E2; lia|].
  rewrite Z.min_id.
  replace (Z.max (Z.of_nat (length s) + - Z.of_nat k) 0)
    with (Z.of_nat (length s - k)) by lia.
  rewrite Nat2Z.id. apply firstn_all2. rewrite length_skipn. lia.
Qed.

Lemma truncateText_cut (text : jsstring) (maxLength : Z) :
  2 <= maxLength < len text ->
  let half := Z.to_nat (maxLength / 2) in
  truncateText text maxLength
  = firstn half text ++ [LF] ++ str "..." ++ [LF]
    ++ skipn (length text - half) text.
Proof.
  intros H half. unfold truncateText.
  destruct (len text <=? maxLength) eqn:E; [apply Z.leb_le in E; lia|].
  assert (Hh : 1 <= maxLength / 2 <= maxLength).
  { split; [apply Z.div_le_lower_bound; lia|].
    apply Z.div_le_upper_bound; lia. }
  replace (maxLength / 2) with (Z.of_nat half) by (subst half; lia).
  rewrite slice_0_firstn.
  rewrite sliceFrom_last; [reflexivity|].
  unfold len in H. subst half. lia.
Qed.

End Truncation.

(** X22: [truncateText] returns a text of at most [maxLength] code units
    as it is; a longer one, for a [maxLength] of at least 2, is cut to
    its first and its last [maxLength / 2] code units around a line with
    three dots, which makes at most [maxLength + 5] code units; and for a
    [maxLength] of 0 or 1 nothing is cut at all: the whole text comes
    back behind the dots, longer than it was. *)
Theorem truncateText_shape (text : jsstring) (maxLength : Z) :
  let half := Z.to_nat (maxLength / 2) in
  let dots := [Utils.LF] ++ str "..." ++ [Utils.LF] in
  if len text <=? maxLength then
    AutoCommit.truncateText text maxLength = text
  else if 2 <=? maxLength then
    AutoCommit.truncateText text maxLength
    = firstn half text ++ dots ++ skipn (length text - half) text
    /\ len (AutoCommit.truncateText text maxLength) = 2 * (maxLength / 2) + 5
    /\ len (AutoCommit.truncateText text maxLength) <= maxLength + 5
  else if 0 <=? maxLength then
    AutoCommit.truncateText text maxLength = dots ++ text
  else True.
Proof.
  intros half dots.
  destruct (len text <=? maxLength) eqn:E.
  - unfold AutoCommit.truncateText. now rewrite E.
  - apply Z.leb_gt in E.
    destruct (2 <=? maxLength) eqn:E2.
    + apply Z.leb_le in E2.
      assert (Hh : 1 <= maxLength / 2 /\ 2 * (maxLength / 2) <= maxLength).
      { split; [apply Z.div_le_lower_bound; lia|].
        apply Z.mul_div_le. lia. }
      rewrite truncateText_cut by lia. fold half. fold dots.
      split; [reflexivity|].
      assert (L : len (firstn half text ++ dots
                       ++ skipn (length text - half) text)
                  = 2 * (maxLength / 2) + 5).
      { unfold len in *. rewrite !length_app, length_firstn, length_skipn.
        subst dots. cbn [length app str list_ascii_of_string].
        subst half. destruct Hh as [H1 H2].
        revert H1 H2. generalize (maxLength / 2). intros q H1 H2. lia. }
      split; [exact L|].
      apply Z.le_trans with (2 * (maxLength / 2) + 5);
        [apply Z.eq_le_incl; exact L | lia].
    + apply Z.leb_gt in E2.
      destruct (0 <=? maxLength) eqn:E0; [|exact I].
      apply Z.leb_le in E0.
      unfold AutoCommit.truncateText.
      destruct (len text <=? maxLength) eqn:E'; [apply Z.leb_le in E'; lia|].
      assert (maxLength / 2 = 0) as ->.
      { apply Z.div_small. lia. }
      cbn [Z.opp]. unfold sliceFrom, slice, clampIndex, len.
      cbn [Z.ltb Z.compare].
      destruct (Z.of_nat (length text) <? 0) eqn:E3;
        [apply Z.ltb_lt in E3; lia|].
      rewrite Z.min_id.
      replace (Z.min 0 (Z.of_nat (length text))) with 0 by lia.
      cbn [Z.sub Z.opp Z.add Z.to_nat firstn skipn app].
      rewrite Z.sub_0_r, Nat2Z.id, firstn_all. reflexivity.
Qed.

Section Summaries.

Import Parse Github Flow AutoCommit.

Lemma length_slice_0 (s : jsstring) (n : nat) :
  (length (slice s 0 (Z.of_nat n)) <= n)%nat.
Proof. rewrite slice_0_firstn. apply firstn_le_length. Qed.

Lemma firstOr_split (sep : ascii) (s : jsstring) :
  ~ In sep (firstOr (split sep s)).
Proof.
  destruct (split_join sep s) as [_ F].
  destruct (split sep s) as [|p ps]; cbn [firstOr]; [intros []|].
  now inversion F.
Qed.

Lemma length_trim (s : jsstring) : (length (trim s) <= length s)%nat.
Proof.
  destruct (trim_inside s) as (lead & d & E).
  rewrite E at 2. rewrite !length_app. lia.
Qed.

(** The fallback summary: one line of 5 to 53 code units. *)
Lemma fallback_summary (userPrompt : jsstring) :
  let summary := generateFallbackSummary userPrompt in
  ~ In LF summary
  /\ (5 <= length summary <= 53)%nat
  /\ (5 <= length (trim summary))%nat.
Proof.
  assert (C : ~ In LF (str "changes")
              /\ (5 <= length (str "changes") <= 53)%nat
              /\ (5 <= length (trim (str "changes")))%nat).
  { split; [|split; [cbn; lia | vm_compute; lia]].
    cbn. intros H. repeat (destruct H as [H|H]; [discriminate H|]). exact H. }
  unfold generateFallbackSummary.
  destruct (nonEmpty userPrompt); [|exact C].
  set (firstLine := firstOr (split LF userPrompt)).
  set (summary := slice firstLine 0 50 ++ _).
  destruct (5 <=? len (trim summary)) eqn:E; [|exact C].
  apply Z.leb_le in E. unfold len in E.
  assert (L : (length summary <= 53)%nat).
  { subst summary. rewrite length_app.
    pose proof (length_slice_0 firstLine 50) as H50.
    change (Z.of_nat 50) with 50 in H50.
    destruct (50 <? len firstLine); cbn [length str list_ascii_of_string]; lia. }
  pose proof (length_trim summary) as T.
  split; [|lia].
  subst summary. intros H. apply in_app_or in H as [H|H].
  - change 50 with (Z.of_nat 50) in H. rewrite slice_0_firstn in H.
    apply (firstOr_split LF userPrompt). fold firstLine.
    rewrite <- (firstn_skipn 50 firstLine). apply in_or_app. now left.
  - destruct (50 <? len firstLine); [|destruct H].
    cbn in H. repeat (destruct H as [H|H]; [discriminate H|]). exact H.
Qed.

End Summaries.

(** X23: the fallback commit summary is always fit for a subject line:
    it holds no line feed, is between 5 and 53 code units long (the first
    50 of the prompt's first line, and three dots when the line was
    longer), and still has 5 code units once trimmed; a prompt whose first
    line is too short for that gives [changes]. *)
Theorem generateFallbackSummary_subject (userPrompt : jsstring) :
  let summary := AutoCommit.generateFallbackSummary userPrompt in
  Forall (fun c => c <> Utils.LF) summary
  /\ (5 <= length summary <= 53)%nat
  /\ (5 <= length (trim summary))%nat
  /\ (summary = str "changes"
      \/ exists firstLine rest,
          ~ In Utils.LF firstLine
          /\ (userPrompt = firstLine
              \/ userPrompt = firstLine ++ Utils.LF :: rest)
          /\ summary = firstn 50 firstLine
                       ++ (if (50 <? length firstLine)%nat then str "..."
                           else [])).
Proof.
  intros summary.
  destruct (fallback_summary userPrompt) as (H1 & H2 & H3). fold summary in H1, H2, H3.
  split; [|split; [exact H2 | split; [exact H3|]]].
  - apply Forall_forall. intros c Hc ->. now apply H1.
  - subst summary. unfold AutoCommit.generateFallbackSummary.
    destruct (nonEmpty userPrompt); [|now left].
    destruct (5 <=? _); [|now left].
    right.
    destruct (split_join Utils.LF userPrompt) as [J F].
    destruct (Github.split Utils.LF userPrompt) as [|p ps] eqn:S.
    { now destruct (split_nonempty Utils.LF userPrompt). }
    exists p, (join [Utils.LF] ps). cbn [AutoCommit.firstOr].
    split; [now inversion F|]. split.
    + destruct ps as [|q qs]; cbn [join app] in J; [now left | right].
      now rewrite <- J.
    + change (slice p 0 50) with (slice p 0 (Z.of_nat 50)).
      rewrite slice_0_firstn. f_equal.
      assert (E : (50 <? len p) = (50 <? length p)%nat).
      { unfold len.
        destruct (50 <? Z.of_nat (length p)) eqn:E1;
          destruct (50 <? length p)%nat eqn:E2; try reflexivity.
        - apply Z.ltb_lt in E1. apply Nat.ltb_ge in E2. lia.
        - apply Z.ltb_ge in E1. apply Nat.ltb_lt in E2. lia. }
      now rewrite E.
Qed.

(** ** Auto-commit and [/undo] *)

(** Tests of equality between two literal texts, decided. *)
Ltac literal_tests :=
  repeat match goal with
         | |- context [strEq (str ?a) (str ?b)] =>
             let v := eval vm_compute in (strEq (str a) (str b)) in
             change (strEq (str a) (str b)) with v
         end.

Section AutoCommitFlow.

Import Parse Github Flow AutoCommit.

Variable w : world call.

Ltac tests :=
  first
    [ match goal with
      | |- context [code ?x =? 0] => destruct (code x =? 0) eqn:?
      end
    | match goal with
      | |- context [if nonEmpty ?x then _ else _] => destruct (nonEmpty x) eqn:?
      end
    | match goal with
      | |- context [negb (nonEmpty ?x)] => destruct (nonEmpty x) eqn:?
      end
    | match goal with
      | |- context [5 <=? len ?s] => destruct (5 <=? len s) eqn:?
      end
    | match goal with
      | |- context [startsWith ?a ?b] => destruct (startsWith a b) eqn:?
      end ].

Ltac step := step_with w idtac tests.

Lemma performCommit_commits
      (inGitRepo hasUI skipHaiku : bool) (assistantText userPrompt : jsstring)
      (message : jsstring) :
  let calls :=
    fst (run w (performCommit inGitRepo hasUI skipHaiku
                              assistantText userPrompt) []) in
  In message (commitMessages calls) ->
  commitMessages calls = [message]
  /\ inGitRepo = true
  /\ (exists summary,
         message = str "pi: " ++ summary
         /\ (5 <= length summary <= 53)%nat)
  /\ (exists h added,
         w _ h (Exec (str "git") [str "add"; str "-A"]) = Returned added
         /\ code added = 0)
  /\ (exists h diff,
         w _ h (Exec (str "git") [str "diff"; str "--cached"; str "--quiet"])
         = Returned diff
         /\ code diff <> 0).
Proof.
  intros calls. subst calls.
  unfold performCommit, generateCommitSummary, notifyIf, await, ask.
  cbn [bind tryCatch run app negb andb fst snd].
  repeat step.
  all: cbn [commitMessages flat_map app]; literal_tests;
    cbn [andb app In].
  all: try tauto.
  all: intros [<-|[]]; split; [reflexivity|]; split; [reflexivity|].
  all: split;
    [|split;
      [ match goal with
        | E : w _ ?h (Exec _ [str "add"; _]) = Returned ?a |- _ =>
            exists h, a; split; [exact E | now apply Z.eqb_eq]
        end
      | match goal with
        | E : w _ ?h (Exec _ [str "diff"; _; _]) = Returned ?a |- _ =>
            exists h, a; split; [exact E | now apply Z.eqb_neq]
        end ]].
  all: eexists; split; [reflexivity|].
  all: try apply fallback_summary.
  all: match goal with
       | H : (5 <=? len (slice ?t 0 50)) = true |- _ =>
           apply Z.leb_le in H; unfold len in H;
           pose proof (length_slice_0 t 50) as B;
           change (Z.of_nat 50) with 50 in B; lia
       end.
Qed.

Lemma undo_resets (inGitRepo hasUI : bool) :
  existsb isReset (fst (run w (undo inGitRepo hasUI) [])) = true ->
  inGitRepo = true
  /\ exists h logged,
      w _ h (Exec (str "git") [str "log"; str "-1"; str "--pretty=%s"])
      = Returned logged
      /\ code logged = 0
      /\ (startsWith (trim (stdout logged)) (str "pi:") = true
          \/ (hasUI = true
              /\ exists h' title question,
                  w _ h' (Confirm title question) = Returned true)).
Proof.
  unfold undo, notifyIf, await, ask.
  cbn [bind tryCatch run app negb andb fst snd].
  repeat step.
  all: cbn [existsb isReset]; literal_tests; cbn [andb orb].
  all: try discriminate.
  all: intros _; split; [reflexivity|].
  all: match goal with
       | E : w _ ?h (Exec _ [str "log"; _; _]) = Returned ?a,
         C : (code ?a =? 0) = true |- _ =>
           exists h, a; split; [exact E|]; split; [now apply Z.eqb_eq|]
       end.
  all: try (left; assumption).
  all: right; split; [reflexivity|].
  all: match goal with
       | E : w _ ?h (Confirm ?t ?q) = Returned true |- _ =>
           now exists h, t, q
       end.
Qed.

End AutoCommitFlow.

(** X24: a commit that auto-commit makes is made inside a git
    repository, after [git add -A] succeeded and [git diff --cached
    --quiet] found staged changes; it is the only commit of the call, and
    its message is [pi: ] and a summary of 5 to 53 code units, whether the
    summary comes from the model or from the user's prompt. *)
Theorem performCommit_message
        (w : Flow.world AutoCommit.call)
        (inGitRepo hasUI skipHaiku : bool)
        (assistantText userPrompt message : jsstring)
        (committed :
           In message
              (AutoCommit.commitMessages
                 (fst (Flow.run w (AutoCommit.performCommit
                                     inGitRepo hasUI skipHaiku
                                     assistantText userPrompt) [])))) :
  AutoCommit.commitMessages
    (fst (Flow.run w (AutoCommit.performCommit
                        inGitRepo hasUI skipHaiku
                        assistantText userPrompt) []))
  = [message]
  /\ inGitRepo = true
  /\ (exists summary,
         message = str "pi: " ++ summary
         /\ (5 <= length summary <= 53)%nat)
  /\ (exists h added,
         w _ h (AutoCommit.Exec (str "git") [str "add"; str "-A"])
         = Parse.Returned added
         /\ Parse.code added = 0)
  /\ (exists h diff,
         w _ h (AutoCommit.Exec (str "git")
                                [str "diff"; str "--cached"; str "--quiet"])
         = Parse.Returned diff
         /\ Parse.code diff <> 0).
Proof.
  exact (performCommit_commits w inGitRepo hasUI skipHaiku
           assistantText userPrompt message committed).
Qed.

Lemma performCommit_message_witness :
  let calls :=
    fst (Flow.run Worlds.commitWorld
                  (AutoCommit.performCommit true false false []
                                            (str "Fix the parser")) []) in
  AutoCommit.commitMessages calls = [str "pi: Fix the parser"]
  /\ true = true
  /\ (exists summary,
         str "pi: Fix the parser" = str "pi: " ++ summary
         /\ (5 <= length summary <= 53)%nat)
  /\ (exists h added,
         Worlds.commitWorld _ h (AutoCommit.Exec (str "git")
                                                 [str "add"; str "-A"])
         = Parse.Returned added
         /\ Parse.code added = 0)
  /\ (exists h diff,
         Worlds.commitWorld _ h
           (AutoCommit.Exec (str "git")
                            [str "diff"; str "--cached"; str "--quiet"])
         = Parse.Returned diff
         /\ Parse.code diff <> 0).
Proof.
  apply (performCommit_message
           Worlds.commitWorld true false false [] (str "Fix the parser")
           (str "pi: Fix the parser")).
  vm_compute. left. reflexivity.
Defined.

(** X25: [/undo] runs [git reset] only inside a git repository, after
    [git log] gave the last commit's subject, and only when that subject
    starts with [pi:] or the user, asked in the interface, said to go on.
    Without an interface a commit that is not pi's is never undone. *)
Theorem undo_resets_pi_commits
        (w : Flow.world AutoCommit.call) (inGitRepo hasUI : bool)
        (reset :
           existsb AutoCommit.isReset
                   (fst (Flow.run w (AutoCommit.undo inGitRepo hasUI) []))
           = true) :
  inGitRepo = true
  /\ exists h logged,
      w _ h (AutoCommit.Exec (str "git")
                             [str "log"; str "-1"; str "--pretty=%s"])
      = Parse.Returned logged
      /\ Parse.code logged = 0
      /\ (startsWith (trim (Parse.stdout logged)) (str "pi:") = true
          \/ (hasUI = true
              /\ exists h' title question,
                  w _ h' (AutoCommit.Confirm title question)
                  = Parse.Returned true)).
Proof. exact (undo_resets w inGitRepo hasUI reset). Qed.

Lemma undo_resets_pi_commits_witness :
  true = true
  /\ exists h logged,
      Worlds.commitWorld _ h
        (AutoCommit.Exec (str "git") [str "log"; str "-1"; str "--pretty=%s"])
      = Parse.Returned logged
      /\ Parse.code logged = 0
      /\ (startsWith (trim (Parse.stdout logged)) (str "pi:") = true
          \/ (false = true
              /\ exists h' title question,
                  Worlds.commitWorld _ h' (AutoCommit.Confirm title question)
                  = Parse.Returned true)).
Proof.
  apply (undo_resets_pi_commits Worlds.commitWorld true false).
  reflexivity.
Defined.

(** Without an interface, a commit of someone else stays. *)
Example undo_foreign_commit :
  let w : Flow.world AutoCommit.call :=
    fun X h c =>
      match c in AutoCommit.call X return X -> X with
      | AutoCommit.Exec _ _ =>
          fun _ => Parse.Returned {| Parse.code := 0;
                                     Parse.stdout := str "Fix the parser";
                                     Parse.stderr := [] |}
      | _ => fun d => d
      end (Worlds.commitWorld X h c) in
  existsb AutoCommit.isReset (fst (Flow.run w (AutoCommit.undo true false) []))
  = false.
Proof. reflexivity. Qed.

(** ** The list of todos *)

Section TodoList.

Import Ui.

Lemma entriesOf_app (a b : list Item) :
  entriesOf (a ++ b) = entriesOf a ++ entriesOf b.
Proof.
  induction a as [|[l|i] a IH]; cbn [app entriesOf]; [reflexivity | exact IH|].
  now rewrite IH.
Qed.

Lemma entriesOf_map (l : list Issue) : entriesOf (map Entry l) = l.
Proof. induction l as [|i l IH]; cbn [map entriesOf]; [|rewrite IH]; reflexivity. Qed.

Lemma entriesOf_allDisplayItems (s : State) :
  entriesOf (allDisplayItems s) = shown s.
Proof.
  unfold allDisplayItems, shown. rewrite entriesOf_app. f_equal.
  - destruct (openIssues s) as [|i l] eqn:E; [reflexivity|].
    replace (0 <? lenOf (i :: l)) with true
      by (symmetry; apply Z.ltb_lt; unfold lenOf; cbn [length]; lia).
    cbn [entriesOf]. now rewrite entriesOf_map.
  - destruct (closedIssues s) as [|i l] eqn:E; [reflexivity|].
    replace (0 <? lenOf (i :: l)) with true
      by (symmetry; apply Z.ltb_lt; unfold lenOf; cbn [length]; lia).
    cbn [entriesOf]. now rewrite entriesOf_map.
Qed.

(** The selectable indices point at the issues, in order. *)
Lemma selectable_entries (items : list Item) :
  forall i, 0 <= i ->
    let indices := filter (fun idx => 0 <=? idx)
                          (mapIndexed indexOfEntry items i) in
    length indices = length (entriesOf items)
    /\ forall k d, nth_error indices k = Some d ->
         i <= d
         /\ exists e, nth_error (entriesOf items) k = Some e
                      /\ nth_error items (Z.to_nat (d - i)) = Some (Entry e).
Proof.
  induction items as [|[l|x] items IH]; intros i Hi indices; subst indices;
    cbn [mapIndexed indexOfEntry filter entriesOf].
  - split; [reflexivity|]. intros [|k] d H; discriminate H.
  - cbn [Z.leb Z.compare].
    destruct (IH (i + 1) ltac:(lia)) as [L N].
    split; [exact L|]. intros k d H.
    destruct (N k d H) as (Hd & e & He & Hn).
    split; [lia|]. exists e. split; [exact He|].
    replace (Z.to_nat (d - i)) with (S (Z.to_nat (d - (i + 1)))) by lia.
    exact Hn.
  - destruct (0 <=? i) eqn:E; [|apply Z.leb_gt in E; lia].
    destruct (IH (i + 1) ltac:(lia)) as [L N].
    cbn [length]. split; [now rewrite L|].
    intros [|k] d H; cbn [nth_error] in *.
    + injection H as <-. split; [lia|]. exists x. split; [reflexivity|].
      now rewrite Z.sub_diag.
    + destruct (N k d H) as (Hd & e & He & Hn).
      split; [lia|]. exists e. split; [exact He|].
      replace (Z.to_nat (d - i)) with (S (Z.to_nat (d - (i + 1)))) by lia.
      exact Hn.
Qed.

Lemma length_selectableIndices (s : State) :
  lenOf (selectableIndices s) = lenOf (shown s).
Proof.
  unfold lenOf, selectableIndices.
  destruct (selectable_entries (allDisplayItems s) 0 (Z.le_refl 0)) as [L _].
  rewrite L. now rewrite entriesOf_allDisplayItems.
Qed.

Lemma selectedIssue_nth (s : State) :
  selectedIssue s
  = if selectedIndex s <? 0 then None
    else nth_error (shown s) (Z.to_nat (selectedIndex s)).
Proof.
  unfold selectedIssue. rewrite length_selectableIndices.
  destruct (selectedIndex s <? 0) eqn:E0; [reflexivity|]. cbn [orb].
  apply Z.ltb_ge in E0.
  destruct (lenOf (shown s) <=? selectedIndex s) eqn:E1.
  - apply Z.leb_le in E1. symmetry. apply nth_error_None.
    unfold lenOf in E1. lia.
  - unfold selectableIndices.
    destruct (selectable_entries (allDisplayItems s) 0 (Z.le_refl 0)) as [L N].
    destruct (nth_error _ (Z.to_nat (selectedIndex s))) as [d|] eqn:En.
    + destruct (N _ _ En) as (Hd & e & He & Hn).
      rewrite Z.sub_0_r in Hn. rewrite Hn.
      now rewrite entriesOf_allDisplayItems in He.
    + apply nth_error_None in En. apply Z.leb_gt in E1.
      rewrite L, entriesOf_allDisplayItems in En. unfold lenOf in E1. lia.
Qed.

End TodoList.

(** X26: the selection counts issues, not lines: whatever headers the
    display holds, the selected issue is the issue at [selectedIndex]
    among the open issues followed by the closed ones, and there is none
    when the index is negative or past the last issue. *)
Theorem selectedIssue_shown (s : Ui.State) :
  Ui.selectedIssue s
  = if Ui.selectedIndex s <? 0 then None
    else nth_error (Ui.openIssues s ++ Ui.closedIssues s)
                   (Z.to_nat (Ui.selectedIndex s)).
Proof. exact (selectedIssue_nth s). Qed.

Section Selection.

Import Ui.

Variable matchesKey : jsstring -> jsstring -> bool.
Variable editorSubmits : jsstring -> list jsstring.

Lemma shown_withSelectedIndex (s : State) (k : Z) :
  shown (withSelectedIndex s k) = shown s.
Proof. reflexivity. Qed.

(** What the editor submits changes neither the issues nor the
    selection. *)
Lemma handleEditorSubmit_keeps (s : State) (value : jsstring) :
  issues (fst (handleEditorSubmit s value)) = issues s
  /\ selectedIndex (fst (handleEditorSubmit s value)) = selectedIndex s.
Proof.
  unfold handleEditorSubmit. destruct (addStep s); cbn [newTitle].
  - destruct (negb (nonEmpty (trim value))); now split.
  - now split.
Qed.

Lemma submitAll_keeps (values : list jsstring) :
  forall s, issues (fst (submitAll s values)) = issues s
            /\ selectedIndex (fst (submitAll s values)) = selectedIndex s.
Proof.
  induction values as [|value values IH]; intros s; cbn [submitAll].
  - now split.
  - destruct (handleEditorSubmit_keeps s value) as [I1 S1].
    destruct (handleEditorSubmit s value) as [s1 effects]. cbn [fst] in *.
    destruct (IH s1) as [I2 S2].
    destruct (submitAll s1 values) as [s2 effects']. cbn [fst] in *.
    split; congruence.
Qed.

Lemma selectionInRange_same (s s' : State) :
  issues s' = issues s -> selectedIndex s' = selectedIndex s ->
  selectionInRange s -> selectionInRange s'.
Proof.
  unfold selectionInRange, shown, openIssues, closedIssues.
  now intros -> ->.
Qed.

(** A key leaves the issues as they are and the selection in range. *)
Lemma handleInput_selection (s : State) (data : jsstring) :
  selectionInRange s ->
  issues (fst (handleInput matchesKey editorSubmits s data)) = issues s
  /\ selectionInRange (fst (handleInput matchesKey editorSubmits s data)).
Proof.
  intros H. unfold handleInput.
  destruct (isLoading s); [now split|].
  destruct (viewMode s).
  - repeat match goal with
           | |- context [if ?b then _ else _] =>
               lazymatch b with
               | (0 <? selectedIndex s) => fail
               | (selectedIndex s <? _) => fail
               | _ => destruct b; cbn [fst]
               end
           end; try (now split).
    + destruct (0 <? selectedIndex s) eqn:E; cbn [fst]; [|now split].
      apply Z.ltb_lt in E. split; [reflexivity|].
      unfold selectionInRange in *. rewrite shown_withSelectedIndex.
      cbn [withSelectedIndex selectedIndex]. lia.
    + rewrite length_selectableIndices.
      destruct (selectedIndex s <? lenOf (shown s) - 1) eqn:E; cbn [fst];
        [|now split].
      apply Z.ltb_lt in E. split; [reflexivity|].
      unfold selectionInRange in *. rewrite shown_withSelectedIndex.
      cbn [withSelectedIndex selectedIndex]. lia.
  - destruct (matchesKey data (str "escape")); [now split|].
    destruct (submitAll_keeps (editorSubmits data) s) as [I1 S1].
    destruct (submitAll s (editorSubmits data)) as [s1 effects].
    cbn [fst] in *. split; [exact I1|].
    now apply (selectionInRange_same s).
  - destruct (_ || _); now split.
Qed.

(** Issues that are open or closed are all shown. *)
Lemma length_shown (s : State) :
  Forall (fun i => state i = str "open" \/ state i = str "closed") (issues s) ->
  lenOf (shown s) = lenOf (issues s).
Proof.
  unfold shown, openIssues, closedIssues, lenOf. rewrite length_app.
  induction (issues s) as [|i l IH]; intros H; [reflexivity|].
  inversion H as [|? ? Hi Hl]; subst. specialize (IH Hl).
  cbn [filter length].
  destruct Hi as [-> | ->].
  - change (strEq (str "open") (str "open")) with true.
    change (strEq (str "open") (str "closed")) with false.
    cbn [length]. lia.
  - change (strEq (str "closed") (str "open")) with false.
    change (strEq (str "closed") (str "closed")) with true.
    cbn [length]. lia.
Qed.

Lemma updateIssues_selection (s : State) (newIssues : list Issue) :
  Forall (fun i => state i = str "open" \/ state i = str "closed") newIssues ->
  0 <= selectedIndex s ->
  issues (fst (updateIssues s newIssues)) = newIssues
  /\ selectionInRange (fst (updateIssues s newIssues)).
Proof.
  intros F H0. unfold updateIssues. cbn [fst selectedIndex].
  destruct (lenOf newIssues <=? selectedIndex s) eqn:E.
  - apply Z.leb_le in E. split; [reflexivity|].
    unfold selectionInRange. rewrite shown_withSelectedIndex.
    rewrite length_shown by exact F.
    cbn [withSelectedIndex selectedIndex issues]. lia.
  - apply Z.leb_gt in E. split; [reflexivity|].
    unfold selectionInRange. rewrite length_shown by exact F.
    cbn [selectedIndex issues]. lia.
Qed.

Lemma selection_on_issue (s : State) :
  selectionInRange s -> shown s <> [] ->
  exists issue, selectedIssue s = Some issue /\ In issue (issues s).
Proof.
  intros [H0 H1] Hn. rewrite selectedIssue_nth.
  destruct (selectedIndex s <? 0) eqn:E; [apply Z.ltb_lt in E; lia|].
  assert (L : (Z.to_nat (selectedIndex s) < length (shown s))%nat).
  { unfold lenOf in H1. destruct (shown s); [congruence|].
    cbn [length] in *. lia. }
  destruct (nth_error (shown s) (Z.to_nat (selectedIndex s))) as [i|] eqn:En.
  - exists i. split; [reflexivity|].
    apply nth_error_In in En. unfold shown in En.
    apply in_app_or in En as [En|En]; apply filter_In in En; tauto.
  - apply nth_error_None in En. lia.
Qed.

Lemma actionOn_fires (s : State) (wanted fired name : jsstring)
      (target : option Issue) (t b : option jsstring) :
  In (Action name target t b) (actionOn s fired wanted) ->
  name = fired /\ t = None /\ b = None
  /\ exists issue,
      target = Some issue /\ selectedIssue s = Some issue
      /\ state issue = wanted.
Proof.
  unfold actionOn. destruct (selectedIssue s) as [issue|]; [|intros []].
  destruct (strEq (state issue) wanted) eqn:E; [|intros []].
  apply strEq_true in E.
  intros [H|[]]. injection H as <- <- <- <-.
  repeat split. now exists issue.
Qed.

(** No action among these effects. *)
Ltac no_action :=
  let H := fresh in
  cbn [snd In]; intros H;
  repeat (destruct H as [H|H]; [discriminate H|]); destruct H.

(** The next test of the key. *)
Ltac next_test :=
  match goal with
  | |- context [if ?c then _ else _] => destruct c eqn:?
  end.

(** The issues that the editor's submissions add: an issue is added
    when a body is submitted, under the title that was held or that was
    submitted before it, trimmed and not blank. *)
Lemma submitAll_actions (values : list jsstring) (name : jsstring)
      (target : option Issue) (t b : option jsstring) :
  forall s,
    In (Action name target t b) (snd (submitAll s values)) ->
    name = str "add" /\ target = None
    /\ exists title value,
        t = Some title /\ b = Some (trim value) /\ In value values
        /\ ((addStep s = BodyStep /\ title = newTitle s)
            \/ exists v, In v values /\ title = trim v /\ trim v <> []).
Proof.
  induction values as [|value values IH]; intros s; cbn [submitAll].
  - intros [].
  - unfold handleEditorSubmit at 1.
    destruct (addStep s) eqn:Es; cbn [newTitle].
    + destruct (nonEmpty (trim value)) eqn:En; cbn [negb setStatus].
      * match goal with
        | |- context [submitAll ?s1 values] =>
            specialize (IH s1); destruct (submitAll s1 values) as [s2 effects]
        end.
        cbn [snd app In] in *.
        intros [H|[H|[H|H]]]; try discriminate H.
        destruct (IH H) as (-> & -> & title & v & -> & -> & Hv & Ht).
        repeat split. exists title, v. repeat split; [now right|].
        right. destruct Ht as [[_ Ht] | (v' & Hv' & Ht & Hn)].
        -- cbn [newTitle] in Ht. exists value. repeat split; [now left|exact Ht|].
           intros E. now rewrite E in En.
        -- exists v'. repeat split; trivial. now right.
      * match goal with
        | |- context [submitAll ?s1 values] =>
            specialize (IH s1); destruct (submitAll s1 values) as [s2 effects]
        end.
        cbn [snd app In] in *.
        intros [H|[H|H]]; try discriminate H.
        destruct (IH H) as (-> & -> & title & v & -> & -> & Hv & Ht).
        repeat split. exists title, v. repeat split; [now right|].
        right. destruct Ht as [[Ht _] | (v' & Hv' & Ht & Hn)].
        -- cbn [addStep] in Ht. congruence.
        -- exists v'. repeat split; trivial. now right.
    + match goal with
      | |- context [submitAll ?s1 values] =>
          specialize (IH s1); destruct (submitAll s1 values) as [s2 effects]
      end.
      cbn [snd app In] in *.
      intros [H|[H|[H|[H|H]]]]; try discriminate H.
      * injection H as <- <- <- <-. repeat split.
        exists (newTitle s), value. repeat split; [now left|]. now left.
      * destruct (IH H) as (-> & -> & title & v & -> & -> & Hv & Ht).
        repeat split. exists title, v. repeat split; [now right|].
        right. destruct Ht as [[Ht _] | (v' & Hv' & Ht & Hn)].
        -- cbn [addStep] in Ht. discriminate Ht.
        -- exists v'. repeat split; trivial. now right.
Qed.

(** The actions a key fires. *)
Lemma handleInput_actions (s : State) (data name : jsstring)
      (target : option Issue) (t b : option jsstring) :
  In (Action name target t b)
     (snd (handleInput matchesKey editorSubmits s data)) ->
  isLoading s = false
  /\ ((viewMode s = ListMode
       /\ t = None /\ b = None
       /\ ((name = str "refresh" /\ target = None)
           \/ exists issue,
               target = Some issue /\ selectedIssue s = Some issue
               /\ ((name = str "open" /\ url issue <> [])
                   \/ ((name = str "start" \/ name = str "close"
                        \/ name = str "comment")
                       /\ state issue = str "open")
                   \/ (name = str "reopen" /\ state issue = str "closed"))))
      \/ (viewMode s = AddMode
          /\ matchesKey data (str "escape") = false
          /\ name = str "add" /\ target = None
          /\ exists title value,
              t = Some title /\ b = Some (trim value)
              /\ In value (editorSubmits data)
              /\ ((addStep s = BodyStep /\ title = newTitle s)
                  \/ exists v, In v (editorSubmits data)
                               /\ title = trim v /\ trim v <> []))).
Proof.
  unfold handleInput.
  destruct (isLoading s); [intros []|].
  destruct (viewMode s).
  - (* escape, q *)
    next_test; [no_action|].
    (* up, k *)
    next_test; [next_test; no_action|].
    (* down, j *)
    next_test; [next_test; no_action|].
    (* return *)
    next_test; [destruct (selectedIssue s); no_action|].
    (* a *)
    next_test; [no_action|].
    (* o *)
    next_test.
    { cbn [snd]. destruct (selectedIssue s) as [issue|]; [|intros []].
      destruct (nonEmpty (url issue)) eqn:Eu; [|intros []].
      intros [H|[]]. injection H as <- <- <- <-.
      split; [reflexivity|]. left.
      repeat split. right. exists issue. repeat split.
      left. split; [reflexivity|]. intros E. now rewrite E in Eu. }
    (* s *)
    next_test.
    { cbn [snd]. intros H.
      apply actionOn_fires in H as (-> & -> & -> & issue & -> & Hs & Ho).
      split; [reflexivity|]. left.
      repeat split. right. exists issue. repeat split; trivial.
      right. left. split; [now left | exact Ho]. }
    (* x *)
    next_test.
    { cbn [snd]. intros H.
      apply actionOn_fires in H as (-> & -> & -> & issue & -> & Hs & Ho).
      split; [reflexivity|]. left.
      repeat split. right. exists issue. repeat split; trivial.
      right. left. split; [right; now left | exact Ho]. }
    (* g *)
    next_test.
    { cbn [snd]. intros H.
      apply actionOn_fires in H as (-> & -> & -> & issue & -> & Hs & Ho).
      split; [reflexivity|]. left.
      repeat split. right. exists issue. repeat split; trivial.
      right. right. split; [reflexivity | exact Ho]. }
    (* c *)
    next_test.
    { cbn [snd]. intros H.
      apply actionOn_fires in H as (-> & -> & -> & issue & -> & Hs & Ho).
      split; [reflexivity|]. left.
      repeat split. right. exists issue. repeat split; trivial.
      right. left. split; [right; now right | exact Ho]. }
    (* r *)
    next_test; [|no_action].
    cbn [snd]. intros [H|[]]. injection H as <- <- <- <-.
    split; [reflexivity|]. left. repeat split. now left.
  - destruct (matchesKey data (str "escape")) eqn:Ek; [no_action|].
    pose proof (submitAll_actions (editorSubmits data) name target t b s) as A.
    destruct (submitAll s (editorSubmits data)) as [s1 effects].
    cbn [snd In] in *. intros [H|H]; [discriminate H|].
    apply in_app_or in H as [H|H].
    + split; [reflexivity|]. right.
      destruct (A H) as (-> & -> & R). now repeat split.
    + cbn [In] in H. destruct H as [H|[H|[]]]; discriminate H.
  - next_test; no_action.
Qed.

End Selection.

(** X27: the selection stays on the list.  A selection that is in range
    (between 0 and the last shown issue, or 0 on an empty list) is on an
    issue of the list whenever an issue is shown; a key leaves the issues
    as they are and the selection in range; and an update of the issues,
    each of them open or closed, brings the selection back into range. *)
Theorem selection_stays_in_range
        (matchesKey : jsstring -> jsstring -> bool) (s : Ui.State)
        (in_range : Ui.selectionInRange s) :
  (Ui.shown s <> [] ->
   exists issue, Ui.selectedIssue s = Some issue /\ In issue (Ui.issues s))
  /\ (forall editorSubmits data,
         Ui.issues (fst (Ui.handleInput matchesKey editorSubmits s data))
         = Ui.issues s
         /\ Ui.selectionInRange
              (fst (Ui.handleInput matchesKey editorSubmits s data)))
  /\ (forall newIssues,
         Forall (fun i => Ui.state i = str "open" \/ Ui.state i = str "closed")
                newIssues ->
         Ui.issues (fst (Ui.updateIssues s newIssues)) = newIssues
         /\ Ui.selectionInRange (fst (Ui.updateIssues s newIssues))).
Proof.
  split; [now apply selection_on_issue|].
  split.
  - intros editorSubmits data. now apply handleInput_selection.
  - intros newIssues F. apply updateIssues_selection; [exact F|].
    apply in_range.
Qed.

Lemma selection_stays_in_range_witness :
  (Ui.shown Ui.sampleState <> [] ->
   exists issue, Ui.selectedIssue Ui.sampleState = Some issue
                 /\ In issue (Ui.issues Ui.sampleState))
  /\ (forall editorSubmits data,
         Ui.issues (fst (Ui.handleInput Ui.sampleKeys editorSubmits
                                        Ui.sampleState data))
         = Ui.issues Ui.sampleState
         /\ Ui.selectionInRange
              (fst (Ui.handleInput Ui.sampleKeys editorSubmits
                                   Ui.sampleState data)))
  /\ (forall newIssues,
         Forall (fun i => Ui.state i = str "open" \/ Ui.state i = str "closed")
                newIssues ->
         Ui.issues (fst (Ui.updateIssues Ui.sampleState newIssues)) = newIssues
         /\ Ui.selectionInRange
              (fst (Ui.updateIssues Ui.sampleState newIssues))).
Proof.
  apply (selection_stays_in_range Ui.sampleKeys Ui.sampleState).
  unfold Ui.selectionInRange. vm_compute. split; discriminate.
Defined.

(** The second line of the sample list is issue 3: the closed issue 2
    comes after the open ones. *)
Example selectedIssue_sample :
  option_map Ui.number (Ui.selectedIssue Ui.sampleState) = Some 3.
Proof. reflexivity. Qed.

(** X28: an input fires an action only when nothing is loading.  From
    the list, a key fires it on the selected issue only: [open] when the
    issue has a URL, [start], [close] and [comment] when it is open,
    [reopen] when it is closed; [refresh] is the one key without an
    issue.  While an issue is added, an input other than escape fires
    [add], without an issue, when the editor submits a body: under the
    title that was held at the body step, or under a title that the
    editor submitted with the same input, trimmed and not blank, and
    with the submitted body, trimmed. *)
Theorem handleInput_actions_guarded
        (matchesKey : jsstring -> jsstring -> bool)
        (editorSubmits : jsstring -> list jsstring) (s : Ui.State)
        (data name : jsstring) (target : option Ui.Issue)
        (t b : option jsstring)
        (fired :
           In (Ui.Action name target t b)
              (snd (Ui.handleInput matchesKey editorSubmits s data))) :
  Ui.isLoading s = false
  /\ ((Ui.viewMode s = Ui.ListMode
       /\ t = None /\ b = None
       /\ ((name = str "refresh" /\ target = None)
           \/ exists issue,
               target = Some issue /\ Ui.selectedIssue s = Some issue
               /\ ((name = str "open" /\ Ui.url issue <> [])
                   \/ ((name = str "start" \/ name = str "close"
                        \/ name = str "comment")
                       /\ Ui.state issue = str "open")
                   \/ (name = str "reopen"
                       /\ Ui.state issue = str "closed"))))
      \/ (Ui.viewMode s = Ui.AddMode
          /\ matchesKey data (str "escape") = false
          /\ name = str "add" /\ target = None
          /\ exists title value,
              t = Some title /\ b = Some (trim value)
              /\ In value (editorSubmits data)
              /\ ((Ui.addStep s = Ui.BodyStep /\ title = Ui.newTitle s)
                  \/ exists v, In v (editorSubmits data)
                               /\ title = trim v /\ trim v <> []))).
Proof.
  exact (handleInput_actions matchesKey editorSubmits s data name target t b
                             fired).
Qed.

Lemma handleInput_actions_guarded_witness :
  let s := Ui.adding Ui.BodyStep (str "Fix it") in
  let name := str "add" in
  let target := @None Ui.Issue in
  let t := Some (str "Fix it") in
  let b := Some (str "notes") in
  Ui.isLoading s = false
  /\ ((Ui.viewMode s = Ui.ListMode
       /\ t = None /\ b = None
       /\ ((name = str "refresh" /\ target = None)
           \/ exists issue,
               target = Some issue /\ Ui.selectedIssue s = Some issue
               /\ ((name = str "open" /\ Ui.url issue <> [])
                   \/ ((name = str "start" \/ name = str "close"
                        \/ name = str "comment")
                       /\ Ui.state issue = str "open")
                   \/ (name = str "reopen"
                       /\ Ui.state issue = str "closed"))))
      \/ (Ui.viewMode s = Ui.AddMode
          /\ Ui.sampleKeys (str "return") (str "escape") = false
          /\ name = str "add" /\ target = None
          /\ exists title value,
              t = Some title /\ b = Some (trim value)
              /\ In value (Ui.sampleEditor (str "return"))
              /\ ((Ui.addStep s = Ui.BodyStep /\ title = Ui.newTitle s)
                  \/ exists v, In v (Ui.sampleEditor (str "return"))
                               /\ title = trim v /\ trim v <> []))).
Proof.
  apply (handleInput_actions_guarded
           Ui.sampleKeys Ui.sampleEditor
           (Ui.adding Ui.BodyStep (str "Fix it")) (str "return")).
  vm_compute. right. right. right. right. left. reflexivity.
Defined.

(** A key on the list, and the two steps of adding an issue: the title
    is held, and the issue is added with the body. *)
Example handleInput_samples :
  snd (Ui.handleInput Ui.sampleKeys Ui.sampleEditor Ui.sampleState (str "s"))
  = [Ui.Action (str "start")
               (Ui.selectedIssue Ui.sampleState) None None]
  /\ (let after := Ui.handleInput Ui.sampleKeys Ui.sampleEditor
                                  (Ui.adding Ui.TitleStep []) (str "return") in
      Ui.addStep (fst after) = Ui.BodyStep
      /\ Ui.newTitle (fst after) = str "notes"
      /\ snd after = [Ui.EditorHandleInput (str "return");
                      Ui.EditorSetText []; Ui.Invalidate; Ui.RequestRender;
                      Ui.Invalidate; Ui.RequestRender])
  /\ (let after := Ui.handleInput Ui.sampleKeys Ui.sampleEditor
                                  (Ui.adding Ui.BodyStep (str "Fix it"))
                                  (str "return") in
      Ui.viewMode (fst after) = Ui.ListMode
      /\ Ui.isLoading (fst after) = true
      /\ snd after = [Ui.EditorHandleInput (str "return");
                      Ui.EditorSetText []; Ui.Invalidate; Ui.RequestRender;
                      Ui.Action (str "add") None (Some (str "Fix it"))
                                (Some (str "notes"));
                      Ui.Invalidate; Ui.RequestRender]).
Proof. now vm_compute. Qed.

(** X29: in a list of more than 15 lines the scroll window shows 15 of
    them, the selected line among them, and never reaches outside the
    list; a list of at most 15 lines is shown whole. *)
Theorem scrollWindow_shows_selection
        (n selected : Z) (on_the_list : 0 <= selected < n) :
  let window := Ui.scrollWindow n selected in
  0 <= fst window <= selected
  /\ selected < snd window <= n
  /\ snd window - fst window = Z.min n 15.
Proof.
  unfold Ui.scrollWindow, Ui.maxVisibleItems.
  change (15 / 2) with 7.
  destruct (15 <? n) eqn:E; cbn zeta.
  - apply Z.ltb_lt in E.
    destruct (Z.min n (Z.max 0 (selected - 7) + 15)
              - Z.max 0 (selected - 7) <? 15) eqn:E2; cbn [fst snd].
    + apply Z.ltb_lt in E2. lia.
    + apply Z.ltb_ge in E2. lia.
  - apply Z.ltb_ge in E. cbn [fst snd]. lia.
Qed.

Lemma scrollWindow_shows_selection_witness :
  let window := Ui.scrollWindow 40 39 in
  0 <= fst window <= 39
  /\ 39 < snd window <= 40
  /\ snd window - fst window = Z.min 40 15.
Proof.
  apply (scrollWindow_shows_selection 40 39). lia.
Defined.
